(* ===== verification/_CoqProject ===== *)
-Q . S2P
Prelude.v
Env.v
Sim.v
Session.v
Compression.v
Xws.v
Conn.v
Traced.v
ConnLoops.v
ConnManager.v
ConnRace.v
ConnSim.v
Iface.v
Retransmit.v
Race.v
RaceSim.v
Limiter.v
Codec.v
Xmq.v
Message.v
Lifecycle.v
Gateway.v
Server.v
App.v
Delivery.v
Url.v
OAuth.v
Providers.v
Upgrader.v
Wiring.v
