(* ===== verification/Prelude.v ===== *)
(** * Synp: a verification development for the WebSocket gateway

    Synp (Go) keeps one WebSocket connection per user and device, pushes messages
    that a backend sends through Kafka to the devices of their receiver,
    retransmits them until they are acknowledged, and forwards what devices send
    to the backend.  This library translates the program's own code into Rocq and
    proves what it promises, and where it does otherwise, what it does instead.

    ** How the program works, and where each part is modelled

    - A request becomes a session: [ws/upgrader.go] reads token, device and
      auto-close flag during the handshake and builds the session in Redis.
      [Upgrader.v] ([Upgrade], [callbacks], [extractUserInfo]) over [Url.v] (the part
      of net/url it uses) and [Session.v] (keys of [pkg/session/types.go], operations
      and the Lua script of [pkg/session/redis]).
    - [ws/server.go] limits connections by tokens, accepts them, handles each in a
      goroutine and feeds push requests to the dispatcher: [Server.v], written
      against interfaces ([Registry], [SynpConn], [Handler], [Listener]).  The limiter,
      [pkg/limiter], is [Limiter.v].
    - [ws/conn/conn.go] is one connection: [Conn.v].  Its methods are code over a heap
      of connections; module [Threads] interleaves senders, [sendLoop],
      [receiveLoop], the consumer and cancellation.  [Traced.v] observes the network: any
      environment with a log of the payloads that are written and read.
      [ConnLoops.v] shows that the code of the methods runs in the steps of [Threads],
      and that what those call written and read is what the log says.  Frames are
      [Xws.v] ([pkg/xws]), compression settings [Compression.v].
    - [ws/conn/conn_manager.go] is the registry by user and device:
      [ConnManager.v], refining a finite map ([cm_rep]) when each operation runs to
      its end; [ConnRace.v] interleaves [NewConn] and [RemoveConn] between any two of
      their atomic operations, and [ConnSim.v] shows that the first model's histories
      are schedules of the second.
    - [ws/conn/lifecycle/handler.go] and the wrapper of [types.go] dispatch what a
      device sends, once per message id: [Lifecycle.v].  The handlers of
      [pkg/message] are [Message.v]; codecs are [Codec.v].
    - [pkg/retransmit/manager.go] is [Retransmit.v]: tasks and timers in a heap, each
      operation run to its end; [Race.v] interleaves its operations and timers
      between any two of their atomic operations, and [RaceSim.v] shows that the first
      model's histories are schedules of the second.
    - [pkg/xmq] is [Xmq.v], [ws/gateway] is [Gateway.v], the Kafka access token of
      [pkg/providers/kafka_oauth.go] is [OAuth.v], the constructors of the Kafka
      client, the retransmit manager and the handlers are [Providers.v].
    - [App.v] puts the parts together: the connection manager implements the
      server's registry, lifted to the state that holds the retransmit manager, and
      the dispatcher of the application respects it.  [Delivery.v] follows a push
      request through all of them, to the send queues and back to the
      acknowledgement.
    - [cmd/main.go], [internal/app/app.go] and the fx modules are [Wiring.v]: the
      configuration files, the declarations for the container and the orders of calls
      they allow, the remaining constructors, the application they build, and the
      hooks that start and stop it.

    [Iface.v] holds the messages (generated protobuf code, by the fields the
    program uses) and the interface of a connection as a class with its laws.
    [Env.v] states what the program needs of its libraries, one class per library,
    the laws in a class of their own ([...Spec]); [Sim.v] instantiates all of them by
    functions that compute and proves the laws, and the witnesses run in it.

    ** Conventions

    Go code is a function [go S A]: from a state to an [outcome], which is a result
    ([Done]), a goroutine parked until another one acts ([Blocked]), a panic, or
    exhausted fuel.
    A state [S] contains a part [T] when there is an instance [Part S T]; [zoom] runs
    code on the part.  Pointers are addresses in a heap that is part of the state.
    Errors are trees with [errors.Is] and [errors.As] computed on them.  Integers
    are [Z] (ids [N]) with [int64] and [int32] written where the code's arithmetic
    could wrap.  Channels are buffers with a capacity and a closed flag.  Logging is
    left out; so is locking where one operation is one step.

    Concurrency is a step relation where the code's own concurrency matters: the
    two loops of a connection, the growing limiter, the reading Kafka consumer, the
    callers of the token cache (with their lock), the retransmit manager's
    operations and timers, the connection manager's operations, the server's accept
    loop (which holds a token while it waits in [Accept]) and handlers.  In
    [Retransmit.v] time passes in [elapse]: the next timer due fires when the clock
    reaches the time it was armed plus its delay.  Elsewhere an operation runs to its end, and other goroutines appear as changes of the
    environment and of the shared state between operations ([ctx_poll],
    [sched_select], the events of [handle_loop]).

    ** What the theorems show

    - End to end: [push_delivers]: a push request reaches the queue of every device of
      its receiver, once; [push_acknowledged]: the acknowledgement undoes the
      retransmission; [push_returns_retransmits]: a push returns while queues have
      room, and is retransmitted even if it fails.
    - Registry: [CM_NewConn_refines], [RemoveConn_refines], [Find_refines]: the
      operations act on the abstract map, close what they replace and keep both
      counters; [registry_linear] and [registry_serial] under interleaving, with
      [registry_operations_are_schedules];
      [handleConn_unregisters]: a handler leaves nothing behind.
    - Limits: [connection_slots] (free tokens, connections being handled and the accept
      loop that waits with one are 2000 in all), [tokens_conserved], [growth_schedule].
    - Connection: [threads_fifo], [threads_bounded], [threads_stop], [Close_once],
      [trySend_bounded]; [sendLoop_refines], [receiveLoop_refines], [Send_refines]: the
      code runs in the steps of the relation these are about, writes the payloads it
      takes to the network and queues those it reads from there.
    - Retransmission: [tasks_and_timers], [retransmissions_exact] (the pushes and their
      times), [Stop_exact], [ClearByConn_exact], [Close_final], [first_ack_stops], and under interleaving
      [race_pushes_bounded], [race_counter], [race_stop], with
      [operations_are_schedules].
    - Requests: [Backend_Handle_spec], [consumePushMessage_routes], [consumer_order],
      [consume_all], [first_delivery_handled], [duplicate_dropped], [dispatch_table],
      [Frontend_Handle_acks], [codec_roundtrip].
    - Identity and credentials: [Upgrade_identity], [request_user], [user_keys],
      [Build_creates_once], [kafka_client_secured], [single_flight],
      [callers_return].
    - The whole program: [loadConfig_files], [container_builds] (every dependency is
      met, without a cycle), [build_assembles] (the application built is the one
      of [Delivery.v], with the configured settings), [application_starts],
      [kafka_consumers_started], [retransmit_settings].
    - Where the code falls short: [reconnect_loses_connection],
      [registry_loses_connection], [race_stale_delete], [race_start_after_close],
      [second_device_not_heard], [Close_ends_shared_session], [GracefulShutdown_waits] and
      its consequence [stop_reaches_only_server], [growth_parks],
      [unknown_command_stays_cached], [RemoveUserConn_twice], [wrapper_frontend] (a rate
      limit hides earlier errors), and [retransmissions_exact] (one retransmission
      fewer than configured).

    ** Fuel

    [trySend] takes fuel for its retries: the maximal number of retries plus one is
    enough ([trySend_bounded]).  [Reader_Read] takes fuel for control frames: one more
    than there are before the next data frame ([Reader_Read_first_data]).  [sendLoop],
    [receiveLoop] and [acceptConn] run for the life of a connection or of the server;
    their fuel bounds the part of that life one looks at, and the theorems about
    them are on [Threads] and on single turns ([accept_begin], [accept_end]).  Query parsing takes
    the length of the query.

    ** What is not modelled

    The client-side frame reader, which nothing calls; what is logged, and the log
    entries fx itself makes; [flag]'s parsing, which the program never starts;
    third-party code (gobwas/ws, wsflate, kafka-go, go-redis, protobuf, xsync,
    backoff, retry, viper, fx, zap, the JWT verifier), which is a parameter with the
    laws of its documentation.  A Redis or Kafka call may fail at any time, which
    covers the deadlines given to it; only the forwarding deadline is passed on
    explicitly.  [RemoveUserConn] and the look-ups of the connection manager are not
    in [ConnRace.v], and the Go memory model is not modelled: the unlocked read of
    [len(dc.conns)] gives the length at some moment. *)

From stdpp Require Export base tactics option list gmap strings pretty numbers.
From Stdlib Require Export ZArith Lia.
From Stdlib Require Import Ascii.

(** ** Machine integers *)

(** Two's-complement wrap-around of a Go signed integer of width [w]. *)
Definition wrap (w : Z) (z : Z) : Z :=
  ((z + 2 ^ (w - 1)) mod 2 ^ w - 2 ^ (w - 1))%Z.

Abbreviation int64 := (wrap 64).
Abbreviation int32 := (wrap 32).

Definition in_int (w : Z) (z : Z) : Prop :=
  (- 2 ^ (w - 1) <= z < 2 ^ (w - 1))%Z.

(** The [time] package's units, in nanoseconds. *)
Definition Millisecond : Z := 1000000.
Definition Second : Z := 1000000000.

(** A Go [[]byte] value, as the string of its bytes. *)
Abbreviation bytes := string (only parsing).

(** ** Errors *)

(** Sentinel errors: every [errors.New] variable of the repository, and the
    sentinels of the standard library and go-redis it compares against. *)
Inductive sentinel : Type :=
  | ErrRateLimited
  | ErrConnClosed
  | ErrUnknownReceiver | ErrTokenRequired | ErrInvalidURI | ErrInvalidToken
  | ErrInvalidMessage | ErrCacheMessage | ErrUncacheMessage
  | ErrMessageDuplicated | ErrUnknownMessageType | ErrMaxRetryExceeded
  | ErrMarshalMessage
  | ErrSessionExists | ErrSessionCreate | ErrSessionDestroy
  | ErrConsumerClosed
  | NetErrClosed | IoEOF | IoErrClosedPipe | ContextCanceled | DeadlineExceeded
  | RedisNil.

#[export] Instance sentinel_eq_dec : EqDecision sentinel.
Proof. solve_decision. Defined.

(** The text of a sentinel ([Error()]). *)
Definition sentinel_text (s : sentinel) : string :=
  match s with
  | ErrRateLimited => "request too frequently, please try again later"
  | ErrConnClosed => "connection closed"
  | ErrUnknownReceiver => "unknown receiver"
  | ErrTokenRequired => "token is required"
  | ErrInvalidURI => "invalid uri"
  | ErrInvalidToken => "invalid token"
  | ErrInvalidMessage => "invalid message"
  | ErrCacheMessage => "cache message failed"
  | ErrUncacheMessage => "uncache message failed"
  | ErrMessageDuplicated => "message duplicated, ignore it"
  | ErrUnknownMessageType => "unknown message (command) type"
  | ErrMaxRetryExceeded => "max retry exceeded"
  | ErrMarshalMessage => "failed to marshal message"
  | ErrSessionExists => "session exists"
  | ErrSessionCreate => "failed to create session"
  | ErrSessionDestroy => "failed to destroy session"
  | ErrConsumerClosed => "consumer closed"
  | NetErrClosed => "use of closed network connection"
  | IoEOF => "EOF"
  | IoErrClosedPipe => "io: read/write on closed pipe"
  | ContextCanceled => "context canceled"
  | DeadlineExceeded => "context deadline exceeded"
  | RedisNil => "redis: nil"
  end.

(** An error value made outside the repository: its text, what [errors.As]
    finds in it ([net.Error] with its [Timeout()], [wsutil.ClosedError] with its
    code), and the sentinels it unwraps to. *)
Record foreign : Type := Foreign {
  f_text : string;
  f_timeout : option bool;
  f_wraps : list sentinel;
}.

#[export] Instance foreign_eq_dec : EqDecision foreign.
Proof. solve_decision. Defined.

(** Error values: a sentinel, an error with a text only ([errors.New] inside a
    function, [fmt.Errorf] without [%w]), [fmt.Errorf] with one or more [%w],
    and an error made elsewhere. *)
Inductive error : Type :=
  | ESentinel (s : sentinel)
  | EText (msg : string)
  | EWrap (msg : string) (es : list error)
  | EForeign (f : foreign).

Definition error_text (e : error) : string :=
  match e with
  | ESentinel s => sentinel_text s
  | EText m => m
  | EWrap m _ => m
  | EForeign f => f_text f
  end.

(** The first [Some] that [f] gives on a list. *)
Section FirstSome.
Context {A B : Type} (f : A → option B).

Fixpoint first_some (l : list A) : option B :=
  match l with
  | [] => None
  | a :: l' => match f a with Some b => Some b | None => first_some l' end
  end.

End FirstSome.

(** [errors.Is(err, target)] for a sentinel target. *)
Fixpoint error_is (e : error) (t : sentinel) : bool :=
  match e with
  | ESentinel s => bool_decide (s = t)
  | EText _ => false
  | EWrap _ es => existsb (λ e', error_is e' t) es
  | EForeign f => bool_decide (t ∈ f_wraps f)
  end.

(** [errors.As(err, &netErr)], returning [netErr.Timeout()].
    [context.DeadlineExceeded] is a [net.Error] that times out. *)
Fixpoint as_net_error (e : error) : option bool :=
  match e with
  | ESentinel DeadlineExceeded => Some true
  | ESentinel _ | EText _ => None
  | EWrap _ es => first_some as_net_error es
  | EForeign f => f_timeout f
  end.

Definition opt_is (e : option error) (t : sentinel) : bool :=
  match e with Some e' => error_is e' t | None => false end.

(** [fmt.Errorf("<prefix>%w", e)] and [fmt.Errorf("%w<suffix>", e)]. *)
Definition errorf_pre (prefix : string) (e : error) : error :=
  EWrap (prefix +:+ error_text e) [e].

Definition errorf_suf (e : error) (suffix : string) : error :=
  EWrap (error_text e +:+ suffix) [e].

(** [fmt.Errorf("%w: %w", a, b)]. *)
Definition errorf_pair (a b : error) : error :=
  EWrap (error_text a +:+ ": " +:+ error_text b) [a; b].

(** ** Decimal text *)

(** [fmt.Sprintf("%d", n)] of an unsigned integer. *)
Definition sprint_d (n : N) : string := pretty n.

Fixpoint string_forall (p : Ascii.ascii → bool) (s : string) : bool :=
  match s with
  | EmptyString => true
  | String a s' => p a && string_forall p s'
  end.

Definition no_colon (s : string) : bool :=
  string_forall (λ a, negb (Ascii.eqb a ":"%char)) s.

(** ** Stateful code *)

(** What running a piece of Go code in a state gives: a result, a goroutine
    that stays parked at a channel operation nobody completes, a panic, or the
    end of the fuel of a loop. *)
Inductive outcome (S A : Type) : Type :=
  | Done (a : A) (s : S)
  | Blocked (s : S)
  | Panicked (s : S)
  | NoFuel (s : S).
Arguments Done {S A} a s.
Arguments Blocked {S A} s.
Arguments Panicked {S A} s.
Arguments NoFuel {S A} s.

Definition go (S A : Type) : Type := S → outcome S A.

Definition ret {S A : Type} (a : A) : go S A := λ s, Done a s.

Definition bind {S A B : Type} (m : go S A) (k : A → go S B) : go S B :=
  λ s, match m s with
       | Done a s' => k a s'
       | Blocked s' => Blocked s'
       | Panicked s' => Panicked s'
       | NoFuel s' => NoFuel s'
       end.

Declare Scope go_scope.
Delimit Scope go_scope with go.
Notation "x <- m ;; k" := (bind m (λ x, k))
  (at level 100, m at next level, right associativity) : go_scope.
Notation "'let!' p := m 'in' k" := (bind m (λ p, k))
  (at level 100, p pattern, m at next level, right associativity) : go_scope.
Notation "m ;;; k" := (bind m (λ _, k))
  (at level 100, right associativity) : go_scope.
Open Scope go_scope.

Definition get {S : Type} : go S S := λ s, Done s s.
Definition gets {S A : Type} (f : S → A) : go S A := λ s, Done (f s) s.
Definition modify {S : Type} (f : S → S) : go S unit := λ s, Done tt (f s).
Definition state {S A : Type} (f : S → A * S) : go S A := λ s, let '(a, s') := f s in Done a s'.
Definition block {S A : Type} : go S A := λ s, Blocked s.
Definition panic {S A : Type} : go S A := λ s, Panicked s.
Definition nofuel {S A : Type} : go S A := λ s, NoFuel s.
Definition when {S : Type} (b : bool) (m : go S unit) : go S unit :=
  if b then m else ret tt.

(** A pointer or map entry that must be there: a nil dereference panics. *)
Definition need {S A : Type} (o : option A) : go S A :=
  match o with Some a => ret a | None => panic end.

(** [defer d; m]: [d] runs when [m] returns and when it panics. *)
Definition defer {S A : Type} (d : go S unit) (m : go S A) : go S A :=
  λ s, match m s with
       | Done a s1 =>
           match d s1 with
           | Done _ s2 => Done a s2
           | Blocked s2 => Blocked s2
           | Panicked s2 => Panicked s2
           | NoFuel s2 => NoFuel s2
           end
       | Panicked s1 =>
           match d s1 with
           | Done _ s2 => Panicked s2
           | Blocked s2 => Blocked s2
           | Panicked s2 => Panicked s2
           | NoFuel s2 => NoFuel s2
           end
       | Blocked s1 => Blocked s1
       | NoFuel s1 => NoFuel s1
       end.

Arguments ret {S A} a s /.
Arguments get {S} s /.
Arguments gets {S A} f s /.
Arguments modify {S} f s /.
Arguments state {S A} f s /.
Arguments block {S A} s /.
Arguments panic {S A} s /.
Arguments nofuel {S A} s /.

(** [for _, x := range l { m }] *)
Fixpoint range_do {S A : Type} (l : list A) (m : A → go S unit) : go S unit :=
  match l with
  | [] => ret tt
  | a :: l' => m a ;;; range_do l' m
  end.

(** A part [T] of a state [S], and running code of the part in the whole.  The
    laws are those of a lens. *)
Class Part (S T : Type) := {
  part_get : S → T;
  part_set : T → S → S;
}.

Class PartSpec (S T : Type) `{Part S T} : Prop := {
  part_get_set s t : part_get (part_set t s) = t;
  part_set_get s : part_set (part_get s) s = s;
  part_set_set s t t' : part_set t' (part_set t s) = part_set t' s;
}.

Definition zoom {S T A : Type} `{Part S T} (m : go T A) : go S A :=
  λ s, match m (part_get s) with
       | Done a t => Done a (part_set t s)
       | Blocked t => Blocked (part_set t s)
       | Panicked t => Panicked (part_set t s)
       | NoFuel t => NoFuel (part_set t s)
       end.

#[export] Instance part_fst {A B : Type} : Part (A * B) A :=
  {| part_get := fst; part_set := λ a p, (a, p.2) |}.
#[export] Instance part_snd {A B : Type} : Part (A * B) B :=
  {| part_get := snd; part_set := λ b p, (p.1, b) |}.

#[export] Instance part_fst_spec {A B : Type} : PartSpec (A * B) A.
Proof. by split; intros []. Qed.
#[export] Instance part_snd_spec {A B : Type} : PartSpec (A * B) B.
Proof. by split; intros []. Qed.

(** The state a run ends in, whatever its outcome. *)
Definition final {S A : Type} (o : outcome S A) : S :=
  match o with Done _ s | Blocked s | Panicked s | NoFuel s => s end.

Definition result {S A : Type} (o : outcome S A) : option A :=
  match o with Done a _ => Some a | _ => None end.

(** Two pieces of code that run the same from every state. *)
#[export] Instance go_equiv {S A : Type} : Equiv (go S A) :=
  λ m1 m2, ∀ s, m1 s = m2 s.

(** ** Buffered channels *)

Record chan (A : Type) : Type := Chan {
  ch_buf : list A;
  ch_cap : nat;
  ch_closed : bool;
}.
Arguments Chan {A} ch_buf ch_cap ch_closed.
Arguments ch_buf {A} c.
Arguments ch_cap {A} c.
Arguments ch_closed {A} c.

(** [make(chan A, n)] *)
Definition make_chan {A : Type} (n : Z) : chan A := Chan [] (Z.to_nat n) false.

Definition ch_room {A : Type} (c : chan A) : bool :=
  bool_decide (length (ch_buf c) < ch_cap c).

Definition ch_push {A : Type} (a : A) (c : chan A) : chan A :=
  Chan (ch_buf c ++ [a]) (ch_cap c) (ch_closed c).

Definition ch_close {A : Type} (c : chan A) : chan A :=
  Chan (ch_buf c) (ch_cap c) true.

(** * Lemmas *)

(** ** Integers *)

Lemma wrap_small (w z : Z) : (0 < w)%Z → in_int w z → wrap w z = z.
Proof.
  intros Hw [Hl Hu]. unfold wrap.
  assert (2 ^ w = 2 * 2 ^ (w - 1))%Z as E
    by (rewrite <- Z.pow_succ_r by lia; f_equal; lia).
  rewrite Z.mod_small; lia.
Qed.

Lemma wrap_range (w z : Z) : (0 < w)%Z → in_int w (wrap w z).
Proof.
  intros Hw. unfold wrap, in_int.
  assert (2 ^ w = 2 * 2 ^ (w - 1))%Z as E
    by (rewrite <- Z.pow_succ_r by lia; f_equal; lia).
  assert (0 < 2 ^ w)%Z as Hp by (apply Z.pow_pos_nonneg; lia).
  pose proof (Z.mod_pos_bound (z + 2 ^ (w - 1)) (2 ^ w) Hp). lia.
Qed.

Lemma wrap_add_l (w x y : Z) : (0 < w)%Z → wrap w (wrap w x + y) = wrap w (x + y).
Proof.
  intros Hw. unfold wrap.
  assert (0 < 2 ^ w)%Z as Hp by (apply Z.pow_pos_nonneg; lia).
  f_equal. replace (((x + 2 ^ (w - 1)) mod 2 ^ w - 2 ^ (w - 1) + y + 2 ^ (w - 1)))%Z
    with ((x + 2 ^ (w - 1)) mod 2 ^ w + y)%Z by lia.
  rewrite Zplus_mod_idemp_l. f_equal. lia.
Qed.

Lemma int64_add_l (x y : Z) : int64 (int64 x + y) = int64 (x + y).
Proof. by apply wrap_add_l. Qed.

Lemma int64_small (z : Z) : in_int 64 z → int64 z = z.
Proof. by apply wrap_small. Qed.

Lemma int32_small (z : Z) : in_int 32 z → int32 z = z.
Proof. by apply wrap_small. Qed.

(** ** Errors *)

Lemma error_is_pair_l (a b : error) (t : sentinel) :
  error_is a t = true → error_is (errorf_pair a b) t = true.
Proof. intros H. unfold errorf_pair. cbn. by rewrite H. Qed.

Lemma error_is_pair (a b : error) (t : sentinel) :
  error_is (errorf_pair a b) t = error_is a t || error_is b t.
Proof. cbn. by rewrite orb_false_r. Qed.

Lemma error_is_suf (a : error) (x : string) (t : sentinel) :
  error_is (errorf_suf a x) t = error_is a t.
Proof. cbn. by rewrite orb_false_r. Qed.

Lemma error_is_pre (x : string) (a : error) (t : sentinel) :
  error_is (errorf_pre x a) t = error_is a t.
Proof. cbn. by rewrite orb_false_r. Qed.

(** ** Strings *)

#[local] Arguments String.append !_ _ / : simpl nomatch.

Lemma append_assoc (a b c : string) : (a +:+ b) +:+ c = a +:+ b +:+ c.
Proof. induction a as [|x a IH]; cbn; [done|]. by rewrite IH. Qed.

Lemma append_length (a b : string) : String.length (a +:+ b) = String.length a + String.length b.
Proof. induction a as [|c a IH]; [done|]. cbn. by f_equal. Qed.

Lemma append_inj_l (a b x : string) : a +:+ x = b +:+ x → a = b.
Proof.
  revert b. induction a as [|c a IH]; intros [|d b] Hx; [done|..].
  1-2: apply (f_equal String.length) in Hx; rewrite !append_length in Hx; cbn in Hx; lia.
  injection Hx as -> Hx. f_equal. by apply IH.
Qed.

Lemma string_forall_app p s1 s2 :
  string_forall p (s1 +:+ s2) = string_forall p s1 && string_forall p s2.
Proof. induction s1 as [|a s1 IH]; cbn; [done|]. by rewrite IH, andb_assoc. Qed.

Lemma no_colon_app s1 s2 : no_colon (s1 +:+ s2) = no_colon s1 && no_colon s2.
Proof. apply string_forall_app. Qed.

(** The text before the first colon determines where the colon is. *)
Lemma colon_split a b x y :
  no_colon a = true → no_colon b = true →
  a +:+ ":" +:+ x = b +:+ ":" +:+ y → a = b ∧ x = y.
Proof.
  revert b. induction a as [|c a IH]; intros [|d b]; cbn; intros Ha Hb E.
  - by injection E.
  - injection E as <- E. by rewrite Ascii.eqb_refl in Hb.
  - injection E as -> E. by rewrite Ascii.eqb_refl in Ha.
  - injection E as -> E.
    apply andb_true_iff in Ha as [_ Ha]. apply andb_true_iff in Hb as [_ Hb].
    destruct (IH b Ha Hb E) as [-> ->]. done.
Qed.

Lemma string_forall_pretty_N_go p x s :
  (∀ y, p (pretty_N_char y) = true) → string_forall p s = true →
  string_forall p (pretty_N_go x s) = true.
Proof.
  intros Hp. revert s. induction (N.lt_wf_0 x) as [x _ IH]; intros s Hs.
  destruct (decide (x = 0)%N) as [->|Hx]; [by rewrite pretty_N_go_0|].
  rewrite pretty_N_go_step by lia. apply IH; [by apply N.div_lt; lia|].
  cbn. by rewrite Hp.
Qed.

Lemma string_forall_sprint_d p n :
  (∀ y, p (pretty_N_char y) = true) → string_forall p (sprint_d n) = true.
Proof.
  intros Hp. unfold sprint_d, pretty, pretty_N. case_decide.
  - change (p (pretty_N_char 0) && true = true). by rewrite Hp.
  - by apply string_forall_pretty_N_go.
Qed.

Lemma no_colon_sprint_d n : no_colon (sprint_d n) = true.
Proof. apply string_forall_sprint_d. intros y. unfold pretty_N_char. by repeat case_match. Qed.

(** A number's text is none of the code's words. *)
Lemma sprint_d_digits n :
  string_forall (λ a, (48 <=? nat_of_ascii a) && (nat_of_ascii a <=? 57))%nat (sprint_d n) = true.
Proof. apply string_forall_sprint_d. intros y. unfold pretty_N_char. by repeat case_match. Qed.

Lemma sprint_d_inj n m : sprint_d n = sprint_d m → n = m.
Proof. apply pretty_N_inj. Qed.

(** ** Stateful code *)

#[export] Instance go_equiv_equivalence {S A : Type} :
  Equivalence (≡@{go S A}).
Proof.
  split.
  - by intros m s.
  - intros m1 m2 H s. by rewrite H.
  - intros m1 m2 m3 H1 H2 s. by rewrite H1, H2.
Qed.

#[export] Instance bind_proper {S A B : Type} :
  Proper ((≡) ==> pointwise_relation A (≡) ==> (≡)) (@bind S A B).
Proof.
  intros m1 m2 Hm k1 k2 Hk s. unfold bind. rewrite Hm.
  destruct (m2 s); [apply Hk|done..].
Qed.

#[export] Instance defer_proper {S A : Type} :
  Proper ((≡) ==> (≡) ==> (≡)) (@defer S A).
Proof.
  intros d1 d2 Hd m1 m2 Hm s. unfold defer. rewrite Hm.
  destruct (m2 s); try done; by rewrite Hd.
Qed.

Lemma bind_ret_l {S A B : Type} (a : A) (k : A → go S B) : bind (ret a) k ≡ k a.
Proof. by intros s. Qed.

Lemma bind_ret_r {S A : Type} (m : go S A) : bind m ret ≡ m.
Proof. intros s. unfold bind. by destruct (m s). Qed.

Lemma bind_assoc {S A B C : Type} (m : go S A) (f : A → go S B) (g : B → go S C) :
  bind (bind m f) g ≡ bind m (λ a, bind (f a) g).
Proof. intros s. unfold bind. by destruct (m s). Qed.

Lemma bind_done {S A B : Type} (m : go S A) (k : A → go S B) s a s' :
  m s = Done a s' → bind m k s = k a s'.
Proof. intros H. unfold bind. by rewrite H. Qed.

Lemma bind_done_inv {S A B : Type} (m : go S A) (k : A → go S B) s b s2 :
  bind m k s = Done b s2 → ∃ a s1, m s = Done a s1 ∧ k a s1 = Done b s2.
Proof. unfold bind. destruct (m s); naive_solver. Qed.

Lemma defer_done_inv {S A : Type} (d : go S unit) (m : go S A) s a s2 :
  defer d m s = Done a s2 → ∃ s1, m s = Done a s1 ∧ d s1 = Done tt s2.
Proof.
  unfold defer. destruct (m s) as [a' s1|s1|s1|s1] eqn:Hm; [|by destruct (d s1)..].
  destruct (d s1) as [[] s3|?|?|?] eqn:Hd; naive_solver.
Qed.

Lemma result_done {S A : Type} (o : outcome S A) a : result o = Some a → o = Done a (final o).
Proof. destruct o; cbn; congruence. Qed.

Lemma range_do_app {S A : Type} (l1 l2 : list A) (m : A → go S unit) :
  range_do (l1 ++ l2) m ≡ (range_do l1 m ;;; range_do l2 m).
Proof.
  induction l1 as [|a l1 IH]; cbn; [by intros s|].
  rewrite bind_assoc. f_equiv. intros []. by rewrite IH.
Qed.

(** ** Channels *)

Lemma ch_room_push {A : Type} (a : A) (c : chan A) :
  ch_room c = true → length (ch_buf (ch_push a c)) ≤ ch_cap (ch_push a c).
Proof.
  unfold ch_room. rewrite bool_decide_eq_true. cbn.
  rewrite length_app. cbn. lia.
Qed.

(** ** Step relations *)

Lemma rtc_preserve {S : Type} (R : S → S → Prop) (P : S → Prop) :
  (∀ s s', P s → R s s' → P s') → ∀ s s', rtc R s s' → P s → P s'.
Proof. intros HR s s' Hs. induction Hs as [|s1 s2 s3 H12 _ IH]; eauto. Qed.

(** ** Counting *)

(** How many elements satisfy a test. *)
Fixpoint count {A : Type} (P : A → bool) (l : list A) : nat :=
  match l with
  | [] => 0
  | a :: l' => Nat.b2n (P a) + count P l'
  end.

Lemma count_insert {A : Type} (P : A → bool) (l : list A) i p q :
  l !! i = Some q → count P (<[i := p]> l) + Nat.b2n (P q) = count P l + Nat.b2n (P p).
Proof.
  revert i. induction l as [|a l IH]; intros [|i] Hi; try done.
  - injection Hi as ->. cbn. lia.
  - change (<[S i := p]> (a :: l)) with (a :: <[i := p]> l). cbn [count].
    specialize (IH i Hi). lia.
Qed.

Lemma count_app {A : Type} (P : A → bool) (l1 l2 : list A) :
  count P (l1 ++ l2) = count P l1 + count P l2.
Proof. induction l1 as [|a l1 IH]; cbn; [done|]. rewrite IH. lia. Qed.

Lemma count_mono {A : Type} (P Q : A → bool) (l : list A) :
  (∀ a, P a = true → Q a = true) → count P l ≤ count Q l.
Proof.
  intros HPQ. induction l as [|a l IH]; cbn; [lia|].
  specialize (HPQ a). destruct (P a); [rewrite HPQ by done|]; destruct (Q a); cbn; lia.
Qed.

Lemma count_none {A : Type} (P : A → bool) (l : list A) :
  Forall (λ a, P a = false) l → count P l = 0.
Proof. intros Hl. induction Hl as [|a l Ha _ IH]; cbn; [done|]. by rewrite Ha, IH. Qed.

Lemma count_pos {A : Type} (P : A → bool) (l : list A) :
  0 < count P l ↔ ∃ i p, l !! i = Some p ∧ P p = true.
Proof.
  induction l as [|a l IH]; cbn.
  - split; [lia|]. by intros (i & p & Hi & _); destruct i.
  - split.
    + destruct (P a) eqn:Ha; cbn; [by exists 0, a|]. intros (i & p & Hi & Hp)%IH. by exists (S i), p.
    + intros ([|i] & p & Hi & Hp); cbn in Hi.
      * injection Hi as ->. rewrite Hp. cbn. lia.
      * assert (0 < count P l); [apply IH; by exists i, p|lia].
Qed.

Lemma count_unique {A : Type} (P : A → bool) (l : list A) i j p q :
  count P l ≤ 1 → l !! i = Some p → l !! j = Some q → P p = true → P q = true → i = j.
Proof.
  revert i j. induction l as [|a l IH]; intros [|i] [|j] Hc Hi Hj Hp Hq; cbn in *; try done.
  - injection Hi as ->. rewrite Hp in Hc. cbn in Hc.
    assert (0 < count P l); [apply count_pos; by exists j, q|lia].
  - injection Hj as ->. rewrite Hq in Hc. cbn in Hc.
    assert (0 < count P l); [apply count_pos; by exists i, p|lia].
  - f_equal. apply (IH i j); try done. lia.
Qed.

Lemma sum_insert {A : Type} (f : A → nat) (l : list A) i x y :
  l !! i = Some x → sum_list_with f (<[i := y]> l) + f x = sum_list_with f l + f y.
Proof.
  revert i. induction l as [|a l IH]; intros [|i] Hi; try done.
  - injection Hi as ->. cbn. lia.
  - change (<[S i := y]> (a :: l)) with (a :: <[i := y]> l). cbn [sum_list_with].
    specialize (IH i Hi). lia.
Qed.

Lemma sum_app {A : Type} (f : A → nat) (l1 l2 : list A) :
  sum_list_with f (l1 ++ l2) = sum_list_with f l1 + sum_list_with f l2.
Proof. induction l1 as [|a l1 IH]; cbn; [done|]. rewrite IH. lia. Qed.

(** ** Automation *)

(** Runs the code of the goal or of a hypothesis through the monad. *)
Ltac go_run :=
  cbn [bind ret get gets modify state when need block panic nofuel zoom
       part_get part_set final result range_do fst snd] in *.

#[global] Arguments errorf_pair : simpl never.
#[global] Arguments errorf_pre : simpl never.
#[global] Arguments errorf_suf : simpl never.

Create HintDb synp.
#[export] Hint Resolve no_colon_sprint_d sprint_d_inj int64_small int32_small
  error_is_pair_l : synp.
Create Rewrite HintDb synp.
#[export] Hint Rewrite error_is_pair error_is_suf error_is_pre @no_colon_app : synp.
