(* ===== verification/Env.v ===== *)
(** The code the gateway calls and does not contain, as interfaces.

    Every class below names the operations of one external party that the
    modelled code calls; the operations act on an abstract environment state
    [E], so their results may depend on anything.  The classes named [...Spec]
    state the documented behaviour that some theorems rely on.  A theorem that
    does not mention a [...Spec] class holds whatever the external code does. *)

From S2P Require Import Prelude.

(** ** go.uber.org/multierr *)

Class MultiErr := multierr_append : option error → option error → option error.

(** [Append] returns the other argument when one is nil; a combined error
    unwraps to both. *)
Class MultiErrSpec `{MultiErr} : Prop := {
  multierr_nil_l e : multierr_append None e = e;
  multierr_nil_r e : multierr_append e None = e;
  multierr_is a b : ∃ c, multierr_append (Some a) (Some b) = Some c ∧
    ∀ t, error_is c t = error_is a t || error_is b t;
}.

(** ** github.com/jrmarcco/jit/bean/option *)

Class OptApply := option_apply : ∀ {T : Type}, T → list (T → T) → T.

(** [Apply(t, opts...)] calls the options on [t] in order. *)
Class OptApplySpec `{OptApply} : Prop :=
  option_apply_spec : ∀ (T : Type) (t : T) (opts : list (T → T)),
    option_apply t opts = fold_left (λ x o, o x) opts t.

(** ** github.com/jrmarcco/jit/retry *)

(** [NewExponentialBackoffStrategy] (nil for invalid parameters) and [Next]. *)
Class Retry (RS : Type) := {
  retry_new : Z → Z → Z → option RS;
  retry_next : RS → option Z * RS;
}.

(** A strategy created with a positive maximum grants at most that many
    retries. *)
Class RetrySpec (RS : Type) `{Retry RS} := {
  retry_budget : RS → nat;
  retry_new_budget init max n rs :
    (0 < n)%Z → retry_new init max n = Some rs → retry_budget rs ≤ Z.to_nat n;
  retry_next_budget rs d rs' :
    retry_next rs = (Some d, rs') → S (retry_budget rs') ≤ retry_budget rs;
}.

(** ** github.com/jrmarcco/jit/xsync *)

(** [xsync.Map[string, V]], a typed [sync.Map]. *)
Class SyncMap (M : Type → Type) := {
  sm_new : ∀ V, M V;
  sm_load : ∀ V, string → M V → option V;
  sm_load_or_store : ∀ V, string → V → M V → (V * bool) * M V;
  sm_load_and_delete : ∀ V, string → M V → option V * M V;
  sm_delete : ∀ V, string → M V → M V;
  sm_range : ∀ V, M V → list (string * V);
}.
Arguments sm_new {M _} V.
Arguments sm_load {M _ V} k m.
Arguments sm_load_or_store {M _ V} k v m.
Arguments sm_load_and_delete {M _ V} k m.
Arguments sm_delete {M _ V} k m.
Arguments sm_range {M _ V} m.

(** The documented behaviour of [sync.Map], on the mapping it holds. *)
Class SyncMapSpec (M : Type → Type) `{SyncMap M} := {
  sm_view : ∀ V, M V → gmap string V;
  sm_view_new V : sm_view V (sm_new V) = ∅;
  sm_load_view V k (m : M V) : sm_load k m = sm_view V m !! k;
  sm_load_or_store_some V k v (m : M V) v' : sm_view V m !! k = Some v' →
    (sm_load_or_store k v m).1 = (v', true) ∧
    sm_view V (sm_load_or_store k v m).2 = sm_view V m;
  sm_load_or_store_none V k v (m : M V) : sm_view V m !! k = None →
    (sm_load_or_store k v m).1 = (v, false) ∧
    sm_view V (sm_load_or_store k v m).2 = <[k := v]> (sm_view V m);
  sm_load_and_delete_view V k (m : M V) :
    (sm_load_and_delete k m).1 = sm_view V m !! k ∧
    sm_view V (sm_load_and_delete k m).2 = delete k (sm_view V m);
  sm_delete_view V k (m : M V) : sm_view V (sm_delete k m) = delete k (sm_view V m);
  sm_range_view V (m : M V) : sm_range m ≡ₚ map_to_list (sm_view V m);
}.
Arguments sm_view {M _ _ V} m.

(** ** Time and the scheduler *)

(** [time.Now()] in nanoseconds; the runtime's choice between two ready cases
    of a [select] ([true]: the first); a timed wait; [Take] of a
    go.uber.org/ratelimit limiter of the given rate; and whether another goroutine
    has cancelled the context of connection [l], or its parent, by now.
    [map_order] is the order in which [range] visits the entries of a map. *)
Class Sched (E : Type) := {
  time_now : E → Z * E;
  sched_select : E → bool * E;
  sched_wait : Z → E → E;
  ratelimit_take : Z → E → E;
  sched_cancelled : nat → E → bool * E;
  map_order : ∀ {V}, list (string * V) → E → list (string * V) * E;
}.

Class SchedSpec (E : Type) `{Sched E} : Prop :=
  map_order_perm : ∀ {V} (l : list (string * V)) (e : E), (map_order l e).1 ≡ₚ l.

(** ** net.Conn and github.com/gobwas/ws *)

(** The operations on the network connection with handle [n].  The error of
    [SetReadDeadline], [SetWriteDeadline] and [WriteServerMessage] is ignored
    by the code. *)
Class Net (E : Type) := {
  net_set_read_deadline : nat → Z → E → E;
  net_set_write_deadline : nat → Z → E → E;
  net_write_close_frame : nat → E → E;
  net_close : nat → E → option error * E;
  (* wsutil.Writer *)
  wsw_write : nat → bytes → E → (error + Z) * E;
  wsw_flush : nat → E → option error * E;
  (* wsflate.Writer, reset to write to the wsutil.Writer of the handle *)
  flw_reset : nat → E → E;
  flw_write : nat → bytes → E → (error + Z) * E;
  flw_close : nat → E → option error * E;
  (* wsutil.Reader: the next frame header, [true] for a control frame *)
  wsr_next_frame : nat → E → (error + bool) * E;
  wsr_handle_control : nat → E → option error * E;
  wsr_compressed : nat → E → bool * E;
  wsr_read_all : nat → E → (error + bytes) * E;
  flr_reset : nat → E → E;
  flr_read_all : nat → E → (error + bytes) * E;
}.

(** ** go-redis and the Redis server *)

(** [redis_eval] runs a script atomically on the server; [lua_exists] and
    [lua_hset] are the [redis.call]s available to it. *)
Class Redis (E : Type) := {
  redis_setnx : string → string → Z → E → (error + bool) * E;
  redis_del : string → E → (error + Z) * E;
  redis_hset : string → string → string → E → (error + Z) * E;
  redis_hget : string → string → E → (error + string) * E;
  redis_eval : (E → string * E) → E → (error + string) * E;
  lua_exists : string → E → Z;
  lua_hset : string → list (string * string) → E → E;
}.

Inductive rval : Type :=
  | RStr (s : string)
  | RHash (h : gmap string string).

(** The hash fields of a key ([HSET] creates the key). *)
Definition rhash (o : option rval) : gmap string string :=
  match o with Some (RHash h) => h | _ => ∅ end.

(** The documented effect of a command that succeeds, on the key space. *)
Class RedisSpec (E : Type) `{Redis E} := {
  redis_view : E → gmap string rval;
  redis_setnx_view k v ttl e b e' : redis_setnx k v ttl e = (inr b, e') →
    match redis_view e !! k with
    | Some _ => b = false ∧ redis_view e' = redis_view e
    | None => b = true ∧ redis_view e' = <[k := RStr v]> (redis_view e)
    end;
  redis_del_view k e n e' : redis_del k e = (inr n, e') →
    redis_view e' = delete k (redis_view e);
  redis_hset_view k f v e n e' : redis_hset k f v e = (inr n, e') →
    redis_view e' = <[k := RHash (<[f := v]> (rhash (redis_view e !! k)))]> (redis_view e);
  redis_hget_view k f e v e' : redis_hget k f e = (inr v, e') →
    rhash (redis_view e !! k) !! f = Some v;
  redis_hget_nil k f e err e' : redis_hget k f e = (inl err, e') →
    error_is err RedisNil = true → rhash (redis_view e !! k) !! f = None;
  redis_eval_view s e r e' : redis_eval s e = (inr r, e') → s e = (r, e');
  lua_exists_view k e : lua_exists k e = match redis_view e !! k with Some _ => 1%Z | None => 0%Z end;
  lua_hset_view k fvs e :
    redis_view (lua_hset k fvs e)
    = <[k := RHash (list_to_map (reverse fvs) ∪ rhash (redis_view e !! k))]> (redis_view e);
}.

(** ** segmentio/kafka-go *)

(** A [kafka.Message]: topic, partition, offset, key, value, headers in order. *)
Record KMessage : Type := MkKMessage {
  k_Topic : string;
  k_Partition : Z;
  k_Offset : Z;
  k_Key : bytes;
  k_Value : bytes;
  k_Headers : list (string * bytes);
}.

(** [Writer.WriteMessages] of one message, with a context that expires after the
    given time, and [Reader.Close]. *)
Class Kafka (E : Type) := {
  kafka_write : Z → string → bytes → bytes → E → option error * E;
  kafka_reader_close : E → option error * E;
}.

(** ** google.golang.org/protobuf and encoding/json *)

(** Decoding fills a fresh message of the expected type. *)
Class Protobuf (Message AckPayload PushMessage : Type) := {
  proto_Marshal : Message → error + bytes;
  proto_Unmarshal : bytes → error + Message;
  protojson_Marshal : Message → error + bytes;
  protojson_Unmarshal : bytes → error + Message;
  protojson_Marshal_ack : AckPayload → error + bytes;
  json_Unmarshal_push : bytes → error + PushMessage;
}.

(** What is encoded decodes to itself. *)
Class ProtobufSpec (Message AckPayload PushMessage : Type)
    `{Protobuf Message AckPayload PushMessage} : Prop := {
  proto_roundtrip m b : proto_Marshal m = inr b → proto_Unmarshal b = inr m;
  protojson_roundtrip m b : protojson_Marshal m = inr b → protojson_Unmarshal b = inr m;
}.
