(* ===== verification/Sim.v ===== *)
(** A concrete environment: every interface of [Env.v] instantiated by
    functions that compute, with the laws of the [...Spec] classes proved.
    The witnesses of the properties run the model in it. *)

From S2P Require Import Prelude Env.

(** ** multierr, option, retry, xsync.Map *)

Definition sim_multierr : MultiErr := λ a b,
  match a, b with
  | None, _ => b
  | _, None => a
  | Some x, Some y => Some (EWrap (error_text x +:+ "; " +:+ error_text y) [x; y])
  end.

Lemma sim_multierr_spec : @MultiErrSpec sim_multierr.
Proof.
  split.
  - done.
  - by intros [e|].
  - intros a b. eexists; split; [done|]. intros t. cbn. by rewrite orb_false_r.
Qed.

Definition sim_option_apply : OptApply := 
  λ T t opts, fold_left (λ x o, o x) opts t.

Lemma sim_option_apply_spec : @OptApplySpec sim_option_apply.
Proof. done. Qed.

(** Retries left and the next interval, doubled up to a maximum. *)
Record sim_retry : Type := SimRetry { sr_left : nat; sr_next : Z; sr_max : Z }.

#[export] Instance sim_retry_ops : Retry sim_retry := {
  retry_new init max n :=
    if (0 <? init)%Z && (init <=? max)%Z && (0 <? n)%Z
    then Some (SimRetry (Z.to_nat n) init max) else None;
  retry_next rs :=
    match sr_left rs with
    | O => (None, rs)
    | S k => (Some (sr_next rs), SimRetry k (Z.min (2 * sr_next rs) (sr_max rs)) (sr_max rs))
    end;
}.

#[export] Instance sim_retry_spec : RetrySpec sim_retry.
Proof.
  refine {| retry_budget := sr_left |}.
  - cbn. intros init max n rs Hn H. case_match; by simplify_eq/=.
  - intros [[|k] d m] d' rs'; cbn; intros H; simplify_eq/=; lia.
Defined.

Definition sim_map (V : Type) : Type := gmap string V.

#[export] Instance sim_sync_map : SyncMap sim_map := {
  sm_new V := (∅ : gmap string V);
  sm_load V k m := (m : gmap string V) !! k;
  sm_load_or_store V k v m :=
    match (m : gmap string V) !! k with
    | Some v' => ((v', true), m)
    | None => ((v, false), <[k := v]> (m : gmap string V))
    end;
  sm_load_and_delete V k m := ((m : gmap string V) !! k, delete k (m : gmap string V));
  sm_delete V k m := delete k (m : gmap string V);
  sm_range V m := map_to_list (m : gmap string V);
}.

#[export] Instance sim_sync_map_spec : SyncMapSpec sim_map.
Proof.
  refine {| sm_view V m := (m : gmap string V) |}; cbn; intros;
    repeat case_match; by simplify_eq/=.
Defined.

(** ** The environment state *)

Inductive netop : Type :=
  | NReadDeadline | NWriteDeadline | NCloseFrame | NClose
  | NWrite (b : bytes) | NFlush | NFlateReset | NFlateWrite (b : bytes) | NFlateClose.

Record Sim : Type := MkSim {
  sim_now : Z;
  sim_selects : list bool;
  sim_cancels : list bool;
  sim_flushes : list (option error);
  sim_frames : list (error + (bool * bytes));
  sim_log : list (nat * netop);
  sim_redis : gmap string rval;
  sim_redis_down : bool;
  sim_kafka : list (string * bytes * bytes);
  sim_kafka_err : option error;
}.

Definition sim0 : Sim := MkSim 1000000000 [] [] [] [] [] ∅ false [] None.

Definition sim_put (n : nat) (o : netop) (e : Sim) : Sim :=
  MkSim (sim_now e) (sim_selects e) (sim_cancels e) (sim_flushes e) (sim_frames e)
    (sim_log e ++ [(n, o)]) (sim_redis e) (sim_redis_down e) (sim_kafka e) (sim_kafka_err e).

Definition sim_set_redis (m : gmap string rval) (e : Sim) : Sim :=
  MkSim (sim_now e) (sim_selects e) (sim_cancels e) (sim_flushes e) (sim_frames e)
    (sim_log e) m (sim_redis_down e) (sim_kafka e) (sim_kafka_err e).

Definition sim_set_time (t : Z) (e : Sim) : Sim :=
  MkSim t (sim_selects e) (sim_cancels e) (sim_flushes e) (sim_frames e)
    (sim_log e) (sim_redis e) (sim_redis_down e) (sim_kafka e) (sim_kafka_err e).

Definition sim_set_script (sel can : list bool) (fl : list (option error))
    (fr : list (error + (bool * bytes))) (e : Sim) : Sim :=
  MkSim (sim_now e) sel can fl fr
    (sim_log e) (sim_redis e) (sim_redis_down e) (sim_kafka e) (sim_kafka_err e).

Definition sim_set_faults (re : bool) (ke : option error) (e : Sim) : Sim :=
  MkSim (sim_now e) (sim_selects e) (sim_cancels e) (sim_flushes e) (sim_frames e)
    (sim_log e) (sim_redis e) re (sim_kafka e) ke.

#[export] Instance sim_sched : Sched Sim := {
  time_now e := (sim_now e, e);
  sched_select e :=
    match sim_selects e with
    | [] => (true, e)
    | b :: l => (b, sim_set_script l (sim_cancels e) (sim_flushes e) (sim_frames e) e)
    end;
  sched_wait d e := sim_set_time (sim_now e + d) e;
  ratelimit_take r e := sim_set_time (sim_now e + Second / r) e;
  sched_cancelled _ e :=
    match sim_cancels e with
    | [] => (false, e)
    | b :: l => (b, sim_set_script (sim_selects e) l (sim_flushes e) (sim_frames e) e)
    end;
  map_order V l e := (l, e);
}.

#[export] Instance sim_sched_spec : SchedSpec Sim.
Proof. by intros V l e. Qed.

#[export] Instance sim_net : Net Sim := {
  net_set_read_deadline n _ e := sim_put n NReadDeadline e;
  net_set_write_deadline n _ e := sim_put n NWriteDeadline e;
  net_write_close_frame n e := sim_put n NCloseFrame e;
  net_close n e := (None, sim_put n NClose e);
  wsw_write n b e := (inr (Z.of_nat (String.length b)), sim_put n (NWrite b) e);
  wsw_flush n e :=
    match sim_flushes e with
    | [] => (None, sim_put n NFlush e)
    | r :: l => (r, sim_set_script (sim_selects e) (sim_cancels e) l (sim_frames e)
                      (sim_put n NFlush e))
    end;
  flw_reset n e := sim_put n NFlateReset e;
  flw_write n b e := (inr (Z.of_nat (String.length b)), sim_put n (NFlateWrite b) e);
  flw_close n e := (None, sim_put n NFlateClose e);
  wsr_next_frame _ e :=
    match sim_frames e with
    | [] => (inl (ESentinel IoEOF), e)
    | inl err :: l =>
        (inl err, sim_set_script (sim_selects e) (sim_cancels e) (sim_flushes e) l e)
    | inr (c, _) :: _ => (inr c, e)
    end;
  wsr_handle_control _ e :=
    (None, sim_set_script (sim_selects e) (sim_cancels e) (sim_flushes e)
             (tail (sim_frames e)) e);
  wsr_compressed _ e := (false, e);
  wsr_read_all _ e :=
    match sim_frames e with
    | inr (_, b) :: l =>
        (inr b, sim_set_script (sim_selects e) (sim_cancels e) (sim_flushes e) l e)
    | _ => (inl (ESentinel IoEOF), e)
    end;
  flr_reset _ e := e;
  flr_read_all _ e := (inl (ESentinel IoEOF), e);
}.

Definition sim_refused : error :=
  EForeign (Foreign "connection refused" (Some false) []).

Definition sim_reply {A : Type} (a : A) (e' e : Sim) : (error + A) * Sim :=
  if sim_redis_down e then (inl sim_refused, e) else (inr a, e').

Definition wrongtype : error := EForeign (Foreign "WRONGTYPE" None []).

#[export] Instance sim_redis_ops : Redis Sim := {
  redis_setnx k v _ e :=
    match sim_redis e !! k with
    | Some _ => sim_reply false e e
    | None => sim_reply true (sim_set_redis (<[k := RStr v]> (sim_redis e)) e) e
    end;
  redis_del k e := sim_reply 1%Z (sim_set_redis (delete k (sim_redis e)) e) e;
  redis_hset k f v e :=
    match sim_redis e !! k with
    | Some (RStr _) => (inl wrongtype, e)
    | o => sim_reply 1%Z (sim_set_redis (<[k := RHash (<[f := v]> (rhash o))]> (sim_redis e)) e) e
    end;
  redis_hget k f e :=
    match rhash (sim_redis e !! k) !! f with
    | Some v => sim_reply v e e
    | None => (inl (ESentinel RedisNil), e)
    end;
  redis_eval s e := let '(r, e') := s e in sim_reply r e' e;
  lua_exists k e := match sim_redis e !! k with Some _ => 1%Z | None => 0%Z end;
  lua_hset k fvs e :=
    sim_set_redis
      (<[k := RHash (list_to_map (reverse fvs) ∪ rhash (sim_redis e !! k))]> (sim_redis e)) e;
}.

#[export] Instance sim_redis_spec : RedisSpec Sim.
Proof.
  refine {| redis_view := sim_redis |}; cbn; unfold sim_reply; intros;
    repeat case_match; by simplify_eq/=.
Defined.

#[export] Instance sim_kafka_ops : Kafka Sim := {
  kafka_write d t k v e :=
    if (d <=? 0)%Z then (Some (ESentinel DeadlineExceeded), e) else
    match sim_kafka_err e with
    | Some err => (Some err, e)
    | None =>
        (None, MkSim (sim_now e) (sim_selects e) (sim_cancels e) (sim_flushes e) (sim_frames e)
                 (sim_log e) (sim_redis e) (sim_redis_down e)
                 (sim_kafka e ++ [(t, k, v)]) (sim_kafka_err e))
    end;
  kafka_reader_close e := (None, e);
}.

(** [time.Format] in the simulation: the nanoseconds in decimal. *)
Definition sim_format (t : Z) : string := pretty t.
