(* ===== verification/Session.v ===== *)
(** Users, their keys, and the session kept in Redis
    ([internal/pkg/session/types.go], [internal/pkg/session/redis]). *)

From S2P Require Import Prelude Env Sim.

(** ** Users and devices *)

Abbreviation Device := string (only parsing).

Definition DeviceMobile : Device := "mobile".
Definition DeviceTablet : Device := "tablet".
Definition DevicePC : Device := "pc".
Definition DeviceUnknown : Device := "unknown".

Record User : Type := MkUser {
  BID : N;
  UID : N;
  UDevice : Device;
  AutoClose : bool;
}.

#[export] Instance User_eq_dec : EqDecision User.
Proof. solve_decision. Defined.

Definition ConnID (u : User) : string :=
  sprint_d (BID u) +:+ ":" +:+ sprint_d (UID u) +:+ ":" +:+ UDevice u.

Definition ConnKey (u : User) : string :=
  sprint_d (BID u) +:+ ":" +:+ sprint_d (UID u).

Definition SessionKey (u : User) : string :=
  "synp:session:" +:+ sprint_d (BID u) +:+ ":" +:+ sprint_d (UID u).

(** ** The session *)

Record Session : Type := MkSession {
  sess_key : string;
  sess_user : User;
}.

Definition newSession (u : User) : Session := MkSession (SessionKey u) u.

Section Operations.
Context {E : Type} `{Sched E, Redis E}.

(** [time.Time.Format(time.RFC3339Nano)] *)
Context (format_time : Z → string).

(** [lua/session_create.lua] *)
Definition session_create_lua (key : string) (argv : list (string * string))
    (e : E) : string * E :=
  if (lua_exists key e =? 0)%Z
  then ("ok", lua_hset key argv e)
  else ("", e).

Definition Session_Set (s : Session) (key val : string) : go E (option error) :=
  r <- state (redis_hset (sess_key s) key val) ;;
  ret (match r with inl err => Some err | inr _ => None end).

Definition Session_Get (s : Session) (key : string) : go E (string * option error) :=
  r <- state (redis_hget (sess_key s) key) ;;
  ret (match r with
       | inl err => if error_is err RedisNil then ("", None) else ("", Some err)
       | inr str => (str, None)
       end).

Definition Session_Destroy (s : Session) : go E (option error) :=
  r <- state (redis_del (sess_key s)) ;;
  ret (match r with
       | inl err => Some (errorf_pair (ESentinel ErrSessionDestroy) err)
       | inr _ => None
       end).

Definition saveToRedis (s : Session) : go E (option error) :=
  now <- state time_now ;;
  res <- state (redis_eval (session_create_lua (sess_key s)
                              [("sign_in_time", format_time now)])) ;;
  ret (match res with
       | inl err => Some (errorf_pair (ESentinel ErrSessionCreate) err)
       | inr r => if String.eqb r "ok" then None else Some (ESentinel ErrSessionExists)
       end).

Definition Build (u : User) : go E (option Session * bool * option error) :=
  let sess := newSession u in
  err <- saveToRedis sess ;;
  match err with
  | None => ret (Some sess, true, None)
  | Some e =>
      if error_is e ErrSessionExists
      then ret (Some sess, false, None)
      else ret (None, false, Some e)
  end.

End Operations.

(** * Lemmas and properties *)

Definition same_user (u v : User) : Prop := BID u = BID v ∧ UID u = UID v.

#[export] Instance same_user_dec u v : Decision (same_user u v).
Proof. unfold same_user. apply _. Defined.

#[export] Instance same_user_equivalence : Equivalence same_user.
Proof.
  split.
  - by intros u.
  - intros u v [? ?]. by split.
  - intros u v w [? ?] [? ?]. split; congruence.
Qed.

#[export] Instance ConnKey_proper : Proper (same_user ==> eq) ConnKey.
Proof. intros u v [H1 H2]. unfold ConnKey. by rewrite H1, H2. Qed.

Lemma ConnKey_inj u v : ConnKey u = ConnKey v → same_user u v.
Proof.
  intros H. apply colon_split in H as [H1 H2]; auto with synp.
  split; by apply sprint_d_inj.
Qed.

Lemma ConnID_inj u v : ConnID u = ConnID v → same_user u v ∧ UDevice u = UDevice v.
Proof.
  intros H. apply colon_split in H as [H1 H2]; auto with synp.
  apply colon_split in H2 as [H2 H3]; auto with synp.
  split; [split; by apply sprint_d_inj|done].
Qed.

Lemma SessionKey_inj u v : SessionKey u = SessionKey v → same_user u v.
Proof. intros H. apply ConnKey_inj. by apply String.app_inj in H. Qed.

(** The three keys of a user say exactly what they should: the connection
    id identifies user and device, the connection key and the session key
    identify the user, whatever the device, so all devices of a user share one
    session key. *)
Theorem user_keys u v :
  (ConnID u = ConnID v ↔ same_user u v ∧ UDevice u = UDevice v) ∧
  (ConnKey u = ConnKey v ↔ same_user u v) ∧
  (SessionKey u = SessionKey v ↔ same_user u v).
Proof.
  split_and!; split; try by (apply ConnID_inj || apply ConnKey_inj || apply SessionKey_inj).
  - intros [[H1 H2] H3]. unfold ConnID. by rewrite H1, H2, H3.
  - by intros ->.
  - intros [H1 H2]. unfold SessionKey. by rewrite H1, H2.
Qed.

Section Properties.
Context {E : Type} `{Sched E, RedisSpec E}.
Context (format_time : Z → string).

(** What [Build] leaves in Redis when it creates the session. *)
Definition fresh_session (now : Z) : rval :=
  RHash {["sign_in_time" := format_time now]}.

Lemma saveToRedis_ok s e e' :
  saveToRedis format_time s e = Done None e' →
  redis_view (time_now e).2 !! sess_key s = None ∧
  redis_view e' =
    <[sess_key s := fresh_session (time_now e).1]> (redis_view (time_now e).2).
Proof.
  unfold saveToRedis, state, bind. destruct (time_now e) as [now e0]. cbn.
  destruct (redis_eval _ e0) as [[err|r] e1] eqn:Hev; intros Hd; simplify_eq/=.
  destruct (String.eqb_spec r "ok") as [->|]; simplify_eq/=.
  apply redis_eval_view in Hev. unfold session_create_lua in Hev.
  rewrite lua_exists_view in Hev.
  destruct (redis_view e0 !! sess_key s) eqn:Hk; simplify_eq/=.
  split; [done|]. rewrite lua_hset_view, Hk. unfold fresh_session. cbn. by rewrite map_union_empty, insert_empty.
Qed.

Lemma saveToRedis_exists s e e' :
  saveToRedis format_time s e = Done (Some (ESentinel ErrSessionExists)) e' →
  is_Some (redis_view (time_now e).2 !! sess_key s) ∧
  redis_view e' = redis_view (time_now e).2.
Proof.
  unfold saveToRedis, state, bind. destruct (time_now e) as [now e0]. cbn.
  destruct (redis_eval _ e0) as [[err|r] e1] eqn:Hev; intros Hd; simplify_eq/=.
  destruct (String.eqb_spec r "ok") as [->|]; simplify_eq/=.
  apply redis_eval_view in Hev. unfold session_create_lua in Hev.
  rewrite lua_exists_view in Hev.
  destruct (redis_view e0 !! sess_key s) eqn:Hk; by simplify_eq/=.
Qed.

(** C24. [Build] creates a session exactly when the user has none: it reports a
    new session only if the key was absent, and then the key holds nothing but
    the sign-in time; it reports an existing one only if the key was there, and
    leaves every key as it was; a failure of Redis is an [ErrSessionCreate]
    without a session. *)
Theorem Build_creates_once u e r isNew err e1 :
  (∀ s x e', redis_eval s (time_now e).2 = (inl x, e') → error_is x ErrSessionExists = false) →
  Build format_time u e = Done (r, isNew, err) e1 →
  let e0 := (time_now e).2 in
  match err, isNew with
  | None, true => r = Some (newSession u) ∧ redis_view e0 !! SessionKey u = None ∧
      redis_view e1 = <[SessionKey u := fresh_session (time_now e).1]> (redis_view e0)
  | None, false => r = Some (newSession u) ∧ is_Some (redis_view e0 !! SessionKey u) ∧
      redis_view e1 = redis_view e0
  | Some x, _ => r = None ∧ isNew = false ∧ error_is x ErrSessionCreate = true
  end.
Proof.
  intros Hclean Hb. unfold Build, bind in Hb.
  destruct (saveToRedis format_time (newSession u) e) as [[x|] e'| | |] eqn:Hs; try done.
  - destruct (error_is x ErrSessionExists) eqn:Hx; go_run; simplify_eq.
    + assert (x = ESentinel ErrSessionExists) as ->.
      { unfold saveToRedis, state, bind in Hs.
        destruct (time_now e) as [now e0]. cbn in *.
        destruct (redis_eval _ e0) as [[y|r] e2] eqn:Hev; simplify_eq/=.
        - cbn in Hx. by rewrite (Hclean _ _ _ Hev) in Hx.
        - by destruct (String.eqb_spec r "ok"); simplify_eq. }
      split; [done|]. by apply saveToRedis_exists in Hs.
    + split_and!; [done..|].
      unfold saveToRedis, state, bind in Hs.
      destruct (time_now e) as [now e0]. cbn in *.
      destruct (redis_eval _ e0) as [[y|r] e2] eqn:Hev; simplify_eq/=; [done|].
      by destruct (String.eqb_spec r "ok"); simplify_eq/=.
  - go_run. simplify_eq. split; [done|]. by apply saveToRedis_ok in Hs.
Qed.

(** A session field reads back what was last written to it: after a
    successful [Set], a [Get] that does not fail returns the value. *)
Theorem Session_Set_Get s key val e e1 x e2 :
  Session_Set s key val e = Done None e1 →
  Session_Get s key e1 = Done (x, None) e2 →
  x = val.
Proof.
  unfold Session_Set, Session_Get, state, bind, ret.
  destruct (redis_hset _ _ _ e) as [[?|n] e'] eqn:Hset; intros Hd; simplify_eq/=.
  apply redis_hset_view in Hset.
  destruct (redis_hget _ _ e1) as [[err|v] e'] eqn:Hget; [|intros; simplify_eq/=].
  - destruct (error_is err RedisNil) eqn:Hnil; intros; simplify_eq/=.
    apply redis_hget_nil in Hget; [|done].
    rewrite Hset, lookup_insert_eq in Hget. cbn in Hget.
    by rewrite lookup_insert_eq in Hget.
  - apply redis_hget_view in Hget.
    rewrite Hset, lookup_insert_eq in Hget. cbn in Hget.
    rewrite lookup_insert_eq in Hget. by simplify_eq.
Qed.

End Properties.

(** ** Witnesses *)

Definition alice : User := MkUser 7 42 DeviceMobile false.

Example Build_creates_once_witness :
  ∃ e1, Build sim_format alice sim0 = Done (Some (newSession alice), true, None) e1 ∧
        redis_view e1 !! "synp:session:7:42"
        = Some (RHash {["sign_in_time" := "1000000000"]}).
Proof.
  eexists. split; [reflexivity|].
  edestruct (Build_creates_once (E := Sim) sim_format alice sim0
               (Some (newSession alice)) true None) as (_ & _ & ->);
    [|reflexivity|vm_compute; reflexivity].
  intros s x e'. cbn. unfold sim_reply. cbn. by destruct (s _).
Defined.

Example Session_Set_Get_witness :
  ∃ e1 e2, Session_Set (newSession alice) "k" "v" sim0 = Done None e1 ∧
           Session_Get (newSession alice) "k" e1 = Done ("v", None) e2 ∧ "v" = "v".
Proof.
  do 2 eexists. split; [reflexivity|]. split; [vm_compute; reflexivity|].
  eapply (Session_Set_Get (E := Sim) (newSession alice) "k" "v" sim0); reflexivity.
Defined.
