(* ===== verification/Compression.v ===== *)
(** The compression configuration and the negotiated state
    ([internal/pkg/compression/config.go]). *)

From S2P Require Import Prelude.

(** [compression.Config] *)
Record Config : Type := MkConfig {
  Enabled : bool;
  ServerMaxWindowBits : Z;
  ServerNoContextTakeover : bool;
  ClientMaxWindowBits : Z;
  ClientNoContextTakeover : bool;
  Level : Z;
}.

(** [wsflate.Parameters], by the fields the code sets, and [wsflate.Extension]. *)
Record Parameters : Type := MkParameters {
  p_ServerMaxWindowBits : Z;
  p_ServerNoContextTakeover : bool;
  p_ClientMaxWindowBits : Z;
  p_ClientNoContextTakeover : bool;
}.

Record Extension : Type := MkExtension { e_Parameters : Parameters }.

(** [compression.State] *)
Record State : Type := MkState {
  st_Enabled : bool;
  st_Ext : option Extension;
  st_Params : option Parameters;
}.

Section Operations.

(** The conversion to [wsflate.WindowBits]. *)
Context (WindowBits : Z → Z).

Definition ToParamters (cfg : Config) : Parameters :=
  MkParameters (WindowBits (ServerMaxWindowBits cfg)) (ServerNoContextTakeover cfg)
    (WindowBits (ClientMaxWindowBits cfg)) (ClientNoContextTakeover cfg).

End Operations.
