(* ===== verification/Xws.v ===== *)
(** Reading and writing WebSocket messages ([internal/pkg/xws]), over the frame
    operations of gobwas/ws. *)

From S2P Require Import Prelude Env Sim.

(** ** Writer *)

(** [Writer]: the handle of the connection it writes to, the compressed flag of
    its [messageState], and whether its [flateWriter] is set (else nil). *)
Record Writer : Type := MkWriter {
  w_conn : nat;
  w_compressed : bool;
  w_flate : bool;
}.

Definition NewServerSideWriter (dst : nat) (compressed : bool) : Writer :=
  MkWriter dst compressed (if compressed then true else false).

(** ** Reader *)

Record Reader : Type := MkReader { r_conn : nat }.

Definition NewServerSideReader (conn : nat) : Reader := MkReader conn.

Section Operations.
Context {E : Type} `{Net E}.

Definition writeCompressed (w : Writer) (payload : bytes) : go E (Z * option error) :=
  if w_flate w then
    modify (flw_reset (w_conn w)) ;;;
    r <- state (flw_write (w_conn w) payload) ;;
    match r with
    | inl err => ret (0%Z, Some err)
    | inr n =>
        err <- state (flw_close (w_conn w)) ;;
        match err with
        | Some err => ret (0%Z, Some err)
        | None =>
            err <- state (wsw_flush (w_conn w)) ;;
            ret (n, err)
        end
    end
  else panic.

Definition writeUncompressed (w : Writer) (payload : bytes) : go E (Z * option error) :=
  r <- state (wsw_write (w_conn w) payload) ;;
  match r with
  | inl err => ret (0%Z, Some err)
  | inr n =>
      err <- state (wsw_flush (w_conn w)) ;;
      ret (n, err)
  end.

Definition Writer_Write (w : Writer) (payload : bytes) : go E (Z * option error) :=
  if w_compressed w then writeCompressed w payload else writeUncompressed w payload.

(** [Read] skips control frames; each frame takes one unit of fuel. *)
Fixpoint Reader_Read (fuel : nat) (r : Reader) : go E (error + bytes) :=
  match fuel with
  | O => nofuel
  | S fuel' =>
      header <- state (wsr_next_frame (r_conn r)) ;;
      match header with
      | inl err => ret (inl err)
      | inr true =>
          err <- state (wsr_handle_control (r_conn r)) ;;
          match err with
          | Some err => ret (inl err)
          | None => Reader_Read fuel' r
          end
      | inr false =>
          compressed <- state (wsr_compressed (r_conn r)) ;;
          if (compressed : bool) then
            modify (flr_reset (r_conn r)) ;;;
            state (flr_read_all (r_conn r))
          else state (wsr_read_all (r_conn r))
      end
  end.

(** * Lemmas and properties *)

(** A writer as the constructor makes it: it compresses only with a
    [flateWriter] to compress with. *)
Definition Writer_wf (w : Writer) : Prop := w_compressed w = true → w_flate w = true.

Lemma NewServerSideWriter_wf dst b : Writer_wf (NewServerSideWriter dst b).
Proof. unfold Writer_wf. cbn. by intros ->. Qed.

(** A write on a well-formed writer always returns. *)
Lemma Writer_Write_returns w payload e :
  Writer_wf w → ∃ n err e', Writer_Write w payload e = Done (n, err) e'.
Proof.
  intros Hwf. unfold Writer_Write, writeCompressed, writeUncompressed, bind.
  destruct (w_compressed w) eqn:Hc; [rewrite (Hwf Hc)|]; cbn;
    repeat (case_match; simplify_eq/=; eauto).
Qed.

(** Reading on past [k] control frames whose handler succeeds. *)
Inductive skips_control (r : Reader) : E → nat → E → Prop :=
  | skip_done e : skips_control r e 0 e
  | skip_next e e1 e2 k e3 :
      wsr_next_frame (r_conn r) e = (inr true, e1) →
      wsr_handle_control (r_conn r) e1 = (None, e2) →
      skips_control r e2 k e3 →
      skips_control r e (S k) e3.

Lemma Reader_Read_skip r e k e' fuel :
  skips_control r e k e' → Reader_Read (k + fuel) r e = Reader_Read fuel r e'.
Proof.
  induction 1 as [|e e1 e2 k e3 Hn Hh _ IH]; [done|].
  cbn [Nat.add Reader_Read]. unfold bind, state. by rewrite Hn, Hh.
Qed.

(** [Read] returns the payload of the first data frame, whatever control
    frames (pings, pongs) come before it. *)
Theorem Reader_Read_first_data r e k e0 e1 e2 e3 out fuel :
  skips_control r e k e0 →
  wsr_next_frame (r_conn r) e0 = (inr false, e1) →
  wsr_compressed (r_conn r) e1 = (false, e2) →
  wsr_read_all (r_conn r) e2 = (out, e3) →
  k < fuel →
  Reader_Read fuel r e = Done out e3.
Proof.
  intros Hs Hn Hc Hr Hf. assert (fuel = k + S (fuel - k - 1)) as -> by lia.
  rewrite (Reader_Read_skip _ _ _ _ _ Hs).
  cbn [Reader_Read]. unfold bind, state. by rewrite Hn, Hc, Hr.
Qed.

End Operations.

Example Reader_Read_first_data_witness :
  let e := sim_set_script [] [] [] [inr (true, "ping"); inr (true, "pong"); inr (false, "hi")] sim0 in
  2 < 3 ∧ Reader_Read 3 (NewServerSideReader 5) e = Done (inr "hi") sim0.
Proof.
  split; [lia|].
  eapply (Reader_Read_first_data (E := Sim) _ _ 2).
  { do 2 (eapply skip_next; [reflexivity..|]). apply skip_done. }
  all: reflexivity || lia.
Defined.
