(* ===== verification/Conn.v ===== *)
(** One WebSocket connection ([internal/ws/conn/conn.go]).

    The first part translates the methods of [Conn] as code over a heap of
    connections and an environment.  Wherever the code looks at the context, the
    environment may have cancelled it in the meantime ([ctx_poll]).  The second
    part ([Threads]) interleaves the callers of [Send], the two loops and the
    consumer of [Receive] step by step. *)

From S2P Require Import Prelude Env Sim Session Compression Xws.

(** ** Data *)

Definition DefaultReadTiemout : Z := 15 * Second.
Definition DefaultWriteTiemout : Z := 10 * Second.
Definition DefaultSendBufferSize : Z := 256.
Definition DefaultReceiveBufferSize : Z := 256.
Definition DefaultInitRetryInterval : Z := 1 * Second.
Definition DefaultMaxRetryInterval : Z := 5 * Second.
Definition DefaultMaxRetryCount : Z := 3.
Definition DefaultCloseTimeout : Z := Second.
Definition DefaultRateLimit : Z := 10.

(** The fields of [Conn] that options set and nothing else changes. *)
Record ConnParams : Type := MkConnParams {
  readTimeout : Z;
  writeTimeout : Z;
  compressionState : option Compression.State;
  initRetryInterval : Z;
  maxRetryInterval : Z;
  maxRetryCount : Z;
  autoClose : bool;
  limitRate : Z;
  limiter : option Z;
}.

Record Conn : Type := MkConn {
  id : string;
  sess : Session;
  netConn : nat;
  params : ConnParams;
  reader : option Reader;
  writer : option Writer;
  sendChan : chan bytes;
  receiveChan : chan bytes;
  activityTime : Z;
  ctx_done : bool;
  closeOnce : bool;
  closeErr : option error;
}.

Definition set_params (p : ConnParams) (c : Conn) : Conn :=
  MkConn (id c) (sess c) (netConn c) p (reader c) (writer c) (sendChan c) (receiveChan c)
    (activityTime c) (ctx_done c) (closeOnce c) (closeErr c).
Definition set_xws (r : Reader) (w : Writer) (c : Conn) : Conn :=
  MkConn (id c) (sess c) (netConn c) (params c) (Some r) (Some w) (sendChan c) (receiveChan c)
    (activityTime c) (ctx_done c) (closeOnce c) (closeErr c).
Definition set_sendChan (ch : chan bytes) (c : Conn) : Conn :=
  MkConn (id c) (sess c) (netConn c) (params c) (reader c) (writer c) ch (receiveChan c)
    (activityTime c) (ctx_done c) (closeOnce c) (closeErr c).
Definition set_receiveChan (ch : chan bytes) (c : Conn) : Conn :=
  MkConn (id c) (sess c) (netConn c) (params c) (reader c) (writer c) (sendChan c) ch
    (activityTime c) (ctx_done c) (closeOnce c) (closeErr c).
Definition set_activityTime (t : Z) (c : Conn) : Conn :=
  MkConn (id c) (sess c) (netConn c) (params c) (reader c) (writer c) (sendChan c) (receiveChan c)
    t (ctx_done c) (closeOnce c) (closeErr c).
Definition set_ctx_done (c : Conn) : Conn :=
  MkConn (id c) (sess c) (netConn c) (params c) (reader c) (writer c) (sendChan c) (receiveChan c)
    (activityTime c) true (closeOnce c) (closeErr c).
Definition set_closeOnce (c : Conn) : Conn :=
  MkConn (id c) (sess c) (netConn c) (params c) (reader c) (writer c) (sendChan c) (receiveChan c)
    (activityTime c) (ctx_done c) true (closeErr c).
Definition set_closeErr (e : option error) (c : Conn) : Conn :=
  MkConn (id c) (sess c) (netConn c) (params c) (reader c) (writer c) (sendChan c) (receiveChan c)
    (activityTime c) (ctx_done c) (closeOnce c) e.

(** ** Options *)

Definition ConnWithReadTimeout (t : Z) (c : Conn) : Conn :=
  let p := params c in
  set_params (MkConnParams t (writeTimeout p) (compressionState p) (initRetryInterval p)
    (maxRetryInterval p) (maxRetryCount p) (autoClose p) (limitRate p) (limiter p)) c.

Definition ConnWithWriteTimeout (t : Z) (c : Conn) : Conn :=
  let p := params c in
  set_params (MkConnParams (readTimeout p) t (compressionState p) (initRetryInterval p)
    (maxRetryInterval p) (maxRetryCount p) (autoClose p) (limitRate p) (limiter p)) c.

Definition ConnWithCompression (st : Compression.State) (c : Conn) : Conn :=
  let p := params c in
  set_params (MkConnParams (readTimeout p) (writeTimeout p) (Some st) (initRetryInterval p)
    (maxRetryInterval p) (maxRetryCount p) (autoClose p) (limitRate p) (limiter p)) c.

Definition ConnWithRetry (init max count : Z) (c : Conn) : Conn :=
  let p := params c in
  set_params (MkConnParams (readTimeout p) (writeTimeout p) (compressionState p) init
    max count (autoClose p) (limitRate p) (limiter p)) c.

Definition ConnWithReadBuffer (size : Z) (c : Conn) : Conn :=
  set_receiveChan (make_chan size) c.

Definition ConnWithWriteBuffer (size : Z) (c : Conn) : Conn :=
  set_sendChan (make_chan size) c.

Definition ConnWithAutoClose (b : bool) (c : Conn) : Conn :=
  let p := params c in
  set_params (MkConnParams (readTimeout p) (writeTimeout p) (compressionState p)
    (initRetryInterval p) (maxRetryInterval p) (maxRetryCount p) b (limitRate p) (limiter p)) c.

Definition ConnWithRateLimit (rate : Z) (c : Conn) : Conn :=
  if (0 <? rate)%Z then
    let p := params c in
    set_params (MkConnParams (readTimeout p) (writeTimeout p) (compressionState p)
      (initRetryInterval p) (maxRetryInterval p) (maxRetryCount p) (autoClose p) rate (Some rate)) c
  else c.

(** ** The heap of connections *)

Inductive thread : Type :=
  | SendLoop (l : nat)
  | ReceiveLoop (l : nat).

(** The connections by address, the goroutines started on them, and the
    environment. *)
Record World (E : Type) : Type := MkWorld {
  heap : gmap nat Conn;
  next : nat;
  threads : list thread;
  env : E;
}.
Arguments MkWorld {E} heap next threads env.
Arguments heap {E} w.
Arguments next {E} w.
Arguments threads {E} w.
Arguments env {E} w.

#[export] Instance world_env {E : Type} : Part (World E) E := {
  part_get := env;
  part_set e w := MkWorld (heap w) (next w) (threads w) e;
}.

#[export] Instance world_env_spec {E : Type} : PartSpec (World E) E.
Proof. by split; intros []. Qed.

Definition set_heap {E : Type} (h : gmap nat Conn) (w : World E) : World E :=
  MkWorld h (next w) (threads w) (env w).

Section Operations.
Context {E RS : Type}.
Context {ME : MultiErr} {OA : OptApply} `{Retry RS, Sched E, Net E, Redis E}.

Definition deref (l : nat) : go (World E) Conn :=
  o <- gets (λ w, heap w !! l) ;; need o.

Definition assign (l : nat) (f : Conn → Conn) : go (World E) unit :=
  modify (λ w, set_heap (alter f l (heap w)) w).

(** A call that acts on the environment. *)
Definition envcall {A : Type} (f : E → A * E) : go (World E) A := zoom (state f).
Definition envdo (f : E → E) : go (World E) unit := zoom (modify f).

(** Reading [c.ctx.Done()] or [c.ctx.Err()]. *)
Definition ctx_poll (l : nat) : go (World E) bool :=
  c <- deref l ;;
  if ctx_done c then ret true
  else
    b <- envcall (sched_cancelled l) ;;
    if (b : bool) then assign l set_ctx_done ;;; ret true else ret false.

(** ** Methods *)

Definition ID (l : nat) : go (World E) string := c <- deref l ;; ret (id c).
Definition ConnSession (l : nat) : go (World E) Session := c <- deref l ;; ret (sess c).

(** The second case of the [select] in [Send]. *)
Definition send_case (l : nat) (payload : bytes) : go (World E) (option error) :=
  assign l (λ c, set_sendChan (ch_push payload (sendChan c)) c) ;;;
  done <- ctx_poll l ;;
  ret (if (done : bool) then Some (ESentinel ErrConnClosed) else None).

Definition Send (l : nat) (payload : bytes) : go (World E) (option error) :=
  done <- ctx_poll l ;;
  c <- deref l ;;
  match (done : bool), ch_room (sendChan c) with
  | true, false => ret (Some (ESentinel ErrConnClosed))
  | true, true =>
      first <- envcall sched_select ;;
      if (first : bool) then ret (Some (ESentinel ErrConnClosed)) else send_case l payload
  | false, true => send_case l payload
  | false, false => block
  end.

Definition UpdateActivityTime (l : nat) : go (World E) unit :=
  done <- ctx_poll l ;;
  if (done : bool) then ret tt
  else now <- envcall time_now ;; assign l (set_activityTime now).

Definition Close (l : nat) : go (World E) (option error) :=
  c <- deref l ;;
  (if closeOnce c then ret tt
   else
     assign l set_closeOnce ;;;
     now <- envcall time_now ;;
     envdo (net_set_write_deadline (netConn c) (now + DefaultCloseTimeout)) ;;;
     envdo (net_write_close_frame (netConn c)) ;;;
     assign l set_ctx_done ;;;
     err <- envcall (net_close (netConn c)) ;;
     assign l (set_closeErr err) ;;;
     derr <- zoom (Session_Destroy (sess c)) ;;
     assign l (set_closeErr (multierr_append err derr))) ;;;
  c' <- deref l ;; ret (closeErr c').

(** The loop of [trySend], with the state of the retry strategy ([None]: the
    nil strategy); each attempt takes one unit of fuel. *)
Fixpoint trySend_loop (fuel : nat) (l : nat) (payload : bytes) (rs : option RS) :
    go (World E) bool :=
  match fuel with
  | O => nofuel
  | S fuel' =>
      done <- ctx_poll l ;;
      if (done : bool) then ret false else
      c <- deref l ;;
      now <- envcall time_now ;;
      envdo (net_set_write_deadline (netConn c) (now + writeTimeout (params c))) ;;;
      w <- need (writer c) ;;
      r <- zoom (Writer_Write w payload) ;;
      match r.2 with
      | None => ret true
      | Some err =>
          match as_net_error err with
          | Some true =>
              s <- need rs ;;
              match retry_next s with
              | (None, _) => ret false
              | (Some duration, s') =>
                  envdo (sched_wait duration) ;;;
                  done <- ctx_poll l ;;
                  if (done : bool) then ret false else trySend_loop fuel' l payload (Some s')
              end
          | _ => ret false
          end
      end
  end.

Definition trySend (fuel : nat) (l : nat) (payload : bytes) : go (World E) bool :=
  c <- deref l ;;
  trySend_loop fuel l payload
    (retry_new (initRetryInterval (params c)) (maxRetryInterval (params c))
       (maxRetryCount (params c))).

(** The loop of [sendLoop]: it parks when the channel is empty; [wfuel] is the
    fuel of each [trySend]. *)
Fixpoint sendLoop_loop (wfuel fuel : nat) (l : nat) : go (World E) unit :=
  match fuel with
  | O => nofuel
  | S fuel' =>
      done <- ctx_poll l ;;
      c <- deref l ;;
      stop <- (match (done : bool), ch_buf (sendChan c) with
               | true, [] => ret true
               | true, _ :: _ => envcall sched_select
               | false, _ => ret false
               end) ;;
      if (stop : bool) then ret tt else
      match ch_buf (sendChan c) with
      | [] => if ch_closed (sendChan c) then ret tt else block
      | payload :: rest =>
          assign l (λ c, set_sendChan (Chan rest (ch_cap (sendChan c)) (ch_closed (sendChan c))) c) ;;;
          ok <- trySend wfuel l payload ;;
          if (ok : bool) then sendLoop_loop wfuel fuel' l else ret tt
      end
  end.

Definition sendLoop (wfuel fuel : nat) (l : nat) : go (World E) unit :=
  defer (Close l ;;; ret tt) (sendLoop_loop wfuel fuel l).

(** [receiveLoop]; [rfuel] is the fuel of each [Read]. *)
Fixpoint receiveLoop_loop (rfuel fuel : nat) (l : nat) : go (World E) unit :=
  match fuel with
  | O => nofuel
  | S fuel' =>
      c <- deref l ;;
      (match limiter (params c) with
       | Some rate => envdo (ratelimit_take rate)
       | None => ret tt
       end) ;;;
      done <- ctx_poll l ;;
      if (done : bool) then ret tt else
      now <- envcall time_now ;;
      envdo (net_set_read_deadline (netConn c) (now + readTimeout (params c))) ;;;
      rd <- need (reader c) ;;
      r <- zoom (Reader_Read rfuel rd) ;;
      match r with
      | inl err =>
          match as_net_error err with
          | Some true => receiveLoop_loop rfuel fuel' l
          | _ => ret tt   (* closed by the client, or another error: both return *)
          end
      | inr payload =>
          done <- ctx_poll l ;;
          c <- deref l ;;
          stop <- (match (done : bool), ch_room (receiveChan c) with
                   | true, false => ret true
                   | true, true => envcall sched_select
                   | false, true => ret false
                   | false, false => block
                   end) ;;
          if (stop : bool) then ret tt else
          if ch_closed (receiveChan c) then panic else
          assign l (λ c, set_receiveChan (ch_push payload (receiveChan c)) c) ;;;
          receiveLoop_loop rfuel fuel' l
      end
  end.

Definition receiveLoop (rfuel fuel : nat) (l : nat) : go (World E) unit :=
  defer (c <- deref l ;;
         (if ch_closed (receiveChan c) then panic
          else assign l (λ c, set_receiveChan (ch_close (receiveChan c)) c)) ;;;
         Close l ;;; ret tt)
    (receiveLoop_loop rfuel fuel l).

(** [NewConn]: defaults, then the options in order, then reader and writer (the
    writer compresses if a compression state says so), then the two loops. *)
Definition NewConn (cid : string) (s : Session) (nc : nat) (opts : list (Conn → Conn)) :
    go (World E) nat :=
  now <- envcall time_now ;;
  let c0 := MkConn cid s nc
    (MkConnParams DefaultReadTiemout DefaultWriteTiemout None DefaultInitRetryInterval
       DefaultMaxRetryInterval DefaultMaxRetryCount false 0 None)
    None None (make_chan DefaultSendBufferSize) (make_chan DefaultReceiveBufferSize)
    now false false None in
  let c := option_apply c0 opts in
  let compressionEnabled :=
    match compressionState (params c) with Some st => st_Enabled st | None => false end in
  let c := set_xws (NewServerSideReader nc) (NewServerSideWriter nc compressionEnabled) c in
  l <- gets next ;;
  modify (λ w, MkWorld (<[l := c]> (heap w)) (S l)
                 (threads w ++ [SendLoop l; ReceiveLoop l]) (env w)) ;;;
  ret l.

End Operations.

(** ** Interleavings *)

Module Threads.

(** Where [sendLoop] is: at its [select], inside [trySend], or returned. *)
Inductive sndpc : Type :=
  | SIdle
  | SBusy (p : bytes)
  | SExit.

(** Where [receiveLoop] is: before or in [Read], at the second [select] with a
    payload in hand, or returned. *)
Inductive rcvpc : Type :=
  | RTop
  | RHold (p : bytes)
  | RExit.

(** A connection with its two loops, and the payloads seen so far: accepted
    by [Send], written to the network, lost in a failed [trySend]; read from the
    network, dropped on cancellation, received by the consumer. *)
Record TS : Type := MkTS {
  t_conn : Conn;
  t_snd : sndpc;
  t_rcv : rcvpc;
  t_sent : list bytes;
  t_wire : list bytes;
  t_lost : list bytes;
  t_read : list bytes;
  t_dropped : list bytes;
  t_got : list bytes;
}.

Inductive label : Type :=
  | LSend (p : bytes)
  | LTake
  | LWrote (ok : bool)
  | LSendStop
  | LRead (p : bytes)
  | LReadFail
  | LDeliver
  | LRecvStop
  | LConsume
  | LCancel.

(** The effect of [Close] on the connection's own fields. *)
Definition close_conn (c : Conn) : Conn := set_ctx_done (set_closeOnce c).

(** [sendLoop] returns: its deferred [Close] runs. *)
Definition snd_exit (s : TS) (lost : list bytes) : TS :=
  MkTS (close_conn (t_conn s)) SExit (t_rcv s) (t_sent s) (t_wire s) lost
    (t_read s) (t_dropped s) (t_got s).

(** [receiveLoop] returns: it closes its channel, which panics if the channel is
    closed already, then runs [Close]. *)
Definition rcv_exit (s : TS) (dropped : list bytes) : outcome TS unit :=
  let c := t_conn s in
  if ch_closed (receiveChan c) then Panicked s
  else Done tt
    (MkTS (close_conn (set_receiveChan (ch_close (receiveChan c)) c)) (t_snd s) RExit
       (t_sent s) (t_wire s) (t_lost s) (t_read s) dropped (t_got s)).

(** One step; [Blocked]: the step is not possible in this state. *)
Definition exec (a : label) (s : TS) : outcome TS unit :=
  let c := t_conn s in
  match a with
  | LSend p =>
      if ch_closed (sendChan c) then Panicked s
      else if ch_room (sendChan c) then
        Done tt (MkTS (set_sendChan (ch_push p (sendChan c)) c) (t_snd s) (t_rcv s)
                   (t_sent s ++ [p]) (t_wire s) (t_lost s) (t_read s) (t_dropped s) (t_got s))
      else Blocked s
  | LTake =>
      match t_snd s, ch_buf (sendChan c) with
      | SIdle, p :: rest =>
          Done tt (MkTS (set_sendChan (Chan rest (ch_cap (sendChan c)) (ch_closed (sendChan c))) c)
                     (SBusy p) (t_rcv s) (t_sent s) (t_wire s) (t_lost s)
                     (t_read s) (t_dropped s) (t_got s))
      | _, _ => Blocked s
      end
  | LWrote ok =>
      match t_snd s with
      | SBusy p =>
          if ok then
            Done tt (MkTS c SIdle (t_rcv s) (t_sent s) (t_wire s ++ [p]) (t_lost s)
                       (t_read s) (t_dropped s) (t_got s))
          else Done tt (snd_exit s (t_lost s ++ [p]))
      | _ => Blocked s
      end
  | LSendStop =>
      match t_snd s, ctx_done c with
      | SIdle, true => Done tt (snd_exit s (t_lost s))
      | _, _ => Blocked s
      end
  | LRead p =>
      match t_rcv s with
      | RTop =>
          Done tt (MkTS c (t_snd s) (RHold p) (t_sent s) (t_wire s) (t_lost s)
                     (t_read s ++ [p]) (t_dropped s) (t_got s))
      | _ => Blocked s
      end
  | LReadFail =>
      match t_rcv s with RTop => rcv_exit s (t_dropped s) | _ => Blocked s end
  | LDeliver =>
      match t_rcv s with
      | RHold p =>
          if ch_closed (receiveChan c) then Panicked s
          else if ch_room (receiveChan c) then
            Done tt (MkTS (set_receiveChan (ch_push p (receiveChan c)) c) (t_snd s) RTop
                       (t_sent s) (t_wire s) (t_lost s) (t_read s) (t_dropped s) (t_got s))
          else Blocked s
      | _ => Blocked s
      end
  | LRecvStop =>
      match t_rcv s, ctx_done c with
      | RTop, true => rcv_exit s (t_dropped s)
      | RHold p, true => rcv_exit s (t_dropped s ++ [p])
      | _, _ => Blocked s
      end
  | LConsume =>
      match ch_buf (receiveChan c) with
      | p :: rest =>
          Done tt (MkTS (set_receiveChan
                           (Chan rest (ch_cap (receiveChan c)) (ch_closed (receiveChan c))) c)
                     (t_snd s) (t_rcv s) (t_sent s) (t_wire s) (t_lost s)
                     (t_read s) (t_dropped s) (t_got s ++ [p]))
      | [] => Blocked s
      end
  | LCancel =>
      Done tt (MkTS (set_ctx_done c) (t_snd s) (t_rcv s) (t_sent s) (t_wire s) (t_lost s)
                 (t_read s) (t_dropped s) (t_got s))
  end.

Definition step (s s' : TS) : Prop := ∃ a, exec a s = Done tt s'.

(** The loops just started on a connection. *)
Definition start (c : Conn) : TS := MkTS c SIdle RTop [] [] [] [] [] [].

Definition fresh_conn (c : Conn) : Prop :=
  ch_buf (sendChan c) = [] ∧ ch_closed (sendChan c) = false ∧
  ch_buf (receiveChan c) = [] ∧ ch_closed (receiveChan c) = false.

Definition inflight (p : sndpc) : list bytes :=
  match p with SBusy x => [x] | _ => [] end.
Definition inhand (p : rcvpc) : list bytes :=
  match p with RHold x => [x] | _ => [] end.

End Threads.

(** * Lemmas and properties *)

Section Basic.
Context {E : Type}.
Implicit Types (w : World E) (c : Conn) (l : nat).

Lemma deref_done l w c : heap w !! l = Some c → deref l w = Done c w.
Proof. unfold deref, bind, gets, need. cbn. by intros ->. Qed.

Lemma assign_done l f w : assign l f w = Done tt (set_heap (alter f l (heap w)) w).
Proof. done. Qed.

Lemma envcall_done {A} (f : E → A * E) w :
  envcall f w = Done (f (env w)).1 (MkWorld (heap w) (next w) (threads w) (f (env w)).2).
Proof. unfold envcall, zoom. cbn. by destruct (f (env w)). Qed.

Lemma envdo_done (f : E → E) w :
  envdo f w = Done tt (MkWorld (heap w) (next w) (threads w) (f (env w))).
Proof. done. Qed.

Lemma zoom_done {A} (m : go E A) w a e :
  m (env w) = Done a e →
  zoom (S := World E) m w = Done a (MkWorld (heap w) (next w) (threads w) e).
Proof. unfold zoom. cbn. by intros ->. Qed.

End Basic.

(** Rewrites the primitive steps at the head of the goal. *)
Ltac conn_step :=
  first [ erewrite bind_done by (apply deref_done; first [eassumption|by simplify_map_eq])
        | erewrite bind_done by apply assign_done
        | erewrite bind_done by apply envcall_done
        | erewrite bind_done by apply envdo_done
        | erewrite bind_done by reflexivity ]; cbn beta iota.

Section Properties.
Context {E RS : Type}.
Context {ME : MultiErr} {OA : OptApply} `{Sched E, Net E, Redis E}.
Implicit Types (w : World E) (c : Conn) (l : nat).

(** [ctx_poll] answers, and changes nothing of the heap but the flag it sets. *)
Lemma ctx_poll_done l w c :
  heap w !! l = Some c →
  ∃ b w', ctx_poll l w = Done b w' ∧
    heap w' !! l = Some (if b then set_ctx_done c else c) ∧
    (ctx_done c = true → b = true ∧ w' = w).
Proof.
  intros Hl. unfold ctx_poll. conn_step.
  destruct (ctx_done c) eqn:Hd.
  - exists true, w. split_and!; [done| |done].
    rewrite Hl. f_equal. by destruct c; cbn in *; subst.
  - conn_step. destruct (sched_cancelled l (env w)).1.
    + exists true. eexists. split_and!; [reflexivity| |done].
      cbn. by rewrite lookup_alter_eq, Hl.
    + exists false. eexists. split_and!; [reflexivity|done|done].
Qed.

Lemma ctx_poll_closed l w c :
  heap w !! l = Some c → ctx_done c = true → ctx_poll l w = Done true w.
Proof.
  intros Hl Hd. destruct (ctx_poll_done l w c Hl) as (b & w' & -> & _ & Hb).
  by destruct (Hb Hd) as [-> ->].
Qed.

Lemma ctx_poll_false l w c w' :
  heap w !! l = Some c → ctx_poll l w = Done false w' →
  heap w' !! l = Some c ∧ ctx_done c = false.
Proof.
  intros Hl Hp. destruct (ctx_poll_done l w c Hl) as (b & w2 & Hp2 & Hl2 & Hb).
  rewrite Hp in Hp2. simplify_eq. split; [done|].
  destruct (ctx_done c); [|done]. by destruct (Hb eq_refl).
Qed.

(** Once the context of a connection is done, [Send] returns
    [ErrConnClosed]: it neither reports success nor parks, whatever the state of
    the buffer and whichever ready case the runtime picks. *)
Theorem Send_closed l payload w c :
  heap w !! l = Some c → ctx_done c = true →
  ∃ w', Send l payload w = Done (Some (ESentinel ErrConnClosed)) w'.
Proof.
  intros Hl Hd. unfold Send, send_case.
  erewrite bind_done by by eapply ctx_poll_closed.
  conn_step. destruct (ch_room (sendChan c)); [|by eexists].
  conn_step. destruct (sched_select (env w)).1; [by eexists|].
  conn_step. erewrite bind_done by
    (eapply ctx_poll_closed; [cbn; by rewrite lookup_alter_eq, Hl|done]).
  by eexists.
Qed.

(** [Send] reports success only for a payload it put at the end of the send
    channel, which had room, on a connection that was still open afterwards. *)
Theorem Send_success l payload w w' :
  Send l payload w = Done None w' →
  ∃ c c', heap w !! l = Some c ∧ heap w' !! l = Some c' ∧
    ctx_done c' = false ∧ ch_room (sendChan c) = true ∧
    sendChan c' = ch_push payload (sendChan c).
Proof.
  unfold Send. intros (d & w1 & Hp & Hs)%bind_done_inv.
  destruct (heap w !! l) as [c|] eqn:Hl;
    [|by unfold ctx_poll, deref, bind, gets, need in Hp; cbn in Hp; rewrite Hl in Hp].
  destruct (ctx_poll_done l w c Hl) as (b & w1' & Hp' & Hl1 & Hd1).
  rewrite Hp in Hp'. injection Hp' as <- <-.
  erewrite (bind_done (deref l)) in Hs by by apply deref_done.
  assert (sendChan (if d then set_ctx_done c else c) = sendChan c) as Hsc by by destruct d.
  assert (∀ w2, heap w2 !! l = Some (if d then set_ctx_done c else c) →
    send_case l payload w2 = Done None w' → ch_room (sendChan c) = true →
    ∃ c', heap w' !! l = Some c' ∧ ctx_done c' = false ∧
      sendChan c' = ch_push payload (sendChan c)) as Hcase.
  { intros w2 Hl2 Hc Hroom. unfold send_case in Hc.
    erewrite bind_done in Hc by apply assign_done.
    apply bind_done_inv in Hc as ([] & w3 & Hp3 & Hc); simplify_eq/=.
    eapply ctx_poll_false in Hp3; [|by cbn; rewrite lookup_alter_eq, Hl2].
    destruct Hp3 as [Hl3 Hd3]. eexists. split_and!; [exact Hl3|done|cbn; by rewrite Hsc]. }
  rewrite Hsc in Hs.
  destruct (ch_room (sendChan c)) eqn:Hroom; [|by destruct d].
  assert (∃ c', heap w' !! l = Some c' ∧ ctx_done c' = false ∧
    sendChan c' = ch_push payload (sendChan c)) as (c' & Hl' & Hd' & Hb').
  { destruct d; [|eauto].
    erewrite bind_done in Hs by apply envcall_done.
    destruct (sched_select (env w1)).1; [done|].
    eapply Hcase; [|exact Hs|done]. done. }
  by exists c, c'.
Qed.

(** With room in the send channel [Send] returns. *)
Lemma Send_returns l payload w c :
  heap w !! l = Some c → ch_room (sendChan c) = true → ∃ r w', Send l payload w = Done r w'.
Proof.
  intros Hl Hroom. unfold Send. destruct (ctx_poll_done l w c Hl) as (d & w1 & Hp & Hl1 & _).
  assert (∀ w2 c2, heap w2 !! l = Some c2 → ∃ r w', send_case l payload w2 = Done r w') as Hcase.
  { intros w2 c2 Hl2. unfold send_case. conn_step.
    match goal with |- context [bind (ctx_poll l) _ ?w3] =>
      destruct (ctx_poll_done l w3 (set_sendChan (ch_push payload (sendChan c2)) c2)) as (d2 & w4 & Hp2 & _)
    end; [cbn; by rewrite lookup_alter_eq, Hl2|].
    erewrite bind_done by exact Hp2. by eexists _, _. }
  erewrite bind_done by exact Hp. erewrite (bind_done (deref l)) by (apply deref_done; exact Hl1).
  destruct d; cbn [sendChan set_ctx_done]; rewrite Hroom; [|by eapply Hcase].
  conn_step. destruct (sched_select (env w1)).1; [by eexists _, _|]. by eapply Hcase.
Qed.

(** What the first [Close] does to the outside: a write deadline, a close frame,
    the network connection closed, the session deleted, in this order. *)
Definition close_effects (c : Conn) (e : E) : option error * E :=
  let '(now, e1) := time_now e in
  let e2 := net_set_write_deadline (netConn c) (now + DefaultCloseTimeout) e1 in
  let e3 := net_write_close_frame (netConn c) e2 in
  let '(err, e4) := net_close (netConn c) e3 in
  let '(r, e5) := redis_del (sess_key (sess c)) e4 in
  (multierr_append err
     match r with
     | inl x => Some (errorf_pair (ESentinel ErrSessionDestroy) x)
     | inr _ => None
     end, e5).

Lemma Close_first l w c :
  heap w !! l = Some c → closeOnce c = false →
  Close l w =
    Done (close_effects c (env w)).1
      (MkWorld (alter (λ x, set_closeErr (close_effects c (env w)).1
                              (set_ctx_done (set_closeOnce x))) l (heap w))
         (next w) (threads w) (close_effects c (env w)).2).
Proof.
  intros Hl Ho. unfold Close, close_effects. conn_step. rewrite Ho.
  unfold Session_Destroy, bind, envcall, envdo, zoom, deref, assign, gets, need, state, modify.
  cbn. destruct (time_now (env w)) as [now e1]. cbn.
  destruct (net_close _ _) as [err e4] eqn:Hn. cbn.
  destruct (redis_del _ e4) as [r e5] eqn:Hr. cbn.
  rewrite !alter_alter_eq, lookup_alter_eq, Hl. cbn. done.
Qed.

Lemma Close_again l w c :
  heap w !! l = Some c → closeOnce c = true → Close l w = Done (closeErr c) w.
Proof. intros Hl Ho. unfold Close. conn_step. rewrite Ho. conn_step. by conn_step. Qed.

(** [Close] closes once: the first call sends the close frame, cancels the
    context, closes the network connection and destroys the session, and returns
    both errors combined; every later call returns that error and does
    nothing. *)
Theorem Close_once l w c :
  heap w !! l = Some c → closeOnce c = false →
  ∃ err w', Close l w = Done err w' ∧
    (err, env w') = close_effects c (env w) ∧
    (∃ c', heap w' !! l = Some c' ∧ ctx_done c' = true) ∧
    (∀ l', l' ≠ l → heap w' !! l' = heap w !! l') ∧
    Close l w' = Done err w'.
Proof.
  intros Hl Ho. rewrite (Close_first l w c Hl Ho).
  eexists _, _. split; [reflexivity|]. cbn.
  rewrite lookup_alter_eq, Hl. cbn. split_and!.
  - by destruct (close_effects c (env w)).
  - eauto.
  - intros l' Hne. by rewrite lookup_alter_ne.
  - erewrite Close_again; [|cbn; by rewrite lookup_alter_eq, Hl|done]. done.
Qed.

(** Closing one device's connection ends the session of the user's other
    devices: the session is kept under a key of the user alone, and [Close]
    deletes it (or reports that it could not); the other connection stays open,
    without a session. *)
Theorem Close_ends_shared_session `{!MultiErrSpec, !RedisSpec E} (l l' : nat) (w : World E) (c c' : Conn) :
  heap w !! l = Some c → heap w !! l' = Some c' → l ≠ l' → closeOnce c = false →
  sess c = newSession (sess_user (sess c)) → sess c' = newSession (sess_user (sess c')) →
  same_user (sess_user (sess c)) (sess_user (sess c')) →
  ∃ err w', Close l w = Done err w' ∧ heap w' !! l' = Some c' ∧
    (redis_view (env w') !! sess_key (sess c') = None ∨ opt_is err ErrSessionDestroy = true).
Proof.
  intros Hl Hl' Hne Ho Hs Hs' [Hb Hu]. rewrite (Close_first l w c Hl Ho).
  eexists _, _. split; [reflexivity|]. cbn. split; [by rewrite lookup_alter_ne|].
  unfold close_effects. destruct (time_now (env w)) as [now e1].
  destruct (net_close _ _) as [err e4].
  destruct (redis_del (sess_key (sess c)) e4) as [[x|n] e5] eqn:Ed; cbn [fst snd].
  - right. destruct err as [a|]; [|by rewrite multierr_nil_l].
    destruct (multierr_is a (errorf_pair (ESentinel ErrSessionDestroy) x)) as (y & -> & Hy).
    cbn. rewrite Hy. cbn. by rewrite orb_true_r.
  - left. rewrite (redis_del_view _ _ _ _ Ed), Hs, Hs'. cbn. unfold SessionKey. rewrite Hb, Hu.
    apply lookup_delete_eq.
Qed.

(** A connection as [NewConn] leaves it: its reader and writer are set. *)
Definition conn_wf (c : Conn) : Prop :=
  is_Some (reader c) ∧ ∃ wr, writer c = Some wr ∧ Writer_wf wr.

Context `{RetrySpec RS}.

Lemma ctx_poll_wf l w c :
  heap w !! l = Some c → conn_wf c →
  ∃ b w' c', ctx_poll l w = Done b w' ∧ heap w' !! l = Some c' ∧ conn_wf c' ∧
    (b = true ∨ c' = c).
Proof.
  intros Hl Hwf. destruct (ctx_poll_done l w c Hl) as (b & w' & Hp & Hl' & _).
  exists b, w', (if b then set_ctx_done c else c).
    split; [exact Hp|split; [exact Hl'|split; [by destruct b|destruct b; auto]]].
Qed.

Lemma trySend_loop_returns l payload rs : ∀ fuel s w c,
  rs = Some s → retry_budget s < fuel → heap w !! l = Some c → conn_wf c →
  ∃ b w', trySend_loop fuel l payload rs w = Done b w'.
Proof.
  intros fuel. revert rs.
  induction fuel as [|fuel IH]; intros rs s w c -> Hb Hl Hwf; [lia|].
  cbn [trySend_loop].
  destruct (ctx_poll_wf l w c Hl Hwf) as (b & w1 & c1 & Hp & Hl1 & Hwf1 & Hc1).
  erewrite bind_done by apply Hp. destruct b; [by do 2 eexists|].
  do 3 conn_step. destruct Hwf1 as (Hrd & wr & Hwr & Hwrf). rewrite Hwr. conn_step.
  edestruct (Writer_Write_returns wr payload) as (n & err & e' & Hw); [done|].
  erewrite bind_done by (apply zoom_done; exact Hw). cbn.
  destruct err as [err|]; [|by do 2 eexists].
  destruct (as_net_error err) as [[]|]; [|by do 2 eexists..].
  conn_step. destruct (retry_next s) as [[d|] s'] eqn:Hnext; [|by do 2 eexists].
  apply retry_next_budget in Hnext. conn_step.
  edestruct (ctx_poll_wf l) as (b & w3 & c3 & Hp3 & Hl3 & Hwf3 & _);
    [|split; [exact Hrd|by eauto]|].
  2: { erewrite bind_done by exact Hp3. destruct b; [by do 2 eexists|].
       eapply IH; [done|lia|exact Hl3|done]. }
  exact Hl1.
Qed.

(** C27. [trySend] always returns, after at most [maxRetryCount + 1] writes: that
    much fuel is enough on a connection made by [NewConn] whose retry strategy
    was created with a positive maximum, whatever the network answers. *)
Theorem trySend_bounded l payload w c rs fuel :
  heap w !! l = Some c → conn_wf c →
  (0 < maxRetryCount (params c))%Z →
  retry_new (initRetryInterval (params c)) (maxRetryInterval (params c))
    (maxRetryCount (params c)) = Some rs →
  Z.to_nat (maxRetryCount (params c)) + 1 ≤ fuel →
  ∃ b w', trySend fuel l payload w = Done b w'.
Proof.
  intros Hl Hwf Hm Hrs Hf. unfold trySend. conn_step.
  eapply trySend_loop_returns; [exact Hrs| |exact Hl|done].
  pose proof (retry_new_budget _ _ _ _ Hm Hrs). lia.
Qed.

(** [trySend] retries timeouts and nothing else: a first write that succeeds
    makes it return [true], and one that fails with an error that is not a
    timeout makes it return [false], both without a second write. *)
Theorem trySend_only_timeouts l payload w c w1 wr n err e' fuel :
  heap w !! l = Some c → writer c = Some wr →
  ctx_poll l w = Done false w1 →
  (let '(now, e1) := time_now (env w1) in
   Writer_Write wr payload
     (net_set_write_deadline (netConn c) (now + writeTimeout (params c)) e1))
    = Done (n, err) e' →
  match err with Some x => as_net_error x ≠ Some true | None => True end →
  trySend (S fuel) l payload w
    = Done (match err with None => true | Some _ => false end)
        (MkWorld (heap w1) (next w1) (threads w1) e').
Proof.
  intros Hl Hwr Hp Hw Herr. unfold trySend. conn_step. cbn [trySend_loop].
  erewrite bind_done by exact Hp. cbn beta iota.
  destruct (ctx_poll_false l w c w1 Hl Hp) as [Hl1 _].
  do 3 conn_step. rewrite Hwr. conn_step.
  destruct (time_now (env w1)) as [now e1] eqn:Ht.
  erewrite bind_done by (apply zoom_done; exact Hw). cbn.
  destruct err as [x|]; [|done].
  by destruct (as_net_error x) as [[]|].
Qed.

End Properties.

(** ** The interleavings *)

Module ThreadsFacts.
Import Threads.

(** What every reachable state satisfies: payloads are neither reordered,
    duplicated nor invented in either direction; the send channel stays open;
    the receive channel is closed exactly when its only writer has returned;
    a loop that has returned has cancelled the context. *)
Record inv (s : TS) : Prop := Inv {
  inv_sent : t_sent s = t_wire s ++ t_lost s ++ inflight (t_snd s) ++ ch_buf (sendChan (t_conn s));
  inv_lost : t_lost s ≠ [] → t_snd s = SExit;
  inv_read : t_read s = t_got s ++ ch_buf (receiveChan (t_conn s)) ++ inhand (t_rcv s) ++ t_dropped s;
  inv_dropped : t_dropped s ≠ [] → t_rcv s = RExit;
  inv_send_open : ch_closed (sendChan (t_conn s)) = false;
  inv_recv_closed : ch_closed (receiveChan (t_conn s)) = true ↔ t_rcv s = RExit;
  inv_snd_exit : t_snd s = SExit → ctx_done (t_conn s) = true;
  inv_rcv_exit : t_rcv s = RExit → ctx_done (t_conn s) = true;
}.

Lemma inv_start c : fresh_conn c → inv (start c).
Proof.
  intros (H1 & H2 & H3 & H4). split; cbn; rewrite ?H1, ?H2, ?H3, ?H4; done.
Qed.

(** The lists of an empty-unless-exited history are empty in any other state. *)
Lemma nil_unless {A P : Type} (l : list A) (x y : P) :
  (l ≠ [] → x = y) → x ≠ y → l = [].
Proof. intros H Hne. destruct l; [done|]. by destruct Hne; apply H. Qed.

(** The eight parts of the invariant for an updated state: equations between
    lists by reassociation, the others by cases on the program counters. *)
Ltac list_tac :=
  cbn in *;
  repeat match goal with
  | H : t_snd _ = _ |- _ => rewrite H in *; clear H
  | H : t_rcv _ = _ |- _ => rewrite H in *; clear H
  | H : t_lost _ = [] |- _ => rewrite H in *; clear H
  | H : t_dropped _ = [] |- _ => rewrite H in *; clear H
  | H : ch_buf _ = _ |- _ => rewrite H in *; clear H
  end; cbn in *;
  try match goal with
  | H : t_sent ?s = _ |- context [t_sent ?s] => rewrite H
  | H : t_read ?s = _ |- context [t_read ?s] => rewrite H
  end;
  cbn; rewrite ?app_nil_r, <- ?app_assoc; cbn; rewrite ?app_nil_r; reflexivity.

Ltac inv_tac :=
  split; cbn;
  first [ assumption | congruence | solve [intuition congruence] | list_tac | idtac ].

Lemma inv_rcv_exit_step s dropped :
  inv s → t_rcv s ≠ RExit →
  t_read s = t_got s ++ ch_buf (receiveChan (t_conn s)) ++ dropped →
  ∃ s', rcv_exit s dropped = Done tt s' ∧ inv s'.
Proof.
  intros [] Hne Hread. unfold rcv_exit.
  destruct (ch_closed (receiveChan (t_conn s))) eqn:Hc; [by destruct inv_recv_closed0; intuition congruence|].
  eexists. split; [done|]. inv_tac.
Qed.

Lemma inv_snd_exit_step s lost :
  inv s → t_sent s = t_wire s ++ lost ++ ch_buf (sendChan (t_conn s)) →
  inv (snd_exit s lost).
Proof. intros [] Hsent. inv_tac. Qed.

(** One step from a state of the invariant never panics and keeps it. *)
Lemma inv_step a s : 
  inv s → (∃ s', exec a s = Done tt s' ∧ inv s') ∨ exec a s = Blocked s.
Proof.
  intros Hi. pose proof Hi as [].
  destruct a as [p| |ok| |p| | | | |]; cbn.
  - rewrite inv_send_open0. destruct (ch_room _); [|by right].
    left; eexists; split; [done|]. inv_tac.
  - destruct (t_snd s) eqn:Hs; [|by right..].
    destruct (ch_buf (sendChan (t_conn s))) eqn:Hb; [by right|].
    assert (t_lost s = []) as Hl by (eapply nil_unless; [exact inv_lost0|done]).
    left; eexists; split; [done|]. inv_tac.
  - destruct (t_snd s) as [|p|] eqn:Hs; [by right| |by right].
    assert (t_lost s = []) as Hl by (eapply nil_unless; [exact inv_lost0|done]).
    destruct ok; left; eexists; (split; [done|]).
    + inv_tac.
    + apply inv_snd_exit_step; [done|]. rewrite inv_sent0, Hl. by cbn.
  - destruct (t_snd s) eqn:Hs; [|by right..].
    destruct (ctx_done _); [|by right].
    left; eexists; split; [done|]. by apply inv_snd_exit_step.
  - destruct (t_rcv s) eqn:Hs; [|by right..].
    assert (t_dropped s = []) as Hl by (eapply nil_unless; [exact inv_dropped0|done]).
    left; eexists; split; [done|]. inv_tac.
  - destruct (t_rcv s) eqn:Hs; [|by right..].
    destruct (inv_rcv_exit_step s (t_dropped s)) as (s' & He & Hi'); [done|by rewrite Hs| |eauto].
    by rewrite inv_read0.
  - destruct (t_rcv s) as [|p|] eqn:Hs; [by right| |by right].
    destruct (ch_closed (receiveChan (t_conn s))) eqn:Hc; [by destruct inv_recv_closed0; intuition congruence|].
    destruct (ch_room _); [|by right].
    left; eexists; split; [done|]. inv_tac.
  - destruct (t_rcv s) as [|p|] eqn:Hs; [| |by right];
      (destruct (ctx_done _); [|by right]).
    + destruct (inv_rcv_exit_step s (t_dropped s)) as (s' & He & Hi');
        [done|by rewrite Hs|by rewrite inv_read0|eauto].
    + assert (t_dropped s = []) as Hl by (eapply nil_unless; [exact inv_dropped0|done]).
      destruct (inv_rcv_exit_step s (t_dropped s ++ [p])) as (s' & He & Hi');
        [done|by rewrite Hs| |eauto].
      by rewrite inv_read0, Hl.
  - destruct (ch_buf (receiveChan (t_conn s))) eqn:Hb; [by right|].
    left; eexists; split; [done|]. inv_tac.
  - left; eexists; split; [done|]. inv_tac.
Qed.

Lemma inv_reachable c s : fresh_conn c → rtc step (start c) s → inv s.
Proof.
  intros Hc. revert s. apply rtc_ind_r; [by apply inv_start|].
  intros s1 s2 _ [a Ha] Hi. destruct (inv_step a s1 Hi) as [(s' & He & Hi')|He]; congruence.
Qed.

(** A sequence of steps. *)
Fixpoint run (l : list label) (s : TS) : outcome TS unit :=
  match l with
  | [] => Done tt s
  | a :: l' => match exec a s with Done _ s' => run l' s' | o => o end
  end.

Lemma run_rtc l s s' : run l s = Done tt s' → rtc step s s'.
Proof.
  revert s. induction l as [|a l IH]; cbn; intros s Hr; [by simplify_eq|].
  destruct (exec a s) as [[] s1| | |] eqn:He; [|done..].
  eapply rtc_l; [by exists a|auto].
Qed.

(** The queues keep to their capacities, and at most one payload at a time is
    outside a queue in each direction. *)
Record bounded (c : Conn) (s : TS) : Prop := Bounded {
  bd_send_cap : ch_cap (sendChan (t_conn s)) = ch_cap (sendChan c);
  bd_recv_cap : ch_cap (receiveChan (t_conn s)) = ch_cap (receiveChan c);
  bd_send : length (ch_buf (sendChan (t_conn s))) ≤ ch_cap (sendChan c);
  bd_recv : length (ch_buf (receiveChan (t_conn s))) ≤ ch_cap (receiveChan c);
  bd_lost : length (t_lost s) + length (inflight (t_snd s)) ≤ 1;
  bd_dropped : length (t_dropped s) + length (inhand (t_rcv s)) ≤ 1;
}.

Lemma room_lt {A : Type} (ch : chan A) : ch_room ch = true → length (ch_buf ch) < ch_cap ch.
Proof. apply bool_decide_eq_true. Qed.

Lemma bounded_step c a s s' : inv s → bounded c s → exec a s = Done tt s' → bounded c s'.
Proof.
  intros Hi [] He. pose proof (inv_lost s Hi) as Hlost. pose proof (inv_dropped s Hi) as Hdrop.
  destruct a; cbn in He; unfold rcv_exit in He; repeat case_match; simplify_eq;
    repeat match goal with
      | H : ch_room _ = true |- _ => apply room_lt in H
      | H : t_snd s = _ |- _ => rewrite H in *
      | H : t_rcv s = _ |- _ => rewrite H in *
      | H : ch_buf _ = _ :: _ |- _ => rewrite H in *
    end;
    split; cbn in *; rewrite ?length_app in *; cbn in *; try congruence; try lia.
  - by rewrite (nil_unless _ _ _ Hlost).
  - by rewrite (nil_unless _ _ _ Hdrop).
Qed.

Lemma bounded_reachable c s : fresh_conn c → rtc step (start c) s → bounded c s.
Proof.
  intros Hc Hs. assert (inv s ∧ bounded c s) as [_ ?]; [|done].
  apply (rtc_preserve step (λ s, inv s ∧ bounded c s)) with (s := start c); [|done|].
  - intros s1 s2 [Hi Hb] [a Ha]. split; [|by eapply bounded_step].
    destruct (inv_step a s1 Hi) as [(s3 & He & Hi')|He]; congruence.
  - split; [by apply inv_start|]. destruct Hc as (H1 & _ & H3 & _).
    split; cbn; rewrite ?H1, ?H3; cbn; lia.
Qed.

(** Backpressure bounds what is under way: neither queue exceeds the size it was
    made with, and what [Send] accepted and is not on the wire, like what was read and
    the consumer has not got, is at most a queue and one payload. *)
Theorem threads_bounded c s :
  fresh_conn c → rtc step (start c) s →
  length (ch_buf (sendChan (t_conn s))) ≤ ch_cap (sendChan c) ∧
  length (ch_buf (receiveChan (t_conn s))) ≤ ch_cap (receiveChan c) ∧
  length (t_sent s) ≤ length (t_wire s) + ch_cap (sendChan c) + 1 ∧
  length (t_read s) ≤ length (t_got s) + ch_cap (receiveChan c) + 1.
Proof.
  intros Hc Hs. destruct (bounded_reachable c s Hc Hs). pose proof (inv_reachable c s Hc Hs) as Hi.
  rewrite (inv_sent s Hi), (inv_read s Hi), !length_app. split_and!; lia.
Qed.

(** C21. In every interleaving of senders, both loops, the consumer and
    cancellation: what is on the wire is a prefix of what [Send] accepted, what the
    consumer got is a prefix of what was read, and no step panics (no send on, and
    no second close of, a closed channel). *)
Theorem threads_fifo c s :
  fresh_conn c → rtc step (start c) s →
  t_wire s `prefix_of` t_sent s ∧ t_got s `prefix_of` t_read s ∧
  ∀ a s', exec a s ≠ Panicked s'.
Proof.
  intros Hc Hr. pose proof (inv_reachable c s Hc Hr) as Hi. split_and!.
  - rewrite (inv_sent s Hi). apply prefix_app_r. done.
  - rewrite (inv_read s Hi). apply prefix_app_r. done.
  - intros a s' Hp. destruct (inv_step a s Hi) as [(? & He & _)|He]; congruence.
Qed.

(** Once the context is cancelled, both loops can return from wherever they
    are, without help from the consumer or another sender. *)
Theorem threads_stop c s :
  fresh_conn c → rtc step (start c) s → ctx_done (t_conn s) = true →
  ∃ s', rtc step s s' ∧ t_snd s' = SExit ∧ t_rcv s' = RExit ∧
    ch_closed (receiveChan (t_conn s')) = true.
Proof.
  intros Hc Hr Hd. pose proof (inv_reachable c s Hc Hr) as Hi.
  assert (∃ s1, rtc step s s1 ∧ t_snd s1 = SExit ∧ ctx_done (t_conn s1) = true)
    as (s1 & Hr1 & Hs1 & Hd1).
  { destruct (t_snd s) as [|p|] eqn:Hs.
    - eexists. split; [apply rtc_once; exists LSendStop; cbn; by rewrite Hs, Hd|done].
    - eexists. split; [apply rtc_once; exists (LWrote false); cbn; by rewrite Hs|done].
    - by exists s. }
  pose proof (inv_reachable c s1 Hc (transitivity Hr Hr1)) as Hi1.
  destruct (decide (ch_closed (receiveChan (t_conn s1)) = true)) as [Hcl|Hcl].
  { exists s1. split_and!; auto. by apply (inv_recv_closed s1 Hi1). }
  destruct (inv_step LRecvStop s1 Hi1) as [(s2 & He & Hi2)|He].
  - exists s2. assert (t_snd s2 = SExit ∧ t_rcv s2 = RExit) as [H1 H2].
    { cbn in He. unfold rcv_exit in He. repeat case_match; by simplify_eq/=. }
    split_and!; [|done|done|by apply (inv_recv_closed s2 Hi2)].
    etrans; [exact Hr1|]. apply rtc_once. by exists LRecvStop.
  - exfalso. apply Hcl. apply (inv_recv_closed s1 Hi1).
    cbn in He. unfold rcv_exit in He. rewrite Hd1 in He. repeat case_match; done.
Qed.

End ThreadsFacts.

(** ** Witnesses *)

Definition sample_user : User := MkUser 7 42 DeviceMobile false.

Definition sample_params : ConnParams :=
  MkConnParams DefaultReadTiemout DefaultWriteTiemout None DefaultInitRetryInterval
    DefaultMaxRetryInterval DefaultMaxRetryCount false 0 None.

Definition sample_conn : Conn :=
  MkConn "7:42:mobile" (newSession sample_user) 5 sample_params
    (Some (NewServerSideReader 5)) (Some (NewServerSideWriter 5 false))
    (make_chan 256) (make_chan 256) 0 false false None.

Definition sample_world (c : Conn) (e : Sim) : World Sim := MkWorld {[0 := c]} 1 [] e.

(** The phone of [sample_conn]'s user, and the user's laptop. *)
Definition sample_laptop : Conn :=
  let u := MkUser 7 42 DevicePC false in
  MkConn (ConnID u) (newSession u) 6 (params sample_conn) (reader sample_conn)
    (writer sample_conn) (sendChan sample_conn) (receiveChan sample_conn) 0 false false None.
Definition phone_and_laptop : World Sim :=
  MkWorld (<[1 := sample_laptop]> {[0 := sample_conn]}) 2 []
    (sim_set_redis {["synp:session:7:42" := RHash ∅]} sim0).

Example Close_ends_shared_session_witness :
  ∃ err w', Close (ME := sim_multierr) 0 phone_and_laptop = Done err w' ∧
    heap w' !! 1 = Some sample_laptop ∧
    (sim_redis (env w') !! "synp:session:7:42" = None ∨ opt_is err ErrSessionDestroy = true).
Proof.
  destruct (@Close_ends_shared_session Sim sim_multierr _ _ _ sim_multierr_spec _ 0 1
    phone_and_laptop sample_conn sample_laptop) as (err & w' & E & H1 & H2); try done.
  exists err, w'. split; [exact E|]. split; [exact H1|]. exact H2.
Defined.

(** A network whose writes all time out. *)
Definition timeout_err : error := EForeign (Foreign "i/o timeout" (Some true) []).
Definition slow_net : Sim := sim_set_script [] [] (replicate 10 (Some timeout_err)) [] sim0.

Example Send_closed_witness :
  ctx_done (set_ctx_done sample_conn) = true ∧
  ∃ w', Send 0 "x" (sample_world (set_ctx_done sample_conn) sim0)
        = Done (Some (ESentinel ErrConnClosed)) w'.
Proof.
  split; [reflexivity|].
  apply (Send_closed (E := Sim) 0 "x" _ (set_ctx_done sample_conn)); reflexivity.
Defined.

Example Send_success_witness :
  ∃ w' c', Send 0 "x" (sample_world sample_conn sim0) = Done None w' ∧
    heap w' !! 0 = Some c' ∧ ch_buf (sendChan c') = ["x"].
Proof.
  destruct (Send_success (E := Sim) 0 "x" (sample_world sample_conn sim0)
              (final (Send 0 "x" (sample_world sample_conn sim0)))) as (c & c' & Hc & Hc' & _ & _ & Hb);
    [reflexivity|].
  eexists _, c'. split; [reflexivity|]. split; [exact Hc'|].
  rewrite Hb. vm_compute in Hc. by injection Hc as <-.
Defined.

Example Close_once_witness :
  ∃ w', Close (ME := sim_multierr) 0 (sample_world sample_conn sim0) = Done None w' ∧
        Close (ME := sim_multierr) 0 w' = Done None w'.
Proof.
  destruct (@Close_once Sim sim_multierr _ _ _ 0 (sample_world sample_conn sim0) sample_conn
              eq_refl eq_refl) as (err & w' & H1 & H2 & _ & _ & H3).
  assert (err = None) as -> by (vm_compute in H2; by injection H2).
  by exists w'.
Defined.

Example trySend_bounded_witness :
  ∃ w', trySend 4 0 "x" (sample_world sample_conn slow_net) = Done false w'.
Proof.
  destruct (trySend_bounded (E := Sim) (RS := sim_retry) 0 "x"
              (sample_world sample_conn slow_net) sample_conn
              (SimRetry 3 DefaultInitRetryInterval DefaultMaxRetryInterval) 4)
    as (b & w' & Hw).
  - reflexivity.
  - split; [by eexists|]. exists (NewServerSideWriter 5 false). by split.
  - reflexivity.
  - reflexivity.
  - vm_compute. lia.
  - exists w'. rewrite Hw. vm_compute in Hw. by injection Hw as <- _.
Defined.

Example trySend_only_timeouts_witness :
  ∃ w', trySend (RS := sim_retry) 1 0 "x" (sample_world sample_conn sim0) = Done true w'.
Proof.
  eexists.
  eapply (trySend_only_timeouts (E := Sim) (RS := sim_retry) 0 "x"
            (sample_world sample_conn sim0) sample_conn (sample_world sample_conn sim0)
            (NewServerSideWriter 5 false) 1 None); reflexivity || exact I.
Defined.

Definition sample_run : list Threads.label :=
  [Threads.LSend "a"; Threads.LSend "b"; Threads.LTake; Threads.LRead "x";
   Threads.LWrote true; Threads.LDeliver; Threads.LConsume; Threads.LCancel].

Definition sample_ts : Threads.TS :=
  final (ThreadsFacts.run sample_run (Threads.start sample_conn)).

Example threads_fifo_witness :
  Threads.t_wire sample_ts = ["a"] ∧ Threads.t_got sample_ts = ["x"] ∧
  Threads.t_wire sample_ts `prefix_of` Threads.t_sent sample_ts.
Proof.
  split; [reflexivity|]. split; [reflexivity|].
  apply (ThreadsFacts.threads_fifo sample_conn); [by repeat split|].
  apply (ThreadsFacts.run_rtc sample_run). vm_compute. reflexivity.
Defined.

(** "b" is accepted and not on the wire. *)
Example threads_bounded_witness :
  length (Threads.t_sent sample_ts) = 2 ∧
  length (Threads.t_sent sample_ts) ≤ length (Threads.t_wire sample_ts) + ch_cap (sendChan sample_conn) + 1.
Proof.
  split; [reflexivity|].
  apply (ThreadsFacts.threads_bounded sample_conn); [by repeat split|].
  apply (ThreadsFacts.run_rtc sample_run). vm_compute. reflexivity.
Defined.

Example threads_stop_witness :
  ∃ s', rtc Threads.step sample_ts s' ∧ Threads.t_snd s' = Threads.SExit ∧
        Threads.t_rcv s' = Threads.RExit ∧ ch_closed (receiveChan (Threads.t_conn s')) = true.
Proof.
  apply (ThreadsFacts.threads_stop sample_conn); [by repeat split| |reflexivity].
  apply (ThreadsFacts.run_rtc sample_run). vm_compute. reflexivity.
Defined.
