(* ===== verification/Traced.v ===== *)
(** What a connection writes to the network and reads from it.

    Every environment can be observed: [Traced E] is the environment [E] with a log of
    the payloads that pass the frame operations of gobwas/ws ([wsutil], [wsflate]) and of
    how the write ended.  The code under observation is the same; the log records, and
    nothing reads it.  From the log of a stretch of code follow the payloads that were
    written in full ([messages_sent]) and those that were read ([messages_read]). *)

From S2P Require Import Prelude Env Sim Session Xws Conn.

(** ** The log *)

(** On the network connection with the given handle: a payload was given to the writer
    (and it failed, or not); the compressor was closed; the writer was flushed; a payload
    was read. *)
Inductive netev : Type :=
  | EvWrite (conn : nat) (payload : bytes) (ok : bool)
  | EvClose (conn : nat) (ok : bool)
  | EvFlush (conn : nat) (ok : bool)
  | EvRead (conn : nat) (payload : bytes).

(** The payloads that connection [n] was given and then flushed, with no error in
    between; [held] is the one given and not flushed yet. *)
Fixpoint sent_from (held : option bytes) (n : nat) (log : list netev) : list bytes :=
  match log with
  | [] => []
  | EvWrite c p ok :: log' =>
      sent_from (if (c =? n)%nat then if ok then Some p else None else held) n log'
  | EvClose c ok :: log' =>
      sent_from (if (c =? n)%nat && negb ok then None else held) n log'
  | EvFlush c ok :: log' =>
      if (c =? n)%nat
      then match held, ok with
           | Some p, true => p :: sent_from None n log'
           | _, _ => sent_from None n log'
           end
      else sent_from held n log'
  | EvRead _ _ :: log' => sent_from held n log'
  end.

Definition messages_sent : nat → list netev → list bytes := sent_from None.

Definition read_by (n : nat) (ev : netev) : option bytes :=
  match ev with EvRead c p => if (c =? n)%nat then Some p else None | _ => None end.
Definition messages_read (n : nat) (log : list netev) : list bytes := omap (read_by n) log.

(** Whatever is given to a writer, on whichever connection, is one of [ps] on [n]. *)
Definition writes_only (n : nat) (ps : list bytes) (log : list netev) : Prop :=
  Forall (λ ev, match ev with EvWrite c p _ => c = n ∧ p ∈ ps | _ => True end) log.

(** ** The observed environment *)

Record Traced (E : Type) : Type := MkTraced { tr_env : E; tr_log : list netev }.
Arguments MkTraced {E} tr_env tr_log.
Arguments tr_env {E} t.
Arguments tr_log {E} t.

Section Instances.
Context {E : Type}.

(** An operation that is not logged, and one that is. *)
Definition silent {A : Type} (f : E → A * E) (t : Traced E) : A * Traced E :=
  let '(a, e) := f (tr_env t) in (a, MkTraced e (tr_log t)).
Definition silently (f : E → E) (t : Traced E) : Traced E := MkTraced (f (tr_env t)) (tr_log t).
Definition noted {A : Type} (ev : A → list netev) (f : E → A * E) (t : Traced E) : A * Traced E :=
  let '(a, e) := f (tr_env t) in (a, MkTraced e (tr_log t ++ ev a)).

Definition written {A : Type} (n : nat) (p : bytes) (r : error + A) : list netev :=
  [EvWrite n p (match r with inr _ => true | inl _ => false end)].
Definition received (n : nat) (r : error + bytes) : list netev :=
  match r with inr p => [EvRead n p] | inl _ => [] end.
Definition no_error (r : option error) : bool := match r with None => true | Some _ => false end.

#[export] Instance traced_sched `{Sched E} : Sched (Traced E) := {
  time_now := silent time_now;
  sched_select := silent sched_select;
  sched_wait d := silently (sched_wait d);
  ratelimit_take r := silently (ratelimit_take r);
  sched_cancelled l := silent (sched_cancelled l);
  map_order V l := silent (map_order l);
}.

#[export] Instance traced_net `{Net E} : Net (Traced E) := {
  net_set_read_deadline n d := silently (net_set_read_deadline n d);
  net_set_write_deadline n d := silently (net_set_write_deadline n d);
  net_write_close_frame n := silently (net_write_close_frame n);
  net_close n := silent (net_close n);
  wsw_write n p := noted (written n p) (wsw_write n p);
  wsw_flush n := noted (λ r, [EvFlush n (no_error r)]) (wsw_flush n);
  flw_reset n := silently (flw_reset n);
  flw_write n p := noted (written n p) (flw_write n p);
  flw_close n := noted (λ r, [EvClose n (no_error r)]) (flw_close n);
  wsr_next_frame n := silent (wsr_next_frame n);
  wsr_handle_control n := silent (wsr_handle_control n);
  wsr_compressed n := silent (wsr_compressed n);
  wsr_read_all n := noted (received n) (wsr_read_all n);
  flr_reset n := silently (flr_reset n);
  flr_read_all n := noted (received n) (flr_read_all n);
}.

(** A script on the Redis server sees the environment only. *)
#[export] Instance traced_redis `{Redis E} : Redis (Traced E) := {
  redis_setnx k v ttl := silent (redis_setnx k v ttl);
  redis_del k := silent (redis_del k);
  redis_hset k f v := silent (redis_hset k f v);
  redis_hget k f := silent (redis_hget k f);
  redis_eval s t := silent (redis_eval (λ e, let '(r, t') := s (MkTraced e (tr_log t)) in (r, tr_env t'))) t;
  lua_exists k t := lua_exists k (tr_env t);
  lua_hset k fvs := silently (lua_hset k fvs);
}.

End Instances.

(** * Lemmas and properties *)

Lemma messages_read_app n l1 l2 : messages_read n (l1 ++ l2) = messages_read n l1 ++ messages_read n l2.
Proof. apply omap_app. Qed.

Lemma writes_only_app n ps l1 l2 :
  writes_only n ps l1 → writes_only n ps l2 → writes_only n ps (l1 ++ l2).
Proof. apply Forall_app_2. Qed.

Lemma writes_only_mono n ps qs log : ps ⊆ qs → writes_only n ps log → writes_only n qs log.
Proof. intros Hs. apply Forall_impl. intros [] Hp; try done. destruct Hp. split; auto. Qed.

(** A stretch of the log in which connection [n] sent [ps], whatever comes after it, and
    nothing but payloads of [qs] was tried. *)
Record sends (n : nat) (ps qs : list bytes) (log : list netev) : Prop := Sends {
  sd_sent rest : messages_sent n (log ++ rest) = ps ++ messages_sent n rest;
  sd_only : writes_only n qs log;
}.

Lemma sends_nil n qs : sends n [] qs [].
Proof. split; [done|apply Forall_nil_2]. Qed.

Lemma sends_app n ps1 ps2 qs l1 l2 :
  sends n ps1 qs l1 → sends n ps2 qs l2 → sends n (ps1 ++ ps2) qs (l1 ++ l2).
Proof.
  intros [H1 Ho1] [H2 Ho2]. split; [|by apply writes_only_app].
  intros rest. by rewrite <- !app_assoc, H1, H2.
Qed.

Lemma sends_mono n ps qs qs' log : qs ⊆ qs' → sends n ps qs log → sends n ps qs' log.
Proof. intros Hq []. split; [done|]. by eapply writes_only_mono. Qed.

Lemma sends_all n ps qs log : sends n ps qs log → messages_sent n log = ps.
Proof. intros [Hs _]. specialize (Hs []). by rewrite !app_nil_r in Hs. Qed.

Section Facts.
Context {E : Type} `{Sched E, Net E, Redis E}.
Implicit Types (t : Traced E) (w : World (Traced E)).

Definition log_of w : list netev := tr_log (env w).

(** Code that leaves the log alone; code of the environment, and of the world. *)
Definition quiet {A : Type} (m : go (Traced E) A) : Prop :=
  ∀ t a t', m t = Done a t' → tr_log t' = tr_log t.
Definition wquiet {A : Type} (m : go (World (Traced E)) A) : Prop :=
  ∀ w a w', m w = Done a w' → log_of w' = log_of w.

Lemma quiet_silent {A} (f : E → A * E) : quiet (state (silent f)).
Proof. intros t a t'. unfold state, silent. destruct (f (tr_env t)). by intros [= _ <-]. Qed.
Lemma quiet_silently (f : E → E) : quiet (modify (silently f)).
Proof. by intros t a t' [= _ <-]. Qed.
Lemma quiet_ret {A} (a : A) : quiet (ret a).
Proof. by intros t a' t' [= _ <-]. Qed.
Lemma quiet_bind {A B} (m : go (Traced E) A) (k : A → go (Traced E) B) :
  quiet m → (∀ a, quiet (k a)) → quiet (bind m k).
Proof.
  intros Hm Hk t b t' (a & t1 & E1 & E2)%bind_done_inv. rewrite (Hk _ _ _ _ E2). by eapply Hm.
Qed.

Lemma wquiet_ret {A} (a : A) : wquiet (ret a).
Proof. by intros w a' w' [= _ <-]. Qed.
Lemma wquiet_bind {A B} (m : go (World (Traced E)) A) (k : A → go (World (Traced E)) B) :
  wquiet m → (∀ a, wquiet (k a)) → wquiet (bind m k).
Proof.
  intros Hm Hk w b w' (a & w1 & E1 & E2)%bind_done_inv. rewrite (Hk _ _ _ _ E2). by eapply Hm.
Qed.
Lemma wquiet_block {A} : wquiet (@block (World (Traced E)) A).
Proof. by intros w a w'. Qed.
Lemma wquiet_need {A} (o : option A) : wquiet (need o).
Proof. destruct o; [apply wquiet_ret|by intros w a w']. Qed.
Lemma wquiet_zoom {A} (m : go (Traced E) A) : quiet m → wquiet (zoom m).
Proof.
  intros Hm w a w'. unfold zoom. destruct (m (part_get w)) as [b t|?|?|?] eqn:Em; try done.
  intros [= _ <-]. by apply (Hm (env w) b t).
Qed.
Lemma wquiet_gets {A} (f : World (Traced E) → A) : wquiet (gets f).
Proof. by intros w a w' [= _ <-]. Qed.
Lemma wquiet_deref l : wquiet (deref l).
Proof. apply wquiet_bind; [apply wquiet_gets|intros; apply wquiet_need]. Qed.
Lemma wquiet_assign l f : wquiet (assign l f).
Proof. by intros w a w' [= _ <-]. Qed.

End Facts.

Create HintDb quiet.
#[export] Hint Resolve quiet_silent quiet_silently quiet_ret quiet_bind wquiet_ret wquiet_bind wquiet_block
  wquiet_need wquiet_zoom wquiet_gets wquiet_deref wquiet_assign : quiet.
#[export] Hint Extern 2 (wquiet (if ?b then _ else _)) => destruct b : quiet.
#[export] Hint Extern 2 (wquiet (match ?b with _ => _ end)) => destruct b : quiet.
#[export] Hint Extern 2 (quiet (match ?b with _ => _ end)) => destruct b : quiet.
#[export] Hint Extern 3 (quiet (state _)) => apply quiet_silent : quiet.
#[export] Hint Extern 3 (quiet (modify _)) => apply quiet_silently : quiet.

Section Code.
Context {E RS : Type}.
Context {ME : MultiErr} {OA : OptApply} `{Retry RS, Sched E, Net E, Redis E}.
Implicit Types (t : Traced E) (w : World (Traced E)).

Lemma wquiet_ctx_poll l : wquiet (E := E) (ctx_poll l).
Proof. unfold ctx_poll, envcall. auto 10 with quiet. Qed.

Lemma quiet_Destroy s : quiet (E := E) (Session_Destroy s).
Proof. unfold Session_Destroy. auto 10 with quiet. Qed.

Lemma wquiet_Close l : wquiet (E := E) (Close l).
Proof. unfold Close, envcall, envdo. auto 40 using quiet_Destroy with quiet. Qed.

(** A write that succeeds has sent the payload; one that fails has not, though it may
    have given it to the writer. *)
Lemma Writer_Write_log wtr p t n r t' :
  Writer_Write wtr p t = Done (n, r) t' →
  ∃ new, tr_log t' = tr_log t ++ new ∧
    sends (w_conn wtr) (match r with None => [p] | Some _ => [] end) [p] new.
Proof.
  unfold Writer_Write, writeCompressed, writeUncompressed. intros Hw.
  assert (p ∈ [p]) as Hp by by left.
  destruct (w_compressed wtr), (w_flate wtr); unfold bind, state, modify, ret, panic in Hw; cbn in Hw;
    unfold noted, silently in Hw; cbn in Hw; repeat (case_match; simplify_eq/=);
    (eexists; split; [by rewrite <- ?app_assoc|]);
    (split; [intros rest; cbn; by rewrite ?Nat.eqb_refl|unfold writes_only; repeat apply Forall_cons_2; by try apply Forall_nil_2]).
Qed.

(** [Read] answers with the payload it has read, if it has read one. *)
Lemma Reader_Read_log fuel rd t r t' :
  Reader_Read fuel rd t = Done r t' →
  ∃ new, tr_log t' = tr_log t ++ new ∧
    messages_read (r_conn rd) new = match r with inr p => [p] | inl _ => [] end.
Proof.
  revert t. induction fuel as [|fuel IH]; intros t; [done|]. cbn [Reader_Read].
  intros (header & t1 & Hh & Hr)%bind_done_inv. apply quiet_silent in Hh as <-.
  destruct header as [err|[]].
  - injection Hr as <- <-. exists []. by rewrite app_nil_r.
  - apply bind_done_inv in Hr as (err & t2 & Hc & Hr). apply quiet_silent in Hc as <-.
    destruct err as [err|]; [|by apply IH]. injection Hr as <- <-. exists []. by rewrite app_nil_r.
  - apply bind_done_inv in Hr as (compressed & t2 & Hc & Hr). apply quiet_silent in Hc as <-.
    assert (∀ (f : E → (error + bytes) * E) t2,
      state (noted (received (r_conn rd)) f) t2 = Done r t' →
      ∃ new, tr_log t' = tr_log t2 ++ new ∧
        messages_read (r_conn rd) new = match r with inr p => [p] | inl _ => [] end) as Hread.
    { intros f t3. unfold state, noted. destruct (f (tr_env t3)) as [a e]. intros [= -> <-].
      eexists. split; [done|]. destruct r; [done|]. cbn. by rewrite Nat.eqb_refl. }
    destruct compressed; [|exact (Hread (wsr_read_all (r_conn rd)) t2 Hr)].
    apply bind_done_inv in Hr as (u & t3 & Hc & Hr). apply quiet_silently in Hc as <-.
    exact (Hread (flr_read_all (r_conn rd)) t3 Hr).
Qed.

End Code.
