(* ===== verification/ConnLoops.v ===== *)
(** The loops of a connection as written ([Conn.sendLoop], [Conn.receiveLoop],
    [Conn.Send], code over the heap and the environment) refine the step relation
    [Conn.Threads]: a run of the code is a sequence of its steps, so what holds of
    all interleavings holds of it.  For the loops the code runs over an observed network
    ([Traced.v]), so what the step relation calls written and read is what went out to,
    and came in from, the network. *)

From S2P Require Import Prelude Env Sim Session Xws Conn Traced.
Import Threads.

(** A connection of the heap and one of the step relation: the same queues and
    context.  (The step relation has no activity time, close error or readers.) *)
Record sim (c t : Conn) : Prop := SimConn {
  sim_send : sendChan c = sendChan t;
  sim_recv : receiveChan c = receiveChan t;
  sim_done : ctx_done c = ctx_done t;
}.

(** The same reader and writer. *)
Definition same_io (c c' : Conn) : Prop := reader c' = reader c ∧ writer c' = writer c.

#[export] Instance same_io_preorder : PreOrder same_io.
Proof. split; [done|]. intros c1 c2 c3 [] []. split; congruence. Qed.

(** Closing comes with cancelling. *)
Definition closed_ok (c : Conn) : Prop := closeOnce c = true → ctx_done c = true.

(** What the sending side leaves alone, and the receiving side. *)
Record same_recv (s s' : TS) : Prop := SameRecv {
  sr_rcv : t_rcv s' = t_rcv s;
  sr_read : t_read s' = t_read s;
  sr_dropped : t_dropped s' = t_dropped s;
  sr_got : t_got s' = t_got s;
}.
Record same_send (s s' : TS) : Prop := SameSend {
  ss_snd : t_snd s' = t_snd s;
  ss_sent : t_sent s' = t_sent s;
  ss_wire : t_wire s' = t_wire s;
  ss_lost : t_lost s' = t_lost s;
}.

#[export] Instance same_recv_preorder : PreOrder same_recv.
Proof. split; [by intros s|]. intros s1 s2 s3 [] []. split; congruence. Qed.
#[export] Instance same_send_preorder : PreOrder same_send.
Proof. split; [by intros s|]. intros s1 s2 s3 [] []. split; congruence. Qed.

Section Loops.
Context {E RS : Type}.
Context {ME : MultiErr} {OA : OptApply} `{Retry RS, Sched E, Net E, Redis E}.
Implicit Types (w : World E) (c t : Conn) (l : nat) (s : TS).

(** Code that changes connection [l] at most by noticing a cancellation. *)
Definition polls {A : Type} (l : nat) (m : go (World E) A) : Prop :=
  ∀ w c a w', heap w !! l = Some c → m w = Done a w' →
    heap w' !! l = Some c ∨ heap w' !! l = Some (set_ctx_done c).

Lemma polls_ret {A} l (a : A) : polls l (ret a).
Proof. intros w c a' w' Hl [= _ <-]. by left. Qed.
Lemma polls_block {A} l : polls l (@block (World E) A).
Proof. by intros w c a w' Hl. Qed.
Lemma polls_nofuel {A} l : polls l (@nofuel (World E) A).
Proof. by intros w c a w' Hl. Qed.
Lemma polls_bind {A B} l (m : go (World E) A) (k : A → go (World E) B) :
  polls l m → (∀ a, polls l (k a)) → polls l (bind m k).
Proof.
  intros Hm Hk w c b w' Hl (a & w1 & E1 & E2)%bind_done_inv.
  destruct (Hm w c a w1 Hl E1) as [Hl1|Hl1]; [by eapply Hk|].
  destruct (Hk a w1 _ b w' Hl1 E2) as [?|?]; by right.
Qed.
Lemma polls_env l {A} (m : go E A) : polls l (zoom m).
Proof. intros w c a w' Hl. unfold zoom. destruct (m (part_get w)); [|done..]. intros [= _ <-]. by left. Qed.
Lemma polls_need {A} l (o : option A) : polls l (need o).
Proof. destruct o; [apply polls_ret|by intros w c a w' _]. Qed.
Lemma polls_deref l l' : polls l (deref l').
Proof. apply polls_bind; [intros w c a w' Hl [= _ <-]; by left|apply polls_need]. Qed.
Lemma polls_ctx_poll l : polls l (ctx_poll l).
Proof.
  intros w c a w' Hl Hp. destruct (ctx_poll_done l w c Hl) as (b & w2 & Hp2 & Hl2 & _).
  rewrite Hp in Hp2. injection Hp2 as <- <-. destruct a; [by right|by left].
Qed.

Create HintDb polls.
#[local] Hint Resolve polls_ret polls_block polls_nofuel polls_bind polls_env polls_need polls_deref
  polls_ctx_poll : polls.
#[local] Hint Extern 2 (polls _ (if ?b then _ else _)) => destruct b : polls.
#[local] Hint Extern 2 (polls _ (match ?b with _ => _ end)) => destruct b : polls.

Lemma polls_trySend_loop l payload fuel rs : polls l (trySend_loop fuel l payload rs).
Proof.
  revert rs. induction fuel as [|fuel IH]; intros rs; cbn [trySend_loop]; [auto with polls|].
  unfold envcall, envdo. auto 40 with polls.
Qed.

Lemma polls_trySend l payload fuel : polls l (trySend fuel l payload).
Proof. unfold trySend. apply polls_bind; [apply polls_deref|intros; apply polls_trySend_loop]. Qed.

(** Connection [l] of the heap and the state of the step relation agree. *)
Record linked (l : nat) w s c : Prop := Linked {
  lk_heap : heap w !! l = Some c;
  lk_sim : sim c (t_conn s);
  lk_closed : closed_ok c;
}.

Lemma linked_polls {A} l (m : go (World E) A) w s c a w' :
  polls l m → linked l w s c → m w = Done a w' →
  ∃ s' c', rtc step s s' ∧ linked l w' s' c' ∧ same_recv s s' ∧ same_send s s' ∧
    sendChan c' = sendChan c ∧ receiveChan c' = receiveChan c ∧ same_io c c'.
Proof.
  intros Hm [Hl [H1' H2' H3'] Hc] E1. destruct (Hm w c a w' Hl E1) as [Hl'|Hl'].
  - exists s, c. split_and!; try done.
  - assert (exec LCancel s = Done tt (MkTS (set_ctx_done (t_conn s)) (t_snd s) (t_rcv s) (t_sent s)
      (t_wire s) (t_lost s) (t_read s) (t_dropped s) (t_got s))) as Hx by done.
    eexists _, (set_ctx_done c). split_and!; [apply rtc_once; exists LCancel; exact Hx|..]; try done.
Qed.

(** [ctx_poll]: if it answers yes, the context is done. *)
Lemma linked_ctx_poll l w s c b w' :
  linked l w s c → ctx_poll l w = Done b w' →
  ∃ s' c', rtc step s s' ∧ linked l w' s' c' ∧ same_recv s s' ∧ same_send s s' ∧
    sendChan c' = sendChan c ∧ receiveChan c' = receiveChan c ∧ same_io c c' ∧
    (b = true → ctx_done c' = true).
Proof.
  intros Hk E1. destruct (linked_polls l _ w s c b w' (polls_ctx_poll l) Hk E1)
    as (s' & c' & Hs & Hk' & Hr & Hss & Hc1 & Hc2 & Hio).
  exists s', c'. split_and!; try done. intros ->.
  destruct (ctx_poll_done l w c (lk_heap _ _ _ _ Hk)) as (b & w2 & Hp & Hl2 & _).
  rewrite E1 in Hp. injection Hp as <- <-. rewrite (lk_heap _ _ _ _ Hk') in Hl2. by injection Hl2 as ->.
Qed.

Lemma linked_env {A} l (m : go E A) w s c a w' :
  linked l w s c → zoom m w = Done a w' → linked l w' s c.
Proof.
  intros [Hl Hs Hc]. unfold zoom. destruct (m (part_get w)); [|done..]. intros [= _ <-]. by split.
Qed.

Lemma linked_deref l w s c a w' : linked l w s c → deref l w = Done a w' → a = c ∧ w' = w.
Proof. intros [Hl _ _]. rewrite (deref_done l w c Hl). by intros [= <- <-]. Qed.

(** [Close] and the exits of the loops: the context is done. *)
Lemma close_ends l w c r w' :
  heap w !! l = Some c → closed_ok c → Close l w = Done r w' →
  ∃ c', heap w' !! l = Some c' ∧ closed_ok c' ∧ sendChan c' = sendChan c ∧
    receiveChan c' = receiveChan c ∧ ctx_done c' = true.
Proof.
  intros Hl Hc E1. destruct (closeOnce c) eqn:Ho.
  - rewrite (Close_again l w c Hl Ho) in E1. injection E1 as _ <-. exists c. split_and!; auto.
  - rewrite (Close_first l w c Hl Ho) in E1. injection E1 as _ <-. cbn. rewrite lookup_alter_eq, Hl.
    eexists. split; [reflexivity|]. by split_and!.
Qed.

(** ** The sending loop *)

(** One payload is taken, and the step relation takes it too. *)
Lemma linked_take l w s c p rest w' :
  linked l w s c → t_snd s = SIdle → ch_buf (sendChan c) = p :: rest →
  assign l (λ c, set_sendChan (Chan rest (ch_cap (sendChan c)) (ch_closed (sendChan c))) c) w = Done tt w' →
  ∃ s' c', step s s' ∧ linked l w' s' c' ∧ t_snd s' = SBusy p ∧ same_recv s s' ∧
    t_sent s' = t_sent s ∧ t_wire s' = t_wire s ∧ receiveChan c' = receiveChan c ∧ same_io c c' ∧
    sendChan c' = Chan rest (ch_cap (sendChan c)) (ch_closed (sendChan c)).
Proof.
  intros [Hl [H1' H2' H3'] Hc] Hs Hb Ha. injection Ha as <-.
  assert (∃ s', exec LTake s = Done tt s' ∧ s' = MkTS (set_sendChan
    (Chan rest (ch_cap (sendChan (t_conn s))) (ch_closed (sendChan (t_conn s)))) (t_conn s)) (SBusy p)
    (t_rcv s) (t_sent s) (t_wire s) (t_lost s) (t_read s) (t_dropped s) (t_got s)) as (s' & He & ->).
  { cbn. rewrite Hs, <- H1', Hb. by eexists. }
  eexists _, _. split; [by exists LTake|]. split.
  { split; [cbn; by rewrite lookup_alter_eq, Hl|by split; cbn; rewrite ?H1'|exact Hc]. }
  by split_and!.
Qed.

(** The choice between two ready cases. *)
Lemma linked_select {P : Type} l w s c (done : bool) (ps : list P) stop w' :
  linked l w s c →
  (match done, ps with
   | true, [] => ret true
   | true, _ :: _ => envcall sched_select
   | false, _ => ret false
   end) w = Done stop w' →
  linked l w' s c ∧ (stop = true → done = true).
Proof.
  intros Hk. destruct done, ps; intros E1; try (by injection E1 as <- <-).
  split; [by eapply linked_env|done].
Qed.

(** A [trySend] that succeeds is a write of the step relation. *)
Lemma linked_wrote l w s c p :
  linked l w s c → t_snd s = SBusy p →
  ∃ s', step s s' ∧ linked l w s' c ∧ t_snd s' = SIdle ∧ same_recv s s' ∧ t_sent s' = t_sent s ∧
    t_wire s' = t_wire s ++ [p].
Proof.
  intros [Hl Hs Hc] Hp. eexists. split; [exists (LWrote true); cbn; by rewrite Hp|]. by split_and!.
Qed.

(** A turn of the loop that takes a payload. *)
Lemma linked_turn wfuel l w s c p rest ok w1 w' :
  linked l w s c → t_snd s = SIdle → ch_buf (sendChan c) = p :: rest →
  assign l (λ c, set_sendChan (Chan rest (ch_cap (sendChan c)) (ch_closed (sendChan c))) c) w = Done tt w1 →
  trySend wfuel l p w1 = Done ok w' →
  ∃ s' c', rtc step s s' ∧ linked l w' s' c' ∧ same_recv s s' ∧ t_sent s' = t_sent s ∧
    receiveChan c' = receiveChan c ∧ same_io c c' ∧
    sendChan c' = Chan rest (ch_cap (sendChan c)) (ch_closed (sendChan c)) ∧
    if (ok : bool) then t_snd s' = SIdle ∧ t_wire s' = t_wire s ++ [p]
    else t_snd s' = SBusy p ∧ t_wire s' = t_wire s.
Proof.
  intros Hk Hs Hb Ha Ht.
  destruct (linked_take l w s c p rest w1 Hk Hs Hb Ha)
    as (s1 & c1 & Hs1 & Hk1 & Hp1 & Hr1 & Hsent1 & Hw1 & Hrc1 & Hio1 & Hsc1).
  destruct (linked_polls l _ w1 s1 c1 ok w' (polls_trySend l p wfuel) Hk1 Ht)
    as (s2 & c2 & Hs2 & Hk2 & Hr2 & [Hp2 Hsent2 Hw2 _] & Hsc2 & Hrc2 & Hio2).
  assert (same_io c c2) as Hio by by etrans.
  destruct ok.
  - destruct (linked_wrote l w' s2 c2 p Hk2) as (s3 & Hs3 & Hk3 & Hp3 & Hr3 & Hsent3 & Hw3); [congruence|].
    exists s3, c2. split_and!; [|done|by do 2 (etrans; [done|])|congruence|congruence|done|congruence..].
    eapply rtc_l; [exact Hs1|]. by eapply rtc_r.
  - exists s2, c2. split_and!; [by eapply rtc_l|done|by etrans|congruence|congruence|done|congruence..].
Qed.

(** ** The receiving loop *)

Lemma linked_read l w s c p :
  linked l w s c → t_rcv s = RTop →
  ∃ s', step s s' ∧ linked l w s' c ∧ t_rcv s' = RHold p ∧ same_send s s' ∧
    t_read s' = t_read s ++ [p] ∧ t_got s' = t_got s ∧ t_dropped s' = t_dropped s.
Proof.
  intros [Hl Hs Hc] Hp. eexists. split; [exists (LRead p); cbn; by rewrite Hp|]. by split_and!.
Qed.

(** A payload in hand is queued. *)
Lemma linked_deliver l w s c p w' :
  linked l w s c → t_rcv s = RHold p → ch_closed (receiveChan c) = false →
  ch_room (receiveChan c) = true →
  assign l (λ c, set_receiveChan (ch_push p (receiveChan c)) c) w = Done tt w' →
  ∃ s' c', step s s' ∧ linked l w' s' c' ∧ t_rcv s' = RTop ∧ same_send s s' ∧
    t_read s' = t_read s ∧ t_got s' = t_got s ∧ t_dropped s' = t_dropped s ∧
    sendChan c' = sendChan c ∧ receiveChan c' = ch_push p (receiveChan c) ∧ same_io c c'.
Proof.
  intros [Hl [H1' H2' H3'] Hc] Hp Hopen Hroom Ha. injection Ha as <-.
  eexists _, _. split; [exists LDeliver; cbn; by rewrite Hp, <- H2', Hopen, Hroom|]. split.
  { split; [cbn; by rewrite lookup_alter_eq, Hl|by split; cbn; rewrite <- ?H2'|exact Hc]. }
  by split_and!.
Qed.

(** The choice at the second [select]: to go on there must be room. *)
Lemma linked_select_room l w s c (done : bool) stop w' :
  linked l w s c →
  (match done, ch_room (receiveChan c) with
   | true, false => ret true
   | true, true => envcall sched_select
   | false, true => ret false
   | false, false => block
   end) w = Done stop w' →
  linked l w' s c ∧ (if (stop : bool) then done = true else ch_room (receiveChan c) = true).
Proof.
  intros Hk. destruct done, (ch_room _); intros E1; try (by injection E1 as <- <-); try done.
  split; [by eapply linked_env|by destruct stop].
Qed.

(** The first half of a turn, up to the result of [Read]. *)
Lemma linked_rate l w s c u w' :
  linked l w s c →
  (match limiter (params c) with Some rate => envdo (ratelimit_take rate) | None => ret tt end) w
    = Done u w' →
  linked l w' s c.
Proof.
  intros Hk. destruct (limiter (params c)); intros E1; [by eapply linked_env|by injection E1 as _ <-].
Qed.

Lemma push_all_closed (ch : chan bytes) ps :
  ch_closed (foldl (λ ch p, ch_push p ch) ch ps) = ch_closed ch.
Proof. revert ch. induction ps as [|p ps IH]; intros ch; [done|]. cbn. by rewrite IH. Qed.

(** The loop of the step relation returns from where the code's has ended. *)
Lemma rcv_exit_step s :
  ch_closed (receiveChan (t_conn s)) = false →
  t_rcv s = RTop ∨ ctx_done (t_conn s) = true ∧ (∃ p, t_rcv s = RHold p) →
  ∃ s', step s s' ∧ s' = MkTS
    (close_conn (set_receiveChan (ch_close (receiveChan (t_conn s))) (t_conn s))) (t_snd s) RExit
    (t_sent s) (t_wire s) (t_lost s) (t_read s) (t_dropped s ++ inhand (t_rcv s)) (t_got s).
Proof.
  intros Hopen [Hp|[Hd [p Hp]]]; eexists; (split; [|reflexivity]).
  - exists LReadFail. cbn. unfold rcv_exit. by rewrite Hp, Hopen, app_nil_r.
  - exists LRecvStop. cbn. unfold rcv_exit. by rewrite Hp, Hd, Hopen.
Qed.

(** ** Send *)

Lemma send_case_refines l p w s c r w' :
  linked l w s c → ch_closed (sendChan c) = false → ch_room (sendChan c) = true →
  send_case l p w = Done r w' →
  ∃ s' c', rtc step s s' ∧ linked l w' s' c' ∧ same_recv s s' ∧ t_snd s' = t_snd s ∧
    t_wire s' = t_wire s ∧ t_sent s' = t_sent s ++ [p] ∧ (r ≠ None → ctx_done c' = true).
Proof.
  intros [Hl [S1 S2 S3] Hco] Hopen Hroom ([] & w1 & Ea & Hrun)%bind_done_inv. injection Ea as <-.
  apply bind_done_inv in Hrun as (done & w2 & Ep & Hrun). injection Hrun as <- <-.
  set (s1 := MkTS (set_sendChan (ch_push p (sendChan (t_conn s))) (t_conn s)) (t_snd s) (t_rcv s)
    (t_sent s ++ [p]) (t_wire s) (t_lost s) (t_read s) (t_dropped s) (t_got s)).
  assert (step s s1) as Hs1 by (subst s1; exists (LSend p); cbn; by rewrite <- S1, Hopen, Hroom).
  match type of Ep with ctx_poll l ?w2 = _ =>
    assert (linked l w2 s1 (set_sendChan (ch_push p (sendChan c)) c)) as Hk1
  end.
  { split; [cbn; by rewrite lookup_alter_eq, Hl|by split; cbn; rewrite <- ?S1|exact Hco]. }
  destruct (linked_ctx_poll _ _ _ _ _ _ Hk1 Ep) as (s2 & c2 & Hs2 & Hk2 & Hr2 & [Hp2 Hsent2 Hw2 _] & _ & _ & _ & Hd).
  exists s2, c2. split_and!; try done; [by eapply rtc_l|by destruct Hr2; split|]. by destruct done; auto.
Qed.

(** A call of [Send] that returns is the step of the same name, or leaves what was
    accepted alone and reports [ErrConnClosed]; without an error it is the step, with
    an error the context is done. *)
Theorem Send_refines l p w s c r w' :
  heap w !! l = Some c → sim c (t_conn s) → closed_ok c → ch_closed (sendChan c) = false →
  Send l p w = Done r w' →
  ∃ s' c', rtc step s s' ∧ heap w' !! l = Some c' ∧ sim c' (t_conn s') ∧ same_recv s s' ∧
    t_snd s' = t_snd s ∧ t_wire s' = t_wire s ∧
    (t_sent s' = t_sent s ++ [p] ∨ t_sent s' = t_sent s ∧ r = Some (ESentinel ErrConnClosed)) ∧
    (r ≠ None → ctx_done c' = true).
Proof.
  intros Hl Hsim Hco Hopen (done & w1 & Ep & Hrun)%bind_done_inv.
  destruct (linked_ctx_poll l w s c done w1) as (s1 & c1 & Hs1 & Hk1 & Hr1 & [Hp1 Hsent1 Hw1 _] & Hsc1 & _ & _ & Hd);
    [by split|done|].
  apply bind_done_inv in Hrun as (c0 & w1' & Ed & Hrun).
  apply (linked_deref _ _ _ _ _ _ Hk1) in Ed as [-> ->].
  assert (∀ w2, linked l w2 s1 c1 → ch_room (sendChan c1) = true → send_case l p w2 = Done r w' →
    ∃ s' c', rtc step s s' ∧ heap w' !! l = Some c' ∧ sim c' (t_conn s') ∧ same_recv s s' ∧
      t_snd s' = t_snd s ∧ t_wire s' = t_wire s ∧
      (t_sent s' = t_sent s ++ [p] ∨ t_sent s' = t_sent s ∧ r = Some (ESentinel ErrConnClosed)) ∧
      (r ≠ None → ctx_done c' = true)) as Hcase.
  { intros w2 Hk2 Hroom Hc.
    destruct (send_case_refines l p w2 s1 c1 r w' Hk2) as (s2 & c2 & Hs2 & [Hl3 Hsim3 _] & Hr2 & Hp2 & Hw2 & Hsent2 & Hd2);
      [congruence|done|done|].
    exists s2, c2. split_and!; try done; try congruence; [by etrans..|]. left. congruence. }
  assert (∀ w2, linked l w2 s1 c1 → done = true → r = Some (ESentinel ErrConnClosed) → w' = w2 →
    ∃ s' c', rtc step s s' ∧ heap w' !! l = Some c' ∧ sim c' (t_conn s') ∧ same_recv s s' ∧
      t_snd s' = t_snd s ∧ t_wire s' = t_wire s ∧
      (t_sent s' = t_sent s ++ [p] ∨ t_sent s' = t_sent s ∧ r = Some (ESentinel ErrConnClosed)) ∧
      (r ≠ None → ctx_done c' = true)) as Hrefused.
  { intros w2 [Hl2 Hsim2 _] Hdone -> ->. exists s1, c1. split_and!; auto. }
  destruct done, (ch_room (sendChan c1)) eqn:Hroom; [|injection Hrun as <- <-; by apply (Hrefused w1)|by apply (Hcase w1)|done].
  apply bind_done_inv in Hrun as (first & w2 & Hk2%(linked_env _ _ _ _ _ _ _ Hk1) & Hrun).
  destruct first; [injection Hrun as <- <-; by apply (Hrefused w2)|by apply (Hcase w2)].
Qed.

End Loops.

Section Observed.
Context {E0 RS : Type}.
Context {ME : MultiErr} {OA : OptApply} `{Retry RS, Sched E0, Net E0, Redis E0}.
Abbreviation E := (Traced E0).
Implicit Types (w : World E) (c t : Conn) (l : nat) (s : TS).

Lemma zoom_world_done {A} (m : go E A) w a w' :
  zoom m w = Done a w' → ∃ t : E, m (env w) = Done a t ∧ w' = part_set t w.
Proof. unfold zoom. cbn. destruct (m (env w)); intros [= <- <-]; eauto. Qed.

Lemma polls_io {A} l (m : go (World E) A) w c a w' :
  polls l m → heap w !! l = Some c → m w = Done a w' → ∃ c', heap w' !! l = Some c' ∧ same_io c c'.
Proof. intros Hm Hl E1. by destruct (Hm w c a w' Hl E1); eexists. Qed.

Lemma wquiet_rate c :
  wquiet (E := E0) (match limiter (params c) with Some rate => envdo (ratelimit_take rate) | None => ret tt end).
Proof. unfold envdo. auto with quiet. Qed.

(** An operation of the environment that is not logged. *)
Lemma wquiet_envcall {A} (f : E0 → A * E0) w a w' :
  zoom (state (silent f)) w = Done a w' → log_of w' = log_of w.
Proof. apply wquiet_zoom, quiet_silent. Qed.
Lemma wquiet_envdo (f : E0 → E0) w a w' : zoom (modify (silently f)) w = Done a w' → log_of w' = log_of w.
Proof. apply wquiet_zoom, quiet_silently. Qed.

(** *** What goes out *)

(** What [trySend] puts on the network: the payload, in full if it succeeds, and
    nothing else, however often it tries. *)
Lemma trySend_loop_log l p wtr fuel : ∀ rs w c ok w',
  heap w !! l = Some c → writer c = Some wtr → trySend_loop fuel l p rs w = Done ok w' →
  ∃ new, log_of w' = log_of w ++ new ∧ sends (w_conn wtr) (if (ok : bool) then [p] else []) [p] new.
Proof.
  assert (∀ w, ∃ new, log_of w = log_of w ++ new ∧ sends (w_conn wtr) [] [p] new) as Hnone
    by (intros w; exists []; rewrite app_nil_r; split; [done|apply sends_nil]).
  induction fuel as [|fuel IH]; intros rs w c ok w' Hl Hw; cbn [trySend_loop]; [done|].
  intros (done & w1 & Ep & Hrun)%bind_done_inv.
  destruct (polls_io l _ w c done w1 (polls_ctx_poll l) Hl Ep) as (c1 & Hl1 & _ & Hw1).
  apply wquiet_ctx_poll in Ep as Hlog1. rewrite <- Hlog1. clear Ep Hlog1.
  destruct done; [injection Hrun as <- <-; apply Hnone|].
  erewrite bind_done in Hrun by by apply deref_done.
  apply bind_done_inv in Hrun as (now & w2 & Et & Hrun).
  apply bind_done_inv in Hrun as ([] & w3 & Ed & Hrun). rewrite Hw1, Hw in Hrun.
  erewrite bind_done in Hrun by reflexivity.
  assert (heap w3 !! l = Some c1 ∧ log_of w3 = log_of w1) as [Hl3 <-].
  { apply zoom_world_done in Ed as (t3 & Ed & ->). apply zoom_world_done in Et as (t2 & Et & ->).
    split; [done|]. apply quiet_silently in Ed. apply quiet_silent in Et. by etrans. }
  clear Et Ed. apply bind_done_inv in Hrun as ([n r] & w4 & Ew & Hrun).
  apply zoom_world_done in Ew as (t4 & Ew & ->).
  destruct (Writer_Write_log _ _ _ _ _ _ Ew) as (new & Hlog & Hs). cbn [snd] in Hrun.
  destruct r as [err|].
  2: { injection Hrun as <- <-. by exists new. }
  destruct (as_net_error err) as [[]|]; [|injection Hrun as <- <-; by exists new..].
  destruct rs as [rs|]; [|done]. erewrite bind_done in Hrun by reflexivity.
  destruct (retry_next rs) as [[d|] rs']; [|injection Hrun as <- <-; by exists new].
  apply bind_done_inv in Hrun as ([] & w5 & Ewait & Hrun).
  apply zoom_world_done in Ewait as (t5 & Ewait & ->). apply quiet_silently in Ewait.
  apply bind_done_inv in Hrun as (done & w6 & Ep & Hrun).
  apply wquiet_ctx_poll in Ep as Hlog6.
  apply (polls_io l _ _ c1 _ _ (polls_ctx_poll l)) in Ep as (c6 & Hl6 & _ & Hw6); [|done].
  assert (log_of w6 = log_of w3 ++ new) as Hlog'.
  { rewrite Hlog6. etrans; [exact Ewait|exact Hlog]. }
  destruct done; [injection Hrun as <- <-; by exists new|].
  destruct (IH _ w6 c6 ok w' Hl6 ltac:(congruence) Hrun) as (new2 & Hlog2 & Hs2).
  exists (new ++ new2). split; [by rewrite Hlog2, Hlog', <- app_assoc|].
  by apply (sends_app _ [] (if ok then [p] else [])).
Qed.

Lemma trySend_log l p wtr fuel w c ok w' :
  heap w !! l = Some c → writer c = Some wtr → trySend fuel l p w = Done ok w' →
  ∃ new, log_of w' = log_of w ++ new ∧ sends (w_conn wtr) (if (ok : bool) then [p] else []) [p] new.
Proof.
  intros Hl Hw. unfold trySend. erewrite bind_done by by apply deref_done. by apply trySend_loop_log with c.
Qed.

(** The loop has ended: stopped at its [select], or in a failed [trySend].  The first [n]
    payloads of the queue were written to the network; of the next one at most a part. *)
Record send_ended (wtr : Writer) l w w' s s' c c' (n : nat) : Prop := SendEnded {
  se_linked : linked l w' s' c';
  se_recv : same_recv s s';
  se_chan : receiveChan c' = receiveChan c;
  se_sent : t_sent s' = t_sent s;
  se_wire : t_wire s' = t_wire s ++ take n (ch_buf (sendChan c));
  se_pc : (t_snd s' = SIdle ∧ ctx_done c' = true) ∨ ∃ p, t_snd s' = SBusy p;
  se_log : ∃ new, log_of w' = log_of w ++ new ∧
    sends (w_conn wtr) (take n (ch_buf (sendChan c))) (take (S n) (ch_buf (sendChan c))) new;
}.

(** A turn that takes a payload, with what it puts on the network. *)
Lemma send_turn wtr wfuel l w s c p rest ok w1 w' :
  linked l w s c → t_snd s = SIdle → ch_buf (sendChan c) = p :: rest → writer c = Some wtr →
  assign l (λ c, set_sendChan (Chan rest (ch_cap (sendChan c)) (ch_closed (sendChan c))) c) w = Done tt w1 →
  trySend wfuel l p w1 = Done ok w' →
  ∃ s' c' new, rtc step s s' ∧ linked l w' s' c' ∧ same_recv s s' ∧ t_sent s' = t_sent s ∧
    receiveChan c' = receiveChan c ∧ writer c' = Some wtr ∧
    sendChan c' = Chan rest (ch_cap (sendChan c)) (ch_closed (sendChan c)) ∧
    log_of w' = log_of w ++ new ∧ sends (w_conn wtr) (if (ok : bool) then [p] else []) [p] new ∧
    (if (ok : bool) then t_snd s' = SIdle ∧ t_wire s' = t_wire s ++ [p]
     else t_snd s' = SBusy p ∧ t_wire s' = t_wire s).
Proof.
  intros Hk Hs Hb Hio Ea Et.
  destruct (linked_turn wfuel l w s c p rest ok w1 w' Hk Hs Hb Ea Et)
    as (s' & c' & Hs' & Hk' & Hr & Hsent & Hrc & [_ Hio'] & Hsc & Hok).
  destruct (trySend_log l p wtr wfuel w1
    (set_sendChan (Chan rest (ch_cap (sendChan c)) (ch_closed (sendChan c))) c) ok w') as (new & Hlog & Hsends);
    [injection Ea as <-; cbn; by rewrite lookup_alter_eq, (lk_heap _ _ _ _ Hk)|done|done|].
  rewrite (wquiet_assign l _ _ _ _ Ea) in Hlog. exists s', c', new. split_and!; try done. congruence.
Qed.

(** The loop ends before it takes anything. *)
Lemma send_ended_here wtr l w w' s s' c c' :
  rtc step s s' → linked l w' s' c' → same_recv s s' → same_send s s' → t_snd s = SIdle →
  receiveChan c' = receiveChan c → ctx_done c' = true → log_of w' = log_of w →
  ∃ n s' c', rtc step s s' ∧ send_ended wtr l w w' s s' c c' n.
Proof.
  intros Hs Hk Hr [Hp Hsent Hw _] Hidle Hrc Hd Hlog. exists 0, s', c'. split; [done|].
  split; try done; [by rewrite app_nil_r|left; split; [congruence|done]|].
  exists []. rewrite app_nil_r. split; [done|apply sends_nil].
Qed.

(** The loop fails in its first turn. *)
Lemma send_ended_failed wtr l w w' s s' c c' p rest new :
  rtc step s s' → linked l w' s' c' → same_recv s s' → t_sent s' = t_sent s → receiveChan c' = receiveChan c →
  t_wire s' = t_wire s → t_snd s' = SBusy p → ch_buf (sendChan c) = p :: rest →
  log_of w' = log_of w ++ new → sends (w_conn wtr) [] [p] new →
  ∃ n s' c', rtc step s s' ∧ send_ended wtr l w w' s s' c c' n.
Proof.
  intros Hs Hk Hr Hsent Hrc Hw Hp Hb Hlog Hnew. exists 0, s', c'. split; [done|].
  split; try done; [by rewrite app_nil_r|right; by exists p|]. exists new. by rewrite Hb.
Qed.

(** A turn that sent its payload, before the rest of the run. *)
Lemma send_ended_turn wtr l w w1 w' s s1 s' c c1 c' p rest new n :
  same_recv s s1 → t_sent s1 = t_sent s → receiveChan c1 = receiveChan c → t_wire s1 = t_wire s ++ [p] →
  ch_buf (sendChan c) = p :: rest → ch_buf (sendChan c1) = rest →
  log_of w1 = log_of w ++ new → sends (w_conn wtr) [p] [p] new →
  send_ended wtr l w1 w' s1 s' c1 c' n → send_ended wtr l w w' s s' c c' (S n).
Proof.
  intros Hr Hsent Hrc Hw Hb Hb1 Hlog Hnew [Hk2 Hr2 Hrc2 Hsent2 Hw2 Hp2 (new2 & Hlog2 & Hnew2)].
  split; try done; try congruence; [by etrans|..]; rewrite Hb; cbn.
  - by rewrite Hw2, Hw, Hb1, <- app_assoc.
  - exists (new ++ new2). rewrite Hb1 in Hnew2. split; [by rewrite Hlog2, Hlog, <- app_assoc|].
    apply (sends_app _ [p]); (eapply sends_mono; [|done]); intros q Hq; [|by right].
    apply list_elem_of_singleton in Hq as ->. by left.
Qed.

Lemma sendLoop_loop_refines wtr wfuel l : ∀ fuel w s c u w',
  linked l w s c → t_snd s = SIdle → ch_closed (sendChan c) = false → writer c = Some wtr →
  sendLoop_loop wfuel fuel l w = Done u w' →
  ∃ n s' c', rtc step s s' ∧ send_ended wtr l w w' s s' c c' n.
Proof.
  induction fuel as [|fuel IH]; intros w s c u w' Hk Hidle Hopen Hio; cbn [sendLoop_loop]; [done|].
  intros (done & w1 & Ep & Hrun)%bind_done_inv.
  destruct (linked_ctx_poll l w s c done w1 Hk Ep)
    as (s1 & c1 & Hs1 & Hk1 & Hr1 & Hss1 & Hc1 & Hrc1 & [_ Hio1] & Hd1).
  apply wquiet_ctx_poll in Ep as Hlog1.
  apply bind_done_inv in Hrun as (c0 & w1' & Ed & Hrun).
  apply (linked_deref _ _ _ _ _ _ Hk1) in Ed as [-> ->].
  apply bind_done_inv in Hrun as (stop & w2 & Es & Hrun).
  destruct (linked_select l w1 s1 c1 done _ stop w2 Hk1 Es) as [Hk2 Hstop].
  assert (log_of w2 = log_of w) as Hlog2.
  { rewrite <- Hlog1. destruct done, (ch_buf (sendChan c1)); try (by injection Es as _ <-).
    by apply wquiet_envcall in Es. }
  destruct stop.
  { injection Hrun as _ <-. apply (send_ended_here wtr l w w2 s s1 c c1); auto. }
  rewrite Hc1, Hopen in Hrun. destruct (ch_buf (sendChan c)) as [|p rest] eqn:Hb; [done|].
  apply bind_done_inv in Hrun as ([] & w3 & Ea & Hrun).
  apply bind_done_inv in Hrun as (ok & w4 & Et & Hrun). destruct Hss1 as [Hp1 Hsent1 Hw1 _].
  destruct (send_turn wtr wfuel l w2 s1 c1 p rest ok w3 w4 Hk2) as
    (s2 & c2 & new & Hs2 & Hk4 & Hr2 & Hsent2 & Hrc2 & Hio2 & Hsc2 & Hlog4 & Hsends & Hok);
    [congruence|by rewrite Hc1|congruence|done|done|]. rewrite Hlog2 in Hlog4.
  destruct ok; destruct Hok as [Hp2 Hw2].
  - destruct (IH w4 s2 c2 u w' Hk4 Hp2) as (n & s3 & c3 & Hs3 & He); [by rewrite Hsc2, Hc1|done|done|].
    exists (S n), s3, c3. split; [by do 2 (etrans; [done|])|].
    apply (send_ended_turn wtr l w w4 w' s s2 s3 c c2 c3 p rest new); try done; try congruence;
      [by etrans|by rewrite Hsc2].
  - injection Hrun as _ <-.
    apply (send_ended_failed wtr l w w4 s s2 c c2 p rest new); try done; try congruence; by etrans.
Qed.

(** C22. A run of [sendLoop] to its end, alone with whoever cancels, is a run of the step
    relation that ends with the loop returned and the context done and touches nothing of
    the receiving side.  What the step relation counts as written is what the network got:
    the payloads that the connection's writer was given and flushed without an error
    during the run are, in order, the first [n] of the queue; and nothing but these and
    the next one, which a failed [trySend] may have given to the writer in part, was
    written to any connection. *)
Theorem sendLoop_refines wfuel fuel l w s c wtr w' :
  heap w !! l = Some c → sim c (t_conn s) → closed_ok c → t_snd s = SIdle →
  ch_closed (sendChan c) = false → writer c = Some wtr →
  sendLoop wfuel fuel l w = Done tt w' →
  ∃ n s' c' new, rtc step s s' ∧ t_snd s' = SExit ∧ heap w' !! l = Some c' ∧ sim c' (t_conn s') ∧
    ctx_done c' = true ∧ same_recv s s' ∧ receiveChan c' = receiveChan c ∧
    log_of w' = log_of w ++ new ∧
    messages_sent (w_conn wtr) new = take n (ch_buf (sendChan c)) ∧
    t_wire s' = t_wire s ++ messages_sent (w_conn wtr) new ∧
    writes_only (w_conn wtr) (take (S n) (ch_buf (sendChan c))) new.
Proof.
  intros Hl Hsim Hco Hidle Hopen Hio (w1 & Hloop & Hcl)%defer_done_inv.
  destruct (sendLoop_loop_refines wtr wfuel l fuel w s c tt w1)
    as (n & s1 & c1 & Hs1 & [Hk1 Hr1 Hrc1 _ Hw1 Hpc (new & Hlog & Hsends)]);
    [by split|done..|].
  apply bind_done_inv in Hcl as (r & w2 & Ec & Hret). injection Hret as <-.
  destruct Hk1 as [Hl1 [S1 S2 S3] Hco1]. apply wquiet_Close in Ec as Hlog2.
  destruct (close_ends l w1 c1 r w2 Hl1 Hco1 Ec) as (c2 & Hl2 & _ & Hsc2 & Hrc2 & Hd2).
  assert (∃ lost, step s1 (snd_exit s1 lost)) as [lost Hlast].
  { destruct Hpc as [[Hp Hd]|[p Hp]].
    - exists (t_lost s1), LSendStop. cbn. by rewrite Hp, <- S3, Hd.
    - exists (t_lost s1 ++ [p]), (LWrote false). cbn. by rewrite Hp. }
  exists n, (snd_exit s1 lost), c2, new. rewrite (sends_all _ _ _ _ Hsends).
  split_and!; try done; [by eapply rtc_r| |by destruct Hr1; split|congruence..|by destruct Hsends].
  split; cbn; congruence.
Qed.

(** ** The receiving loop *)

(** The second half of a turn, with a payload read: it is queued, or the loop ends
    with it in hand. *)
Lemma receive_payload {A} (rest : go (World E) A) (stopped : A) l w s c p a w' :
  linked l w s c → t_rcv s = RTop → ch_closed (receiveChan c) = false →
  (done <- ctx_poll l ;;
   c <- deref l ;;
   stop <- (match (done : bool), ch_room (receiveChan c) with
            | true, false => ret true
            | true, true => envcall sched_select
            | false, true => ret false
            | false, false => block
            end) ;;
   if (stop : bool) then ret stopped else
   if ch_closed (receiveChan c) then panic else
   assign l (λ c, set_receiveChan (ch_push p (receiveChan c)) c) ;;;
   rest) w = Done a w' →
  ∃ s' c' w1, rtc step s s' ∧ linked l w1 s' c' ∧ same_send s s' ∧ sendChan c' = sendChan c ∧ same_io c c' ∧
    t_read s' = t_read s ++ [p] ∧ t_got s' = t_got s ∧ t_dropped s' = t_dropped s ∧
    log_of w1 = log_of w ∧
    (t_rcv s' = RTop ∧ receiveChan c' = ch_push p (receiveChan c) ∧ rest w1 = Done a w' ∨
     t_rcv s' = RHold p ∧ receiveChan c' = receiveChan c ∧ ctx_done c' = true ∧ a = stopped ∧ w' = w1).
Proof.
  intros Hk Hp Hopen (done & w1 & Ep & Hrun)%bind_done_inv.
  destruct (linked_read l w s c p Hk Hp) as (s0 & Hs0 & Hk0 & Hp0 & Hss0 & Hr0 & Hg0 & Hd0).
  destruct (linked_ctx_poll l w s0 c done w1 Hk0 Ep)
    as (s1 & c1 & Hs1 & Hk1 & [Hp1 Hr1 Hd1 Hg1] & Hss1 & Hsc1 & Hrc1 & Hio1 & Hdone).
  apply bind_done_inv in Hrun as (c0 & w1' & Ed & Hrun).
  apply (linked_deref _ _ _ _ _ _ Hk1) in Ed as [-> ->].
  apply bind_done_inv in Hrun as (stop & w2 & Es & Hrun).
  assert (log_of w2 = log_of w) as Hlog.
  { rewrite <- (wquiet_ctx_poll l _ _ _ Ep). destruct done, (ch_room (receiveChan c1)); try (by injection Es as _ <-); [|done].
    by apply wquiet_envcall in Es. }
  destruct (linked_select_room l w1 s1 c1 done stop w2 Hk1 Es) as [Hk2 Hstop].
  destruct stop.
  { injection Hrun as <- <-. exists s1, c1, w2. split_and!; try congruence; try done; [by eapply rtc_l|by etrans|].
    right. split_and!; try congruence; auto. }
  rewrite Hrc1, Hopen in Hrun. apply bind_done_inv in Hrun as ([] & w3 & Ea & Hrun).
  destruct (linked_deliver l w2 s1 c1 p w3 Hk2) as (s2 & c2 & Hs2 & Hk3 & Hp2 & Hss2 & Hr2 & Hg2 & Hd2 & Hsc2 & Hrc2 & Hio2);
    [congruence|by rewrite Hrc1|done|done|].
  assert (same_io c c2) as Hio by by etrans. rewrite <- (wquiet_assign l _ _ _ _ Ea) in Hlog.
  exists s2, c2, w3. split_and!; try congruence; try done; [|by do 2 (etrans; [done|])|].
  - eapply rtc_l; [exact Hs0|]. by eapply rtc_r.
  - left. split_and!; congruence.
Qed.

(** The loop has ended: stopped at its [select]s, or on an error of [Read].
    [ps] was read from the network and queued, what is in hand was only read. *)
Record recv_ended (rd : Reader) l w w' s s' c c' (ps : list bytes) : Prop := RecvEnded {
  re_linked : linked l w' s' c';
  re_send : same_send s s';
  re_chan : sendChan c' = sendChan c;
  re_queue : receiveChan c' = foldl (λ ch p, ch_push p ch) (receiveChan c) ps;
  re_read : t_read s' = t_read s ++ ps ++ inhand (t_rcv s');
  re_got : t_got s' = t_got s;
  re_dropped : t_dropped s' = t_dropped s;
  re_pc : t_rcv s' = RTop ∨ ctx_done c' = true ∧ ∃ p, t_rcv s' = RHold p;
  re_log : ∃ new, log_of w' = log_of w ++ new ∧ messages_read (r_conn rd) new = ps ++ inhand (t_rcv s');
}.

(** The first half of a turn: the loop returns, or has the result of [Read]. *)
Lemma receive_read {A} (rd : Reader) (rfuel : nat) (k : error + bytes → go (World E) A) (stopped : A) l w s c a w' :
  linked l w s c → reader c = Some rd →
  ((match limiter (params c) with Some rate => envdo (ratelimit_take rate) | None => ret tt end) ;;;
   done <- ctx_poll l ;;
   if (done : bool) then ret stopped else
   now <- envcall time_now ;;
   envdo (net_set_read_deadline (netConn c) (now + readTimeout (params c))) ;;;
   rd <- need (reader c) ;;
   r <- zoom (Reader_Read rfuel rd) ;;
   k r) w = Done a w' →
  ∃ s' c' w1 new, rtc step s s' ∧ linked l w1 s' c' ∧ same_recv s s' ∧ same_send s s' ∧
    sendChan c' = sendChan c ∧ receiveChan c' = receiveChan c ∧ reader c' = Some rd ∧
    log_of w1 = log_of w ++ new ∧
    (a = stopped ∧ w' = w1 ∧ messages_read (r_conn rd) new = [] ∨
     ∃ r, messages_read (r_conn rd) new = (match r with inr p => [p] | inl _ => [] end) ∧ k r w1 = Done a w').
Proof.
  intros Hk Hio ([] & w1 & Erate & Hrun)%bind_done_inv.
  apply (linked_rate _ _ _ _ _ _ Hk) in Erate as Hk1. apply wquiet_rate in Erate as Hlog1.
  apply bind_done_inv in Hrun as (done & w2 & Ep & Hrun).
  destruct (linked_ctx_poll l w1 s c done w2 Hk1 Ep)
    as (s1 & c1 & Hs1 & Hk2 & Hrr1 & Hss1 & Hsc1 & Hrc1 & [Hio1 _] & _).
  apply wquiet_ctx_poll in Ep as Hlog2. rewrite Hlog1 in Hlog2.
  assert (reader c1 = Some rd) as Hio' by congruence. destruct done.
  { injection Hrun as <- <-. exists s1, c1, w2, []. rewrite app_nil_r. split_and!; try done. by left. }
  apply bind_done_inv in Hrun as (now & w3 & Etime & Hrun).
  apply (linked_env _ _ _ _ _ _ _ Hk2) in Etime as Hk3.
  apply bind_done_inv in Hrun as ([] & w4 & Edl & Hrun).
  apply (linked_env _ _ _ _ _ _ _ Hk3) in Edl as Hk4.
  assert (log_of w4 = log_of w) as Hlog4.
  { apply wquiet_envdo in Edl. apply wquiet_envcall in Etime. congruence. }
  rewrite Hio in Hrun. erewrite bind_done in Hrun by reflexivity.
  apply bind_done_inv in Hrun as (r & w6 & Eread & Hrun).
  apply (linked_env _ _ _ _ _ _ _ Hk4) in Eread as Hk6. apply zoom_world_done in Eread as (t6 & Eread & ->).
  destruct (Reader_Read_log _ _ _ _ _ Eread) as (new & Hlog6 & Hnew).
  exists s1, c1, (part_set t6 w4), new. split_and!; try done.
  - unfold log_of in *. cbn in *. by rewrite Hlog6, Hlog4.
  - right. by exists r.
Qed.

(** The loop ends where it is, or with a payload in hand. *)
Lemma recv_ended_here rd l w w' s s' c c' new :
  rtc step s s' → linked l w' s' c' → same_send s s' → same_recv s s' → t_rcv s = RTop →
  sendChan c' = sendChan c → receiveChan c' = receiveChan c →
  log_of w' = log_of w ++ new → messages_read (r_conn rd) new = [] →
  ∃ ps s' c', rtc step s s' ∧ recv_ended rd l w w' s s' c c' ps.
Proof.
  intros Hs Hk Hss [Hp Hr Hd Hg] Htop Hsc Hrc Hlog Hnew. exists [], s', c'. split; [done|].
  rewrite Htop in Hp. split; try done; [by rewrite Hr, Hp, app_nil_r|by left|].
  exists new. by rewrite Hp, Hnew.
Qed.

(** What a part of the run has read and queued, before the rest of it. *)
Lemma recv_ended_after rd l w w1 w' s s1 s' c c1 c' qs ps new :
  same_send s s1 → sendChan c1 = sendChan c →
  receiveChan c1 = foldl (λ ch p, ch_push p ch) (receiveChan c) qs →
  t_read s1 = t_read s ++ qs → t_got s1 = t_got s → t_dropped s1 = t_dropped s →
  log_of w1 = log_of w ++ new → messages_read (r_conn rd) new = qs →
  recv_ended rd l w1 w' s1 s' c1 c' ps → recv_ended rd l w w' s s' c c' (qs ++ ps).
Proof.
  intros Hss Hsc Hrc Hr Hg Hd Hlog Hnew [Hk2 Hss2 Hsc2 Hrc2 Hr2 Hg2 Hd2 Hp2 (new2 & Hlog2 & Hnew2)].
  split; try done; try congruence; [by etrans|by rewrite Hrc2, Hrc, foldl_app|by rewrite Hr2, Hr, <- !app_assoc|].
  exists (new ++ new2). rewrite messages_read_app, Hnew, Hnew2.
  by rewrite Hlog2, Hlog, <- !app_assoc.
Qed.

Lemma recv_ended_hold rd l w w' s s' c c' p new :
  linked l w' s' c' → same_send s s' → sendChan c' = sendChan c → receiveChan c' = receiveChan c →
  t_read s' = t_read s ++ [p] → t_got s' = t_got s → t_dropped s' = t_dropped s → t_rcv s' = RHold p →
  ctx_done c' = true → log_of w' = log_of w ++ new → messages_read (r_conn rd) new = [p] →
  recv_ended rd l w w' s s' c c' [].
Proof.
  intros Hk Hss Hsc Hrc Hr Hg Hd Hp Hdone Hlog Hnew.
  split; try done; rewrite ?Hp; [done|right; split; [done|by exists p]|by exists new].
Qed.

(** A turn that has read a payload: the loop has ended, or the rest of it goes on. *)
Lemma recv_turn rd rfuel fuel l w w1 s s1 c c1 p new u w' :
  (∀ w s c u w', linked l w s c → t_rcv s = RTop → ch_closed (receiveChan c) = false → reader c = Some rd →
    receiveLoop_loop rfuel fuel l w = Done u w' → ∃ ps s' c', rtc step s s' ∧ recv_ended rd l w w' s s' c c' ps) →
  rtc step s s1 → linked l w1 s1 c1 → same_recv s s1 → same_send s s1 → t_rcv s = RTop →
  ch_closed (receiveChan c) = false → sendChan c1 = sendChan c → receiveChan c1 = receiveChan c →
  reader c1 = Some rd → log_of w1 = log_of w ++ new → messages_read (r_conn rd) new = [p] →
  (done <- ctx_poll l ;;
   c <- deref l ;;
   stop <- (match (done : bool), ch_room (receiveChan c) with
            | true, false => ret true
            | true, true => envcall sched_select
            | false, true => ret false
            | false, false => block
            end) ;;
   if (stop : bool) then ret tt else
   if ch_closed (receiveChan c) then panic else
   assign l (λ c, set_receiveChan (ch_push p (receiveChan c)) c) ;;;
   receiveLoop_loop rfuel fuel l) w1 = Done u w' →
  ∃ ps s' c', rtc step s s' ∧ recv_ended rd l w w' s s' c c' ps.
Proof.
  intros IH Hs1 Hk1 [Hp1 Hr1 Hd1 Hg1] Hss1 Htop Hopen Hsc1 Hrc1 Hio1 Hlog Hnew Hrun.
  destruct (receive_payload (receiveLoop_loop rfuel fuel l) tt l w1 s1 c1 p u w')
    as (s2 & c2 & w2 & Hs2 & Hk2 & Hss2 & Hsc2 & [Hio2 _] & Hr2 & Hg2 & Hd2 & Hlog2 & Hcase);
    [done|congruence..|exact Hrun|]. rewrite Hlog in Hlog2.
  assert (rtc step s s2) as Hs by by etrans. assert (same_send s s2) as Hss by by etrans.
  destruct Hcase as [(Hp2 & Hrc2 & Hrest)|(Hp2 & Hrc2 & Hdc2 & _ & ->)].
  - destruct (IH w2 s2 c2 u w' Hk2 Hp2) as (ps & s3 & c3 & Hs3 & He); [by rewrite Hrc2, Hrc1|congruence|done|].
    exists ([p] ++ ps), s3, c3. split; [by etrans|].
    apply (recv_ended_after rd l w w2 w' s s2 s3 c c2 c3 [p] ps new); try done; cbn; congruence.
  - exists [], s2, c2. split; [done|].
    apply (recv_ended_hold rd l w w2 s s2 c c2 p new); try done; congruence.
Qed.

Lemma receiveLoop_loop_refines rd rfuel l : ∀ fuel w s c u w',
  linked l w s c → t_rcv s = RTop → ch_closed (receiveChan c) = false → reader c = Some rd →
  receiveLoop_loop rfuel fuel l w = Done u w' →
  ∃ ps s' c', rtc step s s' ∧ recv_ended rd l w w' s s' c c' ps.
Proof.
  induction fuel as [|fuel IH]; intros w s c u w' Hk Htop Hopen Hio; cbn [receiveLoop_loop]; [done|].
  intros (c0 & w0 & [-> ->]%(linked_deref _ _ _ _ _ _ Hk) & Hrun)%bind_done_inv.
  destruct (receive_read rd rfuel _ tt l w s c u w' Hk Hio Hrun)
    as (s1 & c1 & w6 & new & Hs1 & Hk6 & Hrr1 & Hss1 & Hsc1 & Hrc1 & Hio1 & Hlog & [(_ & -> & Hnew)|(r & Hnew & Hr)]).
  { by apply (recv_ended_here rd l w w6 s s1 c c1 new). }
  clear Hrun. destruct r as [err|payload].
  2: { by apply (recv_turn rd rfuel fuel l w w6 s s1 c c1 payload new u w' IH). }
  destruct (as_net_error err) as [[]|];
    [|injection Hr as _ <-; by apply (recv_ended_here rd l w w6 s s1 c c1 new)..].
  destruct Hrr1 as [Hp1 Hr1 Hd1 Hg1].
  destruct (IH w6 s1 c1 u w' Hk6) as (ps & s2 & c2 & Hs2 & He); [congruence..|done|].
  exists ([] ++ ps), s2, c2. split; [by etrans|].
  apply (recv_ended_after rd l w w6 w' s s1 s2 c c1 c2 [] ps new); try done. by rewrite app_nil_r.
Qed.

(** C23. A run of [receiveLoop] to its end is a run of the step relation: it never closes
    its channel twice, ends with the channel closed and the context done, and touches
    nothing of the sending side.  What the step relation counts as read is what came from
    the network: the payloads [ps] that the connection's reader returned during the run, in
    order, but for at most one at the end, were queued behind what was there; that one was
    dropped because the context was done. *)
Theorem receiveLoop_refines rfuel fuel l w s c rd w' :
  heap w !! l = Some c → sim c (t_conn s) → closed_ok c → t_rcv s = RTop →
  ch_closed (receiveChan c) = false → t_dropped s = [] → reader c = Some rd →
  receiveLoop rfuel fuel l w = Done tt w' →
  ∃ ps s' c' new, rtc step s s' ∧ t_rcv s' = RExit ∧ heap w' !! l = Some c' ∧ sim c' (t_conn s') ∧
    ctx_done c' = true ∧ same_send s s' ∧ sendChan c' = sendChan c ∧
    receiveChan c' = ch_close (foldl (λ ch p, ch_push p ch) (receiveChan c) ps) ∧
    log_of w' = log_of w ++ new ∧ messages_read (r_conn rd) new = ps ++ t_dropped s' ∧
    t_read s' = t_read s ++ messages_read (r_conn rd) new ∧ length (t_dropped s') ≤ 1.
Proof.
  intros Hl Hsim Hco Htop Hopen Hnone Hio (w1 & Hloop & Hcl)%defer_done_inv.
  destruct (receiveLoop_loop_refines rd rfuel l fuel w s c tt w1)
    as (ps & s1 & c1 & Hs1 & [Hk1 Hss1 Hsc1 Hrc1 Hr1 Hg1 Hd1 Hp1 (new & Hlog & Hnew)]); [by split|done..|].
  apply bind_done_inv in Hcl as (c0 & w1' & [-> ->]%(linked_deref _ _ _ _ _ _ Hk1) & Hcl).
  assert (ch_closed (receiveChan c1) = false) as Hopen1 by (by rewrite Hrc1, push_all_closed).
  rewrite Hopen1 in Hcl. apply bind_done_inv in Hcl as ([] & w2 & Ea & Hcl). injection Ea as <-.
  apply bind_done_inv in Hcl as (r & w3 & Ec & Hret). injection Hret as <-.
  apply wquiet_Close in Ec as Hlog2.
  destruct Hk1 as [Hl1 [S1 S2 S3] Hco1].
  match type of Ec with Close l ?w2 = _ =>
    assert (heap w2 !! l = Some (set_receiveChan (ch_close (receiveChan c1)) c1)) as Hl2
      by (cbn; by rewrite lookup_alter_eq, Hl1)
  end.
  destruct (close_ends l _ _ r w3 Hl2 Hco1 Ec) as (c2 & Hl3 & _ & Hsc2 & Hrc2 & Hd2).
  destruct (rcv_exit_step s1) as (s2 & Hs2 & He2); [by rewrite <- S2|by rewrite <- S3; destruct Hp1; auto|].
  exists ps, s2, c2, new. cbn in Hsc2, Hrc2. rewrite He2 in *. cbn. rewrite Hnew.
  split_and!; try done; try congruence.
  - by eapply rtc_r.
  - split; cbn; congruence.
  - by destruct Hss1; split.
  - etrans; [exact Hlog2|exact Hlog].
  - by rewrite Hd1, Hnone.
  - rewrite Hd1, Hnone. by destruct (t_rcv s1); cbn; lia.
Qed.

End Observed.

(** ** Witnesses *)

#[local] Existing Instance sim_multierr.

(** Two messages are queued; the context is cancelled at the fifth poll, when both
    are written. *)
Definition queued_conn : Conn := set_sendChan (Chan ["a"; "b"] 256 false) sample_conn.
Definition cancelled_late : Sim := sim_set_script [] [false; false; false; false; true] [] [] sim0.
Definition one_frame : Sim := sim_set_script [] [] [] [inr (false, "x")] sim0.

Definition observed (c : Conn) (e : Sim) : World (Traced Sim) := MkWorld {[0 := c]} 1 [] (MkTraced e []).
Definition log_after (r : outcome (World (Traced Sim)) ()) : list netev :=
  match r with Done _ w => log_of w | _ => [] end.

(** Both messages went out, in order. *)
Example sendLoop_refines_witness :
  ∃ s', rtc step (start queued_conn) s' ∧ t_snd s' = SExit ∧ t_wire s' = ["a"; "b"].
Proof.
  assert (messages_sent 5 (log_after (sendLoop (RS := sim_retry) 4 9 0 (observed queued_conn cancelled_late)))
    = ["a"; "b"]) as Hlog by by vm_compute.
  destruct (sendLoop (RS := sim_retry) 4 9 0 (observed queued_conn cancelled_late)) as [[] w'|w'|w'|w'] eqn:Hrun;
    try (vm_compute in Hlog; discriminate Hlog).
  destruct (sendLoop_refines (E0 := Sim) (RS := sim_retry) 4 9 0 (observed queued_conn cancelled_late)
    (start queued_conn) queued_conn (NewServerSideWriter 5 false) w')
    as (n & s' & c' & new & Hs & Hp & _ & _ & _ & _ & _ & Hnew & _ & Hw & _);
    [done|by split|done|done|done|done|exact Hrun|].
  exists s'. split_and!; [done..|]. cbn in Hlog, Hnew. by rewrite Hw, <- Hnew.
Defined.

(** One frame came in. *)
Example receiveLoop_refines_witness :
  ∃ ps s', rtc step (start sample_conn) s' ∧ t_rcv s' = RExit ∧ t_read s' = ["x"] ∧ ["x"] = ps ++ t_dropped s'.
Proof.
  assert (messages_read 5 (log_after (receiveLoop 9 9 0 (observed sample_conn one_frame))) = ["x"]) as Hlog
    by by vm_compute.
  destruct (receiveLoop 9 9 0 (observed sample_conn one_frame)) as [[] w'|w'|w'|w'] eqn:Hrun;
    try (vm_compute in Hlog; discriminate Hlog).
  destruct (receiveLoop_refines (E0 := Sim) 9 9 0 (observed sample_conn one_frame)
    (start sample_conn) sample_conn (NewServerSideReader 5) w')
    as (ps & s' & c' & new & Hs & Hp & _ & _ & _ & _ & _ & _ & Hnew & Hread & Hr & _);
    [done|by split|done|done|done|done|done|exact Hrun|].
  cbn in Hlog, Hnew. rewrite Hnew in Hlog.
  assert (messages_read 5 new = ["x"]) as Hx by exact Hlog.
  exists ps, s'. split_and!; [done..| |by rewrite <- Hread, <- Hx]. by rewrite Hr, <- Hx.
Defined.

Example Send_refines_witness :
  ∃ s', rtc step (start sample_conn) s' ∧ t_sent s' = ["x"].
Proof.
  destruct (Send 0 "x" (sample_world sample_conn sim0)) as [r w'|w'|w'|w'] eqn:Hrun;
    try (apply (f_equal result) in Hrun; vm_compute in Hrun; discriminate Hrun).
  destruct (Send_refines (E := Sim) 0 "x" (sample_world sample_conn sim0) (start sample_conn) sample_conn
    r w') as (s' & c' & Hs & _ & _ & _ & _ & _ & Hsent & _); [done|by split|done|done|exact Hrun|].
  exists s'. split; [exact Hs|]. destruct Hsent as [Hsent|[_ Hr]]; [exact Hsent|].
  rewrite Hr in Hrun. apply (f_equal result) in Hrun. vm_compute in Hrun. discriminate Hrun.
Defined.
