(* ===== verification/ConnManager.v ===== *)
(** The registry of connections, by user and device
    ([internal/ws/conn/conn_manager.go], [internal/ws/conn/module.go]).

    Abstract specification: a finite map from (connection key, device) to a
    connection, with the number of its entries and of its users.  [cm_rep]
    relates the two-level structure of the code to such a map, and the theorems
    say that each operation acts on the map as its name says. *)

From S2P Require Import Prelude Env Sim Session Compression Xws Conn.

(** ** Data *)

Record ConnConfig : Type := MkConnConfig {
  ReadTimeout : Z;
  WriteTimeout : Z;
  InitRetryInterval : Z;
  MaxRetryInterval : Z;
  MaxRetryCount : Z;
  SendBufferSize : Z;
  ReceiveBufferSize : Z;
  CloseTimeout : Z;
  RateLimit : Z;
}.

(** [DeviceConns]: a map from devices to connections (their addresses). *)
Abbreviation DeviceConns := (gmap string nat).

(** [ConnManager]; [conns] maps a connection key to the address of a
    [DeviceConns]. *)
Record ConnManager (M : Type → Type) : Type := MkConnManager {
  cfg : ConnConfig;
  conns : M nat;
  connCnt : Z;
  userCnt : Z;
}.
Arguments MkConnManager {M} cfg conns connCnt userCnt.
Arguments cfg {M} c.
Arguments conns {M} c.
Arguments connCnt {M} c.
Arguments userCnt {M} c.

(** The manager, the [DeviceConns] objects by address, and the connections. *)
Record CMS (M : Type → Type) (E : Type) : Type := MkCMS {
  cm : ConnManager M;
  dheap : gmap nat DeviceConns;
  dnext : nat;
  world : World E;
}.
Arguments MkCMS {M E} cm dheap dnext world.
Arguments cm {M E} c.
Arguments dheap {M E} c.
Arguments dnext {M E} c.
Arguments world {M E} c.

#[export] Instance cms_world {M : Type → Type} {E : Type} : Part (CMS M E) (World E) := {
  part_get := world;
  part_set w s := MkCMS (cm s) (dheap s) (dnext s) w;
}.

Definition set_cm {M : Type → Type} {E : Type} (f : ConnManager M → ConnManager M)
    (s : CMS M E) : CMS M E := MkCMS (f (cm s)) (dheap s) (dnext s) (world s).
Definition set_dheap {M : Type → Type} {E : Type} (h : gmap nat DeviceConns)
    (s : CMS M E) : CMS M E := MkCMS (cm s) h (dnext s) (world s).
Definition set_conns {M : Type → Type} (x : M nat) (m : ConnManager M) : ConnManager M :=
  MkConnManager (cfg m) x (connCnt m) (userCnt m).
Definition add_connCnt {M : Type → Type} (d : Z) (m : ConnManager M) : ConnManager M :=
  MkConnManager (cfg m) (conns m) (int64 (connCnt m + d)) (userCnt m).
Definition add_userCnt {M : Type → Type} (d : Z) (m : ConnManager M) : ConnManager M :=
  MkConnManager (cfg m) (conns m) (connCnt m) (int64 (userCnt m + d)).

Section Operations.
Context {M : Type → Type} {E : Type}.
Context {ME : MultiErr} {OA : OptApply} `{SyncMap M, Sched E, Net E, Redis E}.

(** ** [DeviceConns] *)

Definition newDeviceConns : go (CMS M E) nat :=
  d <- gets dnext ;;
  modify (λ s, MkCMS (cm s) (<[d := ∅]> (dheap s)) (S d) (world s)) ;;;
  ret d.

Definition dc_load (d : nat) : go (CMS M E) DeviceConns :=
  o <- gets (λ s, dheap s !! d) ;; need o.

Definition dc_store (d : nat) (dc : DeviceConns) : go (CMS M E) unit :=
  modify (λ s, set_dheap (<[d := dc]> (dheap s)) s).

Definition dc_add (d : nat) (device : string) (conn : nat) : go (CMS M E) unit :=
  dc <- dc_load d ;; dc_store d (<[device := conn]> dc).

Definition dc_remove (d : nat) (device : string) : go (CMS M E) (option nat) :=
  dc <- dc_load d ;;
  match dc !! device with
  | Some conn => dc_store d (delete device dc) ;;; ret (Some conn)
  | None => ret None
  end.

Definition dc_find (d : nat) (device : string) : go (CMS M E) (option nat) :=
  dc <- dc_load d ;; ret (dc !! device).

Definition dc_findAll (d : nat) : go (CMS M E) (list nat * bool) :=
  dc <- dc_load d ;;
  entries <- zoom (T := World E) (envcall (map_order (map_to_list dc))) ;;
  let cs := entries.*2 in
  ret (cs, bool_decide (0 < length cs)).

Definition dc_clear (d : nat) : go (CMS M E) Z :=
  dc <- dc_load d ;;
  dc_store d ∅ ;;;
  ret (Z.of_nat (size dc)).

(** ** [ConnManager] *)

Definition cm_load (key : string) : go (CMS M E) (option nat) :=
  gets (λ s, sm_load key (conns (cm s))).

Definition convertToConnOpts (cfg : ConnConfig) (user : User)
    (compressionState : option Compression.State) : list (Conn → Conn) :=
  (match compressionState with Some st => [ConnWithCompression st] | None => [] end) ++
  (if (0 <? ReadTimeout cfg)%Z then [ConnWithReadTimeout (ReadTimeout cfg)] else []) ++
  (if (0 <? WriteTimeout cfg)%Z then [ConnWithWriteTimeout (WriteTimeout cfg)] else []) ++
  (if (0 <? SendBufferSize cfg)%Z then [ConnWithWriteBuffer (SendBufferSize cfg)] else []) ++
  (if (0 <? ReceiveBufferSize cfg)%Z then [ConnWithReadBuffer (ReceiveBufferSize cfg)] else []) ++
  (if (0 <? InitRetryInterval cfg)%Z && (0 <? MaxRetryInterval cfg)%Z && (0 <? MaxRetryCount cfg)%Z
   then [ConnWithRetry (InitRetryInterval cfg) (MaxRetryInterval cfg) (MaxRetryCount cfg)]
   else []) ++
  [ConnWithAutoClose (AutoClose user); ConnWithRateLimit (RateLimit cfg)].

Definition loadExistingConn (connKey device : string) : go (CMS M E) (option nat) :=
  o <- cm_load connKey ;;
  match o with
  | None => ret None
  | Some d => dc_find d device
  end.

Definition storeConn (cid device : string) (conn : nat) : go (CMS M E) unit :=
  fresh <- newDeviceConns ;;
  r <- state (λ s, let '(r, x) := sm_load_or_store cid fresh (conns (cm s)) in
                   (r, set_cm (set_conns x) s)) ;;
  (if (r.2 : bool) then ret tt else modify (set_cm (add_userCnt 1))) ;;;
  dc_add r.1 device conn ;;;
  modify (set_cm (add_connCnt 1)).

Definition RemoveConn (user : User) : go (CMS M E) bool :=
  let connKey := ConnKey user in
  o <- cm_load connKey ;;
  match o with
  | None => ret false
  | Some d =>
      r <- dc_remove d (UDevice user) ;;
      match r with
      | None => ret false
      | Some conn =>
          defer (err <- zoom (Close conn) ;; ret tt)
            (modify (set_cm (add_connCnt (-1))) ;;;
             dc <- dc_load d ;;
             (if bool_decide (size dc = 0) then
                modify (set_cm (λ m, set_conns (sm_delete connKey (conns m)) m)) ;;;
                modify (set_cm (add_userCnt (-1)))
              else ret tt) ;;;
             ret true)
      end
  end.

Definition CM_NewConn (nc : nat) (s : Session) (compressionState : option Compression.State) :
    go (CMS M E) nat :=
  let user := sess_user s in
  let connKey := ConnKey user in
  let device := UDevice user in
  existing <- loadExistingConn connKey device ;;
  (match existing with
   | Some _ => RemoveConn user ;;; ret tt
   | None => ret tt
   end) ;;;
  let connID := ConnID user in
  c <- gets (λ s, cfg (cm s)) ;;
  newConn <- zoom (NewConn connID s nc (convertToConnOpts c user compressionState)) ;;
  storeConn connKey device newConn ;;;
  ret newConn.

Definition RemoveUserConn (user : User) : go (CMS M E) bool :=
  o <- cm_load (ConnKey user) ;;
  match o with
  | None => ret false
  | Some d =>
      modify (set_cm (add_userCnt (-1))) ;;;
      cnt <- dc_clear d ;;
      modify (set_cm (add_connCnt (- cnt))) ;;;
      ret true
  end.

Definition FindConn (user : User) : go (CMS M E) (option nat) :=
  o <- cm_load (ConnKey user) ;;
  match o with
  | None => ret None
  | Some d => dc_find d (UDevice user)
  end.

Definition FindUserConn (user : User) : go (CMS M E) (list nat * bool) :=
  o <- cm_load (ConnKey user) ;;
  match o with
  | None => ret ([], false)
  | Some d => dc_findAll d
  end.

(** ** Construction *)

Definition ConnManagerWithConfig (c : ConnConfig) (m : ConnManager M) : ConnManager M :=
  MkConnManager c (conns m) (connCnt m) (userCnt m).

Definition NewConnManager (opts : list (ConnManager M → ConnManager M)) : ConnManager M :=
  let cfg := MkConnConfig DefaultReadTiemout DefaultWriteTiemout DefaultInitRetryInterval
    DefaultMaxRetryInterval DefaultMaxRetryCount DefaultSendBufferSize
    DefaultReceiveBufferSize DefaultCloseTimeout DefaultRateLimit in
  option_apply (MkConnManager cfg (sm_new nat) 0 0) opts.

(** [newConnManager] of [module.go], given what [viper.UnmarshalKey] returns. *)
Definition newConnManager (unmarshal : error + ConnConfig) : error + ConnManager M :=
  match unmarshal with
  | inl err => inl err
  | inr c => inr (NewConnManager [ConnManagerWithConfig c])
  end.

End Operations.

(** * Lemmas and properties *)

Section Lookup.
Context {M : Type → Type} {E : Type} `{SyncMapSpec M}.
Implicit Types (s : CMS M E) (m : gmap (string * string) nat).

(** The connection the two-level structure holds for a key and a device. *)
Definition lookup_conn s (k d : string) : option nat :=
  match sm_view (conns (cm s)) !! k with
  | Some dl => match dheap s !! dl with Some dc => dc !! d | None => None end
  | None => None
  end.

(** The manager's state represents the abstract registry [m]. *)
Record cm_rep s m : Prop := Rep {
  rep_lookup k d : m !! (k, d) = lookup_conn s k d;
  rep_alloc k dl : sm_view (conns (cm s)) !! k = Some dl →
    ∃ dc, dheap s !! dl = Some dc ∧ dc ≠ ∅;
  rep_inj k1 k2 dl : sm_view (conns (cm s)) !! k1 = Some dl →
    sm_view (conns (cm s)) !! k2 = Some dl → k1 = k2;
  rep_dnext dl : is_Some (dheap s !! dl) → dl < dnext s;
  rep_connCnt : connCnt (cm s) = int64 (Z.of_nat (size m));
  rep_userCnt : userCnt (cm s) = int64 (Z.of_nat (size (sm_view (conns (cm s)))));
  rep_heap i l : m !! i = Some l → is_Some (heap (world s) !! l);
  rep_conn_inj i j l : m !! i = Some l → m !! j = Some l → i = j;
  rep_next l : is_Some (heap (world s) !! l) → l < next (world s);
}.

(** The users of a registry. *)
Definition users m : gset string := set_map fst (dom m).

Lemma elem_of_users m k : k ∈ users m ↔ ∃ d, is_Some (m !! (k, d)).
Proof.
  unfold users. rewrite elem_of_map. split.
  - intros ([k' d] & -> & Hd%elem_of_dom). by exists d.
  - intros [d Hd%elem_of_dom]. by exists (k, d).
Qed.

(** Every user in the map has a connection, so the users counted by the code
    are those of the registry. *)
Lemma rep_users s m : cm_rep s m → dom (sm_view (conns (cm s))) = users m.
Proof.
  intros Hr. apply set_eq. intros k. rewrite elem_of_dom, elem_of_users. split.
  - intros [dl Hdl]. destruct (rep_alloc s m Hr k dl Hdl) as (dc & Hdc & Hne).
    destruct (map_choose dc Hne) as (d & l & Hd).
    exists d. rewrite (rep_lookup s m Hr). unfold lookup_conn. rewrite Hdl, Hdc. eauto.
  - intros [d [l Hd]]. rewrite (rep_lookup s m Hr) in Hd. unfold lookup_conn in Hd.
    destruct (sm_view (conns (cm s)) !! k); eauto.
Qed.

Lemma rep_userCnt_users s m : cm_rep s m → userCnt (cm s) = int64 (Z.of_nat (size (users m))).
Proof. intros Hr. by rewrite (rep_userCnt s m Hr), <- (rep_users s m Hr), size_dom. Qed.

Lemma rep_none s m k d :
  cm_rep s m → sm_view (conns (cm s)) !! k = None → m !! (k, d) = None.
Proof. intros Hr Hk. rewrite (rep_lookup s m Hr). unfold lookup_conn. by rewrite Hk. Qed.

Lemma rep_some s m k d dl dc :
  cm_rep s m → sm_view (conns (cm s)) !! k = Some dl → dheap s !! dl = Some dc →
  m !! (k, d) = dc !! d.
Proof.
  intros Hr Hk Hd. rewrite (rep_lookup s m Hr). unfold lookup_conn. by rewrite Hk, Hd.
Qed.

(** Changing only connections, not which ones there are. *)
Lemma rep_world s m w :
  cm_rep s m → (∀ l, is_Some (heap (world s) !! l) → is_Some (heap w !! l)) →
  (∀ l, is_Some (heap w !! l) → l < next w) →
  cm_rep (MkCMS (cm s) (dheap s) (dnext s) w) m.
Proof. intros [] Hh Hn. split; eauto. Qed.

End Lookup.

Section Operations_Facts.
Context {M : Type → Type} {E : Type}.
Context {ME : MultiErr} {OA : OptApply} `{SyncMapSpec M, Sched E, Net E, Redis E}.
Implicit Types (s : CMS M E) (m : gmap (string * string) nat) (u : User).

Lemma cm_load_done s k : cm_load k s = Done (sm_view (conns (cm s)) !! k) s.
Proof. unfold cm_load, gets. by rewrite sm_load_view. Qed.

Lemma dc_load_done s dl dc : dheap s !! dl = Some dc → dc_load dl s = Done dc s.
Proof. unfold dc_load, bind, gets, need. by intros ->. Qed.

Lemma Close_returns l (w : World E) c :
  heap w !! l = Some c →
  ∃ err w' c', Close l w = Done err w' ∧ heap w' = <[l := c']> (heap w) ∧
    next w' = next w ∧ threads w' = threads w ∧ closeOnce c' = true ∧ sess c' = sess c.
Proof.
  intros Hl. destruct (closeOnce c) eqn:Ho.
  - exists (closeErr c), w, c. rewrite (Close_again l w c Hl Ho).
    split_and!; try done. by rewrite insert_id.
  - rewrite (Close_first l w c Hl Ho).
    eexists _, _, (set_closeErr _ (set_ctx_done (set_closeOnce c))).
    split; [reflexivity|]. split_and!; [|done..].
    apply map_eq. intros i. cbn. destruct (decide (i = l)) as [->|Hne].
    + by rewrite lookup_alter_eq, Hl, lookup_insert_eq.
    + by rewrite lookup_alter_ne, lookup_insert_ne.
Qed.

(** Finding does not change the state. *)
Lemma loadExistingConn_rep s m k d :
  cm_rep s m → loadExistingConn k d s = Done (m !! (k, d)) s.
Proof.
  intros Hr. unfold loadExistingConn. erewrite bind_done by apply cm_load_done.
  destruct (sm_view (conns (cm s)) !! k) as [dl|] eqn:Hk.
  - destruct (rep_alloc s m Hr k dl Hk) as (dc & Hdc & _).
    unfold dc_find. erewrite bind_done by by apply dc_load_done.
    by rewrite (rep_some s m k d dl dc Hr Hk Hdc).
  - by rewrite (rep_none s m k d Hr Hk).
Qed.

(** The state after the entry [(k, d)] with connection [l] in [DeviceConns]
    object [dl] has been taken out, before [l] is closed. *)
Definition removed (k d : string) (dl : nat) (dc : DeviceConns) s : CMS M E :=
  let s1 := set_cm (add_connCnt (-1)) (set_dheap (<[dl := delete d dc]> (dheap s)) s) in
  if bool_decide (size (delete d dc) = 0)
  then set_cm (add_userCnt (-1)) (set_cm (λ x, set_conns (sm_delete k (conns x)) x) s1)
  else s1.

Lemma dc_remove_done s dl dc d :
  dheap s !! dl = Some dc →
  dc_remove dl d s =
    match dc !! d with
    | Some l => Done (Some l) (set_dheap (<[dl := delete d dc]> (dheap s)) s)
    | None => Done None s
    end.
Proof.
  intros Hdc. unfold dc_remove. erewrite bind_done by by apply dc_load_done.
  by destruct (dc !! d).
Qed.

Lemma RemoveConn_none s m u :
  cm_rep s m → m !! (ConnKey u, UDevice u) = None → RemoveConn u s = Done false s.
Proof.
  intros Hr Hm. unfold RemoveConn. erewrite bind_done by apply cm_load_done.
  destruct (sm_view (conns (cm s)) !! ConnKey u) as [dl|] eqn:Hk; [|done].
  destruct (rep_alloc s m Hr _ dl Hk) as (dc & Hdc & _).
  rewrite (rep_some s m _ _ dl dc Hr Hk Hdc) in Hm.
  erewrite bind_done by (rewrite (dc_remove_done s dl dc), Hm by done; reflexivity). done.
Qed.

Lemma RemoveConn_some s u dl dc l err w' :
  sm_view (conns (cm s)) !! ConnKey u = Some dl → dheap s !! dl = Some dc →
  dc !! UDevice u = Some l → Close l (world s) = Done err w' →
  RemoveConn u s =
    let s2 := removed (ConnKey u) (UDevice u) dl dc s in
    Done true (MkCMS (cm s2) (dheap s2) (dnext s2) w').
Proof.
  intros Hk Hdc Hd Hc. unfold RemoveConn, removed.
  erewrite bind_done by apply cm_load_done. rewrite Hk. cbn beta iota.
  erewrite bind_done by (rewrite (dc_remove_done s dl dc), Hd by done; reflexivity).
  cbn. unfold defer, bind, modify, dc_load, gets, need, zoom. cbn.
  rewrite lookup_insert_eq. cbn.
  destruct (bool_decide (size (delete (UDevice u) dc) = 0)); cbn; by rewrite Hc.
Qed.

Lemma size_zero_empty (dc : DeviceConns) : bool_decide (size dc = 0) = bool_decide (dc = ∅).
Proof. apply bool_decide_ext. apply map_size_empty_iff. Qed.

Lemma removed_view k d dl dc s :
  sm_view (conns (cm (removed k d dl dc s))) =
    if bool_decide (delete d dc = ∅) then delete k (sm_view (conns (cm s)))
    else sm_view (conns (cm s)).
Proof.
  unfold removed. rewrite size_zero_empty.
  destruct (bool_decide _); cbn; [by rewrite sm_delete_view|done].
Qed.

Lemma removed_same k d dl dc s :
  dheap (removed k d dl dc s) = <[dl := delete d dc]> (dheap s) ∧
  dnext (removed k d dl dc s) = dnext s ∧ world (removed k d dl dc s) = world s ∧
  connCnt (cm (removed k d dl dc s)) = int64 (connCnt (cm s) + -1).
Proof. unfold removed. by destruct (bool_decide _). Qed.

Lemma int64_size_delete {K V} `{Countable K} (m : gmap K V) i v :
  m !! i = Some v →
  int64 (int64 (Z.of_nat (size m)) + -1) = int64 (Z.of_nat (size (delete i m))).
Proof.
  intros Hi. rewrite int64_add_l. f_equal.
  rewrite (map_size_delete_Some i m) by eauto.
  assert (size m ≠ 0) by (apply (map_size_ne_0_lookup_2 m i); eauto). lia.
Qed.

Lemma removed_lookup s m k d dl dc k' d' :
  cm_rep s m → sm_view (conns (cm s)) !! k = Some dl → dheap s !! dl = Some dc →
  lookup_conn (removed k d dl dc s) k' d' = delete (k, d) m !! (k', d').
Proof.
  intros Hr Hk Hdc. unfold lookup_conn.
  destruct (removed_same k d dl dc s) as (-> & _). rewrite removed_view.
  destruct (decide (k' = k)) as [->|Hne].
  - assert (m !! (k, d') = dc !! d') as Hm by by eapply rep_some.
    destruct (decide (d' = d)) as [->|Hd].
    + rewrite lookup_delete_eq. case_bool_decide; [by rewrite lookup_delete_eq|].
      by rewrite Hk, lookup_insert_eq, lookup_delete_eq.
    + rewrite lookup_delete_ne by congruence. rewrite Hm. case_bool_decide as He.
      * rewrite lookup_delete_eq. rewrite <- (lookup_delete_ne dc d d') by done.
        by rewrite He.
      * by rewrite Hk, lookup_insert_eq, lookup_delete_ne.
  - rewrite lookup_delete_ne by congruence. rewrite (rep_lookup s m Hr). unfold lookup_conn.
    assert ((if bool_decide (delete d dc = ∅) then delete k (sm_view (conns (cm s)))
             else sm_view (conns (cm s))) !! k' = sm_view (conns (cm s)) !! k') as ->
      by (case_bool_decide; [by rewrite lookup_delete_ne|done]).
    destruct (sm_view (conns (cm s)) !! k') as [dl'|] eqn:Hk'; [|done].
    rewrite lookup_insert_ne; [done|]. intros ->. apply Hne. by eapply (rep_inj s m Hr).
Qed.

Lemma removed_rep s m k d dl dc l :
  cm_rep s m → sm_view (conns (cm s)) !! k = Some dl → dheap s !! dl = Some dc →
  m !! (k, d) = Some l → cm_rep (removed k d dl dc s) (delete (k, d) m).
Proof.
  intros Hr Hk Hdc Hm. pose proof (λ k' d', removed_lookup s m k d dl dc k' d' Hr Hk Hdc) as Hlk.
  destruct (removed_same k d dl dc s) as (Hdh & Hdn & Hw & Hcc).
  assert (∀ k' dl', sm_view (conns (cm (removed k d dl dc s))) !! k' = Some dl' →
    sm_view (conns (cm s)) !! k' = Some dl' ∧ (k' = k → delete d dc ≠ ∅)) as Hv.
  { intros k' dl'. rewrite removed_view. case_bool_decide; [|by auto].
    rewrite lookup_delete_Some. intros [? ?]. split; [done|congruence]. }
  split.
  - intros k' d'. by rewrite Hlk.
  - intros k' dl' [Hk' Hne]%Hv. rewrite Hdh. destruct (decide (dl' = dl)) as [->|Hdl].
    + rewrite lookup_insert_eq. eexists. split; [done|]. apply Hne. by eapply (rep_inj s m Hr).
    + rewrite lookup_insert_ne by done. by eapply (rep_alloc s m Hr).
  - intros k1 k2 dl' [H1' _]%Hv [H2' _]%Hv. by eapply (rep_inj s m Hr).
  - intros dl'. rewrite Hdh, Hdn. rewrite lookup_insert_is_Some'. intros [->|Hs].
    + apply (rep_dnext s m Hr). eauto.
    + by apply (rep_dnext s m Hr).
  - rewrite Hcc, (rep_connCnt s m Hr). by eapply int64_size_delete.
  - rewrite removed_view. unfold removed. rewrite size_zero_empty.
    case_bool_decide; cbn; rewrite (rep_userCnt s m Hr); [by eapply int64_size_delete|done].
  - intros i l'. rewrite Hw. rewrite lookup_delete_Some. intros [_ Hi].
    by eapply (rep_heap s m Hr).
  - intros i j l'. rewrite !lookup_delete_Some. intros [_ ?] [_ ?]. by eapply (rep_conn_inj s m Hr).
  - rewrite Hw. apply (rep_next s m Hr).
Qed.

Lemma removed_cfg k d dl dc s : cfg (cm (removed k d dl dc s)) = cfg (cm s).
Proof. unfold removed. by destruct (bool_decide _). Qed.

Lemma RemoveConn_rep s m u :
  cm_rep s m →
  ∃ s', RemoveConn u s = Done (bool_decide (is_Some (m !! (ConnKey u, UDevice u)))) s' ∧
    cm_rep s' (delete (ConnKey u, UDevice u) m) ∧
    cfg (cm s') = cfg (cm s) ∧ next (world s') = next (world s) ∧
    match m !! (ConnKey u, UDevice u) with
    | None => s' = s
    | Some l => (∃ c, heap (world s') !! l = Some c ∧ closeOnce c = true) ∧
        ∀ l', l' ≠ l → heap (world s') !! l' = heap (world s) !! l'
    end.
Proof.
  intros Hr. destruct (m !! (ConnKey u, UDevice u)) as [l|] eqn:Hm.
  - pose proof (rep_lookup s m Hr (ConnKey u) (UDevice u)) as Hl.
    rewrite Hm in Hl. unfold lookup_conn in Hl.
    destruct (sm_view (conns (cm s)) !! ConnKey u) as [dl|] eqn:Hk; [|done].
    destruct (dheap s !! dl) as [dc|] eqn:Hdc; [|done].
    destruct (rep_heap s m Hr _ l Hm) as [c Hc].
    destruct (Close_returns l (world s) c Hc) as (err & w' & c' & Hcl & Hh & Hn & _ & Ho & _).
    rewrite (RemoveConn_some s u dl dc l err w') by done. eexists. split; [done|].
    destruct (removed_same (ConnKey u) (UDevice u) dl dc s) as (_ & _ & Hw & _).
    split; [|cbn; rewrite Hh, removed_cfg; split; [done|split; [done|]]; split; [exists c'; by rewrite lookup_insert_eq|]].
    + apply rep_world; [by eapply removed_rep|rewrite Hh, ?Hw..].
      * intros l'. rewrite lookup_insert_is_Some'. auto.
      * intros l'. rewrite lookup_insert_is_Some', Hn.
        intros [<-|Hi]; apply (rep_next s m Hr); eauto.
    + intros l' Hne. by rewrite lookup_insert_ne.
  - rewrite (RemoveConn_none s m u Hr Hm). exists s. split; [done|].
    by rewrite delete_id.
Qed.

(** C5. [RemoveConn] removes exactly the entry of the user's device from the
    registry and closes its connection, and the two counters stay the number of
    connections and of users; it reports whether there was such an entry, and
    does nothing if there was none. *)
Theorem RemoveConn_refines s m u :
  cm_rep s m →
  ∃ s', RemoveConn u s = Done (bool_decide (is_Some (m !! (ConnKey u, UDevice u)))) s' ∧
    cm_rep s' (delete (ConnKey u, UDevice u) m) ∧
    match m !! (ConnKey u, UDevice u) with
    | None => s' = s
    | Some l => (∃ c, heap (world s') !! l = Some c ∧ closeOnce c = true) ∧
        ∀ l', l' ≠ l → heap (world s') !! l' = heap (world s) !! l'
    end.
Proof.
  intros Hr. destruct (RemoveConn_rep s m u Hr) as (s' & H1' & H2' & _ & _ & H3'). eauto.
Qed.

(** [storeConn], by what it does to each part of the state: it uses the user's
    [DeviceConns] object [dl] with content [dc], or the one just allocated. *)
Lemma storeConn_done s m k d l :
  cm_rep s m →
  ∃ dl dc s', storeConn k d l s = Done tt s' ∧
    dheap s' = <[dl := <[d := l]> dc]> (<[dnext s := ∅]> (dheap s)) ∧
    dnext s' = S (dnext s) ∧ world s' = world s ∧
    connCnt (cm s') = int64 (connCnt (cm s) + 1) ∧
    ((sm_view (conns (cm s)) !! k = Some dl ∧ dheap s !! dl = Some dc ∧
      sm_view (conns (cm s')) = sm_view (conns (cm s)) ∧ userCnt (cm s') = userCnt (cm s)) ∨
     (sm_view (conns (cm s)) !! k = None ∧ dl = dnext s ∧ dc = ∅ ∧
      sm_view (conns (cm s')) = <[k := dl]> (sm_view (conns (cm s))) ∧
      userCnt (cm s') = int64 (userCnt (cm s) + 1))).
Proof.
  intros Hr. unfold storeConn, newDeviceConns, dc_add, dc_store, dc_load.
  unfold bind, gets, modify, state, need, ret. cbn.
  destruct (sm_load_or_store k (dnext s) (conns (cm s))) as [r x] eqn:Hlos. cbn.
  destruct (sm_view (conns (cm s)) !! k) as [dl|] eqn:Hk.
  - destruct (sm_load_or_store_some _ k (dnext s) (conns (cm s)) dl Hk) as [H1' H2'].
    rewrite Hlos in H1', H2'. cbn in H1', H2'. subst r. cbn.
    destruct (rep_alloc s m Hr k dl Hk) as (dc & Hdc & _).
    assert (dl ≠ dnext s) as Hne.
    { pose proof (rep_dnext s m Hr dl (mk_is_Some _ _ Hdc)). lia. }
    rewrite lookup_insert_ne, Hdc by done. cbn.
    exists dl, dc. eexists. split; [reflexivity|]. cbn. rewrite H2'. split_and!; auto.
  - destruct (sm_load_or_store_none _ k (dnext s) (conns (cm s)) Hk) as [H1' H2'].
    rewrite Hlos in H1', H2'. cbn in H1', H2'. subst r. cbn.
    rewrite lookup_insert_eq. cbn.
    exists (dnext s), ∅. eexists. split; [reflexivity|]. cbn.
    split_and!; [done..|]. right. by split_and!.
Qed.

Lemma storeConn_rep s m k d l :
  cm_rep s m → m !! (k, d) = None → is_Some (heap (world s) !! l) →
  (∀ i, m !! i ≠ Some l) →
  ∃ s', storeConn k d l s = Done tt s' ∧ cm_rep s' (<[(k, d) := l]> m) ∧ world s' = world s.
Proof.
  intros Hr Hm Hl Hnew.
  destruct (storeConn_done s m k d l Hr) as (dl & dc & s' & Hs & Hdh & Hdn & Hw & Hcc & Hcase).
  exists s'. split_and!; [done| |done].
  assert (sm_view (conns (cm s')) !! k = Some dl) as Hk'.
  { destruct Hcase as [(? & _ & -> & _)|(_ & _ & _ & -> & _)]; [done|by rewrite lookup_insert_eq]. }
  assert (∀ k', k' ≠ k → sm_view (conns (cm s')) !! k' = sm_view (conns (cm s)) !! k') as Hkne.
  { intros k' Hne. destruct Hcase as [(? & _ & -> & _)|(_ & _ & _ & -> & _)]; [done|].
    by rewrite lookup_insert_ne. }
  assert (∀ k' dl', k' ≠ k → sm_view (conns (cm s)) !! k' = Some dl' → dl' ≠ dl) as Hdlne.
  { intros k' dl' Hne Hv ->. destruct Hcase as [(Hk & _)|(_ & -> & _)].
    - apply Hne. by eapply (rep_inj s m Hr).
    - destruct (rep_alloc s m Hr _ _ Hv) as (dc' & Hdc' & _).
      pose proof (rep_dnext s m Hr _ (mk_is_Some _ _ Hdc')). lia. }
  assert (∀ k' dl', sm_view (conns (cm s)) !! k' = Some dl' → dl' ≠ dnext s) as Hold.
  { intros k' dl' Hv ->. destruct (rep_alloc s m Hr _ _ Hv) as (dc' & Hdc' & _).
    pose proof (rep_dnext s m Hr _ (mk_is_Some _ _ Hdc')). lia. }
  assert (∀ d', m !! (k, d') = dc !! d') as Hdev.
  { intros d'. destruct Hcase as [(Hk & Hdc & _)|(Hk & _ & -> & _)].
    - by eapply rep_some.
    - by rewrite (rep_none s m k d' Hr Hk), lookup_empty. }
  split.
  - intros k' d'. unfold lookup_conn. rewrite Hdh. destruct (decide (k' = k)) as [->|Hne].
    + rewrite Hk', lookup_insert_eq. destruct (decide (d' = d)) as [->|Hd].
      * by rewrite !lookup_insert_eq.
      * by rewrite !lookup_insert_ne by congruence.
    + rewrite Hkne, lookup_insert_ne by congruence. rewrite (rep_lookup s m Hr). unfold lookup_conn.
      destruct (sm_view (conns (cm s)) !! k') as [dl'|] eqn:Hv; [|done].
      rewrite !lookup_insert_ne; [done|by apply not_eq_sym, (Hold k')|].
      by apply not_eq_sym, (Hdlne k').
  - intros k' dl' Hv. rewrite Hdh. destruct (decide (dl' = dl)) as [->|Hd].
    + rewrite lookup_insert_eq. eexists. split; [done|]. apply insert_non_empty.
    + destruct (decide (k' = k)) as [->|Hne]; [congruence|]. rewrite Hkne in Hv by done.
      rewrite !lookup_insert_ne; [by eapply (rep_alloc s m Hr)| |done].
      by apply not_eq_sym, (Hold k').
  - intros k1 k2 dl' H1' H2'.
    destruct (decide (k1 = k)) as [->|Hn1], (decide (k2 = k)) as [->|Hn2]; [done|..].
    + rewrite Hkne in H2' by done. rewrite Hk' in H1'. simplify_eq. by destruct (Hdlne k2 dl').
    + rewrite Hkne in H1' by done. rewrite Hk' in H2'. simplify_eq. by destruct (Hdlne k1 dl').
    + rewrite Hkne in H1', H2' by done. by eapply (rep_inj s m Hr).
  - intros dl'. rewrite Hdh, Hdn, !lookup_insert_is_Some'.
    intros [->|[<-|Hd]]; [|lia|by apply (rep_dnext s m Hr) in Hd; lia].
    destruct Hcase as [(_ & Hdc & _)|(_ & -> & _)]; [|lia].
    pose proof (rep_dnext s m Hr _ (mk_is_Some _ _ Hdc)). lia.
  - rewrite Hcc, (rep_connCnt s m Hr), int64_add_l, map_size_insert_None by done.
    f_equal. lia.
  - destruct Hcase as [(_ & _ & -> & ->)|(Hk & _ & _ & -> & ->)]; rewrite (rep_userCnt s m Hr); [done|].
    rewrite int64_add_l, map_size_insert_None by done. f_equal. lia.
  - intros i l'. rewrite Hw, lookup_insert_Some. intros [[_ <-]|[_ Hi]]; [done|].
    by eapply (rep_heap s m Hr).
  - intros i j l'. rewrite !lookup_insert_Some.
    intros [[<- <-]|[_ Hi]] [[<- Hx]|[_ Hj]]; simplify_eq; try done.
    + by destruct (Hnew j).
    + by destruct (Hnew i).
    + by eapply (rep_conn_inj s m Hr).
  - rewrite Hw. apply (rep_next s m Hr).
Qed.

(** ** Creating a connection *)

(** The parameters and buffers a connection should get from a configuration:
    each positive value replaces its default, the three retry values only
    together, and no rate limit is set unless the rate is positive. *)
Definition expected_params (c : ConnConfig) (u : User) (st : option Compression.State) :
    ConnParams :=
  let pos x y := if (0 <? x)%Z then x else y in
  let retry := (0 <? InitRetryInterval c)%Z && (0 <? MaxRetryInterval c)%Z
               && (0 <? MaxRetryCount c)%Z in
  MkConnParams (pos (ReadTimeout c) DefaultReadTiemout) (pos (WriteTimeout c) DefaultWriteTiemout)
    st
    (if retry then InitRetryInterval c else DefaultInitRetryInterval)
    (if retry then MaxRetryInterval c else DefaultMaxRetryInterval)
    (if retry then MaxRetryCount c else DefaultMaxRetryCount)
    (AutoClose u) (Z.max (RateLimit c) 0)
    (if (0 <? RateLimit c)%Z then Some (RateLimit c) else None).

Definition expected_conn (c : ConnConfig) (s : Session) (nc : nat)
    (st : option Compression.State) (now : Z) : Conn :=
  let pos x y := if (0 <? x)%Z then x else y in
  MkConn (ConnID (sess_user s)) s nc (expected_params c (sess_user s) st)
    (Some (NewServerSideReader nc))
    (Some (NewServerSideWriter nc (match st with Some x => st_Enabled x | None => false end)))
    (make_chan (pos (SendBufferSize c) DefaultSendBufferSize))
    (make_chan (pos (ReceiveBufferSize c) DefaultReceiveBufferSize))
    now false false None.

Lemma fold_opt {A} (b : bool) (o : A → A) (t : A) :
  fold_left (λ x f, f x) (if b then [o] else []) t = if b then o t else t.
Proof. by destruct b. Qed.

Lemma rate_limit_max (r : Z) : (if (0 <? r)%Z then r else 0%Z) = Z.max r 0.
Proof. destruct (Z.ltb_spec 0 r); lia. Qed.

Lemma NewConn_configured `{!OptApplySpec} c ses nc st (w : World E) :
  NewConn (ConnID (sess_user ses)) ses nc (convertToConnOpts c (sess_user ses) st) w =
    Done (next w)
      (MkWorld (<[next w := expected_conn c ses nc st (time_now (env w)).1]> (heap w))
         (S (next w)) (threads w ++ [SendLoop (next w); ReceiveLoop (next w)])
         (time_now (env w)).2).
Proof.
  unfold NewConn. erewrite bind_done by apply envcall_done. cbn beta iota.
  unfold bind, gets, modify, ret. cbn [next heap threads env]. do 3 f_equal.
  rewrite option_apply_spec. unfold convertToConnOpts, expected_conn, expected_params.
  rewrite !fold_left_app, !fold_opt. cbn [fold_left].
  unfold ConnWithRateLimit. rewrite <- rate_limit_max.
  destruct st, (0 <? ReadTimeout c)%Z, (0 <? WriteTimeout c)%Z, (0 <? SendBufferSize c)%Z,
    (0 <? ReceiveBufferSize c)%Z, (_ && _ && _), (0 <? RateLimit c)%Z; reflexivity.
Qed.

Lemma CM_NewConn_rep `{!OptApplySpec} s m nc ses st :
  cm_rep s m →
  let u := sess_user ses in
  ∃ l s', CM_NewConn nc ses st s = Done l s' ∧
    cm_rep s' (<[(ConnKey u, UDevice u) := l]> m) ∧
    heap (world s) !! l = None ∧
    (∃ now, heap (world s') !! l = Some (expected_conn (cfg (cm s)) ses nc st now)) ∧
    (∀ old, m !! (ConnKey u, UDevice u) = Some old →
       ∃ c, heap (world s') !! old = Some c ∧ closeOnce c = true) ∧
    (∀ l', l' ≠ l → m !! (ConnKey u, UDevice u) ≠ Some l' →
       heap (world s') !! l' = heap (world s) !! l').
Proof.
  intros Hr u. unfold CM_NewConn.
  erewrite bind_done by by eapply loadExistingConn_rep.
  assert (∃ s1, (match m !! (ConnKey u, UDevice u) with
                 | Some _ => RemoveConn u;;; ret tt | None => ret tt end) s = Done tt s1 ∧
    cm_rep s1 (delete (ConnKey u, UDevice u) m) ∧ cfg (cm s1) = cfg (cm s) ∧
    next (world s1) = next (world s) ∧
    (∀ old, m !! (ConnKey u, UDevice u) = Some old →
       ∃ c, heap (world s1) !! old = Some c ∧ closeOnce c = true) ∧
    (∀ l', m !! (ConnKey u, UDevice u) ≠ Some l' →
       heap (world s1) !! l' = heap (world s) !! l'))
    as (s1 & Hs1 & Hr1 & Hcfg & Hnext & Hcl & Hsame).
  { destruct (RemoveConn_rep s m u Hr) as (s1 & Hrem & Hr1 & Hcfg & Hnext & Hold).
    destruct (m !! (ConnKey u, UDevice u)) as [old|] eqn:Hm.
    - exists s1. erewrite bind_done by exact Hrem. destruct Hold as [Hc Hs].
      split_and!; [done..| |].
      + intros ? [= <-]. done.
      + intros l' Hne. apply Hs. congruence.
    - subst s1. exists s. split_and!; auto; done. }
  erewrite bind_done by exact Hs1. cbn beta.
  erewrite bind_done by reflexivity. rewrite Hcfg.
  set (w1 := world s1) in *.
  erewrite bind_done by (unfold zoom; cbn; fold w1; rewrite NewConn_configured; reflexivity).
  cbn [part_set cms_world].
  assert (heap w1 !! next w1 = None) as Hfresh.
  { apply eq_None_not_Some. intros Hx%(rep_next s1 _ Hr1). unfold w1 in Hx. lia. }
  edestruct (storeConn_rep
    (MkCMS (cm s1) (dheap s1) (dnext s1)
       (MkWorld (<[next w1 := expected_conn (cfg (cm s)) ses nc st (time_now (env w1)).1]> (heap w1))
          (S (next w1)) (threads w1 ++ [SendLoop (next w1); ReceiveLoop (next w1)])
          (time_now (env w1)).2))
    (delete (ConnKey u, UDevice u) m) (ConnKey u) (UDevice u) (next w1))
    as (s2 & Hs2 & Hr2 & Hw2).
  { apply rep_world; [done|..]; cbn; intros l'; rewrite lookup_insert_is_Some'; [auto|].
    intros [<-|Hx]; [lia|]. apply (rep_next s1 _ Hr1) in Hx. fold w1 in Hx. lia. }
  { by rewrite lookup_delete_eq. }
  { cbn. rewrite lookup_insert_eq. eauto. }
  { intros i Hi. destruct (rep_heap s1 _ Hr1 i _ Hi) as [c Hc]. fold w1 in Hc. congruence. }
  erewrite bind_done by exact Hs2. exists (next w1), s2. rewrite insert_delete_eq in Hr2.
  rewrite Hw2. cbn. fold w1 in Hnext.
  assert (∀ old, m !! (ConnKey u, UDevice u) = Some old → old ≠ next w1) as Hne.
  { intros old Ho ->. destruct (Hcl _ Ho) as (c & Hc & _). congruence. }
  split_and!; [done|done| | | |].
  - rewrite <- Hfresh. symmetry. apply Hsame. intros Ho. by destruct (Hne _ Ho).
  - eexists. by rewrite lookup_insert_eq.
  - intros old Ho. rewrite lookup_insert_ne by (by apply not_eq_sym, Hne). by apply Hcl.
  - intros l' Hl' Hm'. rewrite lookup_insert_ne by done. by apply Hsame.
Qed.

(** C4. [NewConn] registers a fresh connection for the user's device, configured
    as the configuration says, and leaves every other entry alone; a connection
    the device already had is closed and replaced, and the counters still count
    connections and users. *)
Theorem CM_NewConn_refines `{!OptApplySpec} s m nc ses st :
  cm_rep s m →
  let u := sess_user ses in
  ∃ l s', CM_NewConn nc ses st s = Done l s' ∧
    cm_rep s' (<[(ConnKey u, UDevice u) := l]> m) ∧
    heap (world s) !! l = None ∧
    (∃ now, heap (world s') !! l = Some (expected_conn (cfg (cm s)) ses nc st now)) ∧
    (∀ old, m !! (ConnKey u, UDevice u) = Some old →
       ∃ c, heap (world s') !! old = Some c ∧ closeOnce c = true) ∧
    (∀ l', l' ≠ l → m !! (ConnKey u, UDevice u) ≠ Some l' →
       heap (world s') !! l' = heap (world s) !! l').
Proof. apply CM_NewConn_rep. Qed.

(** ** Finding *)

Lemma FindConn_rep s m u :
  cm_rep s m → FindConn u s = Done (m !! (ConnKey u, UDevice u)) s.
Proof. apply loadExistingConn_rep. Qed.

(** The connections of one [DeviceConns], in whatever order they are visited. *)
Lemma dc_values (dc : DeviceConns) (es : list (string * nat)) :
  es ≡ₚ map_to_list dc →
  (∀ d1 d2 l, dc !! d1 = Some l → dc !! d2 = Some l → d1 = d2) →
  NoDup es.*2 ∧ (∀ l, l ∈ es.*2 ↔ ∃ d, dc !! d = Some l) ∧
  (0 < length es.*2 ↔ dc ≠ ∅).
Proof.
  intros Hp Hinj. split_and!.
  - rewrite Hp. apply NoDup_fmap_2_strong; [|apply NoDup_map_to_list].
    intros [d1 l1] [d2 l2] H1'%elem_of_map_to_list H2'%elem_of_map_to_list. cbn.
    intros ->. f_equal. by eapply Hinj.
  - intros l. rewrite Hp, list_elem_of_fmap. split.
    + intros ([d l'] & -> & Hd%elem_of_map_to_list). by exists d.
    + intros [d Hd]. exists (d, l). split; [done|]. by apply elem_of_map_to_list.
  - rewrite length_fmap, Hp, length_map_to_list, <- map_size_non_empty_iff. lia.
Qed.

Lemma Find_rep `{!SchedSpec E} s m u :
  cm_rep s m →
  FindConn u s = Done (m !! (ConnKey u, UDevice u)) s ∧
  ∃ cs s', FindUserConn u s = Done (cs, bool_decide (ConnKey u ∈ users m)) s' ∧
    NoDup cs ∧ (∀ l, l ∈ cs ↔ ∃ d, m !! (ConnKey u, d) = Some l) ∧
    cm_rep s' m ∧ heap (world s') = heap (world s).
Proof.
  intros Hr. split; [by apply FindConn_rep|].
  unfold FindUserConn. erewrite bind_done by apply cm_load_done.
  destruct (sm_view (conns (cm s)) !! ConnKey u) as [dl|] eqn:Hk.
  - destruct (rep_alloc s m Hr _ dl Hk) as (dc & Hdc & Hne).
    unfold dc_findAll. erewrite bind_done by by apply dc_load_done.
    erewrite bind_done by (unfold zoom; rewrite envcall_done; reflexivity).
    assert (∀ d, m !! (ConnKey u, d) = dc !! d) as Hd by (intros d; by eapply rep_some).
    destruct (dc_values dc (map_order (map_to_list dc) (env (world s))).1)
      as (Hnd & Hin & Hlen).
    { apply map_order_perm. }
    { intros d1 d2 l H1' H2'. rewrite <- Hd in H1', H2'.
      pose proof (rep_conn_inj s m Hr _ _ _ H1' H2'). congruence. }
    eexists _, _. split.
    { cbn. do 2 f_equal. apply bool_decide_ext. cbn in Hlen. rewrite Hlen.
      rewrite <- (rep_users s m Hr), elem_of_dom, Hk.
      split; [by eexists|done]. }
    split; [done|]. split; [intros l; rewrite Hin; by setoid_rewrite Hd|].
    split; [|done]. apply rep_world; [done|done|apply (rep_next s m Hr)].
  - exists [], s. rewrite bool_decide_eq_false_2.
    + split; [done|]. split; [constructor|]. split; [|done]. intros l.
      rewrite elem_of_nil. split; [done|]. intros [d Hd]. by rewrite (rep_none s m) in Hd.
    + rewrite <- (rep_users s m Hr), elem_of_dom, Hk. by intros [].
Qed.

(** C6. Looking up finds exactly the registry's entries: [FindConn] the
    connection of the user's device, [FindUserConn] each connection of the user
    once, whatever device the argument names, with [true] exactly when the user
    has one; neither changes the registry. *)
Theorem Find_refines `{!SchedSpec E} s m u :
  cm_rep s m →
  FindConn u s = Done (m !! (ConnKey u, UDevice u)) s ∧
  ∃ cs s', FindUserConn u s = Done (cs, bool_decide (ConnKey u ∈ users m)) s' ∧
    NoDup cs ∧ (∀ l, l ∈ cs ↔ ∃ d, m !! (ConnKey u, d) = Some l) ∧
    cm_rep s' m ∧ heap (world s') = heap (world s).
Proof. apply Find_rep. Qed.

(** ** Removing a user *)

(** [RemoveUserConn] does not remove the user: it empties the user's devices
    without closing a connection and takes one off the user count, but leaves the
    user in the map, so that a second call for the same user reports success again
    and the user count falls to two below the number of users. *)
Theorem RemoveUserConn_twice s m u :
  cm_rep s m → ConnKey u ∈ users m →
  ∃ s1 s2, RemoveUserConn u s = Done true s1 ∧ RemoveUserConn u s1 = Done true s2 ∧
    heap (world s2) = heap (world s) ∧
    userCnt (cm s2) = int64 (Z.of_nat (size (users m)) - 2).
Proof.
  intros Hr Hu. rewrite <- (rep_users s m Hr), elem_of_dom in Hu. destruct Hu as [dl Hk].
  destruct (rep_alloc s m Hr _ dl Hk) as (dc & Hdc & _).
  unfold RemoveUserConn, dc_clear, dc_store.
  do 2 eexists. split; [|split].
  - erewrite bind_done by apply cm_load_done. rewrite Hk.
    erewrite bind_done by reflexivity. unfold bind. by rewrite (dc_load_done _ dl dc).
  - erewrite bind_done by apply cm_load_done. cbn. rewrite Hk.
    erewrite bind_done by reflexivity. unfold bind.
    rewrite (dc_load_done _ dl ∅); [reflexivity|]. cbn. by rewrite lookup_insert_eq.
  - cbn. split; [done|]. 
    rewrite (rep_userCnt_users s m Hr), int64_add_l, <- Z.add_assoc, int64_add_l.
    f_equal.
Qed.

(** The empty manager. *)
Lemma rep_init (c : ConnConfig) (e : E) (sm : M nat) :
  sm_view sm = ∅ → cm_rep (MkCMS (MkConnManager c sm 0 0) ∅ 0 (MkWorld ∅ 0 [] e)) ∅.
Proof.
  intros Hv. split; cbn; unfold lookup_conn; cbn; rewrite ?Hv; intros *;
    rewrite ?lookup_empty; try done; by intros [].
Qed.

End Operations_Facts.

(** ** Witnesses *)

Definition sample_config : ConnConfig :=
  MkConnConfig DefaultReadTiemout 0 DefaultInitRetryInterval DefaultMaxRetryInterval 0
    128 0 DefaultCloseTimeout 0.

Definition cms0 : CMS sim_map Sim :=
  MkCMS (MkConnManager sample_config (sm_new nat) 0 0) ∅ 0 (MkWorld ∅ 0 [] sim0).

Lemma cms0_rep : cm_rep cms0 ∅.
Proof. apply rep_init. apply sm_view_new. Qed.

Definition phone : Session := newSession (MkUser 7 42 DeviceMobile true).
Definition laptop : Session := newSession (MkUser 7 42 DevicePC false).

Definition sim_NewConn (nc : nat) (s : Session) : go (CMS sim_map Sim) nat :=
  CM_NewConn (ME := sim_multierr) (OA := sim_option_apply) nc s None.

(** The phone connects, then the laptop, then the phone again. *)
Definition cms1 : CMS sim_map Sim := final (sim_NewConn 5 phone cms0).
Definition cms3 : CMS sim_map Sim :=
  final ((sim_NewConn 6 laptop ;;; sim_NewConn 8 phone) cms1).

Example CM_NewConn_refines_witness :
  connCnt (cm cms3) = 2%Z ∧ userCnt (cm cms3) = 1%Z ∧
  ∃ l s', sim_NewConn 5 phone cms0 = Done l s' ∧ cm_rep s' {[("7:42", "mobile") := l]}.
Proof.
  split; [vm_compute; reflexivity|]. split; [vm_compute; reflexivity|].
  destruct (@CM_NewConn_refines sim_map Sim sim_multierr sim_option_apply _ _ _ _ _
              sim_option_apply_spec cms0 ∅ 5 phone None cms0_rep)
    as (l & s' & H1 & H2 & _).
  exists l, s'. split; [exact H1|]. exact H2.
Defined.

Lemma cms1_rep : cm_rep cms1 {[("7:42", "mobile") := 0]}.
Proof.
  destruct (@CM_NewConn_rep sim_map Sim sim_multierr sim_option_apply _ _ _ _ _
              sim_option_apply_spec cms0 ∅ 5 phone None cms0_rep)
    as (l & s' & H1 & H2 & _).
  assert (result (sim_NewConn 5 phone cms0) = Some 0) as H3 by (vm_compute; reflexivity).
  unfold cms1, sim_NewConn in *. rewrite H1 in H3 |- *. cbn in H3.
  injection H3 as ->. exact H2.
Qed.

Example RemoveConn_refines_witness :
  ∃ s', RemoveConn (ME := sim_multierr) (sess_user phone) cms1 = Done true s' ∧ cm_rep s' ∅.
Proof.
  destruct (@RemoveConn_refines sim_map Sim sim_multierr _ _ _ _ _ cms1
              {[("7:42", "mobile") := 0]} (sess_user phone) cms1_rep) as (s' & H1 & H2 & _).
  exists s'. split; [exact H1|exact H2].
Defined.

Example Find_refines_witness :
  FindConn (sess_user phone) cms1 = Done (Some 0) cms1 ∧
  FindConn (sess_user laptop) cms1 = Done None cms1.
Proof.
  split.
  - apply (@Find_refines sim_map Sim _ _ _ _ cms1 {[("7:42", "mobile") := 0]}
             (sess_user phone) cms1_rep).
  - apply (@Find_refines sim_map Sim _ _ _ _ cms1 {[("7:42", "mobile") := 0]}
             (sess_user laptop) cms1_rep).
Defined.

Example RemoveUserConn_twice_witness :
  ∃ s1 s2, RemoveUserConn (sess_user phone) cms1 = Done true s1 ∧
    RemoveUserConn (sess_user phone) s1 = Done true s2 ∧ userCnt (cm s2) = (-1)%Z.
Proof.
  destruct (@RemoveUserConn_twice sim_map Sim _ _ cms1 {[("7:42", "mobile") := 0]}
              (sess_user phone) cms1_rep) as (s1 & s2 & H1 & H2 & _ & H3).
  - apply elem_of_users. exists "mobile". vm_compute. by eexists.
  - exists s1, s2. split; [exact H1|]. split; [exact H2|]. rewrite H3. vm_compute. reflexivity.
Defined.
