(* ===== verification/ConnRace.v ===== *)
(** The registry of connections at the grain of its atomic operations
    ([internal/ws/conn/conn_manager.go]).  [ConnManager.v] runs [NewConn] and
    [RemoveConn] to their end; here they are goroutines that interleave between any
    two operations on the [xsync.Map], a locked [DeviceConns], the unlocked
    [len(dc.conns)] and the counters.  Connections are numbers in the order they are
    made; the counters do not wrap; closing a connection never fails. *)

From S2P Require Import Prelude.

Module Registry.

(** What a goroutine does next, for a connection key [k] and a device [d].
    [NewConn]: [Load]; [find]; [RemoveConn] if there is a connection;
    [LoadOrStore] (making the connection and an empty [DeviceConns] first); count the
    user if it is new; [add]; count the connection.
    [RemoveConn], with [next] the device [NewConn] goes on with: [Load]; [remove];
    uncount the connection; read the number of devices left; if it is 0, [Delete]
    and uncount the user; close the connection. *)
Inductive pc : Type :=
  | NLoad (k d : string) | NFind (k d : string) (a : nat)
  | NStore (k d : string) | NUser (k d : string) (a c : nat) | NAdd (k d : string) (a c : nat)
  | NCnt (k : string)
  | MLoad (k d : string) (next : option string) | MDel (k d : string) (a : nat) (next : option string)
  | MCnt (k : string) (a c : nat) (next : option string)
  | MLen (k : string) (a c : nat) (next : option string)
  | MDelete (k : string) (a c : nat) (next : option string)
  | MUser (k : string) (c : nat) (next : option string)
  | MClose (k : string) (c : nat) (next : option string)
  | Ret.

(** The two-level map ([DeviceConns] objects by address, connections by number),
    the counters, how many connections were made, which the manager closed, and
    the goroutines. *)
Record RS : Type := MkRS {
  conns : gmap string nat;
  dcs : list (gmap string nat);
  connCnt : Z;
  userCnt : Z;
  made : nat;
  shut : list nat;
  thr : list pc;
}.

Definition set_conns (x : gmap string nat) (s : RS) : RS :=
  MkRS x (dcs s) (connCnt s) (userCnt s) (made s) (shut s) (thr s).
Definition set_dcs (x : list (gmap string nat)) (s : RS) : RS :=
  MkRS (conns s) x (connCnt s) (userCnt s) (made s) (shut s) (thr s).
Definition add_conn (z : Z) (s : RS) : RS :=
  MkRS (conns s) (dcs s) (connCnt s + z) (userCnt s) (made s) (shut s) (thr s).
Definition add_user (z : Z) (s : RS) : RS :=
  MkRS (conns s) (dcs s) (connCnt s) (userCnt s + z) (made s) (shut s) (thr s).
Definition make (s : RS) : RS :=
  MkRS (conns s) (dcs s) (connCnt s) (userCnt s) (S (made s)) (shut s) (thr s).
Definition shut_conn (c : nat) (s : RS) : RS :=
  MkRS (conns s) (dcs s) (connCnt s) (userCnt s) (made s) (shut s ++ [c]) (thr s).
Definition set_thr (x : list pc) (s : RS) : RS :=
  MkRS (conns s) (dcs s) (connCnt s) (userCnt s) (made s) (shut s) x.

(** [RemoveConn] returns: to [NewConn] or to its caller. *)
Definition return_to (k : string) (next : option string) : pc :=
  match next with Some d => NStore k d | None => Ret end.

Definition act (p : pc) (s : RS) : option (pc * RS) :=
  match p with
  | NLoad k d => Some (match conns s !! k with Some a => NFind k d a | None => NStore k d end, s)
  | NFind k d a =>
      dc ← dcs s !! a;
      Some (match dc !! d with Some _ => MLoad k d (Some d) | None => NStore k d end, s)
  | NStore k d =>
      let c := made s in
      let fresh := length (dcs s) in
      let s' := set_dcs (dcs s ++ [∅]) (make s) in
      match conns s !! k with
      | Some a => Some (NAdd k d a c, s')
      | None => Some (NUser k d fresh c, set_conns (<[k := fresh]> (conns s)) s')
      end
  | NUser k d a c => Some (NAdd k d a c, add_user 1 s)
  | NAdd k d a c =>
      dc ← dcs s !! a;
      Some (NCnt k, set_dcs (<[a := <[d := c]> dc]> (dcs s)) s)
  | NCnt k => Some (Ret, add_conn 1 s)
  | MLoad k d next =>
      Some (match conns s !! k with Some a => MDel k d a next | None => return_to k next end, s)
  | MDel k d a next =>
      dc ← dcs s !! a;
      match dc !! d with
      | Some c => Some (MCnt k a c next, set_dcs (<[a := delete d dc]> (dcs s)) s)
      | None => Some (return_to k next, s)
      end
  | MCnt k a c next => Some (MLen k a c next, add_conn (-1) s)
  | MLen k a c next =>
      dc ← dcs s !! a;
      Some (if bool_decide (size dc = 0) then MDelete k a c next else MClose k c next, s)
  | MDelete k a c next => Some (MUser k c next, set_conns (delete k (conns s)) s)
  | MUser k c next => Some (MClose k c next, add_user (-1) s)
  | MClose k c next => Some (return_to k next, shut_conn c s)
  | Ret => None
  end.

(** A call of [NewConn] or [RemoveConn]; goroutine [i] moves. *)
Inductive event : Type :=
  | ENew (k d : string)
  | ERemove (k d : string)
  | EStep (i : nat).

Definition exec (ev : event) (s : RS) : option RS :=
  match ev with
  | ENew k d => Some (set_thr (thr s ++ [NLoad k d]) s)
  | ERemove k d => Some (set_thr (thr s ++ [MLoad k d None]) s)
  | EStep i => p ← thr s !! i; r ← act p s; Some (set_thr (<[i := r.1]> (thr s)) r.2)
  end.

Fixpoint exec_all (evs : list event) (s : RS) : option RS :=
  match evs with
  | [] => Some s
  | ev :: evs' => s' ← exec ev s; exec_all evs' s'
  end.

Definition step (s s' : RS) : Prop := ∃ ev, exec ev s = Some s'.

Definition initial : RS := MkRS ∅ [] 0 0 0 [] [].

(** The user a goroutine works for. *)
Definition key_of (p : pc) : option string :=
  match p with
  | NLoad k _ | NFind k _ _ | NStore k _ | NUser k _ _ _ | NAdd k _ _ _ | NCnt k
  | MLoad k _ _ | MDel k _ _ _ | MCnt k _ _ _ | MLen k _ _ _ | MDelete k _ _ _
  | MUser k _ _ | MClose k _ _ => Some k
  | Ret => None
  end.

(** No operation starts for a user while another one of that user is under way;
    those of different users interleave as they like. *)
Definition starts (ev : event) : option string :=
  match ev with ENew k _ | ERemove k _ => Some k | EStep _ => None end.
Definition serial_step (s s' : RS) : Prop :=
  ∃ ev, exec ev s = Some s' ∧ ∀ k p, starts ev = Some k → p ∈ thr s → key_of p ≠ Some k.

(** * Lemmas and properties *)

(** ** Where a connection is *)

(** The goroutine has the connection in hand: not stored yet, or removed. *)
Definition holds (c : nat) (p : pc) : bool :=
  match p with
  | NUser _ _ _ c' | NAdd _ _ _ c' | MCnt _ _ c' _ | MLen _ _ c' _ | MDelete _ _ c' _
  | MUser _ c' _ | MClose _ c' _ => (c' =? c)%nat
  | _ => false
  end.
Definition held (s : RS) (c : nat) : nat := count (holds c) (thr s) + count (λ x, x =? c) (shut s).
Definition entry (s : RS) (a : nat) (d : string) (c : nat) : Prop :=
  ∃ dc, dcs s !! a = Some dc ∧ dc !! d = Some c.

(** A connection is in one place: an entry, a goroutine's hands, or closed. *)
Record lin_inv (s : RS) : Prop := LinInv {
  li_entry a d c : entry s a d c → held s c = 0;
  li_held c : held s c ≤ 1;
  li_unique a d a' d' c : entry s a d c → entry s a' d' c → a = a' ∧ d = d';
  li_made a d c : entry s a d c → c < made s;
  li_made_held c : 0 < held s c → c < made s;
}.

Lemma entry_insert s a dc dc0 a' d c x :
  dcs s !! a = Some dc0 → dcs x = <[a := dc]> (dcs s) →
  entry x a' d c ↔ (a' = a ∧ dc !! d = Some c) ∨ (a' ≠ a ∧ entry s a' d c).
Proof.
  intros Ha Hx. unfold entry. rewrite Hx. destruct (decide (a' = a)) as [->|Hne].
  - rewrite list_lookup_insert_eq by by eapply lookup_lt_Some.
    split; [intros (? & [= <-] & ?); by left|]. intros [[_ ?]|[? _]]; [by exists dc|done].
  - rewrite list_lookup_insert_ne by done.
    split; [intros ?; by right|]. by intros [[? _]|[_ ?]].
Qed.

Lemma entry_snoc s a d c x : dcs x = dcs s ++ [∅] → entry x a d c ↔ entry s a d c.
Proof.
  intros Hx. unfold entry. rewrite Hx. split; intros (dc & Ha & Hd).
  - apply lookup_app_Some in Ha as [Ha|[_ Ha]]; [by exists dc|].
    apply list_lookup_singleton_Some in Ha as [_ <-]. by rewrite lookup_empty in Hd.
  - exists dc. split; [by apply lookup_app_l_Some|done].
Qed.

Lemma lin_same s x :
  (∀ a d c, entry x a d c ↔ entry s a d c) → made x = made s → (∀ c, held x c = held s c) →
  lin_inv s → lin_inv x.
Proof.
  intros Hx Hm Hh []. split; intros *; rewrite ?Hh, ?Hx, ?Hm; eauto.
Qed.

(** A connection is made: it is new, and in its maker's hands. *)
Lemma lin_make s x :
  (∀ a d c, entry x a d c ↔ entry s a d c) → made x = S (made s) →
  (∀ c, held x c = held s c + Nat.b2n (made s =? c)) → lin_inv s → lin_inv x.
Proof.
  intros Hx Hm Hh [He Hl Hu Hma Hmh].
  split; intros *; rewrite ?Hh, ?Hm; specialize (Hl c) as Hlc; specialize (Hmh c) as Hmc;
    try (intros Hc%Hx; specialize (Hma _ _ _ Hc) as Hac; specialize (He _ _ _ Hc) as Hec);
    destruct (Nat.eqb_spec (made s) c); cbn; try lia; intros Hd%Hx; eauto.
Qed.

(** An entry is written over: the connection leaves the goroutine's hands. *)
Lemma lin_add s x a d c0 dc :
  dcs s !! a = Some dc → dcs x = <[a := <[d := c0]> dc]> (dcs s) → made x = made s →
  (∀ c, held x c + Nat.b2n (c0 =? c) = held s c) → lin_inv s → lin_inv x.
Proof.
  intros Ha Hx Hm Hh [He Hl Hu Hma Hmh].
  assert (∀ a' d' c, entry x a' d' c → entry s a' d' c ∧ c ≠ c0 ∨ a' = a ∧ d' = d ∧ c = c0) as Hent.
  { intros a' d' c. rewrite (entry_insert s a (<[d := c0]> dc) dc a' d' c x Ha Hx).
    assert (0 < held s c0) by (rewrite <- (Hh c0), Nat.eqb_refl; cbn; lia).
    assert (∀ b e, entry s b e c → c ≠ c0) as Hc by (intros b e Hb ->; specialize (He _ _ _ Hb); lia).
    rewrite lookup_insert_Some. intros [[-> [[<- <-]|[Hd Hdc]]]|[Hne Hc']]; [by right| |left; eauto].
    left. assert (entry s a d' c) by by exists dc. eauto. }
  assert (0 < held s c0) as H0 by (rewrite <- (Hh c0), Nat.eqb_refl; cbn; lia).
  split; intros *; try (intros Hc%Hent); specialize (Hh c) as Hhc; specialize (Hl c) as Hlc;
    specialize (Hmh c) as Hmc; rewrite ?Hm; try lia.
  - destruct Hc as [[Hc Hne]|(-> & -> & ->)]; [specialize (He _ _ _ Hc); lia|].
    rewrite Nat.eqb_refl in Hhc. cbn in Hhc. lia.
  - intros Hc'%Hent.
    destruct Hc as [[Hc Hne]|(-> & -> & ->)], Hc' as [[Hc' Hne']|(-> & -> & E)]; eauto; done.
  - destruct Hc as [[Hc Hne]|(-> & -> & ->)]; eauto.
Qed.

(** An entry is removed: the connection is in the goroutine's hands. *)
Lemma lin_remove s x a d c0 dc :
  dcs s !! a = Some dc → dc !! d = Some c0 → dcs x = <[a := delete d dc]> (dcs s) → made x = made s →
  (∀ c, held x c = held s c + Nat.b2n (c0 =? c)) → lin_inv s → lin_inv x.
Proof.
  intros Ha Hd Hx Hm Hh [He Hl Hu Hma Hmh].
  assert (entry s a d c0) as H0 by by exists dc.
  assert (∀ a' d' c, entry x a' d' c → entry s a' d' c ∧ c ≠ c0) as Hent.
  { intros a' d' c. rewrite (entry_insert s a (delete d dc) dc a' d' c x Ha Hx), lookup_delete_Some.
    intros [(-> & Hne & Hc)|[Hne Hc]].
    - split; [by exists dc|]. intros ->. destruct (Hu a d' a d c0) as [_ ->]; [by exists dc|done..].
    - split; [done|]. intros ->. by destruct (Hu _ _ _ _ _ Hc H0) as [-> _]. }
  split; intros *; try (intros [Hc Hne]%Hent); specialize (Hh c) as Hhc; specialize (Hl c) as Hlc;
    specialize (Hmh c) as Hmc; rewrite ?Hm; eauto.
  - specialize (He _ _ _ Hc). destruct (Nat.eqb_spec c0 c); cbn in *; [congruence|lia].
  - destruct (Nat.eqb_spec c0 c) as [->|]; cbn in *; [specialize (He _ _ _ H0); lia|lia].
  - intros [Hc' _]%Hent. eauto.
  - destruct (Nat.eqb_spec c0 c) as [->|]; cbn in *; [intros _; eauto|rewrite Hhc; intros ?; apply Hmc; lia].
Qed.

Lemma held_move s i p q s1 c :
  thr s !! i = Some p →
  held (set_thr (<[i := q]> (thr s)) s1) c + Nat.b2n (holds c p) + count (λ x, x =? c) (shut s)
  = held s c + Nat.b2n (holds c q) + count (λ x, x =? c) (shut s1).
Proof. intros Hi. pose proof (count_insert (holds c) _ i q _ Hi). unfold held. cbn. lia. Qed.

Lemma holds_return k next c : holds c (return_to k next) = false.
Proof. by destruct next. Qed.

Lemma lin_act s i p q s1 :
  lin_inv s → thr s !! i = Some p → act p s = Some (q, s1) →
  lin_inv (set_thr (<[i := q]> (thr s)) s1).
Proof.
  intros Hinv Hi Ha. pose proof (λ c, held_move s i p q s1 c Hi) as HE.
  destruct p; cbn [act] in Ha; simplify_option_eq; repeat case_match; simplify_eq;
    cbn [holds shut set_conns set_dcs add_conn add_user make shut_conn] in HE.
  all: try (refine (lin_same _ _ _ _ _ Hinv); [done|done|intros c'; specialize (HE c')];
            rewrite ?holds_return in HE; cbn [Nat.b2n] in HE; try rewrite count_app in HE;
            cbn [count] in HE; lia).
  - refine (lin_make _ _ _ _ _ Hinv); [intros *; by apply entry_snoc|done|].
    intros c'; specialize (HE c'); lia.
  - refine (lin_make _ _ _ _ _ Hinv); [intros *; by apply entry_snoc|done|].
    intros c'; specialize (HE c'); lia.
  - eapply (lin_add s _ _ _ c); [eassumption|reflexivity|done| |done].
    intros c'; specialize (HE c'); lia.
  - eapply (lin_remove s); [eassumption..|reflexivity|done| |done].
    intros c1; specialize (HE c1); cbn [Nat.b2n] in HE; lia.
Qed.

Lemma spawn_lin s p : (∀ c, holds c p = false) → lin_inv s → lin_inv (set_thr (thr s ++ [p]) s).
Proof.
  intros Hp. apply lin_same; [done|done|]. intros c. unfold held. cbn. rewrite count_app. cbn.
  rewrite Hp. cbn. lia.
Qed.

Lemma lin_steps s : rtc step initial s → lin_inv s.
Proof.
  intros Hs. apply (rtc_preserve step lin_inv) with (s := initial); [|done|].
  - intros s1 s2 H1 [[k d|k d|i] He]; cbn in He.
    + injection He as <-. by apply spawn_lin.
    + injection He as <-. by apply spawn_lin.
    + destruct (thr s1 !! i) as [p|] eqn:Hi; cbn in He; [|done].
      destruct (act p s1) as [[q s3]|] eqn:Ha; cbn in He; [|done]. injection He as <-.
      by eapply lin_act.
  - split; unfold held; cbn; try lia; by intros * (? & ? & _).
Qed.

(** C7. Under every interleaving a registered connection has not been closed by the
    manager, is in one place only, and no connection is closed twice. *)
Theorem registry_linear s a d c :
  rtc step initial s → entry s a d c →
  (c ∉ shut s) ∧ NoDup (shut s) ∧ ∀ a' d', entry s a' d' c → a' = a ∧ d' = d.
Proof.
  intros [He Hh Hu _ _]%lin_steps Hc. specialize (He a d c Hc) as H0. unfold held in H0, Hh.
  split_and!; [| |intros a' d' Hc'; by apply (Hu a' d' a d c)].
  - intros (j & Hj)%list_elem_of_lookup.
    assert (0 < count (λ x, x =? c) (shut s)); [|lia].
    apply count_pos. exists j, c. split; [done|apply Nat.eqb_refl].
  - apply NoDup_alt. intros i j x Hi Hj. specialize (Hh x).
    apply (count_unique (λ y, y =? x) (shut s) i j x x); try done; try apply Nat.eqb_refl. lia.
Qed.

(** ** One operation of a user at a time *)

(** The key's [DeviceConns] object, if it has one, has a device. *)
Definition stable (s : RS) (k : string) : Prop :=
  ∀ a, conns s !! k = Some a → ∃ dc, dcs s !! a = Some dc ∧ dc ≠ ∅.
(** The key has object [a], with devices [dc]. *)
Definition at_key (s : RS) (k : string) (a : nat) (dc : gmap string nat) : Prop :=
  conns s !! k = Some a ∧ dcs s !! a = Some dc.
(** [NewConn] goes on to store device [d]: there is none. *)
Definition absent (s : RS) (k : string) (next : option string) : Prop :=
  ∀ d a dc, next = Some d → at_key s k a dc → dc !! d = None.

(** What a goroutine knows of its key. *)
Definition local (s : RS) (p : pc) : Prop :=
  match p with
  | NLoad k _ | NCnt k => stable s k
  | NFind k _ a => stable s k ∧ conns s !! k = Some a
  | NStore k d => stable s k ∧ absent s k (Some d)
  | NUser k d a _ | NAdd k d a _ => ∃ dc, at_key s k a dc ∧ dc !! d = None
  | MLoad k d next => stable s k ∧ (next = None ∨ next = Some d)
  | MDel k d a next => stable s k ∧ conns s !! k = Some a ∧ (next = None ∨ next = Some d)
  | MCnt k a _ next | MLen k a _ next => (∃ dc, at_key s k a dc) ∧ absent s k next
  | MDelete k a _ _ => at_key s k a ∅
  | MUser k _ _ => conns s !! k = None
  | MClose k _ next => stable s k ∧ absent s k next
  | Ret => True
  end.

(** Counted late, uncounted late. *)
Definition conn_late (p : pc) : bool := match p with NCnt _ => true | _ => false end.
Definition conn_over (p : pc) : bool := match p with MCnt _ _ _ _ => true | _ => false end.
Definition user_late (p : pc) : bool := match p with NUser _ _ _ _ => true | _ => false end.
Definition user_over (p : pc) : bool := match p with MUser _ _ _ => true | _ => false end.

(** The two-level map: objects are the keys' own, and no other one has devices. *)
Record map_ok (s : RS) : Prop := MapOk {
  mo_inj k1 k2 a : conns s !! k1 = Some a → conns s !! k2 = Some a → k1 = k2;
  mo_alloc k a : conns s !! k = Some a → is_Some (dcs s !! a);
  mo_owned a dc : dcs s !! a = Some dc → dc ≠ ∅ → ∃ k, conns s !! k = Some a;
}.

Definition devices (s : RS) : nat := sum_list_with size (dcs s).
#[local] Arguments devices : simpl never.

Record counters (s : RS) (cl co ul uo : nat) : Prop := Counters {
  co_conn : connCnt s = (Z.of_nat (devices s) - Z.of_nat cl + Z.of_nat co)%Z;
  co_user : userCnt s = (Z.of_nat (size (conns s)) - Z.of_nat ul + Z.of_nat uo)%Z;
}.

Record ser_inv (s : RS) : Prop := SerInv {
  si_one i j p q k : thr s !! i = Some p → thr s !! j = Some q →
    key_of p = Some k → key_of q = Some k → i = j;
  si_local i p : thr s !! i = Some p → local s p;
  si_quiet k : (∀ i p, thr s !! i = Some p → key_of p ≠ Some k) → stable s k;
  si_map : map_ok s;
  si_cnt : counters s (count conn_late (thr s)) (count conn_over (thr s))
             (count user_late (thr s)) (count user_over (thr s));
}.

(** What a goroutine of key [k] leaves alone. *)
Definition frame (k : string) (s x : RS) : Prop :=
  ∀ k', k' ≠ k → conns x !! k' = conns s !! k' ∧
    ∀ a, conns s !! k' = Some a → dcs x !! a = dcs s !! a.

Lemma frame_stable k s x k' : frame k s x → k' ≠ k → stable s k' → stable x k'.
Proof.
  intros Hf Hk Hs a Ha. destruct (Hf k' Hk) as [Hc Hd]. rewrite Hc in Ha. rewrite (Hd a Ha). auto.
Qed.

Lemma frame_at k s x k' a dc : frame k s x → k' ≠ k → at_key x k' a dc ↔ at_key s k' a dc.
Proof.
  intros Hf Hk. destruct (Hf k' Hk) as [Hc Hd]. unfold at_key. rewrite Hc.
  split; intros [Ha H1]; (split; [done|]); by rewrite ?(Hd a Ha) in *.
Qed.

Lemma frame_absent k s x k' next : frame k s x → k' ≠ k → absent s k' next → absent x k' next.
Proof. intros Hf Hk Ha d a dc Hn Hx. apply (Ha d a dc Hn). by apply (frame_at k s x). Qed.

Lemma frame_local k s x p : frame k s x → key_of p ≠ Some k → local s p → local x p.
Proof.
  intros Hf Hk. destruct p; cbn in Hk |- *; try done;
    assert (k0 ≠ k) as Hne by congruence; destruct (Hf _ Hne) as [Hc _]; rewrite ?Hc;
    repeat setoid_rewrite (frame_at k s x k0 _ _ Hf Hne);
    intuition eauto using frame_stable, frame_absent.
Qed.

(** An empty object is made. *)
Lemma snoc_map s x :
  map_ok s → conns x = conns s → dcs x = dcs s ++ [∅] →
  map_ok x ∧ (∀ k, frame k s x) ∧ devices x = devices s ∧
  (∀ k a dc, conns s !! k = Some a → dcs x !! a = Some dc ↔ dcs s !! a = Some dc).
Proof.
  intros [Hi Ha Ho] Hc Hd.
  assert (∀ k a, conns s !! k = Some a → dcs x !! a = dcs s !! a) as Hl.
  { intros k a [dc Hk]%Ha. by rewrite Hd, Hk, (lookup_app_l_Some _ _ _ _ Hk). }
  split_and!.
  - split; rewrite ?Hc; [done| |].
    + intros k a Hk. rewrite (Hl k a Hk). by eapply Ha.
    + intros a dc. rewrite Hd. intros [Hx|[_ [_ <-]%list_lookup_singleton_Some]]%lookup_app_Some Hne; eauto. done.
  - intros k k' _. rewrite Hc. split; [done|]. intros a Hk. by apply (Hl k').
  - unfold devices. rewrite Hd, sum_app. cbn. rewrite map_size_empty. lia.
  - intros k a dc Hk. by rewrite (Hl k a Hk).
Qed.

(** The key gets a new empty object. *)
Lemma fresh_map s x k :
  map_ok s → conns s !! k = None → conns x = <[k := length (dcs s)]> (conns s) →
  dcs x = dcs s ++ [∅] →
  map_ok x ∧ frame k s x ∧ devices x = devices s ∧ size (conns x) = S (size (conns s)) ∧
  at_key x k (length (dcs s)) ∅.
Proof.
  intros Hm Hk Hc Hd.
  assert (∀ k a, conns s !! k = Some a → a < length (dcs s)) as Hlt
    by (intros k' a Ha%(mo_alloc s Hm); by apply lookup_lt_is_Some).
  assert (dcs x !! length (dcs s) = Some ∅) as Hnew
    by (rewrite Hd, lookup_app_r, Nat.sub_diag by done; done).
  assert (∀ a, a < length (dcs s) → dcs x !! a = dcs s !! a) as Hold
    by (intros a Ha; by rewrite Hd, lookup_app_l).
  destruct Hm as [Hi Ha Ho]. split_and!.
  - split; rewrite ?Hc.
    + intros k1 k2 a [[<- <-]|[Hn1 H1]]%lookup_insert_Some [[<- H2]|[Hn2 H2]]%lookup_insert_Some; eauto.
      * specialize (Hlt _ _ H2). lia.
      * specialize (Hlt _ _ H1). lia.
    + intros k' a [[<- <-]|[Hn1 H1]]%lookup_insert_Some; [by eexists|].
      rewrite Hold by by eapply Hlt. by eapply Ha.
    + intros a dc. rewrite Hd.
      intros [Hx|[_ [_ <-]%list_lookup_singleton_Some]]%lookup_app_Some Hne; [|done].
      destruct (Ho a dc Hx Hne) as [k' Hk']. exists k'. rewrite lookup_insert_ne; [done|congruence].
  - intros k' Hne. rewrite Hc, lookup_insert_ne by done. split; [done|]. intros a H1.
    apply Hold. by eapply Hlt.
  - unfold devices. rewrite Hd, sum_app. cbn. rewrite map_size_empty. lia.
  - rewrite Hc. by apply map_size_insert_None.
  - split; [|done]. by rewrite Hc, lookup_insert_eq.
Qed.

(** The key's object gets other devices. *)
Lemma update_map s x k a dc dc' :
  map_ok s → at_key s k a dc → conns x = conns s → dcs x = <[a := dc']> (dcs s) →
  map_ok x ∧ frame k s x ∧ devices x + size dc = devices s + size dc' ∧ at_key x k a dc'.
Proof.
  intros [Hi Ha Ho] [Hk Hdc] Hc Hd.
  assert (dcs x !! a = Some dc') as Hnew
    by (rewrite Hd; apply list_lookup_insert_eq; by eapply lookup_lt_Some).
  assert (∀ b, b ≠ a → dcs x !! b = dcs s !! b) as Hold
    by (intros b Hb; by rewrite Hd, list_lookup_insert_ne).
  split_and!.
  - split; rewrite ?Hc; [done| |].
    + intros k' b Hb%Ha. destruct (decide (b = a)) as [->|]; [by eexists|by rewrite Hold].
    + intros b dcb Hb Hne. destruct (decide (b = a)) as [->|]; [by exists k|].
      rewrite Hold in Hb by done. eauto.
  - intros k' Hne. rewrite Hc. split; [done|]. intros b Hb. apply Hold. intros ->. eauto.
  - unfold devices. rewrite Hd. by apply sum_insert.
  - split; [by rewrite Hc|done].
Qed.

(** The key is deleted; its object has no devices. *)
Lemma delete_map s x k a :
  map_ok s → at_key s k a ∅ → conns x = delete k (conns s) → dcs x = dcs s →
  map_ok x ∧ frame k s x ∧ devices x = devices s ∧ S (size (conns x)) = size (conns s) ∧
  conns x !! k = None.
Proof.
  intros [Hi Ha Ho] [Hk Hdc] Hc Hd. split_and!.
  - split; rewrite ?Hc, ?Hd.
    + intros k1 k2 b [_ H1]%lookup_delete_Some [_ H2]%lookup_delete_Some. eauto.
    + intros k' b [_ H1]%lookup_delete_Some. eauto.
    + intros b dc Hb Hne. destruct (Ho b dc Hb Hne) as [k' Hk']. exists k'.
      apply lookup_delete_Some. split; [|done]. intros <-. congruence.
  - intros k' Hne. rewrite Hc, lookup_delete_ne by done. split; [done|]. intros. by rewrite Hd.
  - unfold devices. by rewrite Hd.
  - rewrite Hc, map_size_delete_Some by by eexists.
    assert (size (conns s) ≠ 0) by (apply map_size_ne_0_lookup; by exists k, a). lia.
  - rewrite Hc. apply lookup_delete_eq.
Qed.

Abbreviation bz b := (Z.of_nat (Nat.b2n b)).

(** What a move from [p] to [q] of a goroutine of key [k] does. *)
Record move_ok (k : string) (s x : RS) (p q : pc) : Prop := MoveOk {
  mv_map : map_ok x;
  mv_frame : frame k s x;
  mv_local : local x q;
  mv_key : key_of q = Some k ∨ q = Ret ∧ stable x k;
  mv_conn : (connCnt x - Z.of_nat (devices x) + bz (conn_late q) - bz (conn_over q)
    = connCnt s - Z.of_nat (devices s) + bz (conn_late p) - bz (conn_over p))%Z;
  mv_user : (userCnt x - Z.of_nat (size (conns x)) + bz (user_late q) - bz (user_over q)
    = userCnt s - Z.of_nat (size (conns s)) + bz (user_late p) - bz (user_over p))%Z;
}.

(** Nothing but a counter, the closed connections or the number made changes. *)
Lemma move_same k s x p q :
  conns x = conns s → dcs x = dcs s → map_ok s → local s q →
  key_of q = Some k ∨ q = Ret ∧ stable s k →
  (connCnt x - connCnt s = bz (conn_late p) - bz (conn_over p)
     - bz (conn_late q) + bz (conn_over q))%Z →
  (userCnt x - userCnt s = bz (user_late p) - bz (user_over p)
     - bz (user_late q) + bz (user_over q))%Z →
  move_ok k s x p q.
Proof.
  intros Hc Hd [] Hl Hk Hcc Huc.
  assert (∀ k' a dc, at_key x k' a dc ↔ at_key s k' a dc) as Hat by (intros; unfold at_key; by rewrite Hc, Hd).
  split; unfold devices; rewrite ?Hc, ?Hd; try lia.
  - by split; rewrite ?Hc, ?Hd.
  - intros k' _. by rewrite Hc, Hd.
  - revert Hl. destruct q; cbn; unfold stable, absent, at_key; rewrite ?Hc, ?Hd; try done.
  - destruct Hk as [?|[? Hs]]; [by left|right]. split; [done|]. intros a. rewrite Hc, Hd. apply Hs.
Qed.

Lemma stable_none s k : conns s !! k = None → stable s k.
Proof. intros Hk a. by rewrite Hk. Qed.

Lemma stable_at s k a dc : at_key s k a dc → dc ≠ ∅ → stable s k.
Proof. intros [Hk Hd] Hne a' Ha'. exists dc. by simplify_eq. Qed.

Lemma absent_none s k next : conns s !! k = None → absent s k next.
Proof. intros Hk d a dc _ [Ha _]. congruence. Qed.

Lemma absent_at s k a dc next :
  at_key s k a dc → (∀ d, next = Some d → dc !! d = None) → absent s k next.
Proof. intros [Hk Hd] Hn d a' dc' Hd' [Ha' Hdc']. simplify_eq. auto. Qed.

Lemma at_stable s k a : stable s k → conns s !! k = Some a → ∃ dc, at_key s k a dc ∧ dc ≠ ∅.
Proof. intros Hs Ha. destruct (Hs a Ha) as (dc & Hd & Hne). by exists dc. Qed.

(** [RemoveConn] returns. *)
Lemma move_return k s x p next :
  conns x = conns s → dcs x = dcs s → map_ok s → stable s k → absent s k next →
  (connCnt x - connCnt s = bz (conn_late p) - bz (conn_over p))%Z →
  (userCnt x - userCnt s = bz (user_late p) - bz (user_over p))%Z →
  move_ok k s x p (return_to k next).
Proof.
  intros Hc Hd Hm Hs Ha H1 H2. apply move_same; try done; destruct next as [d|]; cbn; try lia; auto.
Qed.

(** [storeConn]: [LoadOrStore] finds the user, or adds it; [add]. *)
Lemma move_found s k d a :
  map_ok s → local s (NStore k d) → conns s !! k = Some a →
  move_ok k s (set_dcs (dcs s ++ [∅]) (make s)) (NStore k d) (NAdd k d a (made s)).
Proof.
  intros Hm [Hs Hab] Ha. destruct (at_stable _ _ _ Hs Ha) as (dc & Hat & Hne).
  destruct (snoc_map s (set_dcs (dcs s ++ [∅]) (make s)) Hm eq_refl eq_refl) as (Hm' & Hf & Hd & Hx).
  split; try done; cbn; rewrite ?Hd; try lia; [|by left].
  exists dc. split; [|by eapply Hab]. split; [done|]. apply (Hx k a dc Ha), Hat.
Qed.

Lemma move_fresh s k d :
  map_ok s → conns s !! k = None →
  move_ok k s (set_conns (<[k := length (dcs s)]> (conns s)) (set_dcs (dcs s ++ [∅]) (make s)))
    (NStore k d) (NUser k d (length (dcs s)) (made s)).
Proof.
  intros Hm Hk.
  destruct (fresh_map s (set_conns (<[k := length (dcs s)]> (conns s)) (set_dcs (dcs s ++ [∅]) (make s)))
    k Hm Hk eq_refl eq_refl) as (Hm' & Hf & Hd & Hn & Hat).
  split; try done; rewrite ?Hd, ?Hn; cbn; try lia; [|by left]. exists ∅. by rewrite lookup_empty.
Qed.

Lemma move_add s k d a c dc :
  map_ok s → local s (NAdd k d a c) → dcs s !! a = Some dc →
  move_ok k s (set_dcs (<[a := <[d := c]> dc]> (dcs s)) s) (NAdd k d a c) (NCnt k).
Proof.
  intros Hm (dc' & Hat & Hnone) Hdc. assert (dc' = dc) as -> by (destruct Hat; congruence).
  destruct (update_map s (set_dcs (<[a := <[d := c]> dc]> (dcs s)) s) k a dc (<[d := c]> dc)
    Hm Hat eq_refl eq_refl) as (Hm' & Hf & Hd & Hat').
  rewrite map_size_insert_None in Hd by done.
  split; try done; cbn; try lia; [|by left]. eapply stable_at; [exact Hat'|apply insert_non_empty].
Qed.

(** [remove] takes the device out. *)
Lemma move_remove s k d a c next dc :
  map_ok s → local s (MDel k d a next) → dcs s !! a = Some dc → dc !! d = Some c →
  move_ok k s (set_dcs (<[a := delete d dc]> (dcs s)) s) (MDel k d a next) (MCnt k a c next).
Proof.
  intros Hm (Hs & Hc & Hn) Hdc Hd0.
  destruct (update_map s (set_dcs (<[a := delete d dc]> (dcs s)) s) k a dc (delete d dc)
    Hm (conj Hc Hdc) eq_refl eq_refl) as (Hm' & Hf & Hd & Hat').
  rewrite map_size_delete_Some in Hd by by eexists.
  assert (size dc ≠ 0) by (apply map_size_ne_0_lookup; by exists d, c).
  split; try done; cbn; try lia; [|by left]. split; [by exists (delete d dc)|].
  eapply absent_at; [exact Hat'|]. intros d' Hd'. destruct Hn; simplify_eq.
  apply lookup_delete_eq.
Qed.

Lemma move_delete s k a c next :
  map_ok s → local s (MDelete k a c next) →
  move_ok k s (set_conns (delete k (conns s)) s) (MDelete k a c next) (MUser k c next).
Proof.
  intros Hm Hl.
  set (x := set_conns (delete k (conns s)) s).
  destruct (delete_map s x k a Hm Hl eq_refl eq_refl) as (Hm' & Hf & Hd & Hn & Hg).
  split; try done; rewrite ?Hd; [by left|].
  change (userCnt x) with (userCnt s). cbn [user_late user_over Nat.b2n]. lia.
Qed.

Lemma move_len s k a c next dc :
  map_ok s → local s (MLen k a c next) → dcs s !! a = Some dc →
  (size dc = 0 → move_ok k s s (MLen k a c next) (MDelete k a c next)) ∧
  (size dc ≠ 0 → move_ok k s s (MLen k a c next) (MClose k c next)).
Proof.
  intros Hm [(dc' & Hat) Hab] Hdc. assert (dc' = dc) as -> by (destruct Hat; congruence).
  split; intros Hsz; apply move_same; cbn; auto; try lia.
  - apply map_size_empty_inv in Hsz. by subst.
  - split; [|done]. eapply stable_at; [done|]. intros ->. by rewrite map_size_empty in Hsz.
Qed.

(** [find] or [remove] finds nothing: [NewConn] goes on to store. *)
Lemma absent_in s k a d dc next :
  conns s !! k = Some a → dcs s !! a = Some dc → dc !! d = None → next = None ∨ next = Some d →
  absent s k next.
Proof.
  intros Hk Hdc Hd Hn. eapply absent_at; [by split|]. intros d' ->. by destruct Hn; simplify_eq.
Qed.

Lemma act_ok k p q s x :
  map_ok s → local s p → key_of p = Some k → act p s = Some (q, x) → move_ok k s x p q.
Proof.
  intros Hm Hl Hk Ha.
  destruct p as [| | |?? a c|?? a c| | |?? a next|? a c next| | | | |]; cbn in Hk; simplify_eq;
    cbn [act] in Ha; simplify_option_eq; repeat case_match; simplify_eq;
    eauto using move_found, move_fresh, move_add, move_remove, move_delete.
  all: try (apply move_same; [done|done|done|..|cbn; lia|cbn; lia]; cbn in Hl |- *;
    intuition eauto using stable_none, absent_none, absent_in; fail).
  - destruct Hl. apply move_return; cbn; auto using absent_none; lia.
  - destruct Hl as (Hs & Hc & Hn). apply move_return; cbn; eauto using absent_in; lia.
  - by apply (proj1 (move_len _ k a c next _ Hm Hl Heqo)).
  - by apply (proj2 (move_len _ k a c next _ Hm Hl Heqo)).
  - destruct Hl. apply move_return; cbn; auto; lia.
Qed.

Lemma set_thr_ok s l :
  (map_ok s → map_ok (set_thr l s)) ∧ (∀ p, local (set_thr l s) p ↔ local s p) ∧
  (∀ k, stable (set_thr l s) k ↔ stable s k).
Proof. split_and!; [by intros []; split|by intros []|done]. Qed.

Lemma act_ser i p q s x :
  ser_inv s → thr s !! i = Some p → act p s = Some (q, x) → ser_inv (set_thr (<[i := q]> (thr s)) x).
Proof.
  intros [H1 Hl Hq Hm [Hcc Hcu]] Hi Ha.
  assert (∃ k, key_of p = Some k) as [k Hk] by (destruct p; by eauto).
  destruct (act_ok k p q s x Hm (Hl i p Hi) Hk Ha) as [Mm Mf Ml Mk Mc Mu].
  destruct (set_thr_ok x (<[i := q]> (thr s))) as (Sm & Sl & Ss).
  pose proof (λ P, count_insert P _ i q _ Hi) as HE.
  assert (∀ j r, <[i := q]> (thr s) !! j = Some r → j = i ∧ r = q ∨ j ≠ i ∧ thr s !! j = Some r) as Hj.
  { intros j r. destruct (decide (j = i)) as [->|]; [|rewrite list_lookup_insert_ne by done; by right].
    rewrite list_lookup_insert_eq by by eapply lookup_lt_Some. intros [= ->]. by left. }
  assert (∀ j r, j ≠ i → thr s !! j = Some r → key_of r ≠ Some k) as Hne
    by (intros j r Hji Hr Hkr; by rewrite (H1 i j p r k Hi Hr Hk Hkr) in Hji).
  assert (∀ k', key_of q = Some k' → k' = k) as Hqk by (intros k' Hk'; destruct Mk as [?|[-> _]]; by simplify_eq).
  split.
  - intros j1 j2 r1 r2 k' [[-> ->]|[N1 L1]]%Hj [[-> ->]|[N2 L2]]%Hj K1 K2; try done.
    + apply Hqk in K1 as ->. by destruct (Hne j2 r2 N2 L2).
    + apply Hqk in K2 as ->. by destruct (Hne j1 r1 N1 L1).
    + eauto.
  - intros j r [[-> ->]|[N L]]%Hj; apply Sl; [done|]. apply (frame_local k s); eauto.
  - intros k' Hk'. apply Ss. destruct (decide (k' = k)) as [->|Hkk].
    + destruct Mk as [Hqq|[_ ?]]; [|done]. destruct (Hk' i q); [|done].
      apply list_lookup_insert_eq. by eapply lookup_lt_Some.
    + apply (frame_stable k s); [done..|]. apply Hq. intros j r Hr Hkr.
      assert (j ≠ i) by (intros ->; congruence). apply (Hk' j r); [cbn; by rewrite list_lookup_insert_ne|done].
  - by apply Sm.
  - pose proof (HE conn_late); pose proof (HE conn_over); pose proof (HE user_late); pose proof (HE user_over).
    split; cbn [connCnt userCnt set_thr thr conns]; change (devices (set_thr _ x)) with (devices x); lia.
Qed.

Lemma spawn_ser s p k :
  (∀ r, r ∈ thr s → key_of r ≠ Some k) → key_of p = Some k → (stable s k → local s p) →
  conn_late p = false → conn_over p = false → user_late p = false → user_over p = false →
  ser_inv s → ser_inv (set_thr (thr s ++ [p]) s).
Proof.
  intros Hfree Hk Hp E1 E2 E3 E4 [H1 Hl Hq Hm [Hcc Hcu]].
  assert (∀ j r, (thr s ++ [p]) !! j = Some r → thr s !! j = Some r ∨ j = length (thr s) ∧ r = p) as Hj.
  { intros j r [?|[? [Hj <-]%list_lookup_singleton_Some]]%lookup_app_Some; [by left|right].
    split; [lia|done]. }
  assert (∀ j r, thr s !! j = Some r → key_of r ≠ Some k) as Hne
    by (intros j r Hr; apply Hfree; by eapply list_elem_of_lookup_2).
  destruct (set_thr_ok s (thr s ++ [p])) as (Sm & Sl & Ss).
  split.
  - intros j1 j2 r1 r2 k' [L1|[-> ->]]%Hj [L2|[-> ->]]%Hj K1 K2; try done; [eauto|..]; simplify_eq;
      exfalso; eapply Hne; eauto.
  - intros j r [L|[-> ->]]%Hj; apply Sl; [by eapply Hl|]. apply Hp, Hq, Hne.
  - intros k' Hk'. apply Ss, Hq. intros j r Hr. apply (Hk' j). by apply lookup_app_l_Some.
  - by apply Sm.
  - split; cbn [connCnt userCnt set_thr thr conns]; rewrite !count_app; cbn [count];
      rewrite ?E1, ?E2, ?E3, ?E4; cbn [Nat.b2n]; change (devices (set_thr _ s)) with (devices s); lia.
Qed.

(** A connection that was made is in an entry, in hand, or closed. *)
Definition kept (s : RS) (c : nat) : Prop := (∃ a d, entry s a d c) ∨ 0 < held s c.

Lemma kept_mono s x c :
  (∀ a d, entry s a d c → entry x a d c) → (0 < held s c → 0 < held x c) → kept s c → kept x c.
Proof. intros He Hh [(a & d & Hc)|Hc]; [left; eauto|right; auto]. Qed.

Lemma kept_make s x c :
  dcs x = dcs s ++ [∅] → held x c = held s c + Nat.b2n (made s =? c) →
  (c < made s → kept s c) → c < S (made s) → kept x c.
Proof.
  intros Hd Hh Hc Hm. destruct (Nat.eqb_spec (made s) c) as [E|Hne]; cbn in Hh; [right; lia|].
  apply (kept_mono s); [intros *; by apply entry_snoc|lia|apply Hc; lia].
Qed.

(** The devices of one object change to [dc'], and [c0] changes hands. *)
Lemma kept_update s x a dc dc' c :
  dcs s !! a = Some dc → dcs x = <[a := dc']> (dcs s) →
  (∀ d, dc !! d = Some c → dc' !! d = Some c ∨ 0 < held x c) →
  (0 < held s c → 0 < held x c ∨ ∃ d, dc' !! d = Some c) → kept s c → kept x c.
Proof.
  intros Ha Hx He Hh.
  assert (∀ d, dc' !! d = Some c → kept x c) as Hnew
    by (intros d Hd; left; exists a, d; apply (entry_insert s a dc' dc _ _ _ x Ha Hx); by left).
  intros [(a' & d & Hc)|[?|[d Hd]]%Hh]; [|by right|by eapply Hnew].
  destruct (decide (a' = a)) as [->|Hne].
  - destruct Hc as (dc0 & Hdc & Hd). simplify_eq. destruct (He d Hd); [by eapply Hnew|by right].
  - left. exists a', d. apply (entry_insert s a dc' dc _ _ _ x Ha Hx). by right.
Qed.

Lemma act_kept i p q s s1 c :
  local s p → thr s !! i = Some p → act p s = Some (q, s1) →
  (c < made s → kept s c) → c < made s1 → kept (set_thr (<[i := q]> (thr s)) s1) c.
Proof.
  intros Hl Hi Ha Hc Hm. pose proof (held_move s i p q s1 c Hi) as HE.
  destruct p; cbn [act] in Ha; simplify_option_eq; repeat case_match; simplify_eq;
    rewrite ?holds_return in HE;
    cbn [holds Nat.b2n shut made set_conns set_dcs add_conn add_user make shut_conn] in HE, Hm;
    try rewrite count_app in HE; cbn [count Nat.b2n] in HE.
  all: try (refine (kept_mono _ _ c _ _ (Hc Hm)); [intros * He; exact He|lia]).
  all: try (refine (kept_make s _ c _ _ Hc Hm); [done|lia]).
  - destruct Hl as (dc & [_ Hdc] & Hnone). assert (dc = H) as -> by congruence.
    eapply (kept_update s); [exact Heqo|done| | |by apply Hc].
    + intros d' Hd'. left. rewrite lookup_insert_ne; [done|congruence].
    + intros Hs. revert HE. destruct (Nat.eqb_spec c0 c) as [->|]; cbn [Nat.b2n]; intros HE.
      * right. exists d. by rewrite lookup_insert_eq.
      * left. lia.
  - eapply (kept_update s); [exact Heqo|done| |intros Hs; left; lia|by apply Hc].
    intros d' Hd'. revert HE. destruct (Nat.eqb_spec n c) as [->|]; cbn [Nat.b2n]; intros HE.
    + right. lia.
    + left. rewrite lookup_delete_ne; [done|congruence].
Qed.

Record serial_ok (s : RS) : Prop := SerialOk {
  so_inv : ser_inv s;
  so_kept c : c < made s → kept s c;
}.

Lemma spawn_kept s p c : (∀ c, holds c p = false) → kept s c → kept (set_thr (thr s ++ [p]) s) c.
Proof.
  intros Hp. apply kept_mono; [done|]. unfold held. cbn. rewrite count_app. cbn. rewrite Hp. cbn. lia.
Qed.

Lemma serial_step_ok s s' : serial_ok s → serial_step s s' → serial_ok s'.
Proof.
  intros [Hi Hk] (ev & He & Hfree). destruct ev as [k d|k d|i]; cbn in He, Hfree.
  - injection He as <-. split; [|intros c Hc; apply spawn_kept; auto].
    apply (spawn_ser s (NLoad k d) k); try done. intros r Hr. by apply Hfree.
  - injection He as <-. split; [|intros c Hc; apply spawn_kept; auto].
    apply (spawn_ser s (MLoad k d None) k); try done; [intros r Hr; by apply Hfree|]. cbn. auto.
  - destruct (thr s !! i) as [p|] eqn:Hp; cbn in He; [|done].
    destruct (act p s) as [[q x]|] eqn:Ha; cbn in He; [|done]. injection He as <-.
    split; [by eapply act_ser|]. intros c Hc. eapply act_kept; eauto. eapply si_local; eauto.
Qed.

Lemma serial_steps_ok s : rtc serial_step initial s → serial_ok s.
Proof.
  intros Hs. apply (rtc_preserve serial_step serial_ok serial_step_ok initial); [done|].
  split; [|intros c Hc; cbn in Hc; lia]. split; cbn; try done.
Qed.

Lemma quiet_counts (P : pc → bool) l : P Ret = false → (∀ p, p ∈ l → p = Ret) → count P l = 0.
Proof. intros HP Hl. apply count_none, Forall_forall. intros p Hp%list_elem_of_In. by rewrite (Hl p Hp). Qed.

(** C8. If operations of one user do not overlap, then whatever those of different users
    do: when they have returned, both counters are exact, every user in the map
    has a device, and every connection ever made is registered under its user or was
    closed. *)
Theorem registry_serial s :
  rtc serial_step initial s → (∀ p, p ∈ thr s → p = Ret) →
  connCnt s = Z.of_nat (devices s) ∧ userCnt s = Z.of_nat (size (conns s)) ∧
  (∀ k, stable s k) ∧
  (∀ c, c < made s → c ∈ shut s ∨ ∃ k a d dc, conns s !! k = Some a ∧ dcs s !! a = Some dc ∧ dc !! d = Some c).
Proof.
  intros [[_ _ Hq [_ _ Ho] [Hc Hu]] Hk]%serial_steps_ok Hret.
  rewrite !quiet_counts in Hc, Hu by done. split_and!; [lia|lia| |].
  - intros k. apply Hq. intros i p Hp. by rewrite (Hret p) by by eapply list_elem_of_lookup_2.
  - intros c [(a & d & dc & Hdc & Hd)|Hh]%Hk.
    + right. destruct (Ho a dc Hdc) as [k Hka]; [by intros ->|]. by exists k, a, d, dc.
    + left. unfold held in Hh. rewrite quiet_counts in Hh by done.
      apply count_pos in Hh as (i & c' & Hi & ->%Nat.eqb_eq). by eapply list_elem_of_lookup_2.
Qed.

(** ** Schedules *)

Lemma schedule_rtc evs s s' : exec_all evs s = Some s' → rtc step s s'.
Proof.
  revert s. induction evs as [|ev evs IH]; cbn; intros s He; [by injection He as ->|].
  destruct (exec ev s) as [s1|] eqn:H1; cbn in He; [|done]. eapply rtc_l; [by exists ev|auto].
Qed.

Definition moves (n i : nat) : list event := repeat (EStep i) n.

(** A device [d] leaves: its [RemoveConn], goroutine [i], has seen that no device is left.
    The user's other device [d'] arrives and is added to the object the first is about
    to delete. *)
Definition leave_and_join (k d d' : string) (i : nat) : list event :=
  (ERemove k d :: moves 4 i) ++ (ENew k d' :: moves 5 (S i)) ++ moves 3 i.

(** A device connects twice at once: both find no connection. *)
Definition join_twice (k d : string) (i : nat) : list event :=
  (ENew k d :: moves 3 i) ++ (ENew k d :: moves 5 (S i)) ++ moves 2 i.

Abbreviation runs evs s s' := (exec_all evs s = Some s').

Lemma runs_cons ev evs s s1 s2 : exec ev s = Some s1 → runs evs s1 s2 → runs (ev :: evs) s s2.
Proof. intros E1 E2. cbn [exec_all]. by rewrite E1. Qed.

Lemma runs_app evs1 evs2 s s1 s2 : runs evs1 s s1 → runs evs2 s1 s2 → runs (evs1 ++ evs2) s s2.
Proof.
  revert s. induction evs1 as [|ev evs1 IH]; cbn; intros s E1 E2; [by injection E1 as ->|].
  destruct (exec ev s) as [s'|]; cbn in *; [by apply IH|done].
Qed.

(** The goroutine after those of [l] moves. *)
Lemma exec_move i l p r q s s' :
  thr s = l ++ p :: r → i = length l → act p s = Some (q, s') →
  exec (EStep i) s = Some (set_thr (l ++ q :: r) s').
Proof.
  intros Hs -> Ha. cbn [exec]. rewrite Hs, list_lookup_middle by done. cbn [mbind option_bind].
  rewrite Ha. cbn. by rewrite insert_app_r_alt, Nat.sub_diag by done.
Qed.

Ltac fields :=
  cbn [set_thr set_conns set_dcs add_conn add_user make shut_conn return_to
       conns dcs connCnt userCnt made shut thr].
(** A call starts; a move of goroutine [length l], given what it looks up. *)
Ltac call := eapply runs_cons; [reflexivity|]; unfold moves; cbn [repeat]; fields.
Ltac next H :=
  eapply runs_cons; [eapply exec_move; [reflexivity|done|cbn; rewrite ?H; cbn; reflexivity]|]; fields.

(** [RemoveConn] of the only device of a user, until it has seen that none is left. *)
Lemma remove_last_runs i l ck ds cc uc m sh k d a c :
  i = length l → ck !! k = Some a → ds !! a = Some {[d := c]} →
  runs (ERemove k d :: moves 4 i) (MkRS ck ds cc uc m sh l)
    (MkRS ck (<[a := ∅]> ds) (cc - 1) uc m sh (l ++ [MDelete k a c None])).
Proof.
  intros Hi Hk Ha. call. next Hk.
  eapply runs_cons.
  { eapply exec_move; [reflexivity|done|]. cbn. rewrite Ha. cbn. by rewrite lookup_singleton_eq, delete_singleton_eq. }
  fields. next Hi.
  eapply runs_cons.
  { eapply exec_move; [reflexivity|done|]. cbn.
    rewrite list_lookup_insert_eq by by eapply lookup_lt_Some. cbn.
    by rewrite map_size_empty, bool_decide_eq_true_2. }
  done.
Qed.

Lemma delete_user_runs i l r ck ds cc uc m sh k a c :
  i = length l →
  runs (moves 3 i) (MkRS ck ds cc uc m sh (l ++ MDelete k a c None :: r))
    (MkRS (delete k ck) ds cc (uc - 1) m (sh ++ [c]) (l ++ Ret :: r)).
Proof. intros Hi. unfold moves. cbn [repeat]. next Hi. next Hi. next Hi. done. Qed.

(** [NewConn] of a device, for a user whose object has no devices. *)
Lemma join_runs i l ck ds cc uc m sh k d a :
  i = length l → ck !! k = Some a → ds !! a = Some ∅ →
  runs (ENew k d :: moves 5 i) (MkRS ck ds cc uc m sh l)
    (MkRS ck (<[a := {[d := m]}]> (ds ++ [∅])) (cc + 1) uc (S m) sh (l ++ [Ret])).
Proof.
  intros Hi Hk Ha. call. next Hk.
  eapply runs_cons; [eapply exec_move; [reflexivity|done|cbn; rewrite Ha; cbn; by rewrite lookup_empty]|].
  fields. next Hk.
  eapply runs_cons.
  { eapply exec_move; [reflexivity|done|]. cbn. by rewrite (lookup_app_l_Some _ _ _ _ Ha). }
  fields. rewrite insert_empty. next Hi. done.
Qed.

(** [NewConn] for a user that has no object, until the connection is to be added. *)
Lemma half_join_runs i l ck ds cc uc m sh k d :
  i = length l → ck !! k = None →
  runs (ENew k d :: moves 3 i) (MkRS ck ds cc uc m sh l)
    (MkRS (<[k := length ds]> ck) (ds ++ [∅]) cc (uc + 1) (S m) sh (l ++ [NAdd k d (length ds) m])).
Proof. intros Hi Hk. call. next Hk. next Hk. next Hi. done. Qed.

Lemma add_runs i l r ck ds cc uc m sh k d a c dc :
  i = length l → ds !! a = Some dc →
  runs (moves 2 i) (MkRS ck ds cc uc m sh (l ++ NAdd k d a c :: r))
    (MkRS ck (<[a := <[d := c]> dc]> ds) (cc + 1) uc m sh (l ++ Ret :: r)).
Proof. intros Hi Ha. unfold moves. cbn [repeat]. next Ha. next Hi. done. Qed.

Lemma leave_and_join_runs l ck ds cc uc m sh k d d' a c :
  ck !! k = Some a → ds !! a = Some {[d := c]} →
  runs (leave_and_join k d d' (length l)) (MkRS ck ds cc uc m sh l)
    (MkRS (delete k ck) (<[a := {[d' := m]}]> (<[a := ∅]> ds ++ [∅])) (cc - 1 + 1) (uc - 1) (S m)
       (sh ++ [c]) (l ++ [Ret; Ret])).
Proof.
  intros Hk Ha. unfold leave_and_join.
  eapply runs_app; [by eapply remove_last_runs|]. eapply runs_app.
  - eapply join_runs; [rewrite length_app; cbn; lia|done|].
    apply list_lookup_insert_eq. by eapply lookup_lt_Some.
  - rewrite <- app_assoc. by apply delete_user_runs.
Qed.

Lemma join_twice_runs l ck ds cc uc m sh k d :
  ck !! k = None →
  runs (join_twice k d (length l)) (MkRS ck ds cc uc m sh l)
    (MkRS (<[k := length ds]> ck) (<[length ds := {[d := m]}]> ((ds ++ [∅]) ++ [∅])) (cc + 1 + 1) (uc + 1)
       (S (S m)) sh (l ++ [Ret; Ret])).
Proof.
  intros Hk. unfold join_twice.
  eapply runs_app; [by apply half_join_runs|]. eapply runs_app.
  - eapply join_runs; [rewrite length_app; cbn; lia|apply lookup_insert_eq|by apply list_lookup_middle].
  - rewrite <- (app_assoc l). cbn [app].
    pose proof (add_runs (length l) l [Ret] (<[k := length ds]> ck)
      (<[length ds := {[d := S m]}]> ((ds ++ [∅]) ++ [∅])) (cc + 1) (uc + 1) (S (S m)) sh k d (length ds) m
      {[d := S m]} eq_refl) as Ha.
    rewrite insert_singleton_eq, list_insert_insert_eq in Ha. apply Ha.
    apply list_lookup_insert_eq. rewrite !length_app. cbn. lia.
Qed.

Lemma serial_rtc s s' : rtc serial_step s s' → rtc step s s'.
Proof. apply rtc_subrel. intros s1 s2 (ev & E1 & _). by exists ev. Qed.

(** C10. Operations of one user that overlap lose a connection, whatever the state of the
    registry.  First: a user has one device [d], with connection [c].  While the
    [RemoveConn] of [d] is between counting the devices left and deleting the user, another
    device [d'] connects.  Both return; the new connection is not closed, but belongs to
    an object that no user has any more, so no look-up finds it, and [connCnt] is what it
    was although [c] is gone and the new connection is not registered.
    Second: a user has no connection, and a device connects twice at once.  Both return;
    of the two connections the later one is in no object and was not closed, and
    [connCnt] counts both. *)
Theorem registry_loses_connection s k :
  rtc serial_step initial s →
  let i := length (thr s) in
  (∀ a d d' c, conns s !! k = Some a → dcs s !! a = Some {[d := c]} →
     ∃ s', exec_all (leave_and_join k d d' i) s = Some s' ∧ thr s' = thr s ++ [Ret; Ret] ∧
       made s' = S (made s) ∧ shut s' = shut s ++ [c] ∧ entry s' a d' (made s) ∧
       (∀ k', conns s' !! k' ≠ Some a) ∧
       conns s' = delete k (conns s) ∧ connCnt s' = connCnt s ∧ userCnt s' = (userCnt s - 1)%Z) ∧
  (∀ d, conns s !! k = None →
     ∃ s', exec_all (join_twice k d i) s = Some s' ∧ thr s' = thr s ++ [Ret; Ret] ∧
       made s' = S (S (made s)) ∧ shut s' = shut s ∧
       (∀ a d', ~ entry s' a d' (S (made s))) ∧
       (∃ a, conns s' !! k = Some a ∧ dcs s' !! a = Some {[d := made s]}) ∧
       connCnt s' = (connCnt s + 2)%Z).
Proof.
  intros Hs i. destruct (serial_steps_ok s Hs) as [[_ _ _ [Hinj _ _] _] _].
  pose proof (li_made s (lin_steps s (serial_rtc _ _ Hs))) as Hmade.
  destruct s as [ck ds cc uc m sh l]. cbn [conns dcs made thr] in *. split.
  - intros a d d' c Hk Ha. eexists. split; [by apply leave_and_join_runs|].
    fields. split_and!; try done; [|intros k'|lia].
    + exists {[d' := m]}. cbn. rewrite lookup_singleton_eq, list_lookup_insert_eq; [done|].
      apply lookup_lt_Some in Ha. rewrite length_app, length_insert. lia.
    + rewrite lookup_delete_Some. intros [Hne Hk']. apply Hne. eauto.
  - intros d Hk. eexists. split; [by apply join_twice_runs|].
    assert (length ds < length ((ds ++ [∅]) ++ [∅])) as Hlen by (rewrite !length_app; cbn; lia).
    fields. split_and!; try done; [|exists (length ds)|lia].
    + intros a d' (dc & Hdc & Hd). cbn in Hdc. destruct (decide (a = length ds)) as [->|Hne].
      * rewrite list_lookup_insert_eq in Hdc by done. injection Hdc as <-.
        apply lookup_singleton_Some in Hd as [_ Hd]. lia.
      * rewrite list_lookup_insert_ne in Hdc by done.
        assert (dc = ∅ ∨ ds !! a = Some dc) as [->|Hold].
        { apply lookup_app_Some in Hdc as [[?|[_ [_ <-]%list_lookup_singleton_Some]]%lookup_app_Some
            |[_ [_ <-]%list_lookup_singleton_Some]]; auto. }
        -- by rewrite lookup_empty in Hd.
        -- assert (S m < m); [|lia]. apply (Hmade a d'). by exists dc.
    + by rewrite lookup_insert_eq, list_lookup_insert_eq.
Qed.

(** ** Witnesses *)

Definition state_of (evs : list event) : RS := default initial (exec_all evs initial).

Definition two_users : list event :=
  [ENew "7" "mobile"; ENew "8" "pc"] ++ moves 2 0 ++ moves 5 1 ++ moves 3 0 ++
  [ERemove "7" "mobile"; ENew "8" "mobile"] ++ moves 3 2 ++ moves 5 3 ++ moves 4 2.

(** The phone of user 7 is connected; it leaves while the user's computer connects. *)
Definition phone : list event := ENew "7" "mobile" :: moves 5 0.
Definition phone_leaves : list event := phone ++ leave_and_join "7" "mobile" "pc" 1.

(** The user of the event has no operation under way. *)
Definition user_free (ev : event) (s : RS) : bool :=
  match starts ev with
  | Some k => forallb (λ p, negb (bool_decide (key_of p = Some k))) (thr s)
  | None => true
  end.
Fixpoint all_free (evs : list event) (s : RS) : bool :=
  match evs with
  | [] => true
  | ev :: evs' => user_free ev s && match exec ev s with Some s' => all_free evs' s' | None => false end
  end.

Lemma all_free_rtc evs s s' :
  all_free evs s = true → exec_all evs s = Some s' → rtc serial_step s s'.
Proof.
  revert s. induction evs as [|ev evs IH]; cbn; intros s Hf He; [by injection He as ->|].
  apply andb_true_iff in Hf as [Hf Hr].
  destruct (exec ev s) as [s1|] eqn:H1; cbn in He; [|done].
  eapply rtc_l; [|by apply IH]. exists ev. split; [done|]. intros k p Hk Hp Hkp.
  unfold user_free in Hf. rewrite Hk in Hf. rewrite forallb_forall in Hf.
  apply list_elem_of_In in Hp. specialize (Hf p Hp). by rewrite bool_decide_eq_true_2 in Hf.
Qed.

Example registry_linear_witness :
  let s := state_of phone_leaves in entry s 0 "pc" 1 ∧ (1 ∉ shut s).
Proof.
  assert (entry (state_of phone_leaves) 0 "pc" 1) as He by (eexists; by vm_compute).
  split; [exact He|]. apply (registry_linear _ 0 "pc" 1); [|exact He].
  apply (schedule_rtc phone_leaves). by vm_compute.
Defined.

Example registry_serial_witness :
  let s := state_of two_users in
  shut s = [0] ∧ connCnt s = Z.of_nat (devices s) ∧ devices s = 2 ∧ userCnt s = Z.of_nat (size (conns s)).
Proof.
  split; [by vm_compute|].
  destruct (registry_serial (state_of two_users)) as (Hc & Hu & _).
  - apply (all_free_rtc two_users); by vm_compute.
  - assert (thr (state_of two_users) = [Ret; Ret; Ret; Ret]) as -> by by vm_compute.
    by intros p Hp; repeat (apply elem_of_cons in Hp as [->|Hp]; [done|]); apply elem_of_nil in Hp.
  - split; [exact Hc|]. split; [by vm_compute|exact Hu].
Defined.

(** The computer's connection, 1, is lost; so is the second one of user 8's phone. *)
Example registry_loses_connection_witness :
  (∃ s', exec_all (leave_and_join "7" "mobile" "pc" 1) (state_of phone) = Some s' ∧
     made s' = 2 ∧ shut s' = [0] ∧ conns s' !! "7" = None) ∧
  (∃ s', exec_all (join_twice "8" "mobile" 1) (state_of phone) = Some s' ∧
     made s' = 3 ∧ shut s' = [] ∧ ∀ a d, ~ entry s' a d 2).
Proof.
  assert (rtc serial_step initial (state_of phone)) as Hs by (apply (all_free_rtc phone); by vm_compute).
  split.
  - destruct (proj1 (registry_loses_connection (state_of phone) "7" Hs) 0 "mobile" "pc" 0)
      as (s' & E1 & _ & Hm & Hsh & _ & _ & Hc & _); [by vm_compute..|].
    exists s'. split; [exact E1|]. rewrite Hm, Hsh, Hc.
    split_and!; [vm_compute; reflexivity|vm_compute; reflexivity|apply lookup_delete_eq].
  - destruct (proj2 (registry_loses_connection (state_of phone) "8" Hs) "mobile")
      as (s' & E1 & _ & Hm & Hsh & Hno & _); [by vm_compute|].
    exists s'. split; [exact E1|]. rewrite Hm, Hsh.
    split_and!; [vm_compute; reflexivity|vm_compute; reflexivity|exact Hno].
Defined.
End Registry.
