(* ===== verification/ConnSim.v ===== *)
(** The two models of the connection manager agree: every history of whole
    [NewConn]s and [RemoveConn]s of [ConnManager.v] is a schedule of [ConnRace.v] in
    which each operation's goroutine moves alone. *)

From S2P Require Import Prelude Env Sim Session Compression Conn ConnManager ConnRace.

(** ** Running a goroutine of [Registry] alone *)

Section Solo.
Abbreviation RS := Registry.RS.
Implicit Types (r : RS) (k d : string) (a c i : nat) (p q : Registry.pc) (next : option string).

Definition acts : relation (Registry.pc * RS) := rtc (λ x y, Registry.act x.1 x.2 = Some y).

Lemma reg_act_set_thr p l r :
  Registry.act p (Registry.set_thr l r)
  = prod_map (λ q, q) (Registry.set_thr l) <$> Registry.act p r.
Proof.
  destruct p; cbn; try done; repeat case_match; try done;
    match goal with |- context [?o ≫= _] => destruct o; try done end;
    cbn; by repeat case_match.
Qed.

Lemma reg_acts_one p r q r' x : Registry.act p r = Some (q, r') → acts (q, r') x → acts (p, r) x.
Proof. intros Ha Hx. by eapply rtc_l. Qed.

Lemma reg_acts_then x y z : acts x y → acts y z → acts x z.
Proof. unfold acts. intros H1 H2. by etrans. Qed.

Lemma reg_acts_steps p r q r' i l :
  acts (p, r) (q, r') → l !! i = Some p →
  rtc Registry.serial_step (Registry.set_thr l r) (Registry.set_thr (<[i := q]> l) r').
Proof.
  intros Ha. remember (p, r) as x eqn:Hx. remember (q, r') as y eqn:Hy.
  revert p r l Hx Hy. induction Ha as [x|x [p1 r1] y Ha _ IH]; intros p r l -> Hy Hi.
  - injection Hy as -> ->. by rewrite list_insert_id.
  - cbn [fst snd] in Ha. apply (rtc_l _ _ (Registry.set_thr (<[i := p1]> l) r1)).
    + exists (Registry.EStep i). split; [|done]. unfold Registry.exec.
      cbn [Registry.thr Registry.set_thr]. rewrite Hi. cbn [mbind option_bind].
      by rewrite reg_act_set_thr, Ha.
    + rewrite <- (list_insert_insert_eq l i q p1).
      apply (IH p1 r1 (<[i := p1]> l)); [done..|]. apply list_lookup_insert_eq. by eapply lookup_lt_Some.
Qed.

(** No operation is under way. *)
Definition quiet r : Prop := ∀ p, p ∈ Registry.thr r → p = Registry.Ret.

Lemma reg_solo_run ev k p r r' :
  Registry.exec ev r = Some (Registry.set_thr (Registry.thr r ++ [p]) r) →
  acts (p, r) (Registry.Ret, r') → quiet r →
  ∃ l, rtc Registry.serial_step r (Registry.set_thr l r') ∧ quiet (Registry.set_thr l r').
Proof.
  intros He Ha Hq.
  pose proof (reg_acts_steps p r Registry.Ret r' (length (Registry.thr r)) (Registry.thr r ++ [p]) Ha) as Hs.
  eexists. split; [eapply rtc_l|].
  - exists ev. split; [exact He|]. intros k' p' _ Hp'. by rewrite (Hq p' Hp').
  - apply Hs. by rewrite lookup_app_r, Nat.sub_diag.
  - intros p' Hp. cbn [Registry.thr Registry.set_thr] in Hp.
    rewrite insert_app_r_alt, Nat.sub_diag in Hp by done.
    apply elem_of_app in Hp as [Hp|Hp]; [by apply Hq|]. by apply list_elem_of_singleton in Hp.
Qed.

(** The connection registered for a key and a device. *)
Definition at_device r k d : option nat :=
  a ← Registry.conns r !! k; dc ← Registry.dcs r !! a; dc !! d.

(** The two-level map after the entry of [k] and [d] is set to [o]. *)
Definition updated r r' k d (o : option nat) : Prop :=
  at_device r' k d = o ∧
  ∀ k' d', (k', d') ≠ (k, d) → at_device r' k' d' = at_device r k' d'.

Lemma updated_trans r1 r2 r3 k d o1 o2 : updated r1 r2 k d o1 → updated r2 r3 k d o2 → updated r1 r3 k d o2.
Proof. intros [_ H1] [H2 H3]. split; [done|]. intros k' d' Hne. by rewrite H3, H1. Qed.

(** An object gets new devices, differing at [d]. *)
Lemma updated_at r r' k d a dc dc' :
  Registry.map_ok r → Registry.conns r !! k = Some a → Registry.dcs r !! a = Some dc →
  Registry.conns r' = Registry.conns r → Registry.dcs r' = <[a := dc']> (Registry.dcs r) →
  (∀ d', d' ≠ d → dc' !! d' = dc !! d') → updated r r' k d (dc' !! d).
Proof.
  intros Hm Hk Ha Hc Hd Hdc. assert (<[a := dc']> (Registry.dcs r) !! a = Some dc') as Ha'
    by (apply list_lookup_insert_eq; by eapply lookup_lt_Some).
  unfold updated, at_device. rewrite Hc, Hd, Hk. cbn. rewrite Ha'. split; [done|]. intros k' d' Hne.
  destruct (Registry.conns r !! k') as [a'|] eqn:Hk'; [|done]. cbn.
  destruct (decide (a' = a)) as [->|Hna].
  - assert (k' = k) as -> by by eapply (Registry.mo_inj _ Hm). rewrite Ha', Ha. cbn. apply Hdc. congruence.
  - by rewrite list_lookup_insert_ne.
Qed.

(** A key without devices is deleted. *)
Lemma updated_delete r r' k d a :
  Registry.conns r !! k = Some a → Registry.dcs r !! a = Some ∅ →
  Registry.conns r' = delete k (Registry.conns r) → Registry.dcs r' = Registry.dcs r →
  updated r r' k d None.
Proof.
  intros Hk Ha Hc Hd. unfold updated, at_device. rewrite Hc, Hd, lookup_delete_eq. split; [done|].
  intros k' d' Hne. destruct (decide (k' = k)) as [->|Hk'].
  - rewrite lookup_delete_eq, Hk. cbn. by rewrite Ha.
  - by rewrite lookup_delete_ne.
Qed.

(** [RemoveConn] up to its return. *)
Lemma acts_remove r k d next :
  Registry.map_ok r →
  ∃ r', acts (Registry.MLoad k d next, r) (Registry.return_to k next, r') ∧ updated r r' k d None ∧
    Registry.connCnt r'
    = (Registry.connCnt r - match at_device r k d with Some _ => 1 | None => 0 end)%Z.
Proof.
  intros Hm. assert (∀ o, at_device r k d = o → o = None →
    updated r r k d None ∧ Registry.connCnt r
      = (Registry.connCnt r - match at_device r k d with Some _ => 1 | None => 0 end)%Z) as Hsame.
  { intros o Ho ->. rewrite Ho. split; [done|lia]. }
  destruct (Registry.conns r !! k) as [a|] eqn:Hk.
  2: { exists r. split; [|by eapply Hsame; [unfold at_device; rewrite Hk|]].
       eapply reg_acts_one; [cbn; rewrite Hk; reflexivity|apply rtc_refl]. }
  destruct (Registry.mo_alloc _ Hm k a Hk) as [dc Ha].
  destruct (dc !! d) as [c|] eqn:Hd.
  2: { exists r. split; [|eapply Hsame; [unfold at_device; rewrite Hk; cbn; by rewrite Ha|done]].
       eapply reg_acts_one; [cbn; rewrite Hk; reflexivity|].
       eapply reg_acts_one; [cbn; rewrite Ha; cbn; rewrite Hd; reflexivity|apply rtc_refl]. }
  assert (at_device r k d = Some c) as Hat by (unfold at_device; rewrite Hk; cbn; by rewrite Ha).
  rewrite Hat. set (dc' := delete d dc).
  set (r1 := Registry.add_conn (-1) (Registry.set_dcs (<[a := dc']> (Registry.dcs r)) r)).
  assert (Registry.dcs r1 !! a = Some dc') as Ha'
    by (apply list_lookup_insert_eq; by eapply lookup_lt_Some).
  assert (updated r r1 k d None) as Hup.
  { rewrite <- (lookup_delete_eq dc d). eapply updated_at; [done|exact Hk|exact Ha|done..|].
    intros d' Hne. by rewrite lookup_delete_ne. }
  assert (acts (Registry.MLoad k d next, r) (Registry.MLen k a c next, r1)) as Hlen.
  { eapply reg_acts_one; [cbn; rewrite Hk; reflexivity|].
    eapply reg_acts_one; [cbn; rewrite Ha; cbn; rewrite Hd; reflexivity|].
    eapply reg_acts_one; [reflexivity|apply rtc_refl]. }
  destruct (decide (size dc' = 0)) as [Hz|Hz].
  - eexists. split; [|split].
    + eapply reg_acts_then; [exact Hlen|].
      eapply reg_acts_one; [cbn [Registry.act]; rewrite Ha'; cbn; rewrite bool_decide_eq_true_2 by done; reflexivity|].
      eapply reg_acts_one; [reflexivity|]. eapply reg_acts_one; [reflexivity|].
      eapply reg_acts_one; [reflexivity|apply rtc_refl].
    + eapply updated_trans; [exact Hup|]. apply (updated_delete _ _ k d a); try done.
      apply map_size_empty_inv in Hz. by rewrite <- Hz.
    + cbn. lia.
  - eexists. split; [|split].
    + eapply reg_acts_then; [exact Hlen|].
      eapply reg_acts_one; [cbn [Registry.act]; rewrite Ha'; cbn; rewrite bool_decide_eq_false_2 by done; reflexivity|].
      eapply reg_acts_one; [reflexivity|apply rtc_refl].
    + exact Hup.
    + cbn. lia.
Qed.

(** Storing a new connection where the device has none. *)
Lemma acts_store r k d :
  Registry.map_ok r →
  ∃ r' c, acts (Registry.NStore k d, r) (Registry.Ret, r') ∧ updated r r' k d (Some c) ∧
    Registry.connCnt r' = (Registry.connCnt r + 1)%Z.
Proof.
  intros Hm. set (c := Registry.made r).
  destruct (Registry.conns r !! k) as [a|] eqn:Hk.
  - destruct (Registry.mo_alloc _ Hm k a Hk) as [dc Ha].
    assert ((Registry.dcs r ++ [∅]) !! a = Some dc) as Ha1 by by apply lookup_app_l_Some.
    eexists _, c. split; [|split].
    + eapply reg_acts_one; [cbn; rewrite Hk; reflexivity|].
      eapply reg_acts_one; [cbn; rewrite Ha1; reflexivity|].
      eapply reg_acts_one; [reflexivity|apply rtc_refl].
    + unfold updated, at_device. cbn. rewrite Hk. cbn.
      rewrite list_lookup_insert_eq by by eapply lookup_lt_Some. cbn. rewrite lookup_insert_eq.
      split; [done|]. intros k' d' Hne. destruct (Registry.conns r !! k') as [a'|] eqn:Hk'; [|done]. cbn.
      destruct (decide (a' = a)) as [->|Hna].
      * assert (k' = k) as -> by by eapply (Registry.mo_inj _ Hm).
        rewrite list_lookup_insert_eq, Ha by by eapply lookup_lt_Some. cbn.
        rewrite lookup_insert_ne; [done|congruence].
      * destruct (Registry.mo_alloc _ Hm k' a' Hk') as [dc' Ha'].
        rewrite list_lookup_insert_ne by done. by rewrite (lookup_app_l_Some _ _ _ _ Ha'), Ha'.
    + done.
  - set (a := length (Registry.dcs r)).
    assert ((Registry.dcs r ++ [∅]) !! a = Some (∅ : gmap string nat)) as Ha
      by (unfold a; by rewrite lookup_app_r, Nat.sub_diag).
    eexists _, c. split; [|split].
    + eapply reg_acts_one; [cbn; rewrite Hk; reflexivity|].
      eapply reg_acts_one; [reflexivity|].
      eapply reg_acts_one; [cbn; fold a; rewrite Ha; reflexivity|].
      eapply reg_acts_one; [reflexivity|apply rtc_refl].
    + unfold updated, at_device. cbn. rewrite lookup_insert_eq. cbn. fold a.
      rewrite list_lookup_insert_eq by by eapply lookup_lt_Some. cbn. rewrite lookup_insert_eq.
      split; [done|]. intros k' d' Hne. destruct (decide (k' = k)) as [->|Hk'].
      * rewrite lookup_insert_eq, Hk. cbn.
        rewrite list_lookup_insert_eq by by eapply lookup_lt_Some. cbn.
        rewrite lookup_insert_ne by congruence. apply lookup_empty.
      * rewrite lookup_insert_ne by done. destruct (Registry.conns r !! k') as [a'|] eqn:Hka; [|done].
        cbn. destruct (Registry.mo_alloc _ Hm k' a' Hka) as [dc' Ha'].
        pose proof (lookup_lt_Some _ _ _ Ha'). rewrite list_lookup_insert_ne by (unfold a; lia).
        by rewrite (lookup_app_l_Some _ _ _ _ Ha'), Ha'.
    + done.
Qed.

(** [NewConn] needs the map to be well-formed also after its [RemoveConn]. *)
Lemma acts_new r k d :
  Registry.map_ok r →
  (∀ r', acts (Registry.NLoad k d, r) (Registry.NStore k d, r') → Registry.map_ok r') →
  ∃ r' c, acts (Registry.NLoad k d, r) (Registry.Ret, r') ∧ updated r r' k d (Some c) ∧
    Registry.connCnt r'
    = (Registry.connCnt r + match at_device r k d with Some _ => 0 | None => 1 end)%Z.
Proof.
  intros Hm Hrm.
  assert (at_device r k d = None → acts (Registry.NLoad k d, r) (Registry.NStore k d, r) →
    ∃ r' c, acts (Registry.NLoad k d, r) (Registry.Ret, r') ∧ updated r r' k d (Some c) ∧
      Registry.connCnt r'
      = (Registry.connCnt r + match at_device r k d with Some _ => 0 | None => 1 end)%Z) as Hnone.
  { intros Hn Ha. destruct (acts_store r k d Hm) as (r' & c & Ha' & Hu & Hc).
    exists r', c. rewrite Hn. split; [by eapply reg_acts_then|done]. }
  destruct (Registry.conns r !! k) as [a|] eqn:Hk.
  2: { apply Hnone; [unfold at_device; by rewrite Hk|].
       eapply reg_acts_one; [cbn; rewrite Hk; reflexivity|apply rtc_refl]. }
  destruct (Registry.mo_alloc _ Hm k a Hk) as [dc Ha].
  destruct (dc !! d) as [c0|] eqn:Hd.
  2: { apply Hnone; [unfold at_device; rewrite Hk; cbn; by rewrite Ha|].
       eapply reg_acts_one; [cbn; rewrite Hk; reflexivity|].
       eapply reg_acts_one; [cbn; rewrite Ha; cbn; rewrite Hd; reflexivity|apply rtc_refl]. }
  assert (at_device r k d = Some c0) as Hat by (unfold at_device; rewrite Hk; cbn; by rewrite Ha).
  destruct (acts_remove r k d (Some d) Hm) as (r1 & Ha1 & Hu1 & Hc1).
  assert (acts (Registry.NLoad k d, r) (Registry.NStore k d, r1)) as Hst.
  { eapply reg_acts_one; [cbn; rewrite Hk; reflexivity|].
    by eapply reg_acts_one; [cbn; rewrite Ha; cbn; rewrite Hd; reflexivity|]. }
  destruct (acts_store r1 k d (Hrm r1 Hst)) as (r2 & c & Ha2 & Hu2 & Hc2).
  exists r2, c. split; [by eapply reg_acts_then|]. split; [by eapply updated_trans|].
  rewrite Hc2, Hc1, Hat. lia.
Qed.

End Solo.

(** ** The simulation *)

Section Simulation.
Context {M : Type → Type} {E : Type}.
Context {ME : MultiErr} {OA : OptApply} {OAS : OptApplySpec}.
Context `{SyncMapSpec M, SchedSpec E, Net E, RedisSpec E}.
Implicit Types (s : CMS M E) (r : Registry.RS) (m : gmap (string * string) nat).

(** The operations of a history; what the rest of the program does to the
    connections and the environment leaves the registry alone. *)
Inductive operation : CMS M E → CMS M E → Prop :=
  | op_new nc ses st s l s' : CM_NewConn nc ses st s = Done l s' → operation s s'
  | op_remove u s b s' : RemoveConn u s = Done b s' → operation s s'
  | op_world s s' : (∀ m, cm_rep s m → cm_rep s' m) → operation s s'.

Record follows s m r : Prop := Follows {
  fo_rep : cm_rep s m;
  fo_run : rtc Registry.serial_step Registry.initial r;
  fo_quiet : quiet r;
  fo_devices k d : is_Some (at_device r k d) ↔ is_Some (m !! (k, d));
  fo_cnt : Registry.connCnt r = Z.of_nat (size m);
}.

Lemma follows_map s m r : follows s m r → Registry.map_ok r.
Proof. intros Hf. apply Registry.si_map, Registry.so_inv, Registry.serial_steps_ok, Hf. Qed.

Lemma updated_devices r r' k d o m m' :
  updated r r' k d o → (∀ k d, is_Some (at_device r k d) ↔ is_Some (m !! (k, d))) →
  (is_Some o ↔ is_Some (m' !! (k, d))) →
  (∀ i, i ≠ (k, d) → m' !! i = m !! i) →
  ∀ k' d', is_Some (at_device r' k' d') ↔ is_Some (m' !! (k', d')).
Proof.
  intros [Hu Ho] Hd Hk Hm k' d'. destruct (decide ((k', d') = (k, d))) as [[= -> ->]|Hne].
  - by rewrite Hu.
  - rewrite Ho, Hm by done. apply Hd.
Qed.

Lemma follows_new s m r u l s' :
  follows s m r → cm_rep s' (<[(ConnKey u, UDevice u) := l]> m) →
  ∃ r', follows s' (<[(ConnKey u, UDevice u) := l]> m) r'.
Proof.
  intros Hf Hr. set (k := ConnKey u) in *. set (d := UDevice u) in *.
  assert (Registry.exec (Registry.ENew k d) r
    = Some (Registry.set_thr (Registry.thr r ++ [Registry.NLoad k d]) r)) as Hev by done.
  destruct (acts_new r k d (follows_map _ _ _ Hf)) as (r1 & c & Ha & Hu & Hc).
  { intros r1 Ha.
    pose proof (reg_acts_steps _ _ _ _ (length (Registry.thr r)) (Registry.thr r ++ [Registry.NLoad k d]) Ha
      ltac:(by rewrite lookup_app_r, Nat.sub_diag)) as Hs.
    assert (rtc Registry.serial_step Registry.initial
      (Registry.set_thr (<[length (Registry.thr r) := Registry.NStore k d]>
         (Registry.thr r ++ [Registry.NLoad k d])) r1)) as Hrun.
    { etrans; [apply (fo_run _ _ _ Hf)|]. eapply rtc_l; [|exact Hs]. exists (Registry.ENew k d).
      split; [done|]. intros k' p _ Hp. by rewrite (fo_quiet _ _ _ Hf p Hp). }
    apply Registry.serial_steps_ok in Hrun as [[_ _ _ [Hi Hal Ho] _] _]. by split. }
  destruct (reg_solo_run (Registry.ENew k d) k _ r r1 Hev Ha (fo_quiet _ _ _ Hf)) as (th & Hs & Hq).
  exists (Registry.set_thr th r1). split; [done| |done| |].
  - etrans; [apply (fo_run _ _ _ Hf)|done].
  - apply (updated_devices r _ k d (Some c) m); [done|apply (fo_devices _ _ _ Hf)| |].
    + rewrite lookup_insert_eq. by split; eexists.
    + intros i Hne. by rewrite lookup_insert_ne.
  - cbn. rewrite Hc, (fo_cnt _ _ _ Hf). pose proof (fo_devices _ _ _ Hf k d) as Hd.
    rewrite map_size_insert. revert Hd. destruct (m !! (k, d)), (at_device r k d); intros Hd; cbn; try lia.
    + by destruct (proj2 Hd (mk_is_Some _ _ eq_refl)).
    + by destruct (proj1 Hd (mk_is_Some _ _ eq_refl)).
Qed.

Lemma follows_remove s m r u s' :
  follows s m r → cm_rep s' (delete (ConnKey u, UDevice u) m) →
  ∃ r', follows s' (delete (ConnKey u, UDevice u) m) r'.
Proof.
  intros Hf Hr. set (k := ConnKey u) in *. set (d := UDevice u) in *.
  assert (Registry.exec (Registry.ERemove k d) r
    = Some (Registry.set_thr (Registry.thr r ++ [Registry.MLoad k d None]) r)) as Hev by done.
  destruct (acts_remove r k d None (follows_map _ _ _ Hf)) as (r1 & Ha & Hu & Hc).
  destruct (reg_solo_run (Registry.ERemove k d) k _ r r1 Hev Ha (fo_quiet _ _ _ Hf)) as (th & Hs & Hq).
  exists (Registry.set_thr th r1). split; [done| |done| |].
  - etrans; [apply (fo_run _ _ _ Hf)|done].
  - apply (updated_devices r _ k d None m); [done|apply (fo_devices _ _ _ Hf)| |].
    + rewrite lookup_delete_eq. by split; intros [].
    + intros i Hne. by rewrite lookup_delete_ne.
  - cbn. rewrite Hc, (fo_cnt _ _ _ Hf). pose proof (fo_devices _ _ _ Hf k d) as Hd.
    rewrite map_size_delete. revert Hd.
    destruct (m !! (k, d)) eqn:Hm, (at_device r k d); intros Hd; cbn; try lia.
    + assert (size m ≠ 0) by (apply (map_size_ne_0_lookup_2 _ (k, d)); by rewrite Hm). lia.
    + by destruct (proj2 Hd (mk_is_Some _ _ eq_refl)).
    + by destruct (proj1 Hd (mk_is_Some _ _ eq_refl)).
Qed.

Lemma follows_op s m r s' : follows s m r → operation s s' → ∃ m' r', follows s' m' r'.
Proof.
  intros Hf Hop. pose proof (fo_rep _ _ _ Hf) as Hr.
  destruct Hop as [nc ses st s l s' E0|u s b s' E0|s s' Hw].
  - destruct (CM_NewConn_rep s m nc ses st Hr) as (l' & s1 & E1 & Hr1 & _). rewrite E0 in E1.
    injection E1 as -> <-. destruct (follows_new s m r _ _ _ Hf Hr1) as [r' Hf']. by eexists _, _.
  - destruct (RemoveConn_rep s m u Hr) as (s1 & E1 & Hr1 & _). rewrite E0 in E1.
    injection E1 as _ <-. destruct (follows_remove s m r _ _ Hf Hr1) as [r' Hf']. by eexists _, _.
  - exists m, r. destruct Hf; split; auto.
Qed.

(** With no operation under way every user of the map has a device. *)
Lemma quiet_user r k :
  rtc Registry.serial_step Registry.initial r → quiet r →
  is_Some (Registry.conns r !! k) ↔ ∃ d, is_Some (at_device r k d).
Proof.
  intros [Hi _]%Registry.serial_steps_ok Hq. split.
  - intros [a Ha]. destruct (Registry.si_quiet _ Hi k) with (a := a) as (dc & Hdc & Hne); [|done|].
    { intros i p Hp. by rewrite (Hq p) by by eapply list_elem_of_lookup_2. }
    apply map_choose in Hne as (d & c & Hd). exists d, c. unfold at_device. by rewrite Ha; cbn; rewrite Hdc.
  - intros (d & c & Hd). unfold at_device in Hd. by destruct (Registry.conns r !! k).
Qed.

Lemma quiet_userCnt r :
  rtc Registry.serial_step Registry.initial r → quiet r →
  Registry.userCnt r = Z.of_nat (size (Registry.conns r)).
Proof.
  intros [Hi _]%Registry.serial_steps_ok Hq. destruct (Registry.si_cnt _ Hi) as [_ Hu].
  rewrite !Registry.quiet_counts in Hu by done. lia.
Qed.

(** C9. The operations of the connection manager are made of its atomic ones.  Whatever
    connections come and go, one whole operation after the other, the state is that
    of a schedule of the atomic operations with no operation under way: the same
    devices of the same users have a connection, and both counters agree. *)
Theorem registry_operations_are_schedules (c : ConnConfig) (sm : M nat) (e : E) s :
  sm_view sm = ∅ →
  rtc operation (MkCMS (MkConnManager c sm 0 0) ∅ 0 (MkWorld ∅ 0 [] e)) s →
  ∃ m r, cm_rep s m ∧ rtc Registry.serial_step Registry.initial r ∧ quiet r ∧
    (∀ k d, is_Some (m !! (k, d)) ↔ is_Some (at_device r k d)) ∧
    connCnt (cm s) = int64 (Registry.connCnt r) ∧ userCnt (cm s) = int64 (Registry.userCnt r).
Proof.
  intros Hv Hs.
  assert (∃ m r, follows s m r) as (m & r & [Hr Hrun Hq Hd Hc]).
  { apply (rtc_preserve operation (λ s, ∃ m r, follows s m r)) in Hs; [done| |].
    - intros s1 s2 (m & r & Hf) Hop. by eapply follows_op.
    - exists ∅, Registry.initial. split; [by apply rep_init|done|by intros p ?%elem_of_nil| |done].
      intros k d. rewrite lookup_empty. by split; intros []. }
  exists m, r. split_and!; try done.
  - rewrite (rep_connCnt s m Hr). by rewrite Hc.
  - rewrite (rep_userCnt_users s m Hr). f_equal. rewrite (quiet_userCnt r Hrun Hq), <- size_dom.
    do 2 f_equal. apply set_eq. intros k. rewrite elem_of_users, elem_of_dom, (quiet_user r k Hrun Hq).
    by setoid_rewrite Hd.
Qed.

End Simulation.

(** ** Witness *)

#[local] Existing Instance sim_multierr.
#[local] Instance sim_opt : OptApply := sim_option_apply.
#[local] Instance sim_opt_spec : @OptApplySpec sim_opt := sim_option_apply_spec.

(** A phone and a laptop of a user connect, and the phone leaves. *)
Example registry_operations_are_schedules_witness :
  ∃ r, rtc Registry.serial_step Registry.initial r ∧ quiet r ∧
    is_Some (at_device r "7:42" "pc") ∧ ~ is_Some (at_device r "7:42" "mobile").
Proof.
  destruct (CM_NewConn_rep cms0 ∅ 5 phone None cms0_rep) as (l1 & s1 & E1 & R1 & _).
  destruct (CM_NewConn_rep s1 _ 6 laptop None R1) as (l2 & s2 & E2 & R2 & _).
  destruct (RemoveConn_rep s2 _ (sess_user phone) R2) as (s3 & E3 & R3 & _).
  destruct (registry_operations_are_schedules (E := Sim) sample_config (sm_new nat) sim0 s3)
    as (m & r & Hm & Hr & Hq & Hd & _).
  - apply sm_view_new.
  - eapply rtc_l; [by eapply op_new|]. eapply rtc_l; [by eapply op_new|].
    eapply rtc_l; [by eapply op_remove|]. apply rtc_refl.
  - assert (∀ i, m !! i = delete ("7:42", "mobile") (<[("7:42", "pc") := l2]> (<[("7:42", "mobile") := l1]> ∅)) !! i)
      as Hi by (intros [k d]; rewrite (rep_lookup _ _ Hm); symmetry; apply (rep_lookup _ _ R3)).
    exists r. split; [exact Hr|]. split; [exact Hq|]. rewrite <- !Hd, !Hi. split.
    + rewrite lookup_delete_ne, lookup_insert_eq by done. by eexists.
    + rewrite lookup_delete_eq. by intros [].
Defined.
