(* ===== verification/Iface.v ===== *)
(** The types and interfaces the components share: the messages of synp-api by
    the fields the code uses, and [synp.Conn] as a class that [Conn.v] implements
    and the message handlers use ([types.go]). *)

From S2P Require Import Prelude Env Session Conn.

(** [commonv1.CommandType]: the values the code names, and any other. *)
Inductive CommandType : Type :=
  | COMMAND_TYPE_HEARTBEAT
  | COMMAND_TYPE_UPSTREAM
  | COMMAND_TYPE_UPSTREAM_ACK
  | COMMAND_TYPE_DOWNSTREAM
  | COMMAND_TYPE_DOWNSTREAM_ACK
  | COMMAND_TYPE_OTHER (n : Z).

#[export] Instance CommandType_eq_dec : EqDecision CommandType.
Proof. solve_decision. Defined.

(** [messagev1.Message] *)
Record Message : Type := MkMessage {
  Cmd : CommandType;
  MessageId : string;
  Body : bytes;
}.

(** [messagev1.PushMessage] *)
Record PushMessage : Type := MkPushMessage {
  pm_MessageId : string;
  pm_BizId : N;
  pm_ReceiverId : N;
  pm_Body : bytes;
}.

(** [messagev1.AckPayload] *)
Record AckPayload : Type := MkAckPayload {
  Success : bool;
  Timestamp : Z;
  ErrorMessage : string;
}.

(** The methods of [synp.Conn] that the handlers call, on the connection at an
    address, in a state [W]. *)
Class SynpConn (W : Type) := {
  conn_ID : nat → go W string;
  conn_Session : nat → go W Session;
  conn_Send : nat → bytes → go W (option error);
  conn_UpdateActivityTime : nat → go W unit;
  conn_Close : nat → go W (option error);
}.

(** What the connections promise: in a state where the connection is there
    ([conn_at]: its id and its user), [ID] and [Session] read them and every
    method that returns leaves every connection there. *)
Class SynpConnSpec (W : Type) `{SynpConn W} := {
  conn_at : W → nat → string → User → Prop;
  conn_ID_at w l i u : conn_at w l i u → conn_ID l w = Done i w;
  conn_Session_at w l i u : conn_at w l i u →
    ∃ s, conn_Session l w = Done s w ∧ sess_user s = u;
  conn_Send_at w l p l' i u : conn_at w l' i u →
    conn_at (final (conn_Send l p w)) l' i u;
  conn_UpdateActivityTime_at w l l' i u : conn_at w l' i u →
    conn_at (final (conn_UpdateActivityTime l w)) l' i u;
  conn_UpdateActivityTime_done w l i u : conn_at w l i u →
    ∃ w', conn_UpdateActivityTime l w = Done tt w';
  conn_Close_at w l l' i u : conn_at w l' i u →
    conn_at (final (conn_Close l w)) l' i u;
}.

(** [message.PushFunc] *)
Definition PushFunc (W : Type) : Type := nat → Message → go W (option error).

(** [Conn.v] implements the interface. *)
Section Implementation.
Context {E : Type} {ME : MultiErr} `{Sched E, Net E, Redis E}.

#[export] Instance world_conn : SynpConn (World E) := {
  conn_ID := ID;
  conn_Session := ConnSession;
  conn_Send := Send;
  conn_UpdateActivityTime := UpdateActivityTime;
  conn_Close := Close;
}.

(** The identity of the connection at an address. *)
Definition ident (w : World E) (l : nat) (i : string) (u : User) : Prop :=
  ∃ c, heap w !! l = Some c ∧ id c = i ∧ sess_user (sess c) = u.

(** Code that keeps every connection's identity, however it ends. *)
Definition keeps {A : Type} (m : go (World E) A) : Prop :=
  ∀ w l i u, ident w l i u → ident (final (m w)) l i u.

Lemma keeps_ret {A} (a : A) : keeps (ret a).
Proof. by intros w l i u. Qed.
Lemma keeps_block {A} : keeps (@block (World E) A).
Proof. by intros w l i u. Qed.
Lemma keeps_bind {A B} (m : go (World E) A) (k : A → go (World E) B) :
  keeps m → (∀ a, keeps (k a)) → keeps (bind m k).
Proof.
  intros Hm Hk w l i u Hi. unfold bind. pose proof (Hm w l i u Hi) as Hm'.
  destruct (m w); cbn in *; [by apply Hk|done..].
Qed.
Lemma keeps_deref l : keeps (deref l).
Proof.
  intros w l' i u Hi. unfold deref, bind, gets, need, panic, ret. cbn.
  by destruct (heap w !! l).
Qed.
Lemma keeps_assign l f :
  (∀ c, id (f c) = id c ∧ sess (f c) = sess c) → keeps (assign l f).
Proof.
  intros Hf w l' i u (c & Hc & Hi & Hu). cbn. unfold ident. cbn.
  destruct (decide (l = l')) as [->|Hne].
  - exists (f c). rewrite lookup_alter_eq, Hc. destruct (Hf c) as [-> ->]. done.
  - exists c. by rewrite lookup_alter_ne.
Qed.
Lemma keeps_zoom {A} (m : go E A) : keeps (zoom m).
Proof. intros w l i u Hi. unfold zoom. by destruct (m (part_get w)). Qed.
Lemma keeps_ctx_poll l : keeps (ctx_poll l).
Proof.
  apply keeps_bind; [apply keeps_deref|]. intros c. destruct (ctx_done c); [apply keeps_ret|].
  apply keeps_bind; [apply keeps_zoom|]. intros []; [|apply keeps_ret].
  apply keeps_bind; [by apply keeps_assign|intros; apply keeps_ret].
Qed.

Create HintDb keeps.
#[local] Hint Resolve keeps_ret keeps_block keeps_bind keeps_deref keeps_assign keeps_zoom
  keeps_ctx_poll : keeps.
#[local] Hint Extern 2 (keeps (if ?b then _ else _)) => destruct b : keeps.
#[local] Hint Extern 2 (keeps (match ?b with _ => _ end)) => destruct b : keeps.

Lemma keeps_Send l p : keeps (Send l p).
Proof. unfold Send, send_case, envcall. auto 20 with keeps. Qed.
Lemma keeps_Update l : keeps (UpdateActivityTime l).
Proof. unfold UpdateActivityTime, envcall. auto 20 with keeps. Qed.
Lemma keeps_Close l : keeps (Close l).
Proof. unfold Close, envcall, envdo. auto 40 with keeps. Qed.

#[export] Instance world_conn_spec : SynpConnSpec (World E).
Proof.
  refine {| conn_at := ident |}; cbn.
  - intros w l i u (c & Hc & <- & _). unfold ID. by erewrite bind_done by by apply deref_done.
  - intros w l i u (c & Hc & _ & <-). exists (sess c). unfold ConnSession.
    by erewrite bind_done by by apply deref_done.
  - intros w l p l' i u. apply keeps_Send.
  - intros w l l' i u. apply keeps_Update.
  - intros w l i u (c & Hc & _). unfold UpdateActivityTime.
    destruct (ctx_poll_done l w c Hc) as (b & w' & Hp & _).
    erewrite bind_done by exact Hp. destruct b; [by eexists|].
    erewrite bind_done by apply envcall_done. by eexists.
  - intros w l l' i u. apply keeps_Close.
Defined.

End Implementation.
