(* ===== verification/Retransmit.v ===== *)
(** Retransmission of downstream messages ([internal/pkg/retransmit/manager.go]).

    The manager keeps tasks in a map by (connection id, message id); a task has a
    counter and a timer, and the timer's firing runs [Task.run].  A state holds the
    manager, the task and timer objects by address, and the rest of the world [W]
    that the push function acts on. *)

From S2P Require Import Prelude Env Sim Session Conn Iface.

(** ** Data *)

Definition DefaultRetryInterval : Z := 8 * Second.
Definition DefaultMaxRetryCnt : Z := 3.

Record Task : Type := MkTask {
  t_key : string;
  t_conn : nat;
  t_msg : Message;
  timerPtr : option nat;
  retransmitCnt : Z;
}.

(** A timer of [time.AfterFunc]: its delay, the task whose [run] it calls, and
    whether it is still to fire.  Its channel is nil. *)
Record Timer : Type := MkTimer {
  tm_delay : Z;
  tm_task : nat;
  tm_pending : bool;
}.

Record Manager (M : Type → Type) (W : Type) : Type := MkManager {
  tasks : M nat;
  totalTaskCnt : Z;
  retryInterval : Z;
  maxRetryCnt : Z;
  taskFunc : PushFunc W;
  closed : bool;
}.
Arguments MkManager {M W} tasks totalTaskCnt retryInterval maxRetryCnt taskFunc closed.
Arguments tasks {M W} m.
Arguments totalTaskCnt {M W} m.
Arguments retryInterval {M W} m.
Arguments maxRetryCnt {M W} m.
Arguments taskFunc {M W} m.
Arguments closed {M W} m.

Record RTS (M : Type → Type) (W : Type) : Type := MkRTS {
  mgr : Manager M W;
  theap : gmap nat Task;
  timers : gmap nat Timer;
  rnext : nat;
  rest : W;
}.
Arguments MkRTS {M W} mgr theap timers rnext rest.
Arguments mgr {M W} r.
Arguments theap {M W} r.
Arguments timers {M W} r.
Arguments rnext {M W} r.
Arguments rest {M W} r.

#[export] Instance rts_rest {M : Type → Type} {W : Type} : Part (RTS M W) W := {
  part_get := rest;
  part_set w s := MkRTS (mgr s) (theap s) (timers s) (rnext s) w;
}.

#[export] Instance rts_rest_spec {M : Type → Type} {W : Type} : PartSpec (RTS M W) W.
Proof. by split; intros []. Qed.

Definition set_mgr {M : Type → Type} {W : Type} (f : Manager M W → Manager M W)
    (s : RTS M W) : RTS M W := MkRTS (f (mgr s)) (theap s) (timers s) (rnext s) (rest s).
Definition set_tasks {M : Type → Type} {W : Type} (x : M nat) (m : Manager M W) : Manager M W :=
  MkManager x (totalTaskCnt m) (retryInterval m) (maxRetryCnt m) (taskFunc m) (closed m).
Definition add_total {M : Type → Type} {W : Type} (d : Z) (m : Manager M W) : Manager M W :=
  MkManager (tasks m) (int64 (totalTaskCnt m + d)) (retryInterval m) (maxRetryCnt m)
    (taskFunc m) (closed m).
Definition set_closed {M : Type → Type} {W : Type} (m : Manager M W) : Manager M W :=
  MkManager (tasks m) (totalTaskCnt m) (retryInterval m) (maxRetryCnt m) (taskFunc m) true.

Definition set_theap {M : Type → Type} {W : Type} (h : gmap nat Task) (s : RTS M W) : RTS M W :=
  MkRTS (mgr s) h (timers s) (rnext s) (rest s).
Definition set_timers {M : Type → Type} {W : Type} (h : gmap nat Timer) (s : RTS M W) : RTS M W :=
  MkRTS (mgr s) (theap s) h (rnext s) (rest s).

Definition set_timerPtr (tm : nat) (t : Task) : Task :=
  MkTask (t_key t) (t_conn t) (t_msg t) (Some tm) (retransmitCnt t).
Definition inc_cnt (t : Task) : Task :=
  MkTask (t_key t) (t_conn t) (t_msg t) (timerPtr t) (int32 (retransmitCnt t + 1)).
Definition disarm (tm : Timer) : Timer := MkTimer (tm_delay tm) (tm_task tm) false.

Definition taskKey (connID messageID : string) : string := connID +:+ ":" +:+ messageID.

Section Operations.
Context {M : Type → Type} {W : Type} `{SyncMap M, SynpConn W}.

Definition task_load (a : nat) : go (RTS M W) Task :=
  o <- gets (λ s, theap s !! a) ;; need o.

Definition task_assign (a : nat) (f : Task → Task) : go (RTS M W) unit :=
  modify (λ s, set_theap (alter f a (theap s)) s).

(** [time.AfterFunc(d, t.run)] *)
Definition AfterFunc (d : Z) (a : nat) : go (RTS M W) nat :=
  tm <- gets rnext ;;
  modify (λ s, MkRTS (mgr s) (theap s) (<[tm := MkTimer d a true]> (timers s)) (S tm) (rest s)) ;;;
  ret tm.

(** [Task.stop]: stopping a timer that has fired or is stopped changes nothing,
    and draining its nil channel takes the default case. *)
Definition stop (a : nat) : go (RTS M W) unit :=
  t <- task_load a ;;
  match timerPtr t with
  | Some tm => modify (λ s, set_timers (alter disarm tm (timers s)) s)
  | None => ret tt
  end.

Definition stopAndDelete (key : string) : go (RTS M W) bool :=
  o <- state (λ s, let '(o, x) := sm_load_and_delete key (tasks (mgr s)) in
                   (o, set_mgr (set_tasks x) s)) ;;
  match o with
  | Some a => stop a ;;; modify (set_mgr (add_total (-1))) ;;; ret true
  | None => ret false
  end.

Definition run (a : nat) : go (RTS M W) unit :=
  t <- task_load a ;;
  o <- gets (λ s, sm_load (t_key t) (tasks (mgr s))) ;;
  match o with
  | None => ret tt
  | Some _ =>
      task_assign a inc_cnt ;;;
      t' <- task_load a ;;
      m <- gets mgr ;;
      if (maxRetryCnt m <=? retransmitCnt t')%Z then
        stopAndDelete (t_key t) ;;; ret tt
      else
        err <- zoom (taskFunc m (t_conn t) (t_msg t)) ;;
        match err with
        | Some _ => stopAndDelete (t_key t) ;;; ret tt
        | None =>
            zoom (conn_UpdateActivityTime (t_conn t)) ;;;
            tm <- AfterFunc (retryInterval m) a ;;
            task_assign a (set_timerPtr tm)
        end
  end.

(** The [start] of one connection. *)
Definition start (conn : nat) (msg : Message) : go (RTS M W) unit :=
  c <- gets (λ s, closed (mgr s)) ;;
  if (c : bool) then ret tt else
  cid <- zoom (conn_ID conn) ;;
  let key := taskKey cid (MessageId msg) in
  a <- gets rnext ;;
  modify (λ s, MkRTS (mgr s) (<[a := MkTask key conn msg None 0]> (theap s)) (timers s)
                 (S a) (rest s)) ;;;
  r <- state (λ s, let '(r, x) := sm_load_or_store key a (tasks (mgr s)) in
                   (r, set_mgr (set_tasks x) s)) ;;
  if (r.2 : bool) then ret tt else
  m <- gets mgr ;;
  tm <- AfterFunc (retryInterval m) a ;;
  task_assign a (set_timerPtr tm) ;;;
  modify (set_mgr (add_total 1)).

Definition Start (conns : list nat) (msg : Message) : go (RTS M W) unit :=
  range_do conns (λ conn, start conn msg).

Definition Stop (connID messageID : string) : go (RTS M W) unit :=
  let key := taskKey connID messageID in
  o <- gets (λ s, sm_load key (tasks (mgr s))) ;;
  match o with
  | Some _ => stopAndDelete key ;;; ret tt
  | None => ret tt
  end.

Definition TotalTaskCnt : go (RTS M W) Z := gets (λ s, totalTaskCnt (mgr s)).

Definition ClearByConn (connID : string) : go (RTS M W) unit :=
  entries <- gets (λ s, sm_range (tasks (mgr s))) ;;
  range_do entries (λ '(key, a),
    t <- task_load a ;;
    cid <- zoom (conn_ID (t_conn t)) ;;
    if String.eqb cid connID then stopAndDelete key ;;; ret tt else ret tt).

Definition CloseManager : go (RTS M W) unit :=
  c <- gets (λ s, closed (mgr s)) ;;
  if (c : bool) then ret tt else
  modify (set_mgr set_closed) ;;;
  entries <- gets (λ s, sm_range (tasks (mgr s))) ;;
  range_do entries (λ '(key, _), stopAndDelete key ;;; ret tt).

Definition NewManager (interval maxCnt : Z) (f : option (PushFunc W)) : Manager M W :=
  MkManager (sm_new nat) 0
    (if (interval <=? 0)%Z then DefaultRetryInterval else interval)
    (if (maxCnt <=? 0)%Z then DefaultMaxRetryCnt else maxCnt)
    (match f with Some g => g | None => λ _ _, ret None end)
    false.

(** The runtime: a pending timer fires, its function runs. *)
Definition fire (tm : nat) : go (RTS M W) unit :=
  o <- gets (λ s, timers s !! tm) ;;
  match o with
  | Some (MkTimer d a true) =>
      modify (λ s, set_timers (<[tm := MkTimer d a false]> (timers s)) s) ;;; run a
  | _ => block
  end.

(** ** Histories *)

(** Calls of the manager, a timer that fires, and what the rest of the program
    does to the connections and the environment. *)
Inductive event : Type :=
  | EStart (conns : list nat) (msg : Message)
  | EStop (connID messageID : string)
  | EFire (tm : nat)
  | EClear (connID : string)
  | EClose
  | EWorld (w : W).

Definition exec (ev : event) : go (RTS M W) unit :=
  match ev with
  | EStart conns msg => Start conns msg
  | EStop cid mid => Stop cid mid
  | EFire tm => fire tm
  | EClear cid => ClearByConn cid
  | EClose => CloseManager
  | EWorld w => modify (part_set w)
  end.

(** The timer that the task registered under a key is waiting for, and its delay. *)
Definition timer_of (key : string) (s : RTS M W) : option (nat * Z) :=
  a ← sm_load key (tasks (mgr s)); t ← theap s !! a; tm ← timerPtr t; x ← timers s !! tm;
  Some (tm, tm_delay x).

(** The clock goes from [now], when the timer of a key was made, to [until]: the
    timer fires when its delay is over, its function runs and may make the next one.
    The result is when a timer fired, and the world its function left; each firing
    takes one unit of fuel. *)
Fixpoint elapse (fuel : nat) (key : string) (now until : Z) : go (RTS M W) (list (Z * W)) :=
  match fuel with
  | O => nofuel
  | S fuel' =>
      o <- gets (timer_of key) ;;
      match o with
      | Some (tm, d) =>
          if (now + d <=? until)%Z then
            fire tm ;;;
            w <- gets rest ;;
            later <- elapse fuel' key (now + d) until ;;
            ret ((now + d, w)%Z :: later)
          else ret []
      | None => ret []
      end
  end.

(** An event happens, and its code runs to its end. *)
Definition step (s s' : RTS M W) : Prop := ∃ ev, exec ev s = Done tt s'.

(** The states a manager made by [NewManager] goes through. *)
Definition Reachable (s : RTS M W) : Prop :=
  ∃ interval maxCnt f n w, in_int 32 maxCnt ∧
    rtc step (MkRTS (NewManager interval maxCnt f) ∅ ∅ n w) s.

End Operations.

(** * Lemmas and properties *)

Section Facts.
Context {M : Type → Type} {W : Type} `{SyncMapSpec M, SynpConn W}.
Implicit Types (s : RTS M W) (a tm : nat) (t : Task) (k : string).

Abbreviation reg s := (sm_view (tasks (mgr s))).

(** What holds between events.  [x] names a key whose task is being worked on:
    its timer has fired and is not replaced yet. *)
Record rt_inv (x : option string) s : Prop := RtInv {
  inv_obj k a : reg s !! k = Some a →
    ∃ t, theap s !! a = Some t ∧ t_key t = k ∧ (0 <= retransmitCnt t <= maxRetryCnt (mgr s))%Z;
  inv_armed k a t : reg s !! k = Some a → theap s !! a = Some t → x ≠ Some k →
    (∃ tm d, timerPtr t = Some tm ∧ timers s !! tm = Some (MkTimer d a true)) ∧
    (retransmitCnt t < maxRetryCnt (mgr s))%Z;
  inv_timer tm d a : timers s !! tm = Some (MkTimer d a true) →
    ∃ t, theap s !! a = Some t ∧ timerPtr t = Some tm ∧ reg s !! t_key t = Some a ∧
         x ≠ Some (t_key t);
  inv_ptr a t tm : theap s !! a = Some t → timerPtr t = Some tm →
    ∃ d b, timers s !! tm = Some (MkTimer d a b);
  inv_total : totalTaskCnt (mgr s) = int64 (Z.of_nat (size (reg s)));
  inv_next a : is_Some (theap s !! a) ∨ is_Some (timers s !! a) → a < rnext s;
  inv_max : (1 <= maxRetryCnt (mgr s) < 2 ^ 31)%Z;
}.

Lemma task_load_done s a t : theap s !! a = Some t → task_load a s = Done t s.
Proof. unfold task_load, bind, gets, need. by intros ->. Qed.

(** The state after the task [a] with content [t] has been taken out of the map
    under [k] and stopped. *)
Definition dropped k t s : RTS M W :=
  let s1 := set_mgr (set_tasks (sm_load_and_delete k (tasks (mgr s))).2) s in
  let s2 := match timerPtr t with
            | Some tm => set_timers (alter disarm tm (timers s1)) s1
            | None => s1
            end in
  set_mgr (add_total (-1)) s2.

Lemma stopAndDelete_none s k :
  reg s !! k = None →
  stopAndDelete k s = Done false (set_mgr (set_tasks (sm_load_and_delete k (tasks (mgr s))).2) s).
Proof.
  intros Hk. unfold stopAndDelete, state, bind.
  destruct (sm_load_and_delete_view _ k (tasks (mgr s))) as [H1' _].
  destruct (sm_load_and_delete k (tasks (mgr s))) as [o x]. cbn in *. by rewrite H1', Hk.
Qed.

Lemma stopAndDelete_some s k a t :
  reg s !! k = Some a → theap s !! a = Some t → stopAndDelete k s = Done true (dropped k t s).
Proof.
  intros Hk Ha. unfold stopAndDelete, state, bind, dropped.
  destruct (sm_load_and_delete_view _ k (tasks (mgr s))) as [H1' _].
  destruct (sm_load_and_delete k (tasks (mgr s))) as [o x]. cbn in *. rewrite H1', Hk.
  unfold stop. erewrite bind_done by (apply task_load_done; exact Ha).
  by destruct (timerPtr t).
Qed.

Lemma dropped_same k t s :
  reg (dropped k t s) = delete k (reg s) ∧ theap (dropped k t s) = theap s ∧
  rnext (dropped k t s) = rnext s ∧ rest (dropped k t s) = rest s ∧
  maxRetryCnt (mgr (dropped k t s)) = maxRetryCnt (mgr s) ∧
  closed (mgr (dropped k t s)) = closed (mgr s) ∧
  totalTaskCnt (mgr (dropped k t s)) = int64 (totalTaskCnt (mgr s) + -1) ∧
  taskFunc (mgr (dropped k t s)) = taskFunc (mgr s) ∧
  (∀ tm d a b, timers (dropped k t s) !! tm = Some (MkTimer d a b) ↔
     ∃ b', timers s !! tm = Some (MkTimer d a b') ∧
       b = if bool_decide (timerPtr t = Some tm) then false else b').
Proof.
  destruct (sm_load_and_delete_view _ k (tasks (mgr s))) as [_ Hv].
  unfold dropped. destruct (timerPtr t) as [p|]; cbn; split_and!; try done; intros tm d a b.
  - destruct (decide (tm = p)) as [->|Hne].
    + rewrite lookup_alter_eq, bool_decide_eq_true_2 by done.
      destruct (timers s !! p) as [[d' a' b']|]; cbn; [|by split; [|intros (? & ? & ?)]].
      split; [intros [= <- <- <-]; eauto|intros (? & [= -> -> _] & ->); done].
    + rewrite lookup_alter_ne, bool_decide_eq_false_2 by congruence.
      split; [eauto|intros (? & ? & ->); done].
  - rewrite bool_decide_eq_false_2 by done. split; [eauto|intros (? & ? & ->); done].
Qed.

Lemma dropped_inv x y s k a t :
  rt_inv x s → reg s !! k = Some a → theap s !! a = Some t → (y = x ∨ x = Some k ∧ y = None) →
  rt_inv y (dropped k t s).
Proof.
  intros Hi Hk Ha Hxy.
  destruct (dropped_same k t s) as (Hr & Hh & Hn & _ & Hm & _ & Htot & _ & Htm).
  destruct (inv_obj x s Hi k a Hk) as (t0 & Ht0 & Hkey & _).
  rewrite Ha in Ht0. injection Ht0 as <-.
  assert (∀ k', k' ≠ k → y ≠ Some k' ↔ x ≠ Some k') as Hxy'.
  { intros k' Hne. destruct Hxy as [<-|[-> ->]]; [done|split; congruence]. }
  assert (∀ tm d a', a' ≠ a → timers s !! tm = Some (MkTimer d a' true) →
    timers (dropped k t s) !! tm = Some (MkTimer d a' true)) as Hkeep.
  { intros tm d a' Hne Htmr. apply Htm. exists true. split; [done|].
    rewrite bool_decide_eq_false_2; [done|]. intros Hp.
    destruct (inv_ptr x s Hi a t tm Ha Hp) as (d' & b' & Hx). congruence. }
  split.
  - intros k' a'. rewrite Hr, Hh, Hm, lookup_delete_Some. intros [_ Hk']. by apply (inv_obj x s Hi).
  - intros k' a' t'. rewrite Hr, Hh, Hm, lookup_delete_Some. intros [Hne Hk'] Ha' Hy.
    destruct (inv_armed x s Hi k' a' t' Hk' Ha' (proj1 (Hxy' k' (not_eq_sym Hne)) Hy))
      as [(tm & d & Hp & Htmr) Hc].
    split; [|done]. exists tm, d. split; [done|]. apply Hkeep; [|done]. intros ->.
    destruct (inv_obj x s Hi k' a Hk') as (t2 & Ht2 & Hk2 & _). congruence.
  - intros tm d a' ([|] & Htmr & Hb)%Htm; [|by destruct (bool_decide _)].
    destruct (inv_timer x s Hi tm d a' Htmr) as (t' & Ha' & Hp & Hreg & Hx).
    assert (a' ≠ a) as Hne.
    { intros ->. rewrite Ha in Ha'. injection Ha' as <-.
      by rewrite bool_decide_eq_true_2 in Hb. }
    assert (t_key t' ≠ k) as Hkne by congruence.
    exists t'. rewrite Hh, Hr, lookup_delete_ne by done.
    split_and!; [done..|]. by apply Hxy'.
  - intros a' t' tm. rewrite Hh. intros Ha' Hp.
    destruct (inv_ptr x s Hi a' t' tm Ha' Hp) as (d & b & Hx).
    exists d. eexists. apply Htm. eauto.
  - rewrite Htot, Hr, (inv_total x s Hi), int64_add_l. f_equal.
    rewrite (map_size_delete_Some k (reg s)) by eauto.
    assert (size (reg s) ≠ 0) by (apply (map_size_ne_0_lookup_2 _ k); eauto). lia.
  - intros a'. rewrite Hh, Hn. intros [?|[[d a2 b] Hx]].
    + apply (inv_next x s Hi). auto.
    + apply Htm in Hx as (b' & Hx & _). apply (inv_next x s Hi). right. eauto.
  - rewrite Hm. apply (inv_max x s Hi).
Qed.

(** What [stopAndDelete], [start], [run] and the timers leave alone. *)
Record same_setup s s' : Prop := SameSetup {
  su_max : maxRetryCnt (mgr s') = maxRetryCnt (mgr s);
  su_interval : retryInterval (mgr s') = retryInterval (mgr s);
  su_push : taskFunc (mgr s') = taskFunc (mgr s);
  su_closed : closed (mgr s') = closed (mgr s);
}.

#[export] Instance same_setup_preorder : PreOrder same_setup.
Proof.
  split; [by intros s|]. intros s1 s2 s3 [] []. split; congruence.
Qed.

Lemma rt_inv_view x s y :
  sm_view y = reg s → rt_inv x s → rt_inv x (set_mgr (set_tasks y) s).
Proof.
  intros Hy [Hobj Harm Htim Hptr Htot Hnext Hmax].
  split; cbn; rewrite ?Hy; eauto.
Qed.

Lemma rt_inv_rest x s w : rt_inv x s → rt_inv x (part_set w s).
Proof. intros []. by split. Qed.

Lemma dropped_setup k t s : same_setup s (dropped k t s).
Proof. unfold dropped. by destruct (timerPtr t). Qed.

(** [stopAndDelete] on a well-formed state: the key is gone, nothing else is. *)
Lemma stopAndDelete_inv x y s k :
  rt_inv x s → y = x ∨ x = Some k ∧ y = None →
  ∃ b s', stopAndDelete k s = Done b s' ∧ rt_inv y s' ∧ reg s' = delete k (reg s) ∧
    theap s' = theap s ∧ rest s' = rest s ∧ same_setup s s' ∧ b = bool_decide (is_Some (reg s !! k)).
Proof.
  intros Hi Hxy. destruct (reg s !! k) as [a|] eqn:Hk.
  - destruct (inv_obj x s Hi k a Hk) as (t & Ha & _).
    exists true, (dropped k t s).
    destruct (dropped_same k t s) as (Hr & Hh & _ & Hw & _).
    split_and!; eauto using stopAndDelete_some, dropped_inv, dropped_setup.
  - exists false. eexists. split; [by apply stopAndDelete_none|].
    destruct (sm_load_and_delete_view _ k (tasks (mgr s))) as [_ Hv].
    assert (delete k (reg s) = reg s) as Hd by by apply delete_id.
    split_and!; [|by cbn; rewrite Hv|done..].
    apply rt_inv_view; [by rewrite Hv|].
    destruct Hxy as [->|[-> ->]]; [done|].
    destruct Hi as [Hobj Harm Htim Hptr Htot Hnext Hmax]. split; [by eauto| |..|done]; try done.
    + intros k' a t Hk' Ha _. apply (Harm k' a t Hk' Ha). congruence.
    + intros tm d a Htm. destruct (Htim tm d a Htm) as (t & ? & ? & ? & ?). exists t. by split_and!.
Qed.

(** The state after a timer for the task [a] has been made and stored. *)
Definition armed (d : Z) a s : RTS M W :=
  MkRTS (mgr s) (alter (set_timerPtr (rnext s)) a (theap s))
    (<[rnext s := MkTimer d a true]> (timers s)) (S (rnext s)) (rest s).

Lemma armed_inv s k a t d :
  rt_inv (Some k) s → reg s !! k = Some a → theap s !! a = Some t →
  (retransmitCnt t < maxRetryCnt (mgr s))%Z → rt_inv None (armed d a s).
Proof.
  intros Hi Hk Ha Hc.
  destruct (inv_obj _ _ Hi k a Hk) as (t0 & Ht0 & Hkey & Hr). rewrite Ha in Ht0. injection Ht0 as <-.
  assert (Hfresh : timers s !! rnext s = None).
  { apply eq_None_not_Some. intros Hx. pose proof (inv_next _ _ Hi _ (or_intror Hx)). lia. }
  assert (Hnotold : ∀ tm' t', theap s !! a = Some t' → timers s !! tm' ≠ Some (MkTimer d a true)).
  { intros tm' t' Ht' Htm. destruct (inv_timer _ _ Hi _ _ _ Htm) as (t2 & Ht2 & _ & _ & Hx).
    rewrite Ha in Ht2. injection Ht2 as <-. by rewrite Hkey in Hx. }
  split; cbn.
  - intros k' a' Hk'. destruct (inv_obj _ _ Hi k' a' Hk') as (t' & Ht' & Hk1 & Hr').
    destruct (decide (a = a')) as [<-|Hne].
    + exists (set_timerPtr (rnext s) t'). by rewrite lookup_alter_eq, Ht'.
    + exists t'. by rewrite lookup_alter_ne.
  - intros k' a' t' Hk' Ht' _. destruct (decide (a = a')) as [<-|Hne].
    + rewrite lookup_alter_eq, Ha in Ht'. injection Ht' as <-. cbn. split; [|done].
      exists (rnext s), d. split; [done|]. by rewrite lookup_insert_eq.
    + rewrite lookup_alter_ne in Ht' by done.
      destruct (inv_armed _ _ Hi k' a' t' Hk' Ht') as [(tm & d' & Hp & Htm) Hc'].
      { intros [= <-]. congruence. }
      split; [|done]. exists tm, d'. split; [done|]. rewrite lookup_insert_ne; [done|].
      intros <-. congruence.
  - intros tm d' a'. destruct (decide (rnext s = tm)) as [<-|Hne].
    + rewrite lookup_insert_eq. intros [= <- <-]. exists (set_timerPtr (rnext s) t).
      rewrite lookup_alter_eq, Ha. cbn. rewrite Hkey. by split_and!.
    + rewrite lookup_insert_ne by done. intros Htm.
      destruct (inv_timer _ _ Hi _ _ _ Htm) as (t' & Ht' & Hp & Hreg & Hx).
      destruct (decide (a = a')) as [<-|Hna].
      * exfalso. rewrite Ha in Ht'. injection Ht' as <-. by rewrite Hkey in Hx.
      * exists t'. by rewrite lookup_alter_ne.
  - intros a' t' tm Ht' Hp. destruct (decide (rnext s = tm)) as [<-|Hne].
    { rewrite lookup_insert_eq. destruct (decide (a = a')) as [<-|Hna]; [by eauto|].
      rewrite lookup_alter_ne in Ht' by done.
      destruct (inv_ptr _ _ Hi _ _ _ Ht' Hp) as (? & ? & Hx). congruence. }
    rewrite lookup_insert_ne by done. destruct (decide (a = a')) as [<-|Hna].
    + rewrite lookup_alter_eq, Ha in Ht'. injection Ht' as <-. by injection Hp.
    + rewrite lookup_alter_ne in Ht' by done. by apply (inv_ptr _ _ Hi a' t').
  - apply (inv_total _ _ Hi).
  - intros a'. destruct (decide (a' = rnext s)) as [->|Hne]; [lia|].
    rewrite lookup_alter_is_Some, lookup_insert_ne by done. intros Hx.
    pose proof (inv_next _ _ Hi a' Hx). lia.
  - apply (inv_max _ _ Hi).
Qed.

(** The state after [start] has registered a new task. *)
Definition registered k conn msg y s : RTS M W :=
  set_mgr (add_total 1) (set_mgr (set_tasks y)
    (MkRTS (mgr s) (<[rnext s := MkTask k conn msg None 0]> (theap s)) (timers s)
       (S (rnext s)) (rest s))).

Lemma fresh_task s a : rt_inv None s → rnext s ≤ a → theap s !! a = None ∧ timers s !! a = None.
Proof.
  intros Hi Ha.
  split; apply eq_None_not_Some; intros Hx; pose proof (inv_next _ _ Hi a); intuition lia.
Qed.

Lemma registered_inv s k conn msg y :
  rt_inv None s → reg s !! k = None → sm_view y = <[k := rnext s]> (reg s) →
  rt_inv (Some k) (registered k conn msg y s).
Proof.
  intros Hi Hk Hy. destruct (fresh_task s (rnext s) Hi) as [Hfr Hft]; [done|].
  pose proof (inv_max _ _ Hi) as Hm.
  split; cbn; rewrite ?Hy.
  - intros k' a. rewrite lookup_insert_Some. intros [[<- <-]|[Hne Hk']].
    + eexists. rewrite lookup_insert_eq. split_and!; [done..|cbn; lia|cbn; lia].
    + destruct (inv_obj _ _ Hi k' a Hk') as (t & Ha & Hr).
      exists t. rewrite lookup_insert_ne by (intros <-; congruence). done.
  - intros k' a t. rewrite lookup_insert_Some. intros [[<- <-]|[Hne Hk']]; [done|].
    intros Ha _. destruct (inv_obj _ _ Hi k' a Hk') as (t' & Ha' & _).
    rewrite lookup_insert_ne in Ha by (intros <-; congruence).
    by apply (inv_armed _ _ Hi k' a t).
  - intros tm d a Htm. destruct (inv_timer _ _ Hi tm d a Htm) as (t & Ha & Hp & Hreg & _).
    assert (t_key t ≠ k) by congruence.
    exists t. rewrite lookup_insert_ne by (intros <-; congruence).
    rewrite lookup_insert_ne by done. split_and!; [done..|congruence].
  - intros a t tm. rewrite lookup_insert_Some. intros [[<- <-]|[_ Ha]]; [done|].
    by apply (inv_ptr _ _ Hi).
  - rewrite (inv_total _ _ Hi), int64_add_l, map_size_insert_None by done. f_equal. lia.
  - intros a. destruct (decide (a = rnext s)) as [->|Hne]; [lia|].
    rewrite lookup_insert_ne by done. intros Hx. pose proof (inv_next _ _ Hi a Hx). lia.
  - done.
Qed.

(** A refused [start] leaves behind an unregistered task object. *)
Lemma garbage_inv s t :
  rt_inv None s → timerPtr t = None →
  rt_inv None (MkRTS (mgr s) (<[rnext s := t]> (theap s)) (timers s) (S (rnext s)) (rest s)).
Proof.
  intros Hi Hp. destruct (fresh_task s (rnext s) Hi) as [Hfr _]; [done|].
  assert (Hold : ∀ a t', theap s !! a = Some t' → <[rnext s := t]> (theap s) !! a = Some t').
  { intros a t' Ha. by rewrite lookup_insert_ne by (intros <-; congruence). }
  split; cbn; try by apply Hi.
  - intros k a Hk. destruct (inv_obj _ _ Hi k a Hk) as (t' & Ha & ?). exists t'. eauto.
  - intros k a t' Hk Ha Hx. destruct (inv_obj _ _ Hi k a Hk) as (t2 & Ha2 & _).
    rewrite (Hold _ _ Ha2) in Ha. injection Ha as <-. by apply (inv_armed _ _ Hi k a t2).
  - intros tm d a Htm. destruct (inv_timer _ _ Hi tm d a Htm) as (t' & Ha & ?). exists t'. eauto.
  - intros a t' tm. rewrite lookup_insert_Some. intros [[_ <-]|[_ Ha]]; [congruence|].
    by apply (inv_ptr _ _ Hi).
  - intros a. destruct (decide (a = rnext s)) as [->|Hne]; [lia|].
    rewrite lookup_insert_ne by done. intros Hx. pose proof (inv_next _ _ Hi a Hx). lia.
Qed.

(** [start] on each of its branches. *)
Lemma start_closed conn msg s : closed (mgr s) = true → start conn msg s = Done tt s.
Proof. intros Hc. unfold start. by erewrite bind_done by reflexivity; rewrite Hc. Qed.

Lemma start_some conn msg s cid s1 a0 :
  closed (mgr s) = false → zoom (conn_ID conn) s = Done cid s1 →
  reg s1 !! taskKey cid (MessageId msg) = Some a0 →
  ∃ y, sm_view y = reg s1 ∧
    start conn msg s = Done tt (set_mgr (set_tasks y)
      (MkRTS (mgr s1)
         (<[rnext s1 := MkTask (taskKey cid (MessageId msg)) conn msg None 0]> (theap s1))
         (timers s1) (S (rnext s1)) (rest s1))).
Proof.
  intros Hc Hid Hk. unfold start. erewrite bind_done by reflexivity. rewrite Hc.
  erewrite bind_done by exact Hid. erewrite bind_done by reflexivity.
  erewrite bind_done by reflexivity.
  destruct (sm_load_or_store_some _ _ (rnext s1) _ _ Hk) as [Hr Hv].
  destruct (sm_load_or_store _ (rnext s1) (tasks (mgr s1))) as [r y] eqn:Hls. cbn in Hr, Hv. subst r.
  exists y. split; [done|]. erewrite bind_done; [|unfold state; cbn; rewrite Hls; reflexivity]. done.
Qed.

Lemma start_none conn msg s cid s1 :
  closed (mgr s) = false → zoom (conn_ID conn) s = Done cid s1 →
  reg s1 !! taskKey cid (MessageId msg) = None →
  ∃ y, sm_view y = <[taskKey cid (MessageId msg) := rnext s1]> (reg s1) ∧
    start conn msg s = Done tt (armed (retryInterval (mgr s1)) (rnext s1)
      (registered (taskKey cid (MessageId msg)) conn msg y s1)).
Proof.
  intros Hc Hid Hk. unfold start. erewrite bind_done by reflexivity. rewrite Hc.
  erewrite bind_done by exact Hid. erewrite bind_done by reflexivity.
  erewrite bind_done by reflexivity.
  destruct (sm_load_or_store_none _ _ (rnext s1) _ Hk) as [Hr Hv].
  destruct (sm_load_or_store _ (rnext s1) (tasks (mgr s1))) as [r y] eqn:Hls. cbn in Hr, Hv. subst r.
  exists y. split; [done|]. erewrite bind_done; [|unfold state; cbn; rewrite Hls; reflexivity]. done.
Qed.

Lemma zoom_done_inv {A} (m : go W A) s (v : A) s1 :
  zoom m s = Done v s1 → ∃ w, m (rest s) = Done v w ∧ s1 = part_set w s.
Proof. unfold zoom. cbn. destruct (m (rest s)); intros [= <- <-]; eauto. Qed.

Lemma registered_armed_inv s k conn msg y d :
  rt_inv None s → reg s !! k = None → sm_view y = <[k := rnext s]> (reg s) →
  rt_inv None (armed d (rnext s) (registered k conn msg y s)).
Proof.
  intros Hi Hk Hy. pose proof (inv_max _ _ Hi).
  apply (armed_inv _ k _ (MkTask k conn msg None 0)); cbn.
  - by apply registered_inv.
  - by rewrite Hy, lookup_insert_eq.
  - by rewrite lookup_insert_eq.
  - lia.
Qed.

Lemma start_inv conn msg s u s' :
  rt_inv None s → start conn msg s = Done u s' → rt_inv None s' ∧ same_setup s s'.
Proof.
  intros Hi Hs. destruct (closed (mgr s)) eqn:Hc.
  { rewrite start_closed in Hs by done. injection Hs as _ <-. done. }
  pose proof Hs as Hid. unfold start in Hid.
  apply bind_done_inv in Hid as (c & s0 & [= <- <-] & Hid). rewrite Hc in Hid.
  apply bind_done_inv in Hid as (cid & s1 & Hid & _).
  destruct (zoom_done_inv _ _ _ _ Hid) as (w & _ & Hs1).
  destruct (reg s1 !! taskKey cid (MessageId msg)) as [a0|] eqn:Hk.
  - destruct (start_some conn msg s cid s1 a0 Hc Hid Hk) as (y & Hy & E). rewrite Hs in E.
    injection E as _ ->. subst s1. split; [|by split].
    apply rt_inv_view; [done|]. apply garbage_inv; [by apply rt_inv_rest|done].
  - destruct (start_none conn msg s cid s1 Hc Hid Hk) as (y & Hy & E). rewrite Hs in E.
    injection E as _ ->. subst s1. split; [|by split].
    apply registered_armed_inv; [by apply rt_inv_rest|done..].
Qed.

(** [Start] registers a task for every connection it is given and keeps the tasks
    that are there. *)
Lemma Start_registers conns msg s :
  rt_inv None s → closed (mgr s) = false →
  (∀ c, c ∈ conns → ∃ i, conn_ID c (rest s) = Done i (rest s)) →
  ∃ s', Start conns msg s = Done tt s' ∧ rt_inv None s' ∧ rest s' = rest s ∧ same_setup s s' ∧
    reg s ⊆ reg s' ∧
    (∀ c i, c ∈ conns → conn_ID c (rest s) = Done i (rest s) →
       is_Some (reg s' !! taskKey i (MessageId msg))) ∧
    (∀ k, is_Some (reg s' !! k) → is_Some (reg s !! k) ∨
       ∃ c i, c ∈ conns ∧ conn_ID c (rest s) = Done i (rest s) ∧ k = taskKey i (MessageId msg)).
Proof.
  unfold Start. revert s. induction conns as [|c conns IH]; intros s Hi Hc Hid.
  { exists s. split_and!; try done; [by intros c i ?%elem_of_nil|by left]. }
  destruct (Hid c) as (i & Hci); [by left|].
  assert (∃ s1, start c msg s = Done tt s1 ∧ rest s1 = rest s ∧ reg s ⊆ reg s1 ∧
    is_Some (reg s1 !! taskKey i (MessageId msg)) ∧
    (∀ k, is_Some (reg s1 !! k) → is_Some (reg s !! k) ∨ k = taskKey i (MessageId msg)))
    as (s1 & E1 & Hr1 & Hsub & Hk & Hrev).
  { assert (zoom (conn_ID c) s = Done i s) as Hz by (unfold zoom; cbn; rewrite Hci; by destruct s).
    destruct (reg s !! taskKey i (MessageId msg)) as [a0|] eqn:Hk.
    - destruct (start_some c msg s i s a0 Hc Hz Hk) as (y & Hy & E). eexists. split; [exact E|].
      cbn. rewrite Hy, Hk. split_and!; try done. by left.
    - destruct (start_none c msg s i s Hc Hz Hk) as (y & Hy & E). eexists. split; [exact E|].
      cbn. rewrite Hy, lookup_insert_eq. split_and!; [done|by apply insert_subseteq|done|].
      intros k. destruct (decide (k = taskKey i (MessageId msg))) as [->|Hne]; [by right|].
      rewrite lookup_insert_ne by done. by left. }
  destruct (start_inv c msg s tt s1 Hi E1) as [Hi1 Hs1].
  destruct (IH s1) as (s2 & E2 & Hi2 & Hr2 & Hs2 & Hsub2 & Hk2 & Hrev2).
  { done. }
  { by rewrite (su_closed _ _ Hs1). }
  { intros c' Hc'. rewrite Hr1. apply Hid. by right. }
  exists s2. split; [cbn; by erewrite bind_done by exact E1|]. rewrite Hr1 in *.
  split_and!; [done|done|by etrans|by etrans| |].
  - intros c' i' [->|Hc']%elem_of_cons Hi'; [|by eapply Hk2].
    rewrite Hci in Hi'. injection Hi' as <-. destruct Hk as [a Ha].
    exists a. by apply (lookup_weaken _ (reg s2) _ _ Ha).
  - intros k Hk'. apply Hrev2 in Hk' as [Hk'|(c' & i' & Hc' & Hi' & ->)]; [apply Hrev in Hk' as [?| ->]; [by left|]|].
    + right. exists c, i. split_and!; [by left|done..].
    + right. exists c', i'. split_and!; [by right|done..].
Qed.

(** A loop whose body keeps an invariant and relates states by a preorder. *)
Lemma range_do_inv {A} (l : list A) (f : A → go (RTS M W) unit) s u s' :
  (∀ x s1 u1 s2, x ∈ l → rt_inv None s1 → f x s1 = Done u1 s2 → rt_inv None s2 ∧ same_setup s1 s2) →
  rt_inv None s → range_do l f s = Done u s' → rt_inv None s' ∧ same_setup s s'.
Proof.
  revert s. induction l as [|x l IH]; cbn; intros s Hf Hi Hs.
  - injection Hs as _ <-. done.
  - apply bind_done_inv in Hs as (u1 & s1 & H1' & H2').
    destruct (Hf x s u1 s1) as [Hi1 Hs1]; [by left|done..|].
    destruct (IH s1) as [Hi2 Hs2]; [|done..|split; [done|by etrans]].
    intros x' s2 u2 s3 Hx. apply Hf. by right.
Qed.

(** The state after the timer [tm] of the task [a] has fired and [run] has
    counted the attempt. *)
Definition woken tm d a s : RTS M W :=
  set_theap (alter inc_cnt a (theap s)) (set_timers (<[tm := MkTimer d a false]> (timers s)) s).

Lemma inc_cnt_small s t :
  rt_inv None s → (0 <= retransmitCnt t < maxRetryCnt (mgr s))%Z →
  retransmitCnt (inc_cnt t) = (retransmitCnt t + 1)%Z.
Proof. intros Hi Hc. pose proof (inv_max _ _ Hi). cbn. apply int32_small. split; lia. Qed.

Lemma woken_inv s tm d a :
  rt_inv None s → timers s !! tm = Some (MkTimer d a true) →
  ∃ t, theap s !! a = Some t ∧ timerPtr t = Some tm ∧ reg s !! t_key t = Some a ∧
    (0 <= retransmitCnt t < maxRetryCnt (mgr s))%Z ∧
    rt_inv (Some (t_key t)) (woken tm d a s).
Proof.
  intros Hi Htm. destruct (inv_timer _ _ Hi _ _ _ Htm) as (t & Ha & Hp & Hk & _).
  destruct (inv_armed _ _ Hi _ _ _ Hk Ha) as [_ Hlt]; [done|].
  destruct (inv_obj _ _ Hi _ _ Hk) as (t0 & Ht0 & _ & Hge & _).
  rewrite Ha in Ht0. injection Ht0 as <-.
  exists t. split_and!; [done..|]. pose proof (inc_cnt_small s t Hi (conj Hge Hlt)) as Hinc.
  split; cbn.
  - intros k' a' Hk'. destruct (inv_obj _ _ Hi _ _ Hk') as (t' & Ha' & Hkey & Hr').
    destruct (decide (a = a')) as [<-|Hne].
    + exists (inc_cnt t). rewrite lookup_alter_eq, Ha. rewrite Ha in Ha'. injection Ha' as <-.
      split_and!; [done..|rewrite Hinc; lia|rewrite Hinc; lia].
    + exists t'. by rewrite lookup_alter_ne.
  - intros k' a' t' Hk' Ha' Hx. assert (a ≠ a') as Hne.
    { intros <-. destruct (inv_obj _ _ Hi _ _ Hk') as (t2 & Ht2 & Hkey & _). congruence. }
    rewrite lookup_alter_ne in Ha' by done.
    destruct (inv_armed _ _ Hi k' a' t' Hk' Ha') as [(tm' & d' & Hp' & Htm') Hc]; [done|].
    split; [|done]. exists tm', d'. split; [done|].
    rewrite lookup_insert_ne; [done|]. intros <-. congruence.
  - intros tm' d' a'. rewrite lookup_insert_Some. intros [[_ [=]]|[Hne Htm']].
    destruct (inv_timer _ _ Hi _ _ _ Htm') as (t' & Ha' & Hp' & Hk' & _).
    assert (a ≠ a') as Hna by (intros <-; congruence).
    exists t'. rewrite lookup_alter_ne by done. split_and!; [done..|congruence].
  - intros a' t' tm' Ha' Hp'.
    assert (∃ t2, theap s !! a' = Some t2 ∧ timerPtr t2 = Some tm') as (t2 & Ha2 & Hp2).
    { destruct (decide (a = a')) as [<-|Hne].
      - rewrite lookup_alter_eq, Ha in Ha'. injection Ha' as <-. eauto.
      - rewrite lookup_alter_ne in Ha' by done. eauto. }
    destruct (inv_ptr _ _ Hi _ _ _ Ha2 Hp2) as (d2 & b2 & Hx).
    destruct (decide (tm = tm')) as [<-|Hne].
    + rewrite lookup_insert_eq. exists d2, false. congruence.
    + rewrite lookup_insert_ne by done. eauto.
  - apply (inv_total _ _ Hi).
  - intros a'. rewrite lookup_alter_is_Some. intros Hx. apply (inv_next _ _ Hi).
    destruct Hx as [Hx|[? Hx]]; [by left|right].
    rewrite lookup_insert_Some in Hx. destruct Hx as [[<- _]|[_ Hx]]; eauto.
  - apply (inv_max _ _ Hi).
Qed.

(** The body of [run] from the counted state on. *)
Definition attempt a t s : outcome (RTS M W) unit :=
  (if (maxRetryCnt (mgr s) <=? retransmitCnt (inc_cnt t))%Z then
     stopAndDelete (t_key t) ;;; ret tt
   else
     err <- zoom (taskFunc (mgr s) (t_conn t) (t_msg t)) ;;
     match err with
     | Some _ => stopAndDelete (t_key t) ;;; ret tt
     | None =>
         zoom (conn_UpdateActivityTime (t_conn t)) ;;;
         tm <- AfterFunc (retryInterval (mgr s)) a ;;
         task_assign a (set_timerPtr tm)
     end) s.

Lemma fire_unfold s tm d a t :
  timers s !! tm = Some (MkTimer d a true) → theap s !! a = Some t →
  reg s !! t_key t = Some a → fire tm s = attempt a t (woken tm d a s).
Proof.
  intros Htm Ha Hk. unfold fire. erewrite bind_done by reflexivity. rewrite Htm.
  erewrite bind_done by reflexivity. unfold run.
  erewrite bind_done by (apply task_load_done; exact Ha).
  erewrite bind_done by reflexivity. cbn [tasks mgr set_timers]. rewrite sm_load_view, Hk.
  erewrite bind_done by reflexivity.
  erewrite bind_done by (apply task_load_done; cbn; by rewrite lookup_alter_eq, Ha).
  by erewrite bind_done by reflexivity.
Qed.

(** The three ways an attempt ends. *)
Lemma attempt_last a t s :
  (maxRetryCnt (mgr s) <= retransmitCnt (inc_cnt t))%Z → rt_inv (Some (t_key t)) s →
  ∃ s', attempt a t s = Done tt s' ∧ rt_inv None s' ∧ reg s' = delete (t_key t) (reg s) ∧
    rest s' = rest s ∧ same_setup s s'.
Proof.
  intros Hc Hi. unfold attempt. rewrite (proj2 (Z.leb_le _ _)) by done.
  destruct (stopAndDelete_inv (Some (t_key t)) None s (t_key t) Hi) as (b & s' & E & Hs); [by right|].
  exists s'. erewrite bind_done by exact E. by destruct Hs as (? & ? & ? & ? & ? & ?).
Qed.

Lemma attempt_failed a t s e w :
  (retransmitCnt (inc_cnt t) < maxRetryCnt (mgr s))%Z → rt_inv (Some (t_key t)) s →
  taskFunc (mgr s) (t_conn t) (t_msg t) (rest s) = Done (Some e) w →
  ∃ s', attempt a t s = Done tt s' ∧ rt_inv None s' ∧ reg s' = delete (t_key t) (reg s) ∧
    rest s' = w ∧ same_setup s s'.
Proof.
  intros Hc Hi Hf. unfold attempt. rewrite (proj2 (Z.leb_gt _ _)) by done.
  erewrite bind_done; [|unfold zoom; cbn; rewrite Hf; reflexivity].
  apply (rt_inv_rest _ _ w) in Hi.
  destruct (stopAndDelete_inv (Some (t_key t)) None _ (t_key t) Hi) as (b & s' & E & Hs); [by right|].
  exists s'. erewrite bind_done by exact E.
  destruct Hs as (Hi' & Hr & _ & Hw & Hsu & _). split_and!; [done..|]. by destruct Hsu; split.
Qed.

Lemma attempt_again a t s w w' :
  (retransmitCnt (inc_cnt t) < maxRetryCnt (mgr s))%Z →
  taskFunc (mgr s) (t_conn t) (t_msg t) (rest s) = Done None w →
  conn_UpdateActivityTime (t_conn t) w = Done tt w' →
  attempt a t s = Done tt (armed (retryInterval (mgr s)) a (part_set w' s)).
Proof.
  intros Hc Hf Hu. unfold attempt. rewrite (proj2 (Z.leb_gt _ _)) by done.
  erewrite bind_done; [|unfold zoom; cbn; rewrite Hf; reflexivity]. cbv beta iota.
  erewrite bind_done; [|unfold zoom; cbn; rewrite Hu; reflexivity]. done.
Qed.

Lemma attempt_inv s tm d a t u s' :
  rt_inv None s → timers s !! tm = Some (MkTimer d a true) → theap s !! a = Some t →
  attempt a t (woken tm d a s) = Done u s' → rt_inv None s' ∧ same_setup s s'.
Proof.
  intros Hi Htm Ha Hs. destruct (woken_inv s tm d a Hi Htm) as (t0 & Ha0 & _ & Hk & Hc & Hw).
  rewrite Ha in Ha0. injection Ha0 as <-.
  assert (Hsw : same_setup s (woken tm d a s)) by done.
  destruct (Z.le_gt_cases (maxRetryCnt (mgr s)) (retransmitCnt (inc_cnt t))) as [Hle|Hlt].
  { destruct (attempt_last a t (woken tm d a s) Hle Hw) as (s1 & E & Hi' & _ & _ & Hsu).
    rewrite Hs in E. injection E as _ ->. split; [done|by etrans]. }
  pose proof Hs as Hf. unfold attempt in Hf. rewrite (proj2 (Z.leb_gt _ _)) in Hf by done.
  apply bind_done_inv in Hf as (oe & s1 & Hf & Hrest).
  apply zoom_done_inv in Hf as (w & Hf & ->).
  destruct oe as [e|].
  - destruct (attempt_failed a t (woken tm d a s) e w Hlt Hw Hf) as (s1 & E & Hi' & _ & _ & Hsu).
    rewrite Hs in E. injection E as _ ->. split; [done|by etrans].
  - apply bind_done_inv in Hrest as ([] & s1 & Hu & _).
    apply zoom_done_inv in Hu as (w' & Hu & ->).
    pose proof (attempt_again a t (woken tm d a s) w w' Hlt Hf Hu) as E. rewrite Hs in E. injection E as _ ->.
    split; [|by split].
    pose proof (rt_inv_rest _ _ w' Hw) as Hw'.
    apply (armed_inv _ (t_key t) a (inc_cnt t) _ Hw'); cbn.
    + done.
    + by rewrite lookup_alter_eq, Ha.
    + done.
Qed.

Lemma fire_inv tm s u s' :
  rt_inv None s → fire tm s = Done u s' → rt_inv None s' ∧ same_setup s s'.
Proof.
  intros Hi Hs. destruct (timers s !! tm) as [[d a []]|] eqn:Htm.
  - destruct (woken_inv s tm d a Hi Htm) as (t & Ha & _ & Hk & _).
    rewrite (fire_unfold s tm d a t) in Hs by done. by apply (attempt_inv s tm d a t u).
  - unfold fire in Hs. erewrite bind_done in Hs by reflexivity. by rewrite Htm in Hs.
  - unfold fire in Hs. erewrite bind_done in Hs by reflexivity. by rewrite Htm in Hs.
Qed.

(** ** Stopping *)

Lemma Stop_inv cid mid s :
  rt_inv None s →
  ∃ s', Stop cid mid s = Done tt s' ∧ rt_inv None s' ∧ reg s' = delete (taskKey cid mid) (reg s) ∧
    theap s' = theap s ∧ rest s' = rest s ∧ same_setup s s'.
Proof.
  intros Hi. unfold Stop. erewrite bind_done by reflexivity. rewrite sm_load_view.
  destruct (reg s !! taskKey cid mid) as [a|] eqn:Hk.
  - destruct (stopAndDelete_inv None None s (taskKey cid mid) Hi) as (b & s' & E & Hs); [by left|].
    exists s'. erewrite bind_done by exact E. by destruct Hs as (? & ? & ? & ? & ? & ?).
  - exists s. by rewrite delete_id.
Qed.

(** Stopping the tasks of a list of keys. *)
Lemma stop_all (l : list (string * nat)) s :
  rt_inv None s →
  ∃ s', range_do l (λ '(k, _), stopAndDelete k ;;; ret tt) s = Done tt s' ∧ rt_inv None s' ∧
    (∀ k : string, reg s' !! k = if bool_decide (k ∈ l.*1) then None else reg s !! k) ∧
    rest s' = rest s ∧ same_setup s s'.
Proof.
  revert s. induction l as [|[k x] l IH]; intros s Hi.
  { exists s. split_and!; done. }
  destruct (stopAndDelete_inv None None s k Hi) as (b & s1 & E & Hi1 & Hr1 & _ & Hw1 & Hs1 & _);
    [by left|].
  destruct (IH s1 Hi1) as (s2 & E2 & Hi2 & Hr2 & Hw2 & Hs2).
  exists s2. cbn [range_do]. split; [|split_and!; [done| |congruence|by etrans]].
  - erewrite bind_done by (erewrite bind_done by exact E; reflexivity). exact E2.
  - intros k'. rewrite Hr2, Hr1. destruct (decide (k' = k)) as [->|Hne].
    + rewrite lookup_delete_eq. cbn. rewrite (bool_decide_eq_true_2 (k ∈ k :: l.*1)) by by left.
      by case_bool_decide.
    + rewrite lookup_delete_ne by done. cbn.
      case_bool_decide as Hl; case_bool_decide as Hl'; try done.
      * exfalso. apply Hl'. by right.
      * apply elem_of_cons in Hl' as [->|?]; done.
Qed.

(** [Close]: every task is stopped and the manager is marked closed. *)
Lemma Close_inv s :
  rt_inv None s → closed (mgr s) = false →
  ∃ s', CloseManager s = Done tt s' ∧ rt_inv None s' ∧ reg s' = ∅ ∧ rest s' = rest s ∧
    closed (mgr s') = true ∧ retryInterval (mgr s') = retryInterval (mgr s).
Proof.
  intros Hi Hc. unfold CloseManager. erewrite bind_done by reflexivity. rewrite Hc.
  erewrite bind_done by reflexivity. erewrite bind_done by reflexivity.
  assert (Hi1 : rt_inv None (set_mgr set_closed s)) by (destruct Hi; by split).
  cbn [mgr set_mgr tasks set_closed].
  destruct (stop_all (sm_range (tasks (mgr s))) _ Hi1) as (s' & E & Hi' & Hr & Hw & Hsu).
  exists s'. split_and!; [done|done| |done|by rewrite (su_closed _ _ Hsu)|by rewrite (su_interval _ _ Hsu)].
  apply map_eq. intros k. rewrite Hr, lookup_empty.
  case_bool_decide as Hk; [done|]. cbn. destruct (reg s !! k) as [a|] eqn:E'; [|done].
  exfalso. apply Hk, list_elem_of_fmap. exists (k, a). split; [done|].
  rewrite sm_range_view. by apply elem_of_map_to_list.
Qed.

(** Who a task's connection is, as [ClearByConn] reads it. *)
Definition owner s a : option string :=
  t ← theap s !! a; result (conn_ID (t_conn t) (rest s)).

Lemma clear_as_stop (own : string * nat → option string) (cid : string)
    (l : list (string * nat)) s :
  rt_inv None s →
  (∀ p, p ∈ l → ∃ t i, theap s !! p.2 = Some t ∧ own p = Some i ∧
     conn_ID (t_conn t) (rest s) = Done i (rest s)) →
  range_do l (λ '(key, a), t <- task_load a ;; c <- zoom (conn_ID (t_conn t)) ;;
    if String.eqb c cid then stopAndDelete key ;;; ret tt else ret tt) s
  = range_do (filter (λ p, own p = Some cid) l) (λ '(k, _), stopAndDelete k ;;; ret tt) s.
Proof.
  revert s. induction l as [|[k a] l IH]; intros s Hi Hl; [done|].
  destruct (Hl (k, a)) as (t & i & Ha & Hown & Hid); [by left|]. cbn in Ha.
  assert (zoom (conn_ID (t_conn t)) s = Done i s) as Hz.
  { unfold zoom. cbn. rewrite Hid. by destruct s. }
  cbn [range_do]. rewrite filter_cons.
  destruct (String.eqb_spec i cid) as [<-|Hne].
  - rewrite decide_True by done. cbn [range_do].
    destruct (stopAndDelete_inv None None s k Hi) as (b & s1 & E & Hi1 & Hr1 & Hh1 & Hw1 & _); [by left|].
    erewrite bind_done; [|erewrite bind_done by (by apply task_load_done);
      erewrite bind_done by exact Hz; rewrite String.eqb_refl;
      erewrite bind_done by exact E; reflexivity].
    symmetry. erewrite bind_done by (erewrite bind_done by exact E; reflexivity).
    symmetry. apply IH; [done|]. intros p Hp. rewrite Hh1, Hw1. apply Hl. by right.
  - rewrite decide_False by congruence.
    erewrite bind_done; [|erewrite bind_done by (by apply task_load_done);
      erewrite bind_done by exact Hz; rewrite (proj2 (String.eqb_neq _ _)) by done; reflexivity].
    apply IH; [done|]. intros p Hp. apply Hl. by right.
Qed.

Lemma Clear_inv cid s :
  rt_inv None s →
  (∀ k a t, reg s !! k = Some a → theap s !! a = Some t →
     ∃ i, conn_ID (t_conn t) (rest s) = Done i (rest s)) →
  ∃ s', ClearByConn cid s = Done tt s' ∧ rt_inv None s' ∧ rest s' = rest s ∧ same_setup s s' ∧
    ∀ k : string, reg s' !! k = a ← reg s !! k; if decide (owner s a = Some cid) then None else Some a.
Proof.
  intros Hi Hconn. unfold ClearByConn. erewrite bind_done by reflexivity.
  assert (Hin : ∀ p, p ∈ sm_range (tasks (mgr s)) ↔ reg s !! p.1 = Some p.2).
  { intros [k a]. rewrite sm_range_view. apply elem_of_map_to_list. }
  rewrite (clear_as_stop (λ p, owner s p.2)); [|done|].
  - destruct (stop_all (filter (λ p, owner s p.2 = Some cid) (sm_range (tasks (mgr s)))) s Hi)
      as (s' & E & Hi' & Hr & Hw & Hsu).
    exists s'. split_and!; [done..|]. intros k. rewrite Hr.
    destruct (reg s !! k) as [a|] eqn:Hk; cbn.
    + case_bool_decide as Hb; case_decide as Ho; try done.
      * apply list_elem_of_fmap in Hb as ([k' a'] & -> & [Ho' Hp]%list_elem_of_filter).
        apply Hin in Hp. cbn in *. congruence.
      * exfalso. apply Hb, list_elem_of_fmap. exists (k, a). split; [done|].
        apply list_elem_of_filter. split; [done|]. by apply Hin.
    + by case_bool_decide.
  - intros [k a] Hp%Hin. cbn in Hp. destruct (inv_obj _ _ Hi k a Hp) as (t & Ha & _).
    destruct (Hconn k a t Hp Ha) as (i & Hid). exists t, i. cbn. unfold owner.
    rewrite Ha. cbn. by rewrite Hid.
Qed.

(** Every event keeps the manager well-formed, and its interval. *)
Lemma rt_exec_keeps ev s u s' :
  rt_inv None s → exec ev s = Done u s' →
  rt_inv None s' ∧ retryInterval (mgr s') = retryInterval (mgr s).
Proof.
  assert (∀ s1 s2, rt_inv None s2 ∧ same_setup s1 s2 →
    rt_inv None s2 ∧ retryInterval (mgr s2) = retryInterval (mgr s1)) as Hkeep
    by (intros s1 s2 [? []]; done).
  destruct ev as [conns msg|cid mid|tm|cid| |w]; unfold exec; intros Hi Hs.
  - apply Hkeep, (range_do_inv conns (λ c, start c msg) s u s'); [|done..].
    intros. by apply (start_inv x msg s1 u1).
  - destruct (Stop_inv cid mid s Hi) as (s1 & E & Hi1 & _ & _ & _ & Hsu).
    rewrite Hs in E. injection E as _ ->. by apply Hkeep.
  - by apply Hkeep, (fire_inv tm s u).
  - unfold ClearByConn in Hs. erewrite bind_done in Hs by reflexivity. apply Hkeep.
    eapply range_do_inv; [|exact Hi|exact Hs]. intros [k a] s1 u1 s2 _ Hi1 E.
    apply bind_done_inv in E as (t & s3 & Ht & E).
    assert (s3 = s1) as ->.
    { unfold task_load, bind, gets, need in Ht. cbn in Ht. destruct (theap s1 !! a); [by injection Ht|done]. }
    apply bind_done_inv in E as (i & s3 & (w & _ & ->)%zoom_done_inv & E).
    apply (rt_inv_rest _ _ w) in Hi1.
    destruct (String.eqb i cid); [|by injection E as _ <-].
    destruct (stopAndDelete_inv None None _ k Hi1) as (b & s4 & Es & Hi4 & _ & _ & _ & Hsu & _);
      [by left|].
    erewrite bind_done in E by exact Es. injection E as _ <-. split; [done|by destruct Hsu; split].
  - destruct (closed (mgr s)) eqn:Hc.
    + unfold CloseManager in Hs. erewrite bind_done in Hs by reflexivity. rewrite Hc in Hs.
      by injection Hs as _ <-.
    + destruct (Close_inv s Hi Hc) as (s1 & E & Hi1 & _ & _ & _ & Hint). rewrite Hs in E. by injection E as _ ->.
  - injection Hs as _ <-. split; [by apply rt_inv_rest|done].
Qed.

Lemma rt_exec_inv ev s u s' : rt_inv None s → exec ev s = Done u s' → rt_inv None s'.
Proof. intros Hi E. by destruct (rt_exec_keeps ev s u s' Hi E). Qed.

Lemma new_inv interval maxCnt f n (w : W) :
  in_int 32 maxCnt → rt_inv None (MkRTS (NewManager interval maxCnt f) ∅ ∅ n w : RTS M W).
Proof.
  intros Hm. split; cbn; rewrite ?sm_view_new; try done.
  - intros a. rewrite !lookup_empty. by intros [[? [=]]|[? [=]]].
  - unfold DefaultMaxRetryCnt. destruct Hm. destruct (Z.leb_spec maxCnt 0); lia.
Qed.

Lemma rt_steps_inv s s' : rt_inv None s → rtc step s s' → rt_inv None s'.
Proof.
  intros Hi Hs. induction Hs as [|s1 s2 s3 (ev & E) _ IH]; [done|]. by eapply IH, rt_exec_inv.
Qed.

Lemma rt_steps_interval s s' :
  rt_inv None s → rtc step s s' → retryInterval (mgr s') = retryInterval (mgr s).
Proof.
  intros Hi Hs. induction Hs as [|s1 s2 s3 (ev & E) _ IH]; [done|].
  destruct (rt_exec_keeps ev s1 tt s2 Hi E) as [Hi' <-]. by apply IH.
Qed.

Lemma elapse_gone fuel k now until s :
  reg s !! k = None → elapse (S fuel) k now until s = Done [] s.
Proof.
  intros Hk. cbn [elapse]. erewrite bind_done by reflexivity.
  unfold timer_of. by rewrite sm_load_view, Hk.
Qed.

(** The task [a] is registered under [k] and waits for timer [tm] of delay [d]. *)
Definition waiting k a t tm d s : Prop :=
  reg s !! k = Some a ∧ theap s !! a = Some t ∧ t_key t = k ∧ timerPtr t = Some tm ∧
  timers s !! tm = Some (MkTimer d a true).

(** In a well-formed state every registered task waits for its timer. *)
Lemma waiting_of s k a : rt_inv None s → reg s !! k = Some a → ∃ t tm d, waiting k a t tm d s.
Proof.
  intros Hi Hk. destruct (inv_obj _ _ Hi k a Hk) as (t & Ha & Hkey & _).
  destruct (inv_armed _ _ Hi k a t Hk Ha) as [(tm & d & Hp & Htm) _]; [done|]. by exists t, tm, d.
Qed.

Lemma waiting_armed k a t d s :
  reg s !! k = Some a → theap s !! a = Some t → t_key t = k →
  waiting k a (set_timerPtr (rnext s) t) (rnext s) d (armed d a s).
Proof.
  intros Hk Ha Hkey. unfold waiting, armed. cbn.
  by rewrite lookup_alter_eq, Ha, lookup_insert_eq.
Qed.

Lemma waiting_timer k a t tm d s : waiting k a t tm d s → timer_of k s = Some (tm, d).
Proof.
  intros (Hk & Ha & _ & Hp & Htm). unfold timer_of. rewrite sm_load_view, Hk. cbn. rewrite Ha. cbn.
  rewrite Hp. cbn. by rewrite Htm.
Qed.

(** Before the delay is over nothing happens; when it is, [run] does. *)
Lemma elapse_early fuel k now until a t tm d s :
  waiting k a t tm d s → (until < now + d)%Z → elapse (S fuel) k now until s = Done [] s.
Proof.
  intros Hw Hu. cbn [elapse]. erewrite bind_done by reflexivity. rewrite (waiting_timer _ _ _ _ _ _ Hw).
  by rewrite (proj2 (Z.leb_gt _ _)).
Qed.

Lemma elapse_due fuel k now until a t tm d s s1 :
  waiting k a t tm d s → (now + d <= until)%Z → attempt a t (woken tm d a s) = Done tt s1 →
  elapse (S fuel) k now until s
  = (later <- elapse fuel k (now + d) until ;; ret ((now + d, rest s1)%Z :: later)) s1.
Proof.
  intros Hw Hu E. pose proof Hw as (Hk & Ha & Hkey & _ & Htm). cbn [elapse].
  erewrite bind_done by reflexivity. rewrite (waiting_timer _ _ _ _ _ _ Hw), (proj2 (Z.leb_le _ _)) by done.
  erewrite bind_done by (rewrite (fire_unfold s tm d a t Htm Ha) by (by rewrite Hkey); exact E).
  by erewrite bind_done by reflexivity.
Qed.

(** One firing of a registered task whose push succeeds. *)
Section Pushing.
Context (conn : nat) (msg : Message) (P : W → Prop) (pushed again : W → W).

Definition pushes s : Prop := ∀ w, P w →
  taskFunc (mgr s) conn msg w = Done None (pushed w) ∧
  conn_UpdateActivityTime conn (pushed w) = Done tt (again w) ∧ P (again w).

(** How many whole intervals fit into a time. *)
Definition intervals (i time : Z) : nat := Z.to_nat (time / i).

Lemma intervals_step i time :
  (0 < i)%Z → (i <= time)%Z → intervals i time = S (intervals i (time - i)).
Proof.
  intros Hi Ht. unfold intervals.
  assert (time / i = (time - i) / i + 1)%Z as ->.
  { replace time with ((time - i) + 1 * i)%Z at 1 by lia. rewrite Z.div_add by lia. done. }
  assert (0 <= (time - i) / i)%Z by (apply Z.div_pos; lia). lia.
Qed.

Lemma intervals_none i time : (0 < i)%Z → (time < i)%Z → intervals i time = 0.
Proof.
  intros Hi Ht. unfold intervals. destruct (Z.le_gt_cases 0 time).
  - by rewrite Z.div_small by lia.
  - assert (time / i < 0)%Z by (apply Z.div_lt_upper_bound; lia). lia.
Qed.

(** The attempts after [now], when [c] of them will push: [n] firings, one interval
    apart, each with the world it leaves. *)
Fixpoint attempts (i now : Z) (n c : nat) (w : W) : list (Z * W) :=
  match n with
  | O => []
  | S n' =>
      let w' := match c with O => w | S _ => again w end in
      (now + i, w')%Z :: attempts i (now + i) n' (pred c) w'
  end.

(** The firing number [j] is at [j] intervals, after the pushes there are till then. *)
Lemma attempts_nth i now n c w :
  attempts i now n c w
  = (λ j, (now + Z.of_nat j * i, Nat.iter (min j c) again w)%Z) <$> seq 1 n.
Proof.
  revert now c w. induction n as [|n IH]; intros now c w; [done|].
  cbn [attempts seq fmap list_fmap]. f_equal.
  - f_equal; [lia|by destruct c].
  - rewrite IH, <- (fmap_S_seq 1 n), <- list_fmap_compose. apply list_fmap_ext. intros _ j _. cbn.
    f_equal; [lia|]. destruct c as [|c]; cbn; [by rewrite Nat.min_0_r|by rewrite <- Nat.iter_succ_r].
Qed.

Lemma elapse_pushes fuel k now until s a t tm c :
  let i := retryInterval (mgr s) in
  rt_inv None s → (0 < i)%Z → waiting k a t tm i s →
  t_conn t = conn → t_msg t = msg → retransmitCnt t = (maxRetryCnt (mgr s) - 1 - Z.of_nat c)%Z →
  pushes s → P (rest s) → S c < fuel →
  let n := min (S c) (intervals i (until - now)) in
  ∃ s', elapse fuel k now until s = Done (attempts i now n c (rest s)) s' ∧
    rest s' = Nat.iter (min n c) again (rest s) ∧
    (is_Some (reg s' !! k) ↔ n ≤ c).
Proof.
  cbn zeta. revert fuel now s t tm. induction c as [|c IH];
    intros fuel now s t tm Hi Hint Hw Hcon Hmsg Hc Hpush HP Hfuel;
    pose proof Hw as (Hk & Ha & Hkey & Hp & Htm);
    (destruct fuel as [|fuel]; [lia|]);
    (destruct (Z.le_gt_cases (now + retryInterval (mgr s)) until) as [Hdue|Hearly];
     [|rewrite intervals_none, Nat.min_0_r by lia; exists s;
       split; [by eapply elapse_early|]; split; [done|]; split; [lia|by rewrite Hk]]);
    rewrite intervals_step, <- Nat.succ_min_distr by lia;
    destruct (woken_inv s tm (retryInterval (mgr s)) a Hi Htm) as (t0 & Ha0 & _ & _ & Hcnt & Hw0);
    rewrite Ha in Ha0; injection Ha0 as <-; pose proof (inc_cnt_small s t Hi Hcnt) as Hinc.
  - destruct (attempt_last a t (woken tm (retryInterval (mgr s)) a s)) as (s1 & E1 & _ & Hr1 & Hw1 & _);
      [cbn -[inc_cnt]; lia|done|].
    assert (reg s1 !! k = None) as Hgone by by rewrite Hr1, Hkey, lookup_delete_eq.
    exists s1. rewrite (elapse_due fuel _ _ _ _ _ _ _ _ s1 Hw Hdue E1).
    destruct fuel as [|fuel]; [lia|]. erewrite bind_done by by apply elapse_gone.
    rewrite Hw1, Nat.min_0_l. split_and!; [done|done|]. rewrite Hgone. split; [by intros [? ?]|lia].
  - destruct (Hpush _ HP) as (Hps & Hu & HP').
    set (s1 := armed (retryInterval (mgr s)) a
      (part_set (again (rest s)) (woken tm (retryInterval (mgr s)) a s))).
    assert (attempt a t (woken tm (retryInterval (mgr s)) a s) = Done tt s1) as E1.
    { pose proof (attempt_again a t (woken tm (retryInterval (mgr s)) a s) (pushed (rest s)) (again (rest s))) as E1.
      rewrite Hcon, Hmsg in E1. by apply E1; [cbn -[inc_cnt]; lia|..]. }
    assert (theap (part_set (again (rest s)) (woken tm (retryInterval (mgr s)) a s)) !! a
      = Some (inc_cnt t)) as Ha1 by (cbn; by rewrite lookup_alter_eq, Ha).
    assert (rt_inv None s1) as Hi1.
    { apply (armed_inv _ (t_key t) a (inc_cnt t)); [by apply rt_inv_rest|by rewrite Hkey|done|].
      cbn -[inc_cnt]. lia. }
    assert (waiting k a (set_timerPtr (rnext s) (inc_cnt t)) (rnext s) (retryInterval (mgr s)) s1) as Hw1
      by (exact (waiting_armed k a (inc_cnt t) (retryInterval (mgr s)) (part_set (again (rest s)) (woken tm (retryInterval (mgr s)) a s)) Hk Ha1 Hkey)).
    destruct (IH fuel (now + retryInterval (mgr s))%Z s1 (set_timerPtr (rnext s) (inc_cnt t)) (rnext s))
      as (s2 & E2 & Hw2 & Hr2); try done; [|lia|].
    { cbn -[int32]. cbn -[int32] in Hinc. rewrite Hinc. lia. }
    exists s2. rewrite (elapse_due fuel _ _ _ _ _ _ _ _ s1 Hw Hdue E1).
    change (mgr s1) with (mgr s) in E2, Hw2, Hr2.
    replace (until - now - retryInterval (mgr s))%Z with (until - (now + retryInterval (mgr s)))%Z by lia.
    erewrite bind_done by exact E2. split_and!; [done| |].
    + rewrite Hw2. cbn [Nat.min]. by rewrite Nat.iter_succ_r.
    + rewrite Hr2. lia.
Qed.

End Pushing.

Lemma Reachable_exec ev s s' : Reachable s → exec ev s = Done tt s' → Reachable s'.
Proof.
  intros (i & m & f & n & w & Hm & Hs) E. exists i, m, f, n, w. split; [done|].
  eapply rtc_r; [exact Hs|by exists ev].
Qed.

Lemma Reachable_inv s : Reachable s → rt_inv None s.
Proof.
  intros (i & m & f & n & w & Hm & Hs). eapply rt_steps_inv; [|exact Hs]. by apply new_inv.
Qed.

Lemma Reachable_interval s : Reachable s → (0 < retryInterval (mgr s))%Z.
Proof.
  intros (i & m & f & n & w & Hm & Hs).
  rewrite (rt_steps_interval _ _ (new_inv i m f n w Hm) Hs). cbn.
  destruct (Z.leb_spec i 0); [|done]. by vm_compute.
Qed.

Lemma taskKey_inj_l (i j x : string) : taskKey i x = taskKey j x → i = j.
Proof. apply append_inj_l. Qed.

(** The key of a task determines the device's connection and the message. *)
Lemma taskKey_inj (u v : User) (x y : string) :
  no_colon (UDevice u) = true → no_colon (UDevice v) = true →
  taskKey (ConnID u) x = taskKey (ConnID v) y →
  BID u = BID v ∧ UID u = UID v ∧ UDevice u = UDevice v ∧ x = y.
Proof.
  unfold taskKey, ConnID. intros Hu Hv E. rewrite !append_assoc in E.
  apply colon_split in E as [H1' E]; [|apply no_colon_sprint_d..].
  apply colon_split in E as [H2' E]; [|apply no_colon_sprint_d..].
  apply colon_split in E as [H3' E]; [|done..].
  split_and!; [by apply sprint_d_inj..|done|done].
Qed.

End Facts.

Section Properties.
Context {M : Type → Type} {W : Type} `{SyncMapSpec M, SynpConn W}.
Implicit Types (s : RTS M W).

(** C13. In every state a manager reaches, the task counter is the number of
    registered tasks; a registered task's object is filed under its key, waits for
    exactly one timer and has retries left; and every pending timer is the
    timer of a registered task, so no timer is left behind by a finished task. *)
Theorem tasks_and_timers s :
  Reachable s →
  TotalTaskCnt s = Done (int64 (Z.of_nat (size (sm_view (tasks (mgr s)))))) s ∧
  (∀ k a, sm_view (tasks (mgr s)) !! k = Some a → ∃ t tm d,
     theap s !! a = Some t ∧ t_key t = k ∧ timerPtr t = Some tm ∧
     timers s !! tm = Some (MkTimer d a true) ∧
     (0 <= retransmitCnt t < maxRetryCnt (mgr s))%Z) ∧
  (∀ tm d a, timers s !! tm = Some (MkTimer d a true) → ∃ t,
     theap s !! a = Some t ∧ timerPtr t = Some tm ∧
     sm_view (tasks (mgr s)) !! t_key t = Some a).
Proof.
  intros Hi%Reachable_inv. split_and!.
  - unfold TotalTaskCnt, gets. by rewrite (inv_total _ _ Hi).
  - intros k a Hk. destruct (inv_obj _ _ Hi k a Hk) as (t & Ha & Hkey & Hc & _).
    destruct (inv_armed _ _ Hi k a t Hk Ha) as [(tm & d & Hp & Htm) Hlt]; [done|].
    by exists t, tm, d.
  - intros tm d a Htm. destruct (inv_timer _ _ Hi tm d a Htm) as (t & ? & ? & ? & _). by exists t.
Qed.

(** C14. A message whose push always succeeds and which is never acknowledged is
    retransmitted at the fixed interval.  If its task is made at [now], then by the time
    [until] its timer has fired once per interval that fits, at [now] plus 1, 2, ...
    intervals and at no other time; firing number [j] leaves [min j last] pushes behind,
    where [last] is [maxRetryCnt - 1], so each of the first [last] firings pushes once,
    the next one pushes nothing and removes the task, and there is none after it.  (The
    first transmission is not counted: a manager with [maxRetryCnt] 1 never
    retransmits.) *)
Theorem retransmissions_exact (conn : nat) (msg : Message) (cid : string)
    (P : W → Prop) (pushed again : W → W) s (now until : Z) (fuel : nat) :
  Reachable s → closed (mgr s) = false →
  conn_ID conn (rest s) = Done cid (rest s) →
  sm_view (tasks (mgr s)) !! taskKey cid (MessageId msg) = None →
  pushes conn msg P pushed again s → P (rest s) →
  let interval := retryInterval (mgr s) in
  let last := Z.to_nat (maxRetryCnt (mgr s) - 1) in
  let n := min (S last) (intervals interval (until - now)) in
  S last < fuel →
  (0 < interval)%Z ∧
  ∃ s', (start conn msg ;;; elapse fuel (taskKey cid (MessageId msg)) now until) s
        = Done ((λ j, (now + Z.of_nat j * interval, Nat.iter (min j last) again (rest s))%Z) <$> seq 1 n) s' ∧
    rest s' = Nat.iter (min n last) again (rest s) ∧
    (is_Some (sm_view (tasks (mgr s')) !! taskKey cid (MessageId msg)) ↔ n ≤ last).
Proof.
  intros Hreach Hc Hid Hk Hpush HP interval last n Hfuel.
  pose proof (Reachable_interval s Hreach) as Hint. apply Reachable_inv in Hreach as Hi.
  pose proof (inv_max _ _ Hi) as Hmax. split; [done|].
  assert (zoom (conn_ID conn) s = Done cid s) as Hz by (unfold zoom; cbn; rewrite Hid; by destruct s).
  destruct (start_none conn msg s cid s Hc Hz Hk) as (y & Hy & E).
  erewrite bind_done by exact E. set (key := taskKey cid (MessageId msg)) in *.
  pose proof (registered_armed_inv s _ conn msg y interval Hi Hk Hy) as Hi'.
  destruct (elapse_pushes conn msg P pushed again fuel key now until _ (rnext s)
    (MkTask key conn msg (Some (S (rnext s))) 0) (S (rnext s)) last Hi') as (s' & E' & Hr & Hg); try done.
  - apply (waiting_armed key _ (MkTask key conn msg None 0)); cbn; [by rewrite Hy, lookup_insert_eq|
      by rewrite lookup_insert_eq|done].
  - cbn. unfold last. lia.
  - exists s'. split_and!; [|exact Hr|exact Hg]. rewrite <- attempts_nth. exact E'.
Qed.

(** A failed push ends the retransmission: the firing, when its time has come, removes
    the task, and no later interval pushes anything. *)
Theorem failed_push_stops s (k : string) (a tm : nat) (t : Task) (d : Z) (e : error) (w : W)
    (now until : Z) (fuel : nat) :
  Reachable s → waiting k a t tm d s → (retransmitCnt t + 1 < maxRetryCnt (mgr s))%Z →
  taskFunc (mgr s) (t_conn t) (t_msg t) (rest s) = Done (Some e) w →
  (now + d <= until)%Z → 1 < fuel →
  ∃ s', elapse fuel k now until s = Done [(now + d, w)%Z] s' ∧ rest s' = w ∧
    sm_view (tasks (mgr s')) = delete k (sm_view (tasks (mgr s))).
Proof.
  intros Hi%Reachable_inv Hw Hc Hf Hdue Hfuel. pose proof Hw as (Hk & Ha & Hkey & _ & Htm).
  destruct (woken_inv s tm d a Hi Htm) as (t0 & Ha0 & _ & _ & Hcnt & Hw0).
  rewrite Ha in Ha0. injection Ha0 as <-. pose proof (inc_cnt_small s t Hi Hcnt) as Hinc.
  destruct (attempt_failed a t (woken tm d a s) e w ltac:(cbn -[inc_cnt]; lia) Hw0 Hf)
    as (s1 & E1 & _ & Hr & Hw1 & _).
  destruct fuel as [|[|fuel]]; [lia..|]. exists s1. rewrite Hkey in Hr.
  rewrite (elapse_due _ _ _ _ _ _ _ _ _ s1 Hw Hdue E1).
  erewrite bind_done by (apply elapse_gone; by rewrite Hr, lookup_delete_eq).
  rewrite Hw1. split_and!; done.
Qed.

(** [Stop] for a device's connection and a message removes exactly that
    task: the tasks of the user's other devices, of other users and of other
    messages stay registered, and nothing is sent. *)
Theorem Stop_exact s (u : User) (mid : string) :
  Reachable s → no_colon (UDevice u) = true →
  ∃ s', Stop (ConnID u) mid s = Done tt s' ∧ rest s' = rest s ∧ theap s' = theap s ∧
    sm_view (tasks (mgr s')) !! taskKey (ConnID u) mid = None ∧
    ∀ v mid', no_colon (UDevice v) = true →
      ¬ (same_user v u ∧ UDevice v = UDevice u ∧ mid' = mid) →
      sm_view (tasks (mgr s')) !! taskKey (ConnID v) mid'
      = sm_view (tasks (mgr s)) !! taskKey (ConnID v) mid'.
Proof.
  intros Hi%Reachable_inv Hu.
  destruct (Stop_inv (ConnID u) mid s Hi) as (s' & E & _ & Hr & Hh & Hw & _).
  exists s'. rewrite Hr. split_and!; [done..|by rewrite lookup_delete_eq|].
  intros v mid' Hv Hne. rewrite lookup_delete_ne; [done|].
  intros (? & ? & ? & ?)%taskKey_inj; [|done..]. by apply Hne.
Qed.

(** [ClearByConn] removes exactly the tasks whose connection has the given
    id, whichever order the map is visited in, and sends nothing. *)
Theorem ClearByConn_exact s (cid : string) :
  Reachable s →
  (∀ k a t, sm_view (tasks (mgr s)) !! k = Some a → theap s !! a = Some t →
     ∃ i, conn_ID (t_conn t) (rest s) = Done i (rest s)) →
  ∃ s', ClearByConn cid s = Done tt s' ∧ rest s' = rest s ∧
    ∀ k : string, sm_view (tasks (mgr s')) !! k
      = a ← sm_view (tasks (mgr s)) !! k; if decide (owner s a = Some cid) then None else Some a.
Proof.
  intros Hi%Reachable_inv Hc. destruct (Clear_inv cid s Hi Hc) as (s' & ? & _ & ? & _ & ?).
  by exists s'.
Qed.

(** [Close] stops every task: none is registered, no timer is pending, the
    counter is 0, and every later [Start] and [Close] changes nothing. *)
Theorem Close_final s (conns : list nat) (msg : Message) :
  Reachable s → closed (mgr s) = false →
  ∃ s', CloseManager s = Done tt s' ∧ rest s' = rest s ∧
    sm_view (tasks (mgr s')) = ∅ ∧ totalTaskCnt (mgr s') = 0%Z ∧
    (∀ tm d a, timers s' !! tm ≠ Some (MkTimer d a true)) ∧
    Start conns msg s' = Done tt s' ∧ CloseManager s' = Done tt s'.
Proof.
  intros Hi%Reachable_inv Hc. destruct (Close_inv s Hi Hc) as (s' & E & Hi' & Hr & Hw & Hc' & _).
  exists s'. split_and!; [done..| | | |].
  - by rewrite (inv_total _ _ Hi'), Hr, map_size_empty.
  - intros tm d a Htm. destruct (inv_timer _ _ Hi' tm d a Htm) as (t & _ & _ & Hk & _).
    by rewrite Hr, lookup_empty in Hk.
  - unfold Start. clear -Hc'. induction conns as [|c l IH]; [done|]. cbn [range_do].
    by erewrite bind_done by by apply start_closed.
  - unfold CloseManager. erewrite bind_done by reflexivity. by rewrite Hc'.
Qed.

End Properties.

(** ** Witnesses *)

(** A world that only records what was pushed, to connections named by their
    handles; pushing to connection 9 fails. *)
Definition pushlog : Type := list (nat * string).

#[local] Instance pushlog_conn : SynpConn pushlog := {
  conn_ID l := ret (ConnID (MkUser 1 (N.of_nat l) DevicePC false));
  conn_Session l := ret (newSession (MkUser 1 (N.of_nat l) DevicePC false));
  conn_Send l p := modify (λ w, w ++ [(l, p)]) ;;; ret None;
  conn_UpdateActivityTime _ := ret tt;
  conn_Close _ := ret None;
}.

Definition log_push : PushFunc pushlog := λ l m,
  if bool_decide (l = 9) then ret (Some (EText "closed")) else conn_Send l (Body m).

Definition rts0 : RTS sim_map pushlog :=
  MkRTS (NewManager 0 0 (Some log_push)) ∅ ∅ 0 [].
Definition hello : Message := MkMessage COMMAND_TYPE_DOWNSTREAM "m1" "hi".
Definition pc (n : N) : User := MkUser 1 n DevicePC false.

(** Connections 7, 8 and 9 wait for an acknowledgement of [hello]. *)
Definition rts1 : RTS sim_map pushlog := final (Start [7; 8; 9] hello rts0).

Lemma Reachable_rts0 : Reachable rts0.
Proof. exists 0%Z, 0%Z, (Some log_push), 0, []. split; [by split|apply rtc_refl]. Qed.

Lemma Reachable_rts1 : Reachable rts1.
Proof.
  apply (Reachable_exec (EStart [7; 8; 9] hello) rts0); [exact Reachable_rts0|].
  unfold rts1, exec. apply result_done. by vm_compute.
Qed.

Example tasks_and_timers_witness : TotalTaskCnt rts1 = Done 3%Z rts1.
Proof. exact (proj1 (tasks_and_timers rts1 Reachable_rts1)). Defined.

(** The defaults, three allowed every 8 seconds: two sent, and in 20 seconds both. *)
Example retransmissions_exact_witness :
  ∃ s', (start 7 hello ;;; elapse 5 "1:7:pc:m1" 100 (100 + 20 * Second)) rts0
        = Done [((100 + 8 * Second)%Z, [(7, "hi")]); ((100 + 16 * Second)%Z, [(7, "hi"); (7, "hi")])] s' ∧
    is_Some (sm_view (tasks (mgr s')) !! "1:7:pc:m1").
Proof.
  destruct (retransmissions_exact 7 hello "1:7:pc" (λ _, True) (λ w, w ++ [(7, "hi")])
    (λ w, w ++ [(7, "hi")]) rts0 100 (100 + 20 * Second) 5 Reachable_rts0) as (_ & s' & E & _ & Hg);
    [reflexivity|reflexivity|reflexivity|by intros w _|done|vm_compute; lia|].
  exists s'. split; [exact E|]. apply Hg. vm_compute. lia.
Defined.

Example failed_push_stops_witness :
  ∃ s', elapse 5 "1:9:pc:m1" 0 Second rts1 = Done [] s' ∧
    elapse 5 "1:9:pc:m1" 0 (60 * Second) rts1 = Done [((8 * Second)%Z, [])] (final
      (elapse 5 "1:9:pc:m1" 0 (60 * Second) rts1)).
Proof.
  assert (waiting "1:9:pc:m1" 4 (MkTask "1:9:pc:m1" 9 hello (Some 5) 0) 5 (8 * Second) rts1) as Hw
    by by split_and!.
  destruct (failed_push_stops rts1 "1:9:pc:m1" 4 5 (MkTask "1:9:pc:m1" 9 hello (Some 5) 0) (8 * Second)
    (EText "closed") [] 0 (60 * Second) 5 Reachable_rts1 Hw) as (s' & E & _);
    [reflexivity|reflexivity|vm_compute; congruence|lia|].
  eexists. split; [eapply elapse_early; [exact Hw|reflexivity]|]. by rewrite E.
Defined.

Example Stop_exact_witness :
  ∃ s', Stop "1:8:pc" "m1" rts1 = Done tt s' ∧
    sm_view (tasks (mgr s')) !! "1:8:pc:m1" = None ∧
    sm_view (tasks (mgr s')) !! "1:7:pc:m1" = Some 0.
Proof.
  destruct (Stop_exact rts1 (pc 8) "m1" Reachable_rts1) as (s' & E & _ & _ & Hg & Hk); [reflexivity|].
  exists s'. split_and!; [exact E|exact Hg|].
  refine (eq_trans (Hk (pc 7) "m1" eq_refl _) eq_refl). intros ([_ [=]] & _).
Defined.

Example ClearByConn_exact_witness :
  ∃ s', ClearByConn "1:8:pc" rts1 = Done tt s' ∧
    sm_view (tasks (mgr s')) !! "1:8:pc:m1" = None ∧
    sm_view (tasks (mgr s')) !! "1:7:pc:m1" = Some 0.
Proof.
  destruct (ClearByConn_exact rts1 "1:8:pc" Reachable_rts1) as (s' & E & _ & Hk).
  { intros k a t _ _. by eexists. }
  exists s'. split_and!; [exact E|by rewrite Hk|by rewrite Hk].
Defined.

Example Close_final_witness :
  ∃ s', CloseManager rts1 = Done tt s' ∧ totalTaskCnt (mgr s') = 0%Z ∧
    Start [7] hello s' = Done tt s'.
Proof.
  destruct (Close_final rts1 [7] hello Reachable_rts1) as (s' & E & _ & _ & Ht & _ & Hs & _);
    [reflexivity|].
  exists s'. split_and!; [exact E|exact Ht|exact Hs].
Defined.
