(* ===== verification/Race.v ===== *)
(** The retransmit manager at the grain of its atomic operations
    ([internal/pkg/retransmit/manager.go]).  [Retransmit.v] runs each operation to its
    end; here [start], [Stop], [Close], [ClearByConn] and the timers' [run] are
    goroutines that interleave between any two operations on the [xsync.Map], the
    atomics and the timers.  A [Range] that deletes is a goroutine per key it yields,
    whatever the keys, so [Close] and [ClearByConn] have more interleavings here than
    in the code.  The counters do not wrap, and the connection, the message and the
    interval of a task are left out: [taskFunc] succeeds or fails as it likes. *)

From S2P Require Import Prelude.

Module Race.

(** A [Task]: its key, [retransmitCnt] and [timerPtr]. *)
Record RTask : Type := MkRTask {
  rkey : string;
  rcnt : nat;
  rptr : option nat;
}.

(** What a goroutine does next.  [start]: read [closed]; [LoadOrStore] with a new
    task; [AfterFunc]; store the pointer; count.  [run]: [Load]; count the
    retransmission; compare; push; [AfterFunc]; store the pointer.  [Stop]: [Load].
    [stopAndDelete]: [LoadAndDelete]; load the pointer; stop the timer; uncount. *)
Inductive pc : Type :=
  | SNew (key : string) | SStore (key : string) | SArm (a : nat) | SPtr (a tm : nat) | SAdd
  | RLoad (a : nat) | RInc (a : nat) | RCheck (a : nat) | RPush (a : nat) | RArm (a : nat)
  | RPtr (a tm : nat)
  | TLoad (key : string)
  | DLoad (key : string) | DStop (a : nat) | DTimer (tm : nat) | DAdd
  | Ret.

(** Tasks and timers by address ([tms]: the task and whether it is pending), the
    goroutines, and the tasks in the order of their pushes. *)
Record RS : Type := MkRS {
  tasks : gmap string nat;
  heap : list RTask;
  tms : list (nat * bool);
  total : Z;
  closed : bool;
  thr : list pc;
  pushed : list nat;
}.

Section Machine.
(** [maxRetryCnt] *)
Context (maxRetryCnt : nat).

Definition set_thr (x : list pc) (s : RS) : RS :=
  MkRS (tasks s) (heap s) (tms s) (total s) (closed s) x (pushed s).
Definition set_tasks (x : gmap string nat) (s : RS) : RS :=
  MkRS x (heap s) (tms s) (total s) (closed s) (thr s) (pushed s).
Definition set_heap (x : list RTask) (s : RS) : RS :=
  MkRS (tasks s) x (tms s) (total s) (closed s) (thr s) (pushed s).
Definition set_tms (x : list (nat * bool)) (s : RS) : RS :=
  MkRS (tasks s) (heap s) x (total s) (closed s) (thr s) (pushed s).
Definition add_total (d : Z) (s : RS) : RS :=
  MkRS (tasks s) (heap s) (tms s) (total s + d) (closed s) (thr s) (pushed s).
Definition push (a : nat) (s : RS) : RS :=
  MkRS (tasks s) (heap s) (tms s) (total s) (closed s) (thr s) (pushed s ++ [a]).

(** The next operation of a goroutine at [p], with what [taskFunc] answers if it
    pushes: the new state and where the goroutine is then. *)
Definition act (p : pc) (ok : bool) (s : RS) : option (pc * RS) :=
  match p with
  | SNew key => Some (if closed s then Ret else SStore key, s)
  | SStore key =>
      let a := length (heap s) in
      let s' := set_heap (heap s ++ [MkRTask key 0 None]) s in
      match tasks s !! key with
      | Some _ => Some (Ret, s')
      | None => Some (SArm a, set_tasks (<[key := a]> (tasks s)) s')
      end
  | SArm a => Some (SPtr a (length (tms s)), set_tms (tms s ++ [(a, true)]) s)
  | SPtr a tm =>
      t ← heap s !! a;
      Some (SAdd, set_heap (<[a := MkRTask (rkey t) (rcnt t) (Some tm)]> (heap s)) s)
  | SAdd => Some (Ret, add_total 1 s)
  | RLoad a =>
      t ← heap s !! a;
      Some (match tasks s !! rkey t with Some _ => RInc a | None => Ret end, s)
  | RInc a =>
      t ← heap s !! a;
      Some (RCheck a, set_heap (<[a := MkRTask (rkey t) (S (rcnt t)) (rptr t)]> (heap s)) s)
  | RCheck a =>
      t ← heap s !! a;
      Some (if maxRetryCnt <=? rcnt t then DLoad (rkey t) else RPush a, s)
  | RPush a =>
      t ← heap s !! a;
      Some (if ok then RArm a else DLoad (rkey t), push a s)
  | RArm a => Some (RPtr a (length (tms s)), set_tms (tms s ++ [(a, true)]) s)
  | RPtr a tm =>
      t ← heap s !! a;
      Some (Ret, set_heap (<[a := MkRTask (rkey t) (rcnt t) (Some tm)]> (heap s)) s)
  | TLoad key => Some (match tasks s !! key with Some _ => DLoad key | None => Ret end, s)
  | DLoad key =>
      match tasks s !! key with
      | Some a => Some (DStop a, set_tasks (delete key (tasks s)) s)
      | None => Some (Ret, s)
      end
  | DStop a =>
      t ← heap s !! a;
      Some (match rptr t with Some tm => DTimer tm | None => DAdd end, s)
  | DTimer tm =>
      x ← tms s !! tm;
      Some (DAdd, set_tms (<[tm := (x.1, false)]> (tms s)) s)
  | DAdd => Some (Ret, add_total (-1) s)
  | Ret => None
  end%nat.

(** Calls of [start] and [Stop]; [Close] and [ClearByConn], which delete the keys
    that their [Range] yields; a pending timer fires; goroutine [i] moves. *)
Inductive event : Type :=
  | EStart (key : string)
  | EStop (key : string)
  | EClose (keys : list string)
  | EClear (keys : list string)
  | EFire (tm : nat)
  | EStep (i : nat) (ok : bool).

Definition spawn (ps : list pc) (s : RS) : RS := set_thr (thr s ++ ps) s.

Definition exec (ev : event) (s : RS) : option RS :=
  match ev with
  | EStart key => Some (spawn [SNew key] s)
  | EStop key => Some (spawn [TLoad key] s)
  | EClose keys =>
      if closed s then Some s
      else Some (spawn (DLoad <$> keys)
                   (MkRS (tasks s) (heap s) (tms s) (total s) true (thr s) (pushed s)))
  | EClear keys => Some (spawn (DLoad <$> keys) s)
  | EFire tm =>
      x ← tms s !! tm;
      if (x.2 : bool) then Some (spawn [RLoad x.1] (set_tms (<[tm := (x.1, false)]> (tms s)) s))
      else None
  | EStep i ok =>
      p ← thr s !! i;
      r ← act p ok s;
      Some (set_thr (<[i := r.1]> (thr s)) r.2)
  end.

Definition step (s s' : RS) : Prop := ∃ ev, exec ev s = Some s'.

(** A schedule: the events in the order they happen. *)
Fixpoint exec_all (evs : list event) (s : RS) : option RS :=
  match evs with
  | [] => Some s
  | ev :: evs' => s' ← exec ev s; exec_all evs' s'
  end.

Definition initial : RS := MkRS ∅ [] [] 0 false [] [].

(** * Lemmas and properties *)

(** The goroutine has yet to make a timer for task [a], or to give the task up: [start]
    before its [AfterFunc], [run] before its own. *)
Definition before_timer (a : nat) (p : pc) : bool :=
  match p with
  | SArm b | RLoad b | RInc b | RCheck b | RPush b | RArm b => (b =? a)%nat
  | _ => false
  end.
(** It has pushed task [a] and made its next timer, whose pointer it has yet to store. *)
Definition storing (a : nat) (p : pc) : bool :=
  match p with RPtr b _ => (b =? a)%nat | _ => false end.
(** It is a [run] of task [a] that has neither returned nor gone on to delete. *)
Definition running (a : nat) (p : pc) : bool :=
  match p with
  | RLoad b | RInc b | RCheck b | RPush b | RArm b | RPtr b _ => (b =? a)%nat
  | _ => false
  end.
Definition has_pushed (a : nat) (p : pc) : bool :=
  match p with RArm b | RPtr b _ => (b =? a)%nat | _ => false end.
(** It has counted a retransmission that is not pushed yet. *)
Definition busy (a : nat) (p : pc) : bool :=
  match p with RCheck b | RPush b => (b =? a)%nat | _ => false end.
Definition at_push (a : nat) (p : pc) : bool :=
  match p with RPush b => (b =? a)%nat | _ => false end.
Definition armed (a : nat) (x : nat * bool) : bool := x.2 && (x.1 =? a)%nat.
(** Registered and not counted yet; deleted and still counted. *)
Definition uncounted (p : pc) : bool := match p with SArm _ | SPtr _ _ | SAdd => true | _ => false end.
Definition overcounted (p : pc) : bool := match p with DStop _ | DTimer _ | DAdd => true | _ => false end.

Definition pushes (l : list nat) (a : nat) : nat := count (λ b, (b =? a)%nat) l.
Definition cnt (h : list RTask) (a : nat) : nat := default 0 (rcnt <$> h !! a).

(** For one task, by the numbers: goroutines before its timer, pending timers, counted
    but not pushed, about to push, after the push, its counter, its pushes. *)
Record task_ok (a len chain timers busy pushing after cnt pushes : nat) : Prop := TaskOk {
  ok_chain : chain + timers ≤ 1;
  ok_fresh : len ≤ a → chain = 0 ∧ timers = 0;
  ok_cnt : pushes + busy ≤ cnt;
  ok_after : after ≤ pushes;
  ok_push : 0 < pushing → cnt < maxRetryCnt;
  ok_max : pushes ≤ maxRetryCnt - 1;
}.

Definition of_task (s : RS) (a : nat) : Prop :=
  task_ok a (length (heap s)) (count (before_timer a) (thr s)) (count (armed a) (tms s))
    (count (busy a) (thr s)) (count (at_push a) (thr s)) (count (has_pushed a) (thr s)) (cnt (heap s) a) (pushes (pushed s) a).

Record race_inv (s : RS) : Prop := RaceInv {
  ri_task a : of_task s a;
  ri_total : total s = (Z.of_nat (size (tasks s)) - Z.of_nat (count uncounted (thr s))
                        + Z.of_nat (count overcounted (thr s)))%Z;
}.

Lemma cnt_insert h b t t' a :
  h !! b = Some t → cnt (<[b := t']> h) a = if (b =? a)%nat then rcnt t' else cnt h a.
Proof.
  intros Hb. unfold cnt. destruct (Nat.eqb_spec b a) as [<-|Hne].
  - by rewrite list_lookup_insert_eq by by eapply lookup_lt_Some.
  - by rewrite list_lookup_insert_ne.
Qed.

Lemma cnt_some h b t : h !! b = Some t → cnt h b = rcnt t.
Proof. intros Hb. unfold cnt. by rewrite Hb. Qed.

Lemma cnt_snoc h key a : cnt (h ++ [MkRTask key 0 None]) a = cnt h a.
Proof.
  unfold cnt. destruct (decide (a < length h)) as [Hlt|Hge]; [by rewrite lookup_app_l|].
  rewrite (lookup_ge_None_2 h a) by lia. rewrite lookup_app_r by lia.
  by destruct (a - length h) as [|[|n]].
Qed.

Lemma pushes_snoc l b a : pushes (l ++ [b]) a = pushes l a + Nat.b2n (b =? a).
Proof. unfold pushes. rewrite count_app. cbn. lia. Qed.

Lemma busy_le a l : count (busy a) l ≤ count (before_timer a) l.
Proof. apply count_mono. by intros []. Qed.
Lemma push_le a l : count (at_push a) l ≤ count (busy a) l.
Proof. apply count_mono. by intros []. Qed.

Lemma armed_insert a l tm x :
  l !! tm = Some x → count (armed a) (<[tm := (x.1, false)]> l) + Nat.b2n (armed a x) = count (armed a) l.
Proof. intros Htm. pose proof (count_insert (armed a) _ tm (x.1, false) _ Htm) as Hc. cbn in Hc. lia. Qed.

(** The numbers of task [a] when goroutine [i] moves from [p] to [q]. *)
Ltac task_step a HE Ht :=
  pose proof (HE (before_timer a)); pose proof (HE (busy a)); pose proof (HE (at_push a));
  pose proof (HE (has_pushed a)); destruct (Ht a);
  repeat match goal with
    | H : count (busy a) (<[?i := ?q]> (thr ?s)) + _ = _ |- _ =>
        lazymatch goal with
        | _ : count (busy a) (<[i := q]> (thr s)) ≤ _ |- _ => fail
        | _ => pose proof (busy_le a (<[i := q]> (thr s))); pose proof (push_le a (<[i := q]> (thr s)));
               pose proof (busy_le a (thr s)); pose proof (push_le a (thr s))
        end
    end;
  repeat match goal with
    | H : tms ?s !! ?tm = Some ?x |- context [<[?tm := (?x.1, false)]> (tms ?s)] =>
        pose proof (armed_insert a _ _ _ H); revert H
    end; intros;
  unfold of_task; cbn [heap thr tms pushed set_thr set_heap set_tms set_tasks add_total push];
  rewrite ?length_app, ?length_insert, ?count_app, ?cnt_snoc, ?pushes_snoc;
  repeat match goal with
    | H : heap ?s !! ?b = Some ?t |- _ => rewrite ?(cnt_insert _ _ _ _ _ H); pose proof (cnt_some _ _ _ H); revert H
    end; intros;
  cbn [before_timer busy at_push has_pushed Nat.b2n count length armed fst snd andb rcnt rptr rkey] in *;
  repeat match goal with
    | |- context [(?b =? a)%nat] => destruct (Nat.eqb_spec b a); subst
    | H : context [(?b =? a)%nat] |- _ => destruct (Nat.eqb_spec b a); subst
    end; cbn [Nat.b2n] in *.

Lemma act_task i p ok q s1 s :
  (∀ a, of_task s a) → thr s !! i = Some p → act p ok s = Some (q, s1) →
  ∀ a, of_task (set_thr (<[i := q]> (thr s)) s1) a.
Proof.
  intros Ht Hi Ha a.
  assert (∀ P, count P (<[i := q]> (thr s)) + Nat.b2n (P p) = count P (thr s) + Nat.b2n (P q)) as HE
    by (intros P; by apply count_insert).
  destruct p; cbn [act] in Ha; simplify_option_eq; repeat case_match; simplify_eq.
  all: rewrite ?Nat.leb_le, ?Nat.leb_gt in *; task_step a HE Ht; split; lia.
Qed.

(** The counter. *)
Definition total_ok (s : RS) : Prop :=
  total s = (Z.of_nat (size (tasks s)) - Z.of_nat (count uncounted (thr s))
             + Z.of_nat (count overcounted (thr s)))%Z.

Lemma act_total i p ok q s1 s :
  total_ok s → thr s !! i = Some p → act p ok s = Some (q, s1) →
  total_ok (set_thr (<[i := q]> (thr s)) s1).
Proof.
  unfold total_ok. intros Ht Hi Ha.
  pose proof (count_insert uncounted _ i q _ Hi) as Hu.
  pose proof (count_insert overcounted _ i q _ Hi) as Ho.
  destruct p; cbn [act] in Ha; simplify_option_eq; repeat case_match; simplify_eq;
    cbn [total tasks thr set_thr set_heap set_tms set_tasks add_total push uncounted overcounted
         Nat.b2n] in *; try lia.
  - rewrite map_size_insert_None by done. lia.
  - assert (size (tasks s) ≠ 0) by (apply map_size_ne_0_lookup; by exists key, n).
    rewrite map_size_delete_Some by by eexists. lia.
Qed.

(** The goroutines of a task that matter to [task_ok]. *)
Definition concerns (a : nat) (p : pc) : bool := before_timer a p || has_pushed a p.

Lemma spawn_task ps s :
  (∀ a, Forall (λ p, concerns a p = false) ps) → (∀ a, of_task s a) → ∀ a, of_task (spawn ps s) a.
Proof.
  intros Hps Ht a. specialize (Ht a). unfold of_task, spawn, set_thr. cbn.
  assert (∀ P, (∀ p, P p = true → concerns a p = true) → count P (thr s ++ ps) = count P (thr s)) as Hc.
  { intros P HP. rewrite count_app.
    pose proof (count_mono P _ ps HP). pose proof (count_none (concerns a) _ (Hps a)). lia. }
  rewrite !Hc; [exact Ht|..]; unfold concerns; intros p Hp; destruct p; cbn in *; by rewrite ?Hp.
Qed.

Lemma spawn_total ps s :
  Forall (λ p, uncounted p = false ∧ overcounted p = false) ps → total_ok s → total_ok (spawn ps s).
Proof.
  intros Hps Ht. unfold total_ok, spawn, set_thr in *. cbn. rewrite !count_app.
  rewrite (count_none uncounted ps), (count_none overcounted ps); [lia|..]; eapply Forall_impl; try done;
    by intros p [].
Qed.

Lemma fire_task tm x s :
  tms s !! tm = Some x → x.2 = true → (∀ a, of_task s a) →
  ∀ a, of_task (spawn [RLoad x.1] (set_tms (<[tm := (x.1, false)]> (tms s)) s)) a.
Proof.
  intros Htm Hx Ht a. destruct (Ht a). pose proof (armed_insert a _ _ _ Htm) as Ha.
  assert (armed a x = (x.1 =? a)) as Hax by (unfold armed; by rewrite Hx).
  unfold of_task, spawn, set_thr, set_tms. cbn. rewrite !count_app. cbn [count before_timer busy at_push has_pushed].
  rewrite Hax in Ha. revert Ha. destruct (Nat.eqb_spec x.1 a); cbn; unfold pushes in *; intros; split; lia.
Qed.

Lemma spawn_close_task ks s :
  (∀ a, of_task s a) → ∀ a, of_task (spawn (DLoad <$> ks) s) a.
Proof. apply spawn_task. intros a. apply Forall_fmap, Forall_forall. by intros. Qed.

Lemma spawn_close_total ks s : total_ok s → total_ok (spawn (DLoad <$> ks) s).
Proof. apply spawn_total. apply Forall_fmap, Forall_forall. by intros. Qed.

Lemma exec_inv ev s s' : race_inv s → exec ev s = Some s' → race_inv s'.
Proof.
  intros [Ht Htot] He. change (total_ok s) in Htot. destruct ev as [k|k|ks|ks|tm|i ok]; cbn [exec] in He.
  - injection He as <-. split; [apply spawn_task|apply spawn_total]; try done; by repeat constructor.
  - injection He as <-. split; [apply spawn_task|apply spawn_total]; try done; by repeat constructor.
  - destruct (closed s); injection He as <-; [by split|].
    split; [by apply spawn_close_task|by apply spawn_close_total].
  - injection He as <-. split; [by apply spawn_close_task|by apply spawn_close_total].
  - destruct (tms s !! tm) as [x|] eqn:Htm; cbn in He; [|done].
    destruct (x.2) eqn:Hx; [|done]. injection He as <-. split; [by apply fire_task|].
    apply spawn_total; [by repeat constructor|exact Htot].
  - destruct (thr s !! i) as [p|] eqn:Hi; cbn in He; [|done].
    destruct (act p ok s) as [[q s1]|] eqn:Ha; cbn in He; [|done]. injection He as <-.
    split; [by eapply act_task|by eapply act_total].
Qed.

Lemma steps_inv s : rtc step initial s → race_inv s.
Proof.
  intros Hs. apply (rtc_preserve step race_inv) with (s := initial); [|done|].
  - intros s1 s2 H1 [ev He]. by eapply exec_inv.
  - split; [|done]. intros a. split; cbn; lia.
Qed.

(** ** After a [Stop] *)

(** The goroutine is inside [run], past its [Load]. *)
Definition in_flight (a : nat) (p : pc) : bool :=
  match p with RInc b | RCheck b | RPush b => (b =? a)%nat | _ => false end.
(** It is about to register a task under [key]. *)
Definition starting (key : string) (p : pc) : bool :=
  match p with SNew k | SStore k => String.eqb k key | _ => false end.

(** [key] is not registered and nobody registers it; task [a] of that key will be
    pushed no more than [n] times. *)
Record stopped (key : string) (a n : nat) (s : RS) : Prop := Stopped {
  st_gone : tasks s !! key = None;
  st_none : count (starting key) (thr s) = 0;
  st_task : ∃ t, heap s !! a = Some t ∧ rkey t = key;
  st_push : pushes (pushed s) a + count (in_flight a) (thr s) ≤ n;
}.

Lemma heap_key (h : list RTask) b t t' a key :
  h !! b = Some t → rkey t' = rkey t → (∃ u, h !! a = Some u ∧ rkey u = key) →
  ∃ u, <[b := t']> h !! a = Some u ∧ rkey u = key.
Proof.
  intros Hb Ht (u & Hu & Hk). destruct (decide (b = a)) as [->|Hne].
  - exists t'. rewrite list_lookup_insert_eq by by eapply lookup_lt_Some.
    split; [done|]. congruence.
  - exists u. by rewrite list_lookup_insert_ne.
Qed.

Lemma heap_key_snoc (h : list RTask) t a key :
  (∃ u, h !! a = Some u ∧ rkey u = key) → ∃ u, (h ++ [t]) !! a = Some u ∧ rkey u = key.
Proof. intros (u & Hu & Hk). exists u. split; [by apply lookup_app_l_Some|done]. Qed.

Lemma act_stopped key a n i p ok q s1 s :
  stopped key a n s → thr s !! i = Some p → act p ok s = Some (q, s1) →
  stopped key a n (set_thr (<[i := q]> (thr s)) s1).
Proof.
  intros [Hg Hn Hk Hp] Hi Ha.
  pose proof (count_insert (starting key) _ i q _ Hi) as Hs.
  pose proof (count_insert (in_flight a) _ i q _ Hi) as Hf.
  destruct p; cbn [act] in Ha; simplify_option_eq; repeat case_match; simplify_eq;
    cbn [starting in_flight Nat.b2n] in Hs, Hf;
    split; cbn [tasks thr heap pushed set_thr set_heap set_tms set_tasks add_total push];
    rewrite ?pushes_snoc;
    try (eauto using heap_key, heap_key_snoc; fail);
    try lia.
  - rewrite lookup_insert_ne; [done|]. intros ->. rewrite String.eqb_refl in Hs. cbn in Hs. lia.
  - destruct (Nat.eqb_spec a0 a) as [->|]; cbn in Hf; [|lia]. destruct Hk as (u & Hu & Hk). congruence.
  - apply lookup_delete_None. by right.
Qed.

Lemma spawn_stopped key a n ps s :
  Forall (λ p, starting key p = false ∧ in_flight a p = false) ps →
  stopped key a n s → stopped key a n (spawn ps s).
Proof.
  intros Hps [Hg Hn Hk Hp].
  assert (count (starting key) ps = 0 ∧ count (in_flight a) ps = 0) as [Hs Hf]
    by (split; apply count_none; eapply Forall_impl; try done; by intros p []).
  split; cbn; rewrite ?count_app, ?Hs, ?Hf; try done; unfold pushes in Hp; lia.
Qed.

Definition starts (key : string) (ev : event) : Prop :=
  match ev with EStart k => k = key | _ => False end.

Lemma exec_stopped key a n ev s s' :
  ~ starts key ev → stopped key a n s → exec ev s = Some s' → stopped key a n s'.
Proof.
  intros Hev Hst He. destruct ev as [k|k|ks|ks|tm|i ok]; cbn [exec] in He.
  - injection He as <-. apply spawn_stopped; [|done]. repeat constructor. cbn in *. by apply String.eqb_neq.
  - injection He as <-. apply spawn_stopped; [|done]. by repeat constructor.
  - destruct (closed s); injection He as <-; [done|].
    apply spawn_stopped; [apply Forall_fmap, Forall_forall; by intros|]. by destruct Hst; split.
  - injection He as <-. apply spawn_stopped; [apply Forall_fmap, Forall_forall; by intros|done].
  - destruct (tms s !! tm) as [x|] eqn:Htm; cbn in He; [|done].
    destruct (x.2); [|done]. injection He as <-.
    apply spawn_stopped; [by repeat constructor|]. by destruct Hst; split.
  - destruct (thr s !! i) as [p|] eqn:Hi; cbn in He; [|done].
    destruct (act p ok s) as [[q s1]|] eqn:Ha; cbn in He; [|done]. injection He as <-.
    by eapply act_stopped.
Qed.

Definition quiet_step (key : string) (s s' : RS) : Prop :=
  ∃ ev, ~ starts key ev ∧ exec ev s = Some s'.

Lemma flight_le a l : count (in_flight a) l ≤ count (before_timer a) l.
Proof. apply count_mono. by intros []. Qed.

(** ** Properties *)

Lemma running_le a l : count (running a) l ≤ count (before_timer a) l + count (has_pushed a) l.
Proof.
  induction l as [|p l IH]; [done|]. cbn [count]. destruct p; cbn [running before_timer has_pushed Nat.b2n]; lia.
Qed.

(** C15. However [start], [Stop], [ClearByConn], [Close] and the timers interleave, a task
    is pushed at most [maxRetryCnt - 1] times; it has at most one timer pending or goroutine
    that has yet to make its next timer, so only one goroutine at a time is on its way to
    a push; and at most [maxRetryCnt] goroutines (at least one is allowed) are inside its
    [run], all but one of them past their push: a [run] that has made the next timer and
    has yet to store the pointer may overlap with the [run] which that timer starts. *)
Theorem race_pushes_bounded s a :
  rtc step initial s →
  (pushes (pushed s) a ≤ maxRetryCnt - 1 ∧
   count (before_timer a) (thr s) + count (armed a) (tms s) ≤ 1 ∧
   count (running a) (thr s) ≤ S (maxRetryCnt - 1))%nat.
Proof.
  intros [Ht _]%steps_inv. destruct (Ht a). pose proof (running_le a (thr s)). split_and!; lia.
Qed.

(** [totalTaskCnt] lags behind the map only by operations that are under way: with
    none of them, it is the number of registered tasks. *)
Theorem race_counter s :
  rtc step initial s →
  count uncounted (thr s) = 0 → count overcounted (thr s) = 0 →
  total s = Z.of_nat (size (tasks s)).
Proof. intros [_ Ht]%steps_inv Hu Ho. rewrite Ht, Hu, Ho. lia. Qed.

(** C16. Once a key is deleted and nobody registers it again, each of its tasks is pushed
    at most once more, by a timer that fired before: whatever else goes on. *)
Theorem race_stop s s' key a t :
  rtc step initial s →
  tasks s !! key = None → count (starting key) (thr s) = 0 →
  heap s !! a = Some t → rkey t = key →
  rtc (quiet_step key) s s' →
  (pushes (pushed s') a ≤ S (pushes (pushed s) a))%nat.
Proof.
  intros [Ht _]%steps_inv Hg Hn Ha Hk Hs.
  assert (stopped key a (S (pushes (pushed s) a)) s) as Hst.
  { destruct (Ht a). pose proof (flight_le a (thr s)). split; [done|done|by exists t|lia]. }
  destruct (rtc_preserve (quiet_step key) (stopped key a (S (pushes (pushed s) a))) ltac:(
    intros s1 s2 H1 (ev & Hev & He); by eapply exec_stopped) _ _ Hs Hst). lia.
Qed.

Lemma exec_all_rtc evs s s' : exec_all evs s = Some s' → rtc step s s'.
Proof.
  revert s. induction evs as [|ev evs IH]; cbn; intros s He; [by injection He as ->|].
  destruct (exec ev s) as [s1|] eqn:H1; cbn in He; [|done]. eapply rtc_l; [by exists ev|auto].
Qed.

Lemma exec_all_quiet key evs s s' :
  Forall (λ ev, ~ starts key ev) evs → exec_all evs s = Some s' → rtc (quiet_step key) s s'.
Proof.
  intros Hq. revert s. induction Hq as [|ev evs Hev _ IH]; cbn; intros s He; [by injection He as ->|].
  destruct (exec ev s) as [s1|] eqn:H1; cbn in He; [|done]. eapply rtc_l; [by exists ev|auto].
Qed.

End Machine.

(** Goroutine [i] makes [n] moves whose pushes succeed. *)
Definition moves (n i : nat) : list event := repeat (EStep i true) n.

(** The timer [tm] of a task fires and the new goroutine [i] of [run] passes its [Load];
    meanwhile the task is acknowledged and the message pushed again, so it has a new
    task. *)
Definition acked (key : string) (tm i : nat) : list event :=
  [EFire tm; EStep i true; EStop key] ++ moves 5 (S i).
Definition renewed (key : string) (tm i : nat) : list event :=
  acked key tm i ++ [EStart key] ++ moves 5 (S (S i)).
(** The old [run] goes on; its push fails. *)
Definition push_fails (i : nat) : list event := moves 2 i ++ [EStep i false] ++ moves 4 i.

Section Stale.
Context (maxRetryCnt : nat).

Abbreviation runs evs s s' := (exec_all maxRetryCnt evs s = Some s').

Lemma race_runs_cons ev evs s s1 s2 : exec maxRetryCnt ev s = Some s1 → runs evs s1 s2 → runs (ev :: evs) s s2.
Proof. intros E1 E2. cbn [exec_all]. by rewrite E1. Qed.

Lemma race_runs_app evs1 evs2 s s1 s2 : runs evs1 s s1 → runs evs2 s1 s2 → runs (evs1 ++ evs2) s s2.
Proof.
  revert s. induction evs1 as [|ev evs1 IH]; cbn; intros s E1 E2; [by injection E1 as ->|].
  destruct (exec maxRetryCnt ev s) as [s'|]; cbn in *; [by apply IH|done].
Qed.

(** The goroutine after those of [l] moves. *)
Lemma race_exec_move i l p r ok q s s' :
  thr s = l ++ p :: r → i = length l → act maxRetryCnt p ok s = Some (q, s') →
  exec maxRetryCnt (EStep i ok) s = Some (set_thr (l ++ q :: r) s').
Proof.
  intros Hs -> Ha. cbn [exec]. rewrite Hs, list_lookup_middle by done. cbn [mbind option_bind].
  rewrite Ha. cbn. by rewrite insert_app_r_alt, Nat.sub_diag by done.
Qed.

(** A move of goroutine [length l] that [act] evaluates, given what it looks up. *)
Ltac next Hlookup :=
  eapply race_runs_cons;
  [eapply race_exec_move; [reflexivity|done|cbn; rewrite ?Hlookup; cbn; reflexivity]|
   cbn [set_thr set_tasks set_heap set_tms add_total push tasks heap tms total closed thr pushed]].

(** [stopAndDelete] of a registered task, from its [LoadAndDelete] on. *)
Lemma delete_runs i l r ts h tms tot cl pu key a t tm x :
  i = length l → ts !! key = Some a → h !! a = Some t → rptr t = Some tm → tms !! tm = Some x →
  runs (moves 4 i) (MkRS ts h tms tot cl (l ++ DLoad key :: r) pu)
    (MkRS (delete key ts) h (<[tm := (x.1, false)]> tms) (tot - 1) cl (l ++ Ret :: r) pu).
Proof.
  intros Hi Hk Ha Hp Htm. unfold moves. cbn [repeat].
  next Hk. eapply race_runs_cons; [eapply race_exec_move; [reflexivity|done|cbn; rewrite Ha; cbn; by rewrite Hp]|].
  cbn [set_thr tasks heap thr pushed]. next Htm. next Hi. done.
Qed.

Lemma stop_runs i l ts h tms tot cl pu key a t tm x :
  i = length l → ts !! key = Some a → h !! a = Some t → rptr t = Some tm → tms !! tm = Some x →
  runs (EStop key :: moves 5 i) (MkRS ts h tms tot cl l pu)
    (MkRS (delete key ts) h (<[tm := (x.1, false)]> tms) (tot - 1) cl (l ++ [Ret]) pu).
Proof.
  intros Hi Hk Ha Hp Htm. eapply race_runs_cons; [reflexivity|]. unfold moves, spawn.
  cbn [repeat set_thr tasks heap Race.tms total closed thr pushed]. next Hk. by eapply delete_runs.
Qed.

(** A [start] of a key that has no task. *)
Lemma start_runs i l ts h tms tot pu key :
  i = length l → ts !! key = None →
  runs (EStart key :: moves 5 i) (MkRS ts h tms tot false l pu)
    (MkRS (<[key := length h]> ts) (h ++ [MkRTask key 0 (Some (length tms))])
       (tms ++ [(length h, true)]) (tot + 1) false (l ++ [Ret]) pu).
Proof.
  intros Hi Hk. eapply race_runs_cons; [reflexivity|]. unfold moves, spawn.
  cbn [repeat set_thr tasks heap Race.tms total closed thr pushed].
  next Hi. next Hk. next Hi.
  eapply race_runs_cons.
  { eapply race_exec_move; [reflexivity|done|]. cbn. rewrite list_lookup_middle by done. cbn.
    by rewrite insert_app_r_alt, Nat.sub_diag by done. }
  cbn [set_thr set_heap tasks heap Race.tms total closed thr pushed]. next Hi. done.
Qed.

(** A [run] that counted nothing yet and whose push fails deletes the task of the key,
    which is [b]. *)
Lemma push_fails_runs i l r ts h tms tot cl pu key a b c p tm x t :
  i = length l → S c < maxRetryCnt → a ≠ b →
  h !! a = Some (MkRTask key c p) → ts !! key = Some b →
  h !! b = Some t → rptr t = Some tm → tms !! tm = Some x →
  runs (push_fails i) (MkRS ts h tms tot cl (l ++ RInc a :: r) pu)
    (MkRS (delete key ts) (<[a := MkRTask key (S c) p]> h) (<[tm := (x.1, false)]> tms) (tot - 1) cl
       (l ++ Ret :: r) (pu ++ [a])).
Proof.
  intros Hi Hc Hab Ha Hk Hb Hp Htm.
  assert (<[a := MkRTask key (S c) p]> h !! a = Some (MkRTask key (S c) p)) as Ha'
    by (apply list_lookup_insert_eq; by eapply lookup_lt_Some).
  unfold push_fails, moves. cbn [repeat app]. next Ha.
  eapply race_runs_cons.
  { eapply race_exec_move; [reflexivity|done|]. cbn. rewrite Ha'. cbn [mbind option_bind rcnt].
    by rewrite (proj2 (Nat.leb_gt _ _)). }
  cbn [set_thr tasks heap Race.tms total closed thr pushed]. next Ha'.
  eapply delete_runs; [done|done| |done|done]. by rewrite list_lookup_insert_ne.
Qed.

(** The timer of [a] fires, [run] finds the task, the key is stopped and made again. *)
Lemma renewed_runs ts h tms tot th pu key a tm c :
  ts !! key = Some a → h !! a = Some (MkRTask key c (Some tm)) → tms !! tm = Some (a, true) →
  let tms2 := <[tm := (a, false)]> (<[tm := (a, false)]> tms) in
  exec_all maxRetryCnt (renewed key tm (length th)) (MkRS ts h tms tot false th pu) =
  Some (MkRS (<[key := length h]> (delete key ts)) (h ++ [MkRTask key 0 (Some (length tms2))])
    (tms2 ++ [(length h, true)]) (tot - 1 + 1) false (((th ++ [RInc a]) ++ [Ret]) ++ [Ret]) pu).
Proof.
  intros Hk Ha Htm tms2.
  assert (<[tm := (a, false)]> tms !! tm = Some (a, false)) as Htm1
    by (apply list_lookup_insert_eq; by eapply lookup_lt_Some).
  change (renewed key tm (length th)) with
    ((EFire tm :: EStep (length th) true :: EStop key :: moves 5 (S (length th))) ++
     (EStart key :: moves 5 (S (S (length th))))).
  refine (race_runs_app _ _ _ _ _ _ (start_runs (S (S (length th))) ((th ++ [RInc a]) ++ [Ret])
    (delete key ts) h tms2 (tot - 1) pu key _ (lookup_delete_eq _ _))).
  - eapply race_runs_cons; [cbn; by rewrite Htm|]. unfold spawn. cbn [set_thr set_tms tasks heap Race.tms total closed thr pushed].
    eapply race_runs_cons; [eapply race_exec_move; [reflexivity|done|cbn; rewrite Ha; cbn; by rewrite Hk]|].
    cbn [set_thr tasks heap Race.tms total closed thr pushed].
    eapply (stop_runs _ _ _ _ _ _ _ _ _ a _ tm (a, false)); try done. rewrite length_app. cbn. lia.
  - rewrite !length_app. cbn. lia.
Qed.

(** C18. A stale timer deletes a task it does not know.  Take any state the manager
    reaches in which a task waits for its timer and has retries left.  The timer may fire
    and [run] find the task just before it is acknowledged and the message is pushed
    again: the key then has a new task [b], counted and with a timer of its own.  When the
    old [run] goes on and its push fails, it deletes by key: now the key has no task,
    the new task's timer is stopped and the counter is one less, though the new task was
    never pushed and nobody stopped it. *)
Theorem race_stale_delete s key a tm c :
  rtc (step maxRetryCnt) initial s → closed s = false →
  tasks s !! key = Some a → heap s !! a = Some (MkRTask key c (Some tm)) →
  tms s !! tm = Some (a, true) → S c < maxRetryCnt →
  let i := length (thr s) in
  let b := length (heap s) in
  ∃ s1 s2,
    exec_all maxRetryCnt (renewed key tm i) s = Some s1 ∧
    (tasks s1 = <[key := b]> (tasks s) ∧ total s1 = total s ∧ pushed s1 = pushed s ∧
     count (armed b) (tms s1) = 1 ∧ thr s1 = thr s ++ [RInc a; Ret; Ret]) ∧
    exec_all maxRetryCnt (push_fails i) s1 = Some s2 ∧
    (tasks s2 = delete key (tasks s) ∧ total s2 = (total s - 1)%Z ∧ pushed s2 = pushed s ++ [a] ∧
     count (armed b) (tms s2) = 0 ∧ b ≠ a ∧ thr s2 = thr s ++ [Ret; Ret; Ret]).
Proof.
  intros Hs Hc Hk Ha Htm Hcnt i b.
  assert (count (armed b) (tms s) = 0) as Hb.
  { destruct (ri_task _ _ (steps_inv _ s Hs) b) as [_ Hf _ _ _ _]. by apply Hf. }
  assert (b ≠ a) as Hne by (apply lookup_lt_Some in Ha; unfold b; lia).
  destruct s as [ts h tms tot cl th pu].
  cbn [tasks heap Race.tms total closed thr pushed] in *. subst i b cl.
  set (tms2 := <[tm := (a, false)]> (<[tm := (a, false)]> tms)).
  assert (<[tm := (a, false)]> tms !! tm = Some (a, false)) as Htm1
    by (apply list_lookup_insert_eq; by eapply lookup_lt_Some).
  assert (count (armed (length h)) tms2 = 0) as Hb2.
  { pose proof (armed_insert (length h) _ _ _ Htm). pose proof (armed_insert (length h) _ _ _ Htm1). cbn in *. unfold tms2. lia. }
  assert ((tms2 ++ [(length h, true)]) !! length tms2 = Some (length h, true)) as Hnew by by apply list_lookup_middle.
  exists (MkRS (<[key := length h]> (delete key ts)) (h ++ [MkRTask key 0 (Some (length tms2))])
    (tms2 ++ [(length h, true)]) (tot - 1 + 1) false (((th ++ [RInc a]) ++ [Ret]) ++ [Ret]) pu).
  eexists. split; [|split; [split_and!|split; [rewrite <- !app_assoc; eapply push_fails_runs; try done|split_and!]]].
  - by eapply renewed_runs.
  - by rewrite insert_delete_eq.
  - cbn. lia.
  - done.
  - cbn. rewrite count_app, Hb2. cbn. by rewrite Nat.eqb_refl.
  - cbn. by rewrite <- !app_assoc.
  - by apply lookup_app_l_Some.
  - apply lookup_insert_eq.
  - by apply list_lookup_middle.
  - reflexivity.
  - cbn. by rewrite delete_insert_eq, delete_delete_eq.
  - cbn. lia.
  - done.
  - pose proof (armed_insert (length h) _ _ _ Hnew) as Hcount. rewrite count_app, Hb2 in Hcount. cbn in Hcount.
    rewrite Nat.eqb_refl in Hcount. cbn in *. lia.
  - done.
  - done.
Qed.

End Stale.

(** [start] reads [closed] before it registers: with [Close] in between, the closed
    manager has a task, and pushes it. *)
Definition late_start : list event :=
  [EStart "c:m"; EStep 0 true; EClose []] ++ moves 4 0 ++ [EFire 0] ++ moves 4 1.

Theorem race_start_after_close :
  ∃ s, exec_all 3 late_start initial = Some s ∧
    closed s = true ∧ tasks s !! "c:m" = Some 0 ∧ pushed s = [0].
Proof. eexists. by vm_compute. Qed.

(** ** Witnesses *)

(** A task is registered and waits for its timer. *)
Definition registered : list event := [EStart "c:m"] ++ moves 5 0.

Definition state_of (evs : list event) : RS := default initial (exec_all 3 evs initial).

Example race_pushes_bounded_witness :
  pushed (state_of late_start) = [0] ∧ pushes (pushed (state_of late_start)) 0 ≤ 2.
Proof.
  split; [by vm_compute|].
  apply (race_pushes_bounded 3 (state_of late_start) 0), (exec_all_rtc 3 late_start). by vm_compute.
Defined.

(** Two goroutines inside [run] of one task: the first has made timer 1, and before it
    stores the pointer the timer fires. *)
Example runs_overlap :
  let s := state_of ([EStart "c:m"] ++ moves 5 0 ++ [EFire 0] ++ moves 5 1 ++ [EFire 1]) in
  thr s = [Ret; RPtr 0 1; RLoad 0] ∧ count (running 0) (thr s) = 2.
Proof. by vm_compute. Qed.

Example race_counter_witness :
  total (state_of (registered ++ acked "c:m" 0 1)) = Z.of_nat (size (tasks (state_of (registered ++ acked "c:m" 0 1)))).
Proof.
  apply (race_counter 3); [|by vm_compute..]. apply (exec_all_rtc 3 (registered ++ acked "c:m" 0 1)). by vm_compute.
Defined.

(** The push of the old [run] comes after the stop. *)
Example race_stop_witness :
  let s' := state_of (registered ++ acked "c:m" 0 1 ++ moves 3 1) in
  pushed (state_of (registered ++ acked "c:m" 0 1)) = [] ∧ pushed s' = [0] ∧ pushes (pushed s') 0 ≤ 1.
Proof.
  split; [by vm_compute|]. split; [by vm_compute|].
  eapply (race_stop 3 (state_of (registered ++ acked "c:m" 0 1)) _ "c:m" 0); [| | |by vm_compute|done|].
  - apply (exec_all_rtc 3 (registered ++ acked "c:m" 0 1)). by vm_compute.
  - by vm_compute.
  - by vm_compute.
  - apply (exec_all_quiet 3 "c:m" (moves 3 1)); [|by vm_compute]. repeat constructor; by intros [].
Defined.

Example race_stale_delete_witness :
  ∃ s1 s2, exec_all 3 (renewed "c:m" 0 1) (state_of registered) = Some s1 ∧
    exec_all 3 (push_fails 1) s1 = Some s2 ∧
    tasks s1 !! "c:m" = Some 1 ∧ tasks s2 !! "c:m" = None ∧ pushed s2 = [0].
Proof.
  destruct (race_stale_delete 3 (state_of registered) "c:m" 0 0 0)
    as (s1 & s2 & E1 & (Hk1 & _) & E2 & Hk2 & _ & Hp & _); [|by vm_compute| |by vm_compute|by vm_compute|lia|].
  - apply (exec_all_rtc 3 registered). by vm_compute.
  - by vm_compute.
  - exists s1, s2. split; [exact E1|]. split; [exact E2|]. rewrite Hk1, Hk2, Hp.
    split_and!; [apply lookup_insert_eq|apply lookup_delete_eq|vm_compute; reflexivity].
Defined.
End Race.
