(* ===== verification/RaceSim.v ===== *)
(** The two models of the retransmit manager agree: every history of [Retransmit.v],
    where each operation runs to its end, is a schedule of [Race.v], in which the
    operation's goroutine moves alone. *)

From S2P Require Import Prelude Env Sim Session Iface Retransmit Race.

(** ** Running a goroutine of [Race] alone *)

Section Solo.
Context (maxRetryCnt : nat).
Abbreviation RS := Race.RS.
Implicit Types (r : RS) (k : string) (b tm c i : nat).

(** One action after the other, whatever the pushes answer. *)
Definition acts : relation (Race.pc * RS) :=
  rtc (λ x y, ∃ ok, Race.act maxRetryCnt x.1 ok x.2 = Some y).

Lemma act_set_thr p ok l r :
  Race.act maxRetryCnt p ok (Race.set_thr l r)
  = prod_map id (Race.set_thr l) <$> Race.act maxRetryCnt p ok r.
Proof.
  destruct p; cbn; try done; repeat case_match; try done;
    match goal with |- context [?o ≫= _] => by destruct o end.
Qed.

Lemma acts_one ok p r q r' x :
  Race.act maxRetryCnt p ok r = Some (q, r') → acts (q, r') x → acts (p, r) x.
Proof. intros Ha Hx. eapply rtc_l; [exists ok; exact Ha|exact Hx]. Qed.

(** The goroutine's actions in the middle of the others. *)
Lemma acts_steps p r q r' i l :
  acts (p, r) (q, r') → l !! i = Some p →
  rtc (Race.step maxRetryCnt) (Race.set_thr l r) (Race.set_thr (<[i := q]> l) r').
Proof.
  intros Ha. remember (p, r) as x eqn:Hx. remember (q, r') as y eqn:Hy.
  revert p r l Hx Hy. induction Ha as [x|x [p1 r1] y [ok Ha] _ IH]; intros p r l -> Hy Hi.
  - injection Hy as -> ->. by rewrite list_insert_id.
  - cbn [fst snd] in Ha. apply (rtc_l _ _ (Race.set_thr (<[i := p1]> l) r1)).
    + exists (Race.EStep i ok). unfold Race.exec. cbn [Race.thr Race.set_thr]. rewrite Hi.
      cbn [mbind option_bind]. by rewrite act_set_thr, Ha.
    + rewrite <- (list_insert_insert_eq l i q p1).
      apply (IH p1 r1 (<[i := p1]> l)); [done..|]. apply list_lookup_insert_eq. by eapply lookup_lt_Some.
Qed.

(** No goroutine is under way. *)
Definition quiet r : Prop := ∀ p, p ∈ Race.thr r → p = Race.Ret.

(** A spawned goroutine runs to its end, alone. *)
Lemma solo_run p r r' :
  acts (p, r) (Race.Ret, r') → quiet r →
  ∃ r'', rtc (Race.step maxRetryCnt) (Race.spawn [p] r) r'' ∧ quiet r'' ∧
    ∃ l, r'' = Race.set_thr l r'.
Proof.
  intros Ha Hq. pose proof (acts_steps p r Race.Ret r' (length (Race.thr r)) (Race.thr r ++ [p]) Ha) as Hs.
  eexists. split; [apply Hs; by rewrite lookup_app_r, Nat.sub_diag|]. split; [|by eexists].
  intros p' Hp. cbn [Race.thr Race.set_thr] in Hp. rewrite insert_app_r_alt, Nat.sub_diag in Hp by done.
  apply elem_of_app in Hp as [Hp|Hp]; [by apply Hq|]. by apply list_elem_of_singleton in Hp.
Qed.

(** ** What the actions do, by key *)

(** The key has a task that waits for its timer, having been counted [c] times. *)
Definition live r k c : Prop :=
  ∃ b t tm, Race.tasks r !! k = Some b ∧ Race.heap r !! b = Some t ∧ Race.rkey t = k ∧
    Race.rcnt t = c ∧ Race.rptr t = Some tm ∧ Race.tms r !! tm = Some (b, true).

(** The task of [k], if it has one, is its own. *)
Definition owned r k : Prop :=
  ∀ b, Race.tasks r !! k = Some b →
    ∃ t tm x, Race.heap r !! b = Some t ∧ Race.rkey t = k ∧ Race.rptr t = Some tm ∧
      Race.tms r !! tm = Some (b, x).

(** Live tasks of the other keys are left as they are. *)
Definition others k r r' : Prop :=
  Race.closed r' = Race.closed r ∧
  (∀ k', k' ≠ k → Race.tasks r !! k' = None → Race.tasks r' !! k' = None) ∧
  ∀ k' c, k' ≠ k → live r k' c → live r' k' c.

Lemma live_owned r k c : live r k c → owned r k.
Proof.
  intros (b & t & tm & Hk & Hb & Ht & _ & Hp & Hm) b' Hb'.
  rewrite Hk in Hb'. injection Hb' as <-. by exists t, tm, true.
Qed.

Lemma acts_delete r k :
  owned r k → ∃ r', acts (Race.DLoad k, r) (Race.Ret, r') ∧ Race.tasks r' !! k = None ∧ others k r r'.
Proof.
  intros Ho. destruct (Race.tasks r !! k) as [b|] eqn:Hk.
  - destruct (Ho b Hk) as (t & tm & x & Hb & Ht & Hp & Hm). eexists. split.
    { eapply (acts_one true); [cbn; rewrite Hk; reflexivity|].
      eapply (acts_one true); [cbn; rewrite Hb; cbn; rewrite Hp; reflexivity|].
      eapply (acts_one true); [cbn; rewrite Hm; reflexivity|].
      eapply (acts_one true); [reflexivity|]. apply rtc_refl. }
    cbn. split; [apply lookup_delete_eq|]. split; [done|]. split.
    + intros k' Hne Hn. cbn. by rewrite lookup_delete_ne by done.
    + intros k' c Hne (b' & t' & tm' & Hk' & Hb' & Ht' & Hc & Hp' & Hm').
      exists b', t', tm'. cbn. rewrite lookup_delete_ne by done. split_and!; try done.
      rewrite list_lookup_insert_ne; [done|]. intros ->. rewrite Hm in Hm'. injection Hm' as -> _.
      congruence.
  - exists r. split; [|done]. eapply (acts_one true); [cbn; rewrite Hk; reflexivity|apply rtc_refl].
Qed.

Lemma acts_start r k :
  ∃ r', acts (Race.SNew k, r) (Race.Ret, r') ∧ others k r r' ∧
    if Race.closed r then r' = r
    else match Race.tasks r !! k with
         | Some _ => ∀ c, live r k c → live r' k c
         | None => live r' k 0
         end.
Proof.
  destruct (Race.closed r) eqn:Hcl.
  { exists r. split; [|done]. eapply (acts_one true); [cbn; rewrite Hcl; reflexivity|apply rtc_refl]. }
  assert (∀ x k' c, live r k' c → live (Race.set_heap (Race.heap r ++ [x]) r) k' c) as Hheap.
  { intros x k' c (b & t & tm & ? & Hb & ?). exists b, t, tm. split_and!; try tauto.
    cbn. by apply lookup_app_l_Some. }
  destruct (Race.tasks r !! k) as [b|] eqn:Hk.
  - eexists. split.
    { eapply (acts_one true); [cbn; rewrite Hcl; reflexivity|].
      eapply (acts_one true); [cbn; rewrite Hk; reflexivity|]. apply rtc_refl. }
    split; [|intros c; apply Hheap]. split; [done|]. split; [done|]. intros k' c _. apply Hheap.
  - set (b := length (Race.heap r)). set (tm := length (Race.tms r)).
    set (h := Race.heap r ++ [Race.MkRTask k 0 None]).
    assert (h !! b = Some (Race.MkRTask k 0 None)) as Hb
      by (unfold h, b; by rewrite lookup_app_r, Nat.sub_diag).
    eexists. split.
    { eapply (acts_one true); [cbn; rewrite Hcl; reflexivity|].
      eapply (acts_one true); [cbn; rewrite Hk; reflexivity|].
      eapply (acts_one true); [reflexivity|].
      eapply (acts_one true); [cbn; fold h b; rewrite Hb; reflexivity|].
      eapply (acts_one true); [reflexivity|]. apply rtc_refl. }
    cbn. fold h b tm. split; [split; [done|split]|].
    + intros k' Hne Hn. cbn. by rewrite lookup_insert_ne.
    + intros k' c Hne (b' & t' & tm' & Hk' & Hb' & Ht' & Hc & Hp' & Hm').
      exists b', t', tm'. cbn. rewrite lookup_insert_ne by done. split_and!; try done.
      * apply lookup_lt_Some in Hb' as Hlt. rewrite list_lookup_insert_ne by (unfold b; lia).
        by apply lookup_app_l_Some.
      * by apply lookup_app_l_Some.
    + exists b, (Race.MkRTask k 0 (Some tm)), tm. cbn. rewrite lookup_insert_eq.
      rewrite list_lookup_insert_eq by by eapply lookup_lt_Some.
      split_and!; try done. unfold tm. by rewrite lookup_app_r, Nat.sub_diag.
Qed.

Lemma others_trans k r1 r2 r3 : others k r1 r2 → others k r2 r3 → others k r1 r3.
Proof. intros (C1 & N1 & L1) (C2 & N2 & L2). split; [congruence|]. split; eauto. Qed.

(** The task of the key is written to, and something is pushed. *)
Lemma others_task r k b t t' (f : RS → RS) :
  Race.heap r !! b = Some t → Race.rkey t = k →
  (∀ x, Race.tasks (f x) = Race.tasks x ∧ Race.heap (f x) = Race.heap x ∧
        Race.tms (f x) = Race.tms x ∧ Race.closed (f x) = Race.closed x) →
  others k r (f (Race.set_heap (<[b := t']> (Race.heap r)) r)).
Proof.
  intros Hb Ht Hf. destruct (Hf (Race.set_heap (<[b := t']> (Race.heap r)) r)) as (Ft & Fh & Fm & Fc).
  cbn in *. split; [congruence|]. rewrite Ft. split; [done|].
  intros k' c Hne (b' & u & tm & Hk' & Hb' & Hu & Hc & Hp & Hm).
  exists b', u, tm. rewrite Ft, Fh, Fm. split_and!; try done.
  rewrite list_lookup_insert_ne; [done|]. intros ->. congruence.
Qed.

Lemma acts_then ps qs x : acts ps qs → acts qs x → acts ps x.
Proof. unfold acts. intros H1 H2. by etrans. Qed.

(** [run] of a task whose timer has fired. *)
Lemma acts_run r k b t tm ok :
  Race.tasks r !! k = Some b → Race.heap r !! b = Some t → Race.rkey t = k →
  Race.rptr t = Some tm → Race.tms r !! tm = Some (b, false) →
  ∃ r', acts (Race.RLoad b, r) (Race.Ret, r') ∧ others k r r' ∧
    if (maxRetryCnt <=? S (Race.rcnt t))%nat || negb ok then Race.tasks r' !! k = None
    else live r' k (S (Race.rcnt t)).
Proof.
  intros Hk Hb Ht Hp Hm. set (t1 := Race.MkRTask (Race.rkey t) (S (Race.rcnt t)) (Race.rptr t)).
  set (r1 := Race.set_heap (<[b := t1]> (Race.heap r)) r).
  assert (<[b := t1]> (Race.heap r) !! b = Some t1) as Hb1
    by (apply list_lookup_insert_eq; by eapply lookup_lt_Some).
  assert (acts (Race.RLoad b, r) (Race.RCheck b, r1)) as Hcheck.
  { eapply (acts_one true); [cbn; rewrite Hb; cbn; rewrite Ht, Hk; reflexivity|].
    eapply (acts_one true); [cbn; rewrite Hb; reflexivity|]. apply rtc_refl. }
  assert (∀ f : RS → RS, (∀ x, Race.tasks (f x) = Race.tasks x ∧ Race.heap (f x) = Race.heap x ∧
        Race.tms (f x) = Race.tms x ∧ Race.closed (f x) = Race.closed x) → owned (f r1) k) as Hown.
  { intros f Hf b' Hb'. destruct (Hf r1) as (Ft & Fh & Fm & _). rewrite Ft in Hb'. cbn in Hb'.
    rewrite Hk in Hb'. injection Hb' as <-. exists t1, tm, false. by rewrite Fh, Fm. }
  destruct (Nat.leb_spec maxRetryCnt (S (Race.rcnt t))) as [Hle|Hlt]; cbn [orb].
  { destruct (acts_delete r1 k (Hown id (λ x, conj eq_refl (conj eq_refl (conj eq_refl eq_refl)))))
      as (r' & Ha & Hg & Ho).
    exists r'. split; [|split; [|done]].
    - eapply acts_then; [exact Hcheck|]. eapply (acts_one true); [|exact Ha].
      cbn. rewrite Hb1. cbn. by rewrite (proj2 (Nat.leb_le _ _)), Ht by done.
    - eapply others_trans; [|exact Ho]. by apply (others_task r k b t t1 id). }
  assert (acts (Race.RLoad b, r) (Race.RPush b, r1)) as Hpush.
  { eapply acts_then; [exact Hcheck|]. eapply (acts_one true); [|apply rtc_refl].
    cbn. rewrite Hb1. cbn. by rewrite (proj2 (Nat.leb_gt _ _)) by done. }
  destruct ok; cbn [negb].
  - set (tm' := length (Race.tms r)). set (t2 := Race.MkRTask (Race.rkey t) (S (Race.rcnt t)) (Some tm')).
    eexists. split.
    { eapply acts_then; [exact Hpush|].
      eapply (acts_one true); [cbn; rewrite Hb1; reflexivity|].
      eapply (acts_one true); [reflexivity|].
      eapply (acts_one true); [cbn; rewrite Hb1; reflexivity|]. apply rtc_refl. }
    cbn. rewrite list_insert_insert_eq. fold tm' t2. split.
    + split; [done|]. split; [done|]. intros k' c Hne (b' & u & tm2 & Hk' & Hb' & Hu & Hc & Hp' & Hm').
      exists b', u, tm2. cbn. split_and!; try done.
      * rewrite list_lookup_insert_ne; [done|]. intros ->. congruence.
      * by apply lookup_app_l_Some.
    + exists b, t2, tm'. cbn. split_and!; try done.
      * apply list_lookup_insert_eq. by eapply lookup_lt_Some.
      * unfold tm'. by rewrite lookup_app_r, Nat.sub_diag.
  - destruct (acts_delete (Race.push b r1) k) as (r' & Ha & Hg & Ho).
    { by apply (Hown (Race.push b)). }
    exists r'. split; [|split; [|done]].
    + eapply acts_then; [exact Hpush|]. eapply (acts_one false); [|exact Ha].
      cbn. rewrite Hb1. cbn. by rewrite Ht.
    + eapply others_trans; [|exact Ho]. by apply (others_task r k b t t1 (Race.push b)).
Qed.

End Solo.

(** ** The simulation *)

Section Simulation.
Context {M : Type → Type} {W : Type} `{SyncMapSpec M, SynpConn W}.
Context (n : nat).
Implicit Types (s : RTS M W) (r : Race.RS) (k : string).
Abbreviation reg s := (sm_view (tasks (mgr s))).

(** The key has no task in either model, or one that was counted as often. *)
Definition same_task s r k : Prop :=
  match reg s !! k with
  | Some a => ∃ t c, theap s !! a = Some t ∧ retransmitCnt t = Z.of_nat c ∧ live r k c
  | None => Race.tasks r !! k = None
  end.

Record tracks s r : Prop := Tracks {
  tk_inv : rt_inv None s;
  tk_max : maxRetryCnt (mgr s) = Z.of_nat n;
  tk_quiet : quiet r;
  tk_closed : Race.closed r = closed (mgr s);
  tk_task k : same_task s r k;
}.

Lemma tracks_rest s r w : tracks s r → tracks (part_set w s) r.
Proof. intros [Hi Hm Hq Hc Ht]. split; [by apply rt_inv_rest|done..]. Qed.

(** An event of [Race] starts a goroutine, it runs alone, and only [k] is concerned. *)
Lemma tracks_key s s' r r0 r1 k p :
  tracks s r → Race.step n r (Race.spawn [p] r0) → quiet r0 → acts n (p, r0) (Race.Ret, r1) →
  others k r r1 → rt_inv None s' → same_setup s s' →
  (∀ k', k' ≠ k → reg s' !! k' = reg s !! k' ∧
     ∀ a t, reg s !! k' = Some a → theap s !! a = Some t → theap s' !! a = Some t) →
  same_task s' r1 k →
  ∃ r', rtc (Race.step n) r r' ∧ tracks s' r'.
Proof.
  intros [Hi Hm Hq Hc Ht] He Hq0 Ha (Cl & No & Li) Hi' [Sm _ _ Sc] Hk' Hk.
  destruct (solo_run n p r0 r1 Ha Hq0) as (r' & Hs & Hq' & l & ->).
  exists (Race.set_thr l r1). split; [by eapply rtc_l|].
  split; [done|congruence|done|cbn; congruence|]. intros k'.
  destruct (decide (k' = k)) as [->|Hne]; [exact Hk|].
  destruct (Hk' k' Hne) as [Hreg Hheap]. specialize (Ht k'). unfold same_task in *. rewrite Hreg.
  destruct (reg s !! k') as [a|].
  - destruct Ht as (t & c & Hat & Hcnt & Hl). exists t, c. split_and!; [by eapply Hheap|done|].
    by apply Li.
  - by apply No.
Qed.

Lemma tracks_owned s r k : tracks s r → owned r k.
Proof.
  intros Ht. pose proof (tk_task _ _ Ht k) as Hk. unfold same_task in Hk.
  destruct (reg s !! k) as [a|]; [destruct Hk as (? & c & _ & _ & Hl); by eapply live_owned|].
  intros b Hb. congruence.
Qed.

Lemma sim_delete s r k b s' :
  tracks s r → stopAndDelete k s = Done b s' → ∃ r', rtc (Race.step n) r r' ∧ tracks s' r'.
Proof.
  intros Ht Hs. destruct (stopAndDelete_inv None None s k (tk_inv _ _ Ht))
    as (b' & s1 & E & Hi & Hr & Hh & _ & Hsu & _); [by left|].
  rewrite Hs in E. injection E as _ <-.
  destruct (acts_delete n r k (tracks_owned _ _ k Ht)) as (r1 & Ha & Hg & Ho).
  eapply (tracks_key s s' r r r1 k); try done.
  - by exists (Race.EClear [k]).
  - by apply (tk_quiet _ _ Ht).
  - intros k' Hne. rewrite Hr, Hh, lookup_delete_ne by done. split; [done|]. by intros a t _.
  - unfold same_task. by rewrite Hr, lookup_delete_eq.
Qed.

Lemma sim_start s r conn msg u s' :
  tracks s r → start conn msg s = Done u s' → ∃ r', rtc (Race.step n) r r' ∧ tracks s' r'.
Proof.
  intros Ht Hs. destruct (closed (mgr s)) eqn:Hc.
  { rewrite start_closed in Hs by done. injection Hs as _ <-. exists r. by split; [apply rtc_refl|]. }
  pose proof (start_inv conn msg s u s' (tk_inv _ _ Ht) Hs) as [Hi Hsu].
  pose proof Hs as Hid. unfold start in Hid.
  apply bind_done_inv in Hid as (c & s0 & [= <- <-] & Hid). rewrite Hc in Hid.
  apply bind_done_inv in Hid as (cid & s1 & Hid & _).
  destruct (zoom_done_inv _ _ _ _ Hid) as (w & _ & Hs1).
  set (k := taskKey cid (MessageId msg)) in *.
  assert (rt_inv None s1) as Hi1 by (subst s1; apply rt_inv_rest, Ht).
  destruct (fresh_task s1 (rnext s1) Hi1 (le_n _)) as [Hfr _].
  assert (reg s1 = reg s ∧ theap s1 = theap s) as [Hr1 Hh1] by (by subst s1).
  destruct (acts_start n r k) as (r1 & Ha & Ho & Hl).
  rewrite (tk_closed _ _ Ht), Hc in Hl.
  pose proof (tk_task _ _ Ht k) as Hk. unfold same_task in Hk. rewrite <- Hr1 in Hk.
  assert (∀ a t, theap s !! a = Some t → a ≠ rnext s1) as Hold by (intros a t Hat ->; congruence).
  eapply (tracks_key s s' r r r1 k); try done.
  - by exists (Race.EStart k).
  - by apply (tk_quiet _ _ Ht).
  - intros k' Hne. destruct (reg s1 !! k) as [a0|] eqn:Hk0.
    + destruct (start_some conn msg s cid s1 a0 Hc Hid Hk0) as (y & Hy & E). rewrite Hs in E.
      injection E as _ ->. cbn. rewrite Hy, Hr1, Hh1. split; [done|]. intros a t _ Hat.
      rewrite lookup_insert_ne; [done|]. apply not_eq_sym. by eapply Hold.
    + destruct (start_none conn msg s cid s1 Hc Hid Hk0) as (y & Hy & E). rewrite Hs in E.
      injection E as _ ->. cbn. rewrite Hy, Hr1, Hh1, lookup_insert_ne by done. split; [done|].
      intros a t _ Hat. rewrite lookup_alter_ne, lookup_insert_ne by (apply not_eq_sym; by eapply Hold).
      done.
  - unfold same_task. destruct (reg s1 !! k) as [a0|] eqn:Hk0.
    + destruct (start_some conn msg s cid s1 a0 Hc Hid Hk0) as (y & Hy & E). rewrite Hs in E.
      injection E as _ ->. cbn. rewrite Hy, Hk0. destruct Hk as (t & c & Hat & Hcnt & Hlive).
      exists t, c. rewrite Hh1, lookup_insert_ne by (apply not_eq_sym; by eapply Hold).
      split_and!; [done|done|]. destruct Hlive as (b & Hb). pose proof Hb as (t' & tm & Htk & _).
      rewrite Htk in Hl. apply Hl. by exists b.
    + destruct (start_none conn msg s cid s1 Hc Hid Hk0) as (y & Hy & E). rewrite Hs in E.
      injection E as _ ->. cbn. rewrite Hy, lookup_insert_eq, lookup_alter_eq, lookup_insert_eq.
      eexists _, 0. split_and!; [reflexivity|done|]. by rewrite Hk in Hl.
Qed.

(** The timer of a live task fires: the goroutine of [run] starts and ends, the task
    is gone when it is the last attempt or the push fails, and waits again otherwise. *)
Lemma run_follows s r k a t c :
  tracks s r → reg s !! k = Some a → theap s !! a = Some t → retransmitCnt t = Z.of_nat c →
  ∀ ok, ∃ b r0 r1, Race.step n r (Race.spawn [Race.RLoad b] r0) ∧ quiet r0 ∧
    acts n (Race.RLoad b, r0) (Race.Ret, r1) ∧ others k r r1 ∧
    if (n <=? S c)%nat || negb ok then Race.tasks r1 !! k = None else live r1 k (S c).
Proof.
  intros Ht Hk Hat Hc ok. pose proof (tk_task _ _ Ht k) as Hl. unfold same_task in Hl. rewrite Hk in Hl.
  destruct Hl as (t0 & c0 & Hat0 & Hc0 & b & t' & tm & Hb & Hh & Hkey & Hrc & Hp & Hm).
  rewrite Hat in Hat0. injection Hat0 as <-. assert (c0 = c) as -> by lia.
  set (r0 := Race.set_tms (<[tm := (b, false)]> (Race.tms r)) r).
  destruct (acts_run n r0 k b t' tm ok Hb Hh Hkey Hp) as (r1 & Ha & Ho & Hl).
  { cbn. apply list_lookup_insert_eq. by eapply lookup_lt_Some. }
  exists b, r0, r1. rewrite Hrc in Hl. split_and!; [|by apply (tk_quiet _ _ Ht)|done| |done].
  - exists (Race.EFire tm). cbn. by rewrite Hm.
  - eapply others_trans; [|exact Ho]. split; [done|]. split; [done|].
    intros k' c' Hne (b' & u' & tm2 & H1' & H2' & H3' & H4' & H5' & H6').
    exists b', u', tm2. cbn. split_and!; try done. rewrite list_lookup_insert_ne; [done|].
    intros ->. congruence.
Qed.

(** The state [x] of the fired timer's [run] differs from [s] at the task of [k]. *)
Definition apart k s (x : RTS M W) : Prop :=
  reg x = reg s ∧
  ∀ k' a t, k' ≠ k → reg s !! k' = Some a → theap s !! a = Some t → theap x !! a = Some t.

Lemma apart_woken s tm d a t :
  rt_inv None s → theap s !! a = Some t → reg s !! t_key t = Some a →
  apart (t_key t) s (woken tm d a s) ∧ ∀ i w, apart (t_key t) s (armed i a (part_set w (woken tm d a s))).
Proof.
  intros Hi Hat Hk.
  assert (∀ k' a' t2, k' ≠ t_key t → reg s !! k' = Some a' → theap s !! a' = Some t2 → a ≠ a') as Hdiff.
  { intros k' a' t2 Hne Hk' _ <-. destruct (inv_obj _ _ Hi k' a Hk') as (t3 & Ht3 & Hk3 & _).
    apply Hne. congruence. }
  split; [|intros i w]; (split; [done|]); intros k' a' t2 Hne Hk' Ht2; cbn;
    by rewrite ?lookup_alter_ne by by eapply Hdiff.
Qed.

Lemma sim_give_up s r k a t c ok (x : RTS M W) u s' :
  tracks s r → reg s !! k = Some a → theap s !! a = Some t → retransmitCnt t = Z.of_nat c →
  (n <=? S c)%nat || negb ok = true → rt_inv (Some k) x → apart k s x → same_setup s x →
  (stopAndDelete k ;;; ret tt) x = Done u s' → ∃ r', rtc (Race.step n) r r' ∧ tracks s' r'.
Proof.
  intros Ht Hk Hat Hc Hok Hx [Hrx Hhx] Hsx Hdel.
  destruct (run_follows s r k a t c Ht Hk Hat Hc ok) as (b & r0 & r1 & Hs & Hq & Ha & Ho & Hl).
  rewrite Hok in Hl.
  destruct (stopAndDelete_inv (Some k) None x k Hx) as (b1 & s1 & E & Hi & Hr & Hhe & _ & Hsu & _); [by right|].
  erewrite bind_done in Hdel by exact E. injection Hdel as _ <-.
  eapply (tracks_key s s1 r r0 r1 k); try done; [by etrans| |].
  - intros k' Hne. rewrite Hr, Hrx, Hhe, lookup_delete_ne by done. split; [done|].
    intros a' t2. by apply Hhx.
  - unfold same_task. by rewrite Hr, lookup_delete_eq.
Qed.

Lemma sim_fire s r tm u s' :
  tracks s r → fire tm s = Done u s' → ∃ r', rtc (Race.step n) r r' ∧ tracks s' r'.
Proof.
  intros Ht Hs. pose proof (tk_inv _ _ Ht) as Hi.
  destruct (fire_inv tm s u s' Hi Hs) as [Hi' Hsu].
  destruct (timers s !! tm) as [[d a []]|] eqn:Htm;
    [|unfold fire in Hs; erewrite bind_done in Hs by reflexivity; by rewrite Htm in Hs..].
  destruct (woken_inv s tm d a Hi Htm) as (t & Hat & _ & Hk & Hcnt & Hw).
  rewrite (fire_unfold s tm d a t) in Hs by done.
  destruct (apart_woken s tm d a t Hi Hat Hk) as [Hap Hap'].
  pose proof (inc_cnt_small s t Hi Hcnt) as Hinc. pose proof (tk_max _ _ Ht) as Hmax.
  assert (retransmitCnt t = Z.of_nat (Z.to_nat (retransmitCnt t))) as Hc by lia.
  set (c := Z.to_nat (retransmitCnt t)) in Hc.
  unfold attempt in Hs. change (mgr (woken tm d a s)) with (mgr s) in Hs.
  destruct (Z.leb_spec (maxRetryCnt (mgr s)) (retransmitCnt (inc_cnt t))) as [Hle|Hlt].
  { apply (sim_give_up s r (t_key t) a t c true (woken tm d a s) u); try done.
    apply orb_true_iff. left. apply Nat.leb_le. lia. }
  apply bind_done_inv in Hs as (oe & s1 & (w & _ & ->)%zoom_done_inv & Hs). destruct oe as [e|].
  { apply (sim_give_up s r (t_key t) a t c false (part_set w (woken tm d a s)) u); try done;
      [by rewrite orb_true_r|by apply rt_inv_rest]. }
  apply bind_done_inv in Hs as ([] & s1 & (w' & _ & ->)%zoom_done_inv & Hs). injection Hs as _ <-.
  destruct (run_follows s r (t_key t) a t c Ht Hk Hat Hc true) as (b & r0 & r1 & Hst & Hq & Ha & Ho & Hl).
  rewrite (proj2 (Nat.leb_gt _ _)) in Hl by lia. cbn [orb negb] in Hl.
  eapply (tracks_key s _ r r0 r1 (t_key t)); try done.
  - intros k' Hne. destruct (Hap' (retryInterval (mgr s)) w') as [_ Hh]. split; [done|].
    intros a' t2. by apply Hh.
  - unfold same_task. cbn. rewrite Hk, !lookup_alter_eq, Hat. eexists _, (S c).
    split; [reflexivity|]. split; [cbn in Hinc |- *; lia|done].
Qed.

Lemma sim_range {A} (l : list A) (f : A → go (RTS M W) unit) s r u s' :
  (∀ x s1 r1 u1 s2, tracks s1 r1 → f x s1 = Done u1 s2 → ∃ r2, rtc (Race.step n) r1 r2 ∧ tracks s2 r2) →
  tracks s r → range_do l f s = Done u s' → ∃ r', rtc (Race.step n) r r' ∧ tracks s' r'.
Proof.
  intros Hf. revert s r. induction l as [|x l IH]; intros s r Ht Hs.
  - injection Hs as _ <-. exists r. by split; [apply rtc_refl|].
  - cbn [range_do] in Hs. apply bind_done_inv in Hs as (u1 & s1 & E & Hs).
    destruct (Hf x s r u1 s1 Ht E) as (r1 & Hr1 & Ht1). destruct (IH s1 r1 Ht1 Hs) as (r2 & Hr2 & Ht2).
    exists r2. split; [by etrans|done].
Qed.

Lemma sim_deletes (l : list (string * nat)) s r u s' :
  tracks s r → range_do l (λ '(k, _), stopAndDelete k ;;; ret tt) s = Done u s' →
  ∃ r', rtc (Race.step n) r r' ∧ tracks s' r'.
Proof.
  apply sim_range. intros [k x] s1 r1 u1 s2 Ht E. apply bind_done_inv in E as (b & s3 & E & E').
  injection E' as _ <-. by apply (sim_delete s1 r1 k b).
Qed.

Lemma sim_exec ev s r u s' :
  tracks s r → exec ev s = Done u s' → ∃ r', rtc (Race.step n) r r' ∧ tracks s' r'.
Proof.
  intros Ht Hs. destruct ev as [conns msg|cid mid|tm|cid| |w]; cbn [exec] in Hs.
  - apply (sim_range conns (λ c, start c msg) s r u s'); [|done|exact Hs].
    intros c s1 r1 u1 s2. apply sim_start.
  - unfold Stop in Hs. erewrite bind_done in Hs by reflexivity.
    destruct (sm_load _ _); [|injection Hs as _ <-; exists r; by split; [apply rtc_refl|]].
    apply bind_done_inv in Hs as (b & s1 & E & E'). injection E' as _ <-. by eapply sim_delete.
  - by eapply sim_fire.
  - unfold ClearByConn in Hs. erewrite bind_done in Hs by reflexivity.
    eapply sim_range; [|exact Ht|exact Hs]. clear Ht Hs. intros [k a] s1 r1 u1 s2 Ht E.
    apply bind_done_inv in E as (t & s3 & Hl & E).
    assert (s3 = s1) as ->.
    { unfold task_load, bind, gets, need in Hl. cbn in Hl. destruct (theap s1 !! a); [by injection Hl|done]. }
    apply bind_done_inv in E as (i & s3 & (w & _ & ->)%zoom_done_inv & E).
    apply (tracks_rest _ _ w) in Ht.
    destruct (String.eqb i cid); [|injection E as _ <-; exists r1; by split; [apply rtc_refl|]].
    apply bind_done_inv in E as (b & s3 & E & E'). injection E' as _ <-. by eapply sim_delete.
  - unfold CloseManager in Hs. erewrite bind_done in Hs by reflexivity.
    destruct (closed (mgr s)) eqn:Hc; [injection Hs as _ <-; exists r; by split; [apply rtc_refl|]|].
    erewrite bind_done in Hs by reflexivity. erewrite bind_done in Hs by reflexivity.
    set (r1 := Race.spawn [] (Race.MkRS (Race.tasks r) (Race.heap r) (Race.tms r) (Race.total r) true
      (Race.thr r) (Race.pushed r))).
    assert (Race.step n r r1) as Hr1 by (exists (Race.EClose []); cbn; by rewrite (tk_closed _ _ Ht), Hc).
    assert (tracks (set_mgr set_closed s) r1) as Ht1.
    { destruct Ht as [Hi Hm Hq _ Hk]. split; [by destruct Hi; split|done| |done|exact Hk].
      intros p Hp. cbn in Hp. rewrite app_nil_r in Hp. by apply Hq. }
    destruct (sim_deletes _ _ _ _ _ Ht1 Hs) as (r2 & Hr2 & Ht2).
    exists r2. split; [by eapply rtc_l|done].
  - injection Hs as _ <-. exists r. split; [apply rtc_refl|by apply tracks_rest].
Qed.

Lemma sim_steps s r s' :
  tracks s r → rtc step s s' → ∃ r', rtc (Race.step n) r r' ∧ tracks s' r'.
Proof.
  intros Ht Hs. revert r Ht. induction Hs as [s|s s1 s2 (ev & E) _ IH]; intros r Ht.
  - exists r. by split; [apply rtc_refl|].
  - destruct (sim_exec ev s r tt s1 Ht E) as (r1 & Hr1 & Ht1). destruct (IH r1 Ht1) as (r2 & Hr2 & Ht2).
    exists r2. split; [by etrans|done].
Qed.

End Simulation.

Section Refinement.
Context {M : Type → Type} {W : Type} `{SyncMapSpec M, SynpConn W}.
Implicit Types (s : RTS M W).

(** C17. The operations of the retransmit manager are made of its atomic ones.  Every state
    that whole operations can reach is reached by a schedule of the atomic
    operations, from the start, in which no goroutine is under way at the end; both
    have the same tasks, counted as often, each waiting for a timer of its own; the
    same counter; and both are closed or neither is.  So what holds in every
    interleaving ([race_pushes_bounded], [race_stop]) holds of whole operations. *)
Theorem operations_are_schedules s :
  Reachable s →
  ∃ r, rtc (Race.step (Z.to_nat (maxRetryCnt (mgr s)))) Race.initial r ∧ quiet r ∧
    Race.closed r = closed (mgr s) ∧ totalTaskCnt (mgr s) = int64 (Race.total r) ∧
    dom (Race.tasks r) = dom (sm_view (tasks (mgr s))) ∧
    ∀ k a, sm_view (tasks (mgr s)) !! k = Some a →
      ∃ t c, theap s !! a = Some t ∧ retransmitCnt t = Z.of_nat c ∧ live r k c.
Proof.
  intros (interval & maxCnt & f & nx & w & Hin & Hs).
  set (s0 := MkRTS (NewManager interval maxCnt f) ∅ ∅ nx w) in Hs.
  set (n := Z.to_nat (maxRetryCnt (mgr s0))).
  assert (rt_inv None s0) as Hi0 by by apply new_inv.
  assert (tracks n s0 Race.initial) as H0'.
  { destruct (inv_max _ _ Hi0) as [Hm _]. split; [done|unfold n; lia| |done|].
    - by intros p Hp%elem_of_nil.
    - intros k. unfold same_task. cbn. by rewrite sm_view_new. }
  destruct (sim_steps n s0 Race.initial s H0' Hs) as (r & Hr & [Hi Hm Hq Hc Hk]).
  assert (dom (Race.tasks r) = dom (sm_view (tasks (mgr s)))) as Hdom.
  { apply set_eq. intros k. rewrite !elem_of_dom. specialize (Hk k). unfold same_task in Hk.
    destruct (sm_view (tasks (mgr s)) !! k); [|rewrite Hk; by split; intros []].
    destruct Hk as (_ & _ & _ & _ & b & _ & _ & Hb & _). rewrite Hb. by split; eexists. }
  exists r. rewrite Hm, Nat2Z.id. split_and!; [done..| | |].
  - rewrite (inv_total _ _ Hi).
    destruct (Race.steps_inv n r Hr) as [_ Ht]. unfold Race.total_ok in Ht.
    assert (∀ P : Race.pc → bool, P Race.Ret = false → count P (Race.thr r) = 0) as Hz.
    { intros P HP. apply count_none, Forall_forall. intros p Hp%list_elem_of_In. by rewrite (Hq p Hp). }
    rewrite !Hz, Z.sub_0_r, Z.add_0_r in Ht by done. rewrite Ht, <- !size_dom. by rewrite Hdom.
  - done.
  - intros k a Ha. specialize (Hk k). unfold same_task in Hk. by rewrite Ha in Hk.
Qed.

End Refinement.

(** ** Witness *)

#[local] Existing Instance pushlog_conn.

(** The state with three tasks of [Retransmit.v]. *)
Example operations_are_schedules_witness :
  ∃ r, rtc (Race.step 3) Race.initial r ∧ quiet r ∧ dom (Race.tasks r) = dom (sm_view (tasks (mgr rts1))) ∧
    live r "1:8:pc:m1" 0.
Proof.
  destruct (operations_are_schedules rts1 Reachable_rts1) as (r & Hr & Hq & _ & _ & Hd & Hl).
  assert (maxRetryCnt (mgr rts1) = 3%Z) as Hm by reflexivity. rewrite Hm in Hr.
  exists r. split; [exact Hr|]. split; [exact Hq|]. split; [exact Hd|].
  assert (∃ a, sm_view (tasks (mgr rts1)) !! "1:8:pc:m1" = Some a ∧
    retransmitCnt <$> theap rts1 !! a = Some 0%Z) as (a & Ha & Hz) by (eexists; by vm_compute).
  destruct (Hl "1:8:pc:m1" a Ha) as (t & c & Ht & Hc & Hlive). rewrite Ht in Hz.
  assert (c = 0) as Hc0 by (injection Hz as Hz; lia). rewrite Hc0 in Hlive. exact Hlive.
Defined.
