(* ===== verification/Limiter.v ===== *)
(** The token bucket that limits connections
    ([internal/pkg/limiter/token_limiter.go]).

    The operations are functions on the limiter; the goroutine of [Start] is a
    program counter whose steps interleave with the calls of the other
    goroutines, since it parks at a full bucket. *)

From S2P Require Import Prelude.

Record TokenLimiterConfig : Type := MkTLConfig {
  InitCapacity : Z;
  MaxCapacity : Z;
  IncreaseStep : Z;
  IncreaseInterval : Z;
}.

Definition DefaultConfig : TokenLimiterConfig := MkTLConfig 2000 50000 500 (2 * Second).

Definition NewConfig (initCapacity maxCapacity increaseStep increaseInterval : Z) :
    TokenLimiterConfig * option error :=
  let cfg := MkTLConfig 0 0 0 0 in
  if (initCapacity <=? 0)%Z then
    (cfg, Some (EText "init capacity must be greater than 0"))
  else if (maxCapacity <=? 0)%Z then
    (cfg, Some (EText "max capacity must be greater than 0"))
  else if (maxCapacity <? initCapacity)%Z then
    (cfg, Some (EText "init capacity must be less than max capacity"))
  else if (increaseStep <=? 0)%Z then
    (cfg, Some (EText "increase step must be greater than 0"))
  else if (increaseInterval <=? 0)%Z then
    (cfg, Some (EText "increase interval must be greater than 0"))
  else (MkTLConfig initCapacity maxCapacity increaseStep increaseInterval, None).

(** [tl_done]: the limiter's own context is cancelled. *)
Record TokenLimiter : Type := MkTL {
  cfg : TokenLimiterConfig;
  tokens : chan unit;
  currCapacity : Z;
  tl_done : bool;
}.

Definition set_tokens (c : chan unit) (l : TokenLimiter) : TokenLimiter :=
  MkTL (cfg l) c (currCapacity l) (tl_done l).

Definition set_currCapacity (z : Z) (l : TokenLimiter) : TokenLimiter :=
  MkTL (cfg l) (tokens l) z (tl_done l).

(** [l.tokens <- struct{}{}] *)
Definition put_token : go (chan unit) unit :=
  c <- get ;; if ch_room c then modify (ch_push tt) else block.

Fixpoint fill (n : nat) : go (chan unit) unit :=
  match n with
  | O => ret tt
  | S n' => put_token ;;; fill n'
  end.

(** [make] panics on a negative size. *)
Definition NewTokenLimiter (c : TokenLimiterConfig) : outcome (chan unit) TokenLimiter :=
  (if (InitCapacity c <? 0)%Z then panic else
   fill (Z.to_nat (InitCapacity c)) ;;;
   tokens <- get ;;
   ret (MkTL c tokens (InitCapacity c) false)) (make_chan (InitCapacity c)).

Definition Acquire : go TokenLimiter bool :=
  l <- get ;;
  match ch_buf (tokens l) with
  | _ :: rest =>
      modify (set_tokens (Chan rest (ch_cap (tokens l)) (ch_closed (tokens l)))) ;;; ret true
  | [] => ret false
  end.

Definition Release : go TokenLimiter bool :=
  l <- get ;;
  if ch_room (tokens l) then modify (set_tokens (ch_push tt (tokens l))) ;;; ret true
  else ret false.

Definition CloseLimiter : go TokenLimiter (option error) :=
  modify (λ l, MkTL (cfg l) (tokens l) (currCapacity l) true) ;;; ret None.

Definition Cap : go TokenLimiter Z := gets currCapacity.

(** ** The goroutine of [Start] *)

(** Where it is: at the [select]; in the sending loop with [more] iterations to
    go; returned. *)
Inductive gpc : Type :=
  | AtSelect
  | Sending (more newCap : Z)
  | Returned.

(** The [ticker.C] case up to the loop. *)
Definition on_tick (l : TokenLimiter) : gpc :=
  let curr := currCapacity l in
  if (MaxCapacity (cfg l) <=? curr)%Z then Returned
  else
    let newCap := Z.min (int64 (curr + IncreaseStep (cfg l))) (MaxCapacity (cfg l)) in
    Sending (int64 (newCap - curr)) newCap.

(** The limiter with its goroutine, whether the context given to [Start] is
    cancelled, and how often [Acquire] and [Release] returned true and [Release]
    returned false. *)
Record LS : Type := MkLS {
  lim : TokenLimiter;
  pc : gpc;
  outer : bool;
  acquired : Z;
  released : Z;
  lost : Z;
}.

Inductive event : Type :=
  | EvAcquire | EvRelease | EvClose | EvCancel
  | EvTick | EvDone | EvSend.

(** What an event does; [None] when it cannot happen.  [EvDone] is either of the
    two [Done] cases of the [select]; [EvSend] is one turn of the loop, a send on
    the channel, or its end, the store of the new capacity. *)
Definition exec (ev : event) (s : LS) : option LS :=
  match ev with
  | EvAcquire =>
      match Acquire (lim s) with
      | Done b l => Some (MkLS l (pc s) (outer s) (acquired s + Z.b2z b) (released s) (lost s))
      | _ => None
      end
  | EvRelease =>
      match Release (lim s) with
      | Done b l =>
          Some (MkLS l (pc s) (outer s) (acquired s) (released s + Z.b2z b) (lost s + Z.b2z (negb b)))
      | _ => None
      end
  | EvClose =>
      Some (MkLS (final (CloseLimiter (lim s))) (pc s) (outer s) (acquired s) (released s) (lost s))
  | EvCancel => Some (MkLS (lim s) (pc s) true (acquired s) (released s) (lost s))
  | EvTick =>
      match pc s with
      | AtSelect => Some (MkLS (lim s) (on_tick (lim s)) (outer s) (acquired s) (released s) (lost s))
      | _ => None
      end
  | EvDone =>
      match pc s with
      | AtSelect =>
          if outer s || tl_done (lim s)
          then Some (MkLS (lim s) Returned (outer s) (acquired s) (released s) (lost s))
          else None
      | _ => None
      end
  | EvSend =>
      match pc s with
      | Sending more newCap =>
          if (more <=? 0)%Z then
            Some (MkLS (set_currCapacity newCap (lim s)) AtSelect (outer s)
                    (acquired s) (released s) (lost s))
          else
            match put_token (tokens (lim s)) with
            | Done _ c =>
                Some (MkLS (set_tokens c (lim s)) (Sending (more - 1) newCap) (outer s)
                        (acquired s) (released s) (lost s))
            | _ => None
            end
      | _ => None
      end
  end.

Definition step (s s' : LS) : Prop := ∃ ev, exec ev s = Some s'.

Fixpoint exec_all (evs : list event) (s : LS) : option LS :=
  match evs with
  | [] => Some s
  | ev :: evs' => s' ← exec ev s; exec_all evs' s'
  end.

(** A new limiter, whose [Start] runs in a goroutine or is never called. *)
Definition initial (c : TokenLimiterConfig) (started : bool) (s : LS) : Prop :=
  ∃ l, NewTokenLimiter c = Done l (tokens l) ∧
    s = MkLS l (if started then AtSelect else Returned) false 0 0 0.

(** A configuration that [NewConfig] returns, far enough from the end of
    [int64]. *)
Definition config_ok (c : TokenLimiterConfig) : Prop :=
  NewConfig (InitCapacity c) (MaxCapacity c) (IncreaseStep c) (IncreaseInterval c) = (c, None) ∧
  (MaxCapacity c + IncreaseStep c < 2 ^ 63)%Z.

(** * Lemmas and properties *)

Lemma config_ok_bounds c :
  config_ok c →
  (0 < InitCapacity c <= MaxCapacity c)%Z ∧ (0 < IncreaseStep c)%Z ∧ (0 < IncreaseInterval c)%Z ∧
  (MaxCapacity c + IncreaseStep c < 2 ^ 63)%Z.
Proof.
  unfold config_ok, NewConfig. intros [E Hb].
  repeat (case_match; [done|]). rewrite ?Z.leb_gt, ?Z.ltb_ge in *. lia.
Qed.

Lemma fill_done n c :
  length (ch_buf c) + n ≤ ch_cap c →
  fill n c = Done tt (Chan (ch_buf c ++ replicate n tt) (ch_cap c) (ch_closed c)).
Proof.
  revert c. induction n as [|n IH]; intros c Hc; cbn.
  { rewrite app_nil_r. by destruct c. }
  erewrite bind_done.
  2: { unfold put_token. erewrite bind_done by reflexivity. unfold ch_room.
       rewrite bool_decide_eq_true_2 by lia. reflexivity. }
  rewrite IH; cbn; [by rewrite <- app_assoc|rewrite length_app; cbn; lia].
Qed.

Lemma NewTokenLimiter_done c :
  (0 <= InitCapacity c)%Z →
  let full := Chan (replicate (Z.to_nat (InitCapacity c)) tt) (Z.to_nat (InitCapacity c)) false in
  NewTokenLimiter c = Done (MkTL c full (InitCapacity c) false) full.
Proof.
  intros Hc full. unfold NewTokenLimiter. rewrite (proj2 (Z.ltb_ge _ _)) by done.
  erewrite bind_done by (apply fill_done; cbn; lia). done.
Qed.

(** What every reachable state satisfies; [c] is the configuration. *)
Record lim_inv (c : TokenLimiterConfig) (s : LS) : Prop := LimInv {
  li_cfg : cfg (lim s) = c;
  li_cap : ch_cap (tokens (lim s)) = Z.to_nat (InitCapacity c);
  li_len : length (ch_buf (tokens (lim s))) ≤ ch_cap (tokens (lim s));
  li_curr : (InitCapacity c <= currCapacity (lim s) <= MaxCapacity c)%Z;
  li_pc : match pc s with
          | Sending more newCap =>
              (0 <= more <= newCap - currCapacity (lim s))%Z ∧ (newCap <= MaxCapacity c)%Z
          | _ => True
          end;
  li_sum : (Z.of_nat (length (ch_buf (tokens (lim s)))) + acquired s - released s
            = currCapacity (lim s)
              + match pc s with
                | Sending more newCap => newCap - currCapacity (lim s) - more
                | _ => 0
                end)%Z;
}.

Lemma lim_initial_inv c b s : config_ok c → initial c b s → lim_inv c s.
Proof.
  intros Hc%config_ok_bounds (l & E & ->).
  rewrite NewTokenLimiter_done in E by lia. injection E as <-.
  split; cbn; rewrite ?length_replicate; try by destruct b. all: destruct b; lia.
Qed.

Lemma on_tick_spec c s :
  config_ok c → lim_inv c s → pc s = AtSelect →
  on_tick (lim s) =
    if (MaxCapacity c <=? currCapacity (lim s))%Z then Returned
    else let newCap := Z.min (currCapacity (lim s) + IncreaseStep c) (MaxCapacity c) in
         Sending (newCap - currCapacity (lim s)) newCap.
Proof.
  intros Hc%config_ok_bounds Hi _. pose proof (li_curr _ _ Hi) as Hr.
  unfold on_tick. rewrite (li_cfg _ _ Hi).
  destruct (Z.leb_spec (MaxCapacity c) (currCapacity (lim s))); [done|]. cbn zeta.
  rewrite (int64_small (currCapacity (lim s) + IncreaseStep c)) by (split; lia).
  by rewrite int64_small by (split; lia).
Qed.

Lemma lim_exec_inv c ev s s' : config_ok c → lim_inv c s → exec ev s = Some s' → lim_inv c s'.
Proof.
  intros Hc Hi E. pose proof (config_ok_bounds c Hc) as Hb. pose proof (on_tick_spec c s Hc Hi) as Ht.
  destruct Hi as [Hcfg Hcap Hlen Hcurr Hpc Hsum]. destruct ev; cbn in E.
  - unfold Acquire, bind in E. cbn in E. destruct (ch_buf (tokens (lim s))) as [|u r] eqn:Hbuf;
      injection E as <-; split; cbn; rewrite ?Hbuf in *; cbn in *; try done; lia.
  - unfold Release, bind in E. cbn in E. destruct (ch_room (tokens (lim s))) eqn:Hroom;
      cbn in E; injection E as <-; split; cbn; try done; try lia.
    + by apply (ch_room_push tt) in Hroom.
    + rewrite length_app. cbn. lia.
  - injection E as <-. by split.
  - injection E as <-. by split.
  - destruct (pc s) eqn:Hp; [|done..]. rewrite Ht in E by done.
    injection E as <-. destruct (Z.leb_spec (MaxCapacity c) (currCapacity (lim s)));
      split; cbn; try done; lia.
  - destruct (pc s); [|done..]. destruct (_ || _); [|done]. injection E as <-. by split.
  - destruct (pc s) as [|more newCap|]; [done| |done]. destruct (Z.leb_spec more 0).
    + injection E as <-. split; cbn; try done; lia.
    + unfold put_token, bind in E. cbn in E.
      destruct (ch_room (tokens (lim s))) eqn:Hroom; [|done]. cbn in E. injection E as <-.
      split; cbn; try done; try lia.
      * by apply (ch_room_push tt) in Hroom.
      * rewrite length_app. cbn. lia.
Qed.

Lemma lim_steps_inv c b s0 s : config_ok c → initial c b s0 → rtc step s0 s → lim_inv c s.
Proof.
  intros Hc H0 Hs. assert (lim_inv c s0) as Hi by by eapply lim_initial_inv.
  clear H0. induction Hs as [|s1 s2 s3 (ev & E) _ IH]; [done|]. by eapply IH, lim_exec_inv.
Qed.

(** Without its goroutine the limiter's capacity does not change and the
    goroutine stays away. *)
Lemma steps_still c s0 s :
  config_ok c → initial c false s0 → rtc step s0 s →
  pc s = Returned ∧ currCapacity (lim s) = InitCapacity c.
Proof.
  intros Hc (l & E & ->) Hs. pose proof (config_ok_bounds c Hc).
  rewrite NewTokenLimiter_done in E by lia. injection E as <-.
  remember (MkLS _ _ _ _ _ _) as s0 eqn:Hs0.
  assert (pc s0 = Returned ∧ currCapacity (lim s0) = InitCapacity c) as Hst by by subst s0.
  clear Hs0. induction Hs as [|s1 s2 s3 (ev & E) _ IH]; [done|]. apply IH. clear IH.
  destruct Hst as [Hp Hcu]. destruct ev; cbn in E; rewrite ?Hp in E.
  - unfold Acquire, bind in E. cbn in E. destruct (ch_buf _); injection E as <-; by cbn.
  - unfold Release, bind in E. cbn in E. destruct (ch_room _); injection E as <-; by cbn.
  - by injection E as <-.
  - by injection E as <-.
  - done.
  - done.
  - done.
Qed.

(** C25. The limiter keeps its bound: in every state it reaches, whatever the
    callers and the growing goroutine do, the tokens out (acquired and not
    returned) are at most [MaxCapacity], the bucket never holds more than
    [InitCapacity], and tokens in the bucket and tokens out add up to the current
    capacity, plus those the goroutine has already added of the next step. *)
Theorem tokens_conserved (c : TokenLimiterConfig) (b : bool) (s0 s : LS) :
  config_ok c → initial c b s0 → rtc step s0 s →
  (acquired s - released s <= MaxCapacity c)%Z ∧
  (Z.of_nat (length (ch_buf (tokens (lim s)))) <= InitCapacity c)%Z ∧
  (Z.of_nat (length (ch_buf (tokens (lim s)))) + (acquired s - released s)
   = currCapacity (lim s)
     + match pc s with
       | Sending more newCap => newCap - currCapacity (lim s) - more
       | _ => 0
       end)%Z.
Proof.
  intros Hc H0 Hs. pose proof (lim_steps_inv c b s0 s Hc H0 Hs) as [Hcfg Hcap Hlen Hcurr Hpc Hsum].
  pose proof (config_ok_bounds c Hc).
  split_and!; [|lia|lia]. destruct (pc s); lia.
Qed.

(** Without the growing goroutine (the server never starts it) a caller that
    returns a token it holds always succeeds, as the comment in [Release]
    says. *)
Theorem Release_returns_token (c : TokenLimiterConfig) (s0 s : LS) :
  config_ok c → initial c false s0 → rtc step s0 s → (released s < acquired s)%Z →
  ∃ l, Release (lim s) = Done true l ∧
    length (ch_buf (tokens l)) = S (length (ch_buf (tokens (lim s)))).
Proof.
  intros Hc H0 Hs Hlt. pose proof (lim_steps_inv c false s0 s Hc H0 Hs) as [Hcfg Hcap Hlen Hcurr Hpc Hsum].
  destruct (steps_still c s0 s Hc H0 Hs) as [Hp Hcu]. rewrite Hp in Hsum.
  unfold Release, bind, ch_room. cbn. rewrite bool_decide_eq_true_2 by lia.
  eexists. split; [done|]. cbn. rewrite length_app. cbn. lia.
Qed.

(** Once the capacity has grown, returned tokens get lost.  Between two
    growth steps [Release] fails exactly when the tokens still out number
    [currCapacity - InitCapacity], because the channel has only [InitCapacity]
    slots: of [currCapacity] connections that all close, the last
    [currCapacity - InitCapacity] cannot return their token, though [Release] was
    called no more often than [Acquire]. *)
Theorem Release_fails_iff (c : TokenLimiterConfig) (s0 s : LS) :
  config_ok c → initial c true s0 → rtc step s0 s → (pc s = AtSelect ∨ pc s = Returned) →
  ∃ b l, Release (lim s) = Done b l ∧
    (b = false ↔ acquired s - released s = currCapacity (lim s) - InitCapacity c)%Z.
Proof.
  intros Hc H0 Hs Hp. pose proof (lim_steps_inv c true s0 s Hc H0 Hs) as [Hcfg Hcap Hlen Hcurr Hpc Hsum].
  pose proof (config_ok_bounds c Hc).
  assert (match pc s with
          | Sending more newCap => newCap - currCapacity (lim s) - more | _ => 0 end = 0)%Z
    as H0' by by destruct Hp as [-> | ->].
  rewrite H0' in Hsum. unfold Release, bind, ch_room. cbn. case_bool_decide as Hroom; cbn.
  - eexists true, _. split; [done|]. split; [done|]. lia.
  - eexists false, _. split; [done|]. split; [lia|done].
Qed.

(** What a history without [Acquire] leaves alone when the goroutine is parked. *)
Lemma parked_step ev s s' more newCap :
  ev ≠ EvAcquire → ch_room (tokens (lim s)) = false → pc s = Sending more newCap → (0 < more)%Z →
  exec ev s = Some s' →
  tokens (lim s') = tokens (lim s) ∧ pc s' = pc s ∧ currCapacity (lim s') = currCapacity (lim s).
Proof.
  intros Hev Hroom Hp Hm E. destruct ev; cbn in E; rewrite ?Hp in E; try done.
  - unfold Release, bind in E. cbn in E. rewrite Hroom in E. by injection E as <-.
  - by injection E as <-.
  - by injection E as <-.
  - rewrite (proj2 (Z.leb_gt _ _)) in E by done. unfold put_token, bind in E. cbn in E.
    by rewrite Hroom in E.
Qed.

(** The goroutine grows the capacity only as fast as tokens are taken: at
    the first tick of a limiter nobody has used it parks on the full channel, and
    as long as no [Acquire] happens it stays parked with the capacity unchanged,
    whatever else happens; neither [Close] nor cancelling its context ends it. *)
Theorem growth_parks (c : TokenLimiterConfig) (s0 s1 : LS) (evs : list event) (s2 : LS) :
  config_ok c → (InitCapacity c < MaxCapacity c)%Z → initial c true s0 →
  exec EvTick s0 = Some s1 → EvAcquire ∉ evs → exec_all evs s1 = Some s2 →
  ∃ more newCap, pc s2 = Sending more newCap ∧ (0 < more)%Z ∧
    currCapacity (lim s2) = InitCapacity c ∧ exec EvSend s2 = None ∧ exec EvDone s2 = None.
Proof.
  intros Hc Hlt H0 Et Hevs Es. pose proof (config_ok_bounds c Hc) as Hb.
  pose proof (lim_initial_inv c true s0 Hc H0) as Hi. destruct H0 as (l & E & ->).
  rewrite NewTokenLimiter_done in E by lia. injection E as <-.
  cbn [exec pc] in Et. rewrite (on_tick_spec c) in Et by done. injection Et as <-.
  cbn [lim currCapacity] in Es. rewrite (proj2 (Z.leb_gt _ _)) in Es by lia.
  set (newCap := Z.min (InitCapacity c + IncreaseStep c) (MaxCapacity c)) in *.
  remember (MkLS _ _ _ _ _ _) as s1 eqn:Hs1.
  assert (ch_room (tokens (lim s1)) = false ∧ pc s1 = Sending (newCap - InitCapacity c) newCap ∧
    currCapacity (lim s1) = InitCapacity c) as Hst.
  { subst s1. cbn. unfold ch_room. rewrite bool_decide_eq_false_2; [done|].
    cbn. rewrite length_replicate. lia. }
  clear Hs1 Hi. revert s1 Es Hst. induction evs as [|ev evs IH]; intros s1 Es (Hr & Hp & Hcu).
  - injection Es as ->. exists (newCap - InitCapacity c)%Z, newCap.
    split_and!; [done|lia|done| |by cbn; rewrite Hp].
    cbn. rewrite Hp, (proj2 (Z.leb_gt _ _)) by lia.
    unfold put_token, bind. cbn. by rewrite Hr.
  - cbn in Es. destruct (exec ev s1) as [s1'|] eqn:E1; [|done]. cbn in Es.
    apply not_elem_of_cons in Hevs as [Hne Hevs].
    destruct (parked_step ev s1 s1' (newCap - InitCapacity c) newCap) as (Ht' & Hp' & Hc');
      [by intros ->|done|done|lia|done|].
    apply (IH Hevs s1' Es). by rewrite Ht', Hp', Hc'.
Qed.

(** [NewConfig] accepts exactly the configurations with positive parameters
    and an initial capacity at most the maximum, and returns them unchanged; it
    rejects any other with an error and the zero configuration. *)
Theorem NewConfig_accepts (i m st iv : Z) :
  let ok := (0 < i <= m)%Z ∧ (0 < st)%Z ∧ (0 < iv)%Z in
  (ok → NewConfig i m st iv = (MkTLConfig i m st iv, None)) ∧
  (¬ ok → ∃ msg, NewConfig i m st iv = (MkTLConfig 0 0 0 0, Some (EText msg))).
Proof.
  cbn zeta. unfold NewConfig. split.
  - intros (Hi & Hs & Hv).
    by rewrite !(proj2 (Z.leb_gt _ _)), (proj2 (Z.ltb_ge _ _)) by lia.
  - intros Hn.
    destruct (Z.leb_spec i 0), (Z.leb_spec m 0), (Z.ltb_spec m i), (Z.leb_spec st 0),
      (Z.leb_spec iv 0); eauto. exfalso. apply Hn. lia.
Qed.

(** ** The growth schedule *)

(** The capacity after [n] growth steps. *)
Definition capacity_after (c : TokenLimiterConfig) (n : nat) : Z :=
  Z.min (InitCapacity c + Z.of_nat n * IncreaseStep c) (MaxCapacity c).

(** [grown c n s]: a history that ends in [s] and in which the capacity has changed
    [n] times. *)
Inductive grown (c : TokenLimiterConfig) : nat → LS → Prop :=
  | grown_0 s : initial c true s → grown c 0 s
  | grown_other n s s' ev : grown c n s → exec ev s = Some s' →
      currCapacity (lim s') = currCapacity (lim s) → grown c n s'
  | grown_store n s s' ev : grown c n s → exec ev s = Some s' →
      currCapacity (lim s') ≠ currCapacity (lim s) → grown c (S n) s'.

Lemma grown_steps c n s : grown c n s → ∃ s0, initial c true s0 ∧ rtc step s0 s.
Proof.
  induction 1 as [s H0|n s s' ev _ (s0 & H0 & Hs) E _|n s s' ev _ (s0 & H0 & Hs) E _].
  - by exists s.
  - exists s0. split; [done|]. eapply rtc_r; [done|]. by exists ev.
  - exists s0. split; [done|]. eapply rtc_r; [done|]. by exists ev.
Qed.

(** An event changes the capacity only by the store that ends a growth step. *)
Lemma exec_capacity ev s s' :
  exec ev s = Some s' →
  (currCapacity (lim s') = currCapacity (lim s) ∧
   (∀ more newCap, pc s' = Sending more newCap →
      (∃ more', pc s = Sending more' newCap) ∨ pc s = AtSelect ∧ on_tick (lim s) = pc s')) ∨
  (∃ more newCap, pc s = Sending more newCap ∧ currCapacity (lim s') = newCap ∧ pc s' = AtSelect).
Proof.
  destruct ev; cbn; intros E.
  - left. unfold Acquire, bind in E. cbn in E. destruct (ch_buf _); injection E as <-; cbn; eauto.
  - left. unfold Release, bind in E. cbn in E. destruct (ch_room _); injection E as <-; cbn; eauto.
  - left. injection E as <-. cbn. eauto.
  - left. injection E as <-. cbn. eauto.
  - left. destruct (pc s); [|done..]. injection E as <-. cbn. eauto.
  - left. destruct (pc s); [|done..]. destruct (_ || _); [|done]. injection E as <-. by cbn.
  - destruct (pc s) as [|more newCap|]; [done| |done]. destruct (more <=? 0)%Z.
    + right. injection E as <-. cbn. eauto.
    + left. unfold put_token, bind in E. cbn in E. destruct (ch_room _); [|done].
      injection E as <-. cbn. split; [done|]. intros ? ? [= _ ->]. eauto.
Qed.

Lemma grown_capacity c n s :
  config_ok c → grown c n s →
  currCapacity (lim s) = capacity_after c n ∧
  (∀ more newCap, pc s = Sending more newCap →
     newCap = capacity_after c (S n) ∧ (currCapacity (lim s) < newCap)%Z).
Proof.
  intros Hc Hg. pose proof (config_ok_bounds c Hc) as Hb. unfold capacity_after.
  induction Hg as [s (l & E & ->)|n s s' ev Hg IH E Hsame|n s s' ev Hg IH E Hdiff].
  - rewrite NewTokenLimiter_done in E by lia. injection E as <-. cbn. split; [lia|done].
  - destruct IH as [IHc IHp]; [done..|].
    destruct (grown_steps c n s Hg) as (s0 & H0 & Hs).
    pose proof (lim_steps_inv c true s0 s Hc H0 Hs) as Hi.
    rewrite Hsame. split; [done|]. intros more newCap Hp.
    destruct (exec_capacity ev s s' E) as [[_ Hk]|(m' & nc & Hp1 & Hc1 & Hp2)]; [|congruence].
    destruct (Hk more newCap Hp) as [[m' Hp']|[Hp' Htick]]; [by apply (IHp m')|].
    rewrite (on_tick_spec c) in Htick by done. rewrite Hp in Htick.
    destruct (Z.leb_spec (MaxCapacity c) (currCapacity (lim s))) as [|Hlt]; [done|].
    injection Htick as _ <-. rewrite IHc in *. lia.
  - destruct IH as [IHc IHp]; [done..|].
    destruct (exec_capacity ev s s' E) as [[Hk _]|(m' & nc & Hp1 & Hc1 & Hp2)]; [done|].
    rewrite Hc1. destruct (IHp m' nc Hp1) as [-> _]. split; [done|]. intros more newCap Hp. congruence.
Qed.

(** The growth schedule: after [n] changes the capacity is
    [InitCapacity + n * IncreaseStep], cut off at [MaxCapacity].  So it reaches the
    maximum with change number [(MaxCapacity - InitCapacity) / IncreaseStep]
    rounded up and changes no more; for [DefaultConfig] that is the 96 steps, 192
    seconds, of its comment. *)
Theorem growth_schedule (c : TokenLimiterConfig) (n : nat) (s : LS) :
  config_ok c → grown c n s →
  currCapacity (lim s) = Z.min (InitCapacity c + Z.of_nat n * IncreaseStep c) (MaxCapacity c) ∧
  (currCapacity (lim s) = MaxCapacity c ↔
   (MaxCapacity c - InitCapacity c <= Z.of_nat n * IncreaseStep c)%Z) ∧
  (Z.of_nat n * IncreaseStep c < MaxCapacity c - InitCapacity c + IncreaseStep c)%Z.
Proof.
  intros Hc Hg. pose proof (config_ok_bounds c Hc).
  destruct (grown_capacity c n s Hc Hg) as [E _]. rewrite E. unfold capacity_after.
  split_and!; [done|lia|].
  assert (n = 0 ∨ ∃ m, n = S m ∧ (Z.of_nat m * IncreaseStep c < MaxCapacity c - InitCapacity c)%Z)
    as [->|(m & -> & Hm)]; [|lia..].
  clear E. induction Hg as [|n s s' ev Hg IH E Hsame|n s s' ev Hg _ E Hdiff]; [by left|by apply IH|].
  right. exists n. split; [done|].
  destruct (grown_capacity c n s Hc Hg) as [IHc IHp].
  destruct (exec_capacity ev s s' E) as [[Hk _]|(m' & nc & Hp1 & Hc1 & Hp2)]; [done|].
  destruct (IHp m' nc Hp1) as [_ Hlt]. destruct (grown_steps c n s Hg) as (s0 & H0 & Hs).
  pose proof (li_pc _ _ (lim_steps_inv c true s0 s Hc H0 Hs)) as Hpc. rewrite Hp1 in Hpc.
  rewrite IHc in *. unfold capacity_after in *. lia.
Qed.

Lemma lim_exec_all_steps evs s s' : exec_all evs s = Some s' → rtc step s s'.
Proof.
  revert s. induction evs as [|ev evs IH]; cbn; intros s E; [by injection E as ->|].
  destruct (exec ev s) as [s1|] eqn:E1; [|done]. eapply rtc_l; [by exists ev|by apply IH].
Qed.

(** ** Witnesses *)

Definition tiny : TokenLimiterConfig := MkTLConfig 1 2 1 1.

Definition tiny_state (started : bool) (evs : list event) : LS :=
  let l := MkTL tiny (Chan [tt] 1 false) 1 false in
  let s0 := MkLS l (if started then AtSelect else Returned) false 0 0 0 in
  default s0 (exec_all evs s0).

Lemma tiny_ok : config_ok tiny.
Proof. by split. Qed.

Lemma tiny_initial b : initial tiny b (tiny_state b []).
Proof. eexists. split; [|reflexivity]. reflexivity. Qed.

(** One token is taken, the capacity grows to 2, the new token is taken too. *)
Definition grow_and_take : list event := [EvAcquire; EvTick; EvSend; EvSend; EvAcquire].

Example tokens_conserved_witness :
  let s := tiny_state true grow_and_take in
  (acquired s - released s = 2)%Z ∧ (acquired s - released s <= MaxCapacity tiny)%Z.
Proof.
  cbn zeta. split; [reflexivity|].
  apply (tokens_conserved tiny true (tiny_state true []) (tiny_state true grow_and_take) tiny_ok
    (tiny_initial true)).
  by apply (lim_exec_all_steps grow_and_take).
Defined.

Example Release_returns_token_witness :
  ∃ l, Release (lim (tiny_state false [EvAcquire])) = Done true l ∧ length (ch_buf (tokens l)) = 1.
Proof.
  apply (Release_returns_token tiny (tiny_state false []) (tiny_state false [EvAcquire]) tiny_ok
    (tiny_initial false)).
  - by apply (lim_exec_all_steps [EvAcquire]).
  - reflexivity.
Defined.

(** Both tokens come back: the first [Release] fills the one slot, the second
    fails although two were acquired and one released. *)
Example Release_fails_iff_witness :
  let s := tiny_state true (grow_and_take ++ [EvRelease]) in
  acquired s = 2%Z ∧ released s = 1%Z ∧ ∃ b l, Release (lim s) = Done b l ∧ b = false.
Proof.
  cbn zeta. split; [reflexivity|]. split; [reflexivity|].
  destruct (Release_fails_iff tiny (tiny_state true []) (tiny_state true (grow_and_take ++ [EvRelease]))
    tiny_ok (tiny_initial true)) as (b & l & E & Hb).
  - by apply (lim_exec_all_steps (grow_and_take ++ [EvRelease])).
  - left. reflexivity.
  - exists b, l. split; [exact E|]. apply Hb. reflexivity.
Defined.

Example growth_parks_witness :
  ∃ more newCap, pc (tiny_state true [EvTick; EvClose; EvCancel]) = Sending more newCap ∧
    exec EvDone (tiny_state true [EvTick; EvClose; EvCancel]) = None.
Proof.
  destruct (growth_parks tiny (tiny_state true []) (tiny_state true [EvTick]) [EvClose; EvCancel]
    (tiny_state true [EvTick; EvClose; EvCancel]) tiny_ok) as (more & newCap & Hp & _ & _ & _ & Hd).
  - reflexivity.
  - exact (tiny_initial true).
  - reflexivity.
  - intros [?|[?|?%elem_of_nil]%elem_of_cons]%elem_of_cons; done.
  - reflexivity.
  - exists more, newCap. split; [exact Hp|exact Hd].
Defined.

Lemma grown_tiny : grown tiny 1 (tiny_state true grow_and_take).
Proof.
  eapply (grown_other _ _ (tiny_state true [EvAcquire; EvTick; EvSend; EvSend]) _ EvAcquire);
    [|reflexivity..].
  eapply (grown_store _ _ (tiny_state true [EvAcquire; EvTick; EvSend]) _ EvSend);
    [|reflexivity|done].
  eapply (grown_other _ _ (tiny_state true [EvAcquire; EvTick]) _ EvSend); [|reflexivity..].
  eapply (grown_other _ _ (tiny_state true [EvAcquire]) _ EvTick); [|reflexivity..].
  eapply (grown_other _ _ (tiny_state true []) _ EvAcquire); [|reflexivity..].
  apply grown_0, tiny_initial.
Qed.

Example growth_schedule_witness :
  currCapacity (lim (tiny_state true grow_and_take)) = 2%Z ∧
  (96 * IncreaseStep DefaultConfig = MaxCapacity DefaultConfig - InitCapacity DefaultConfig)%Z ∧
  (96 * IncreaseInterval DefaultConfig = 192 * Second)%Z.
Proof.
  split; [|split; reflexivity].
  exact (proj1 (growth_schedule tiny 1 _ tiny_ok grown_tiny)).
Defined.
