(* ===== verification/Codec.v ===== *)
(** The codecs of frontend messages ([internal/pkg/codec]) and their selection
    ([internal/pkg/providers/codec.go]).  The encodings themselves are the
    protobuf library's. *)

From S2P Require Import Prelude Env Session Iface.
From Stdlib Require Import Ascii.

(** An [any] value given to a codec: a message, or a value of a Go type that is
    not a [proto.Message]. *)
Inductive anyval : Type :=
  | AMessage (m : Message)
  | AOther (go_type : string).

(** The [Codec] interface; [Unmarshal] gives back its filled second argument. *)
Record Codec : Type := MkCodec {
  Name : string;
  Marshal : anyval → error + bytes;
  Unmarshal : bytes → anyval → error + anyval;
}.

Section Codecs.
Context {PB : Protobuf Message AckPayload PushMessage}.

Definition marshal_type_error (ty : string) : error :=
  EText ("failed to marshal message: invalid message type, expected proto.Message, got " +:+ ty).
Definition unmarshal_type_error (ty : string) : error :=
  EText ("failed to unmarshal message: invalid message type, expected proto.Message, got " +:+ ty).

Definition JSONCodec_Marshal (val : anyval) : error + bytes :=
  match val with
  | AMessage m => protojson_Marshal m
  | AOther ty => inl (marshal_type_error ty)
  end.

Definition JSONCodec_Unmarshal (data : bytes) (val : anyval) : error + anyval :=
  match val with
  | AMessage _ =>
      match protojson_Unmarshal data with inl e => inl e | inr m => inr (AMessage m) end
  | AOther ty => inl (unmarshal_type_error ty)
  end.

Definition NewJSONCodec : Codec := MkCodec "json" JSONCodec_Marshal JSONCodec_Unmarshal.

Definition ProtoCodec_Marshal (val : anyval) : error + bytes :=
  match val with
  | AMessage m => proto_Marshal m
  | AOther ty => inl (marshal_type_error ty)
  end.

Definition ProtoCodec_Unmarshal (data : bytes) (val : anyval) : error + anyval :=
  match val with
  | AMessage _ =>
      match proto_Unmarshal data with inl e => inl e | inr m => inr (AMessage m) end
  | AOther ty => inl (unmarshal_type_error ty)
  end.

Definition NewProtoCodec : Codec := MkCodec "proto" ProtoCodec_Marshal ProtoCodec_Unmarshal.

(** [newCodec], on the configured [synp.codec.type]. *)
Definition newCodec (type : string) : error + Codec :=
  if String.eqb type "json" then inr NewJSONCodec
  else if String.eqb type "proto" then inr NewProtoCodec
  else inl (EText ("unsupported codec type: " +:+ type +:+ ", expected 'json' or 'proto'")).

Lemma newCodec_inv type c :
  newCodec type = inr c → Name c = type ∧ (c = NewJSONCodec ∨ c = NewProtoCodec).
Proof.
  unfold newCodec. destruct (String.eqb_spec type "json") as [->|].
  - intros [= <-]. by split; [|left].
  - destruct (String.eqb_spec type "proto") as [->|]; intros [= <-]. by split; [|right].
Qed.

Context {PBS : ProtobufSpec Message AckPayload PushMessage}.

(** Every codec the configuration can select carries the configured name,
    decodes what it encodes back to the same message whatever message it is decoded
    into, and refuses to encode or decode a value that is not a protobuf message. *)
Theorem codec_roundtrip (type : string) (c : Codec) :
  newCodec type = inr c →
  Name c = type ∧
  (∀ m m0 b, Marshal c (AMessage m) = inr b → Unmarshal c b (AMessage m0) = inr (AMessage m)) ∧
  (∀ ty b, (∃ e, Marshal c (AOther ty) = inl e) ∧ (∃ e, Unmarshal c b (AOther ty) = inl e)).
Proof.
  intros (Hn & Hc)%newCodec_inv. split; [done|].
  destruct Hc as [-> | ->]; cbn; (split; [|by eauto]); intros m m0 b Hm.
  - by rewrite (protojson_roundtrip m b Hm).
  - by rewrite (proto_roundtrip m b Hm).
Qed.

End Codecs.

(** ** A concrete encoding for the witnesses

    One character for the command, the id, a colon, the body; an id with a colon
    and an unnamed command do not encode. *)

Definition sim_cmd (c : CommandType) : option Ascii.ascii :=
  match c with
  | COMMAND_TYPE_HEARTBEAT => Some "h"%char
  | COMMAND_TYPE_UPSTREAM => Some "u"%char
  | COMMAND_TYPE_UPSTREAM_ACK => Some "U"%char
  | COMMAND_TYPE_DOWNSTREAM => Some "d"%char
  | COMMAND_TYPE_DOWNSTREAM_ACK => Some "D"%char
  | COMMAND_TYPE_OTHER _ => None
  end.

Definition sim_cmd_of (a : Ascii.ascii) : CommandType :=
  if Ascii.eqb a "h" then COMMAND_TYPE_HEARTBEAT
  else if Ascii.eqb a "u" then COMMAND_TYPE_UPSTREAM
  else if Ascii.eqb a "U" then COMMAND_TYPE_UPSTREAM_ACK
  else if Ascii.eqb a "d" then COMMAND_TYPE_DOWNSTREAM
  else if Ascii.eqb a "D" then COMMAND_TYPE_DOWNSTREAM_ACK
  else COMMAND_TYPE_OTHER 0.

Fixpoint split_colon (s : string) : option (string * string) :=
  match s with
  | EmptyString => None
  | String a s' =>
      if Ascii.eqb a ":" then Some ("", s')
      else match split_colon s' with Some (x, y) => Some (String a x, y) | None => None end
  end.

Lemma split_colon_app x y : no_colon x = true → split_colon (x +:+ ":" +:+ y) = Some (x, y).
Proof.
  unfold no_colon. induction x as [|a x IH]; cbn; [done|].
  intros [Ha Hx]%andb_true_iff. apply negb_true_iff in Ha.
  change (split_colon (String a (x +:+ ":" +:+ y)) = Some (String a x, y)). cbn.
  by rewrite Ha, IH.
Qed.

Definition sim_marshal (m : Message) : error + bytes :=
  match sim_cmd (Cmd m) with
  | Some a =>
      if no_colon (MessageId m) then inr (String a (MessageId m +:+ ":" +:+ Body m))
      else inl (EText "colon")
  | None => inl (EText "command")
  end.

Definition sim_unmarshal (b : bytes) : error + Message :=
  match b with
  | EmptyString => inl (EText "empty")
  | String a s =>
      match split_colon s with
      | Some (x, y) => inr (MkMessage (sim_cmd_of a) x y)
      | None => inl (EText "no colon")
      end
  end.

(** A push message for user [(1, 7)] is the id, a colon, the body. *)
#[export] Instance sim_protobuf : Protobuf Message AckPayload PushMessage := {
  proto_Marshal := sim_marshal;
  proto_Unmarshal := sim_unmarshal;
  protojson_Marshal := sim_marshal;
  protojson_Unmarshal := sim_unmarshal;
  protojson_Marshal_ack a := inr (if Success a then "ok" else "failed: " +:+ ErrorMessage a);
  json_Unmarshal_push b :=
    match split_colon b with
    | Some (x, y) => inr (MkPushMessage x 1 7 y)
    | None => inl (EText "invalid json")
    end;
}.

Lemma sim_roundtrip m b : sim_marshal m = inr b → sim_unmarshal b = inr m.
Proof.
  unfold sim_marshal. destruct m as [c i x]. cbn [Cmd MessageId Body].
  destruct (sim_cmd c) as [a|] eqn:Hc; [|done].
  destruct (no_colon i) eqn:Hi; [|done]. intros [= <-].
  unfold sim_unmarshal. rewrite split_colon_app by done.
  by destruct c; cbn in Hc; simplify_eq.
Qed.

#[export] Instance sim_protobuf_spec : ProtobufSpec Message AckPayload PushMessage.
Proof. split; apply sim_roundtrip. Qed.

Example codec_roundtrip_witness :
  Unmarshal NewProtoCodec "um1:hi" (AOther "string") = inl (unmarshal_type_error "string") ∧
  Unmarshal NewProtoCodec "um1:hi" (AMessage (MkMessage COMMAND_TYPE_HEARTBEAT "" ""))
  = inr (AMessage (MkMessage COMMAND_TYPE_UPSTREAM "m1" "hi")).
Proof.
  split; [reflexivity|].
  destruct (codec_roundtrip "proto" NewProtoCodec eq_refl) as (_ & Hr & _).
  apply (Hr (MkMessage COMMAND_TYPE_UPSTREAM "m1" "hi")). reflexivity.
Defined.
