(* ===== verification/Xmq.v ===== *)
(** The message queue ([internal/pkg/xmq]): messages, the Kafka producer, and the
    Kafka consumer, whose reading goroutine passes messages on through a
    channel. *)

From S2P Require Import Prelude Env Sim.

Module Xmq.

Record XMessage : Type := MkXMessage {
  Headers : gmap string string;
  Topic : string;
  Partition : Z;
  Offset : Z;
  Key : bytes;
  Val : bytes;
}.

(** [KafkaProducer.Produce] with a context that expires after [timeout]. *)
Definition Produce {E : Type} `{Kafka E} (timeout : Z) (msg : XMessage) : go E (option error) :=
  state (kafka_write timeout (Topic msg) (Key msg) (Val msg)).

Definition convertMessage (k : KMessage) : XMessage :=
  MkXMessage
    (fold_left (λ headers header, <[header.1 := header.2]> headers) (k_Headers k) ∅)
    (k_Topic k) (k_Partition k) (k_Offset k) (k_Key k) (k_Value k).

Definition defaultMessageChanSize : Z := 1024.

(** [KafkaConsumer]: [c_done] is its context, [c_once] whether [closeOnce] ran. *)
Record KafkaConsumer : Type := MkConsumer {
  topic : string;
  groupID : string;
  messageChan : chan XMessage;
  c_done : bool;
  c_once : bool;
}.

Definition set_chan (c : chan XMessage) (k : KafkaConsumer) : KafkaConsumer :=
  MkConsumer (topic k) (groupID k) c (c_done k) (c_once k).

Definition NewKafkaConsumer (topic groupID : string) : KafkaConsumer :=
  MkConsumer topic groupID (make_chan defaultMessageChanSize) false false.

(** The case of [Consume]'s [select] that is taken: the consumer's own context,
    the caller's context (with its error), or the channel.  [None]: the case is
    not ready. *)
Inductive ccase : Type := COwnDone | CCtxDone | CRecv.

Definition Consume (ctx_err : option error) (i : ccase) (k : KafkaConsumer) :
    option ((error + XMessage) * KafkaConsumer) :=
  match i with
  | COwnDone => if c_done k then Some (inl (ESentinel ContextCanceled), k) else None
  | CCtxDone => match ctx_err with Some e => Some (inl e, k) | None => None end
  | CRecv =>
      match ch_buf (messageChan k) with
      | m :: rest =>
          Some (inr m, set_chan (Chan rest (ch_cap (messageChan k)) (ch_closed (messageChan k))) k)
      | [] =>
          if ch_closed (messageChan k) then Some (inl (ESentinel ErrConsumerClosed), k) else None
      end
  end.

Definition ConsumeChan (ctx_err : option error) (k : KafkaConsumer) : error + chan XMessage :=
  if c_done k then inl (ESentinel ErrConsumerClosed) else
  match ctx_err with Some e => inl e | None => inr (messageChan k) end.

Definition Close {E : Type} `{Kafka E} : go (KafkaConsumer * E) (option error) :=
  once <- gets (λ s, c_once s.1) ;;
  if (once : bool) then ret None else
  modify (λ s, (MkConsumer (topic s.1) (groupID s.1) (messageChan s.1) true true, s.2)) ;;;
  zoom (state kafka_reader_close).

(** Where [readMessage] is. *)
Inductive rpc : Type :=
  | RdRead
  | RdSend (m : XMessage)
  | RdExit.

Definition read_ends (err : error) : bool :=
  error_is err IoErrClosedPipe || error_is err IoEOF || error_is err ContextCanceled.

(** One turn of [readMessage] after [ReadMessage] has returned [r]. *)
Definition on_read (r : error + KMessage) (k : KafkaConsumer) : rpc * KafkaConsumer :=
  match r with
  | inl err =>
      if read_ends err then (RdExit, set_chan (ch_close (messageChan k)) k) else (RdRead, k)
  | inr km => (RdSend (convertMessage km), k)
  end.

(** The consumer with its goroutine; [got]: what [ReadMessage] has returned so
    far, [taken]: what has been received from the channel. *)
Record KS : Type := MkKS {
  con : KafkaConsumer;
  at_ : rpc;
  got : list KMessage;
  taken : list XMessage;
}.

Inductive event : Type :=
  | KRead (r : error + KMessage)
  | KSend | KQuit | KTake | KClose.

Definition exec (ev : event) (s : KS) : option KS :=
  match ev, at_ s with
  | KRead r, RdRead =>
      let '(p, k) := on_read r (con s) in
      Some (MkKS k p (match r with inr km => got s ++ [km] | inl _ => got s end) (taken s))
  | KSend, RdSend m =>
      if ch_room (messageChan (con s))
      then Some (MkKS (set_chan (ch_push m (messageChan (con s))) (con s)) RdRead (got s) (taken s))
      else None
  | KQuit, RdSend m =>
      if c_done (con s)
      then Some (MkKS (set_chan (ch_close (messageChan (con s))) (con s)) RdExit (got s) (taken s))
      else None
  | KTake, _ =>
      match Consume None CRecv (con s) with
      | Some (inr m, k) => Some (MkKS k (at_ s) (got s) (taken s ++ [m]))
      | _ => None
      end
  | KClose, _ =>
      let k := con s in
      Some (MkKS (MkConsumer (topic k) (groupID k) (messageChan k) true true) (at_ s)
              (got s) (taken s))
  | _, _ => None
  end.

Definition step (s s' : KS) : Prop := ∃ ev, exec ev s = Some s'.

Definition initial (t g : string) : KS := MkKS (NewKafkaConsumer t g) RdRead [] [].

(** * Lemmas and properties *)

Record con_inv (s : KS) : Prop := ConInv {
  ci_order : ∃ hand, convertMessage <$> got s = taken s ++ ch_buf (messageChan (con s)) ++ hand ∧
    match at_ s with RdRead => hand = [] | RdSend m => hand = [m] | RdExit => length hand ≤ 1 end;
  ci_closed : ch_closed (messageChan (con s)) = true ↔ at_ s = RdExit;
  ci_room : length (ch_buf (messageChan (con s))) ≤ ch_cap (messageChan (con s));
  ci_cap : ch_cap (messageChan (con s)) = 1024;
  ci_quit : ∀ hand, convertMessage <$> got s = taken s ++ ch_buf (messageChan (con s)) ++ hand →
    at_ s = RdExit → hand ≠ [] → c_done (con s) = true;
}.

Lemma con_initial_inv t g : con_inv (initial t g).
Proof.
  split; cbn; [by exists []|done|lia|done|done].
Qed.

Lemma con_exec_inv ev s s' : con_inv s → exec ev s = Some s' → con_inv s'.
Proof.
  intros [(hand & Ho & Hh) Hc Hr Hcap Hq] E.
  destruct ev as [r| | | |]; unfold exec in E.
  - destruct (at_ s) as [|m|] eqn:Hat; [|done..]. subst hand. destruct r as [err|km]; cbn in E.
    + destruct (read_ends err); injection E as <-; split; cbn; try done; try tauto.
      * exists []. by split; [|cbn; lia].
      * intros hand' E' _ Hne. rewrite Ho in E'. apply app_inv_head, app_inv_head in E'. congruence.
      * by exists [].
    + injection E as <-; split; cbn; try done; try tauto.
      * exists [convertMessage km]. rewrite fmap_app, Ho, app_nil_r, <- app_assoc. by split.
      * rewrite Hc. by split.
  - destruct (at_ s) as [|m|] eqn:Hat; [done| |done].
    destruct (ch_room (messageChan (con s))) eqn:Hroom; [|done]. subst hand.
    injection E as <-; split; cbn; try done; try tauto.
    + exists []. rewrite Ho, app_nil_r. by split.
    + rewrite Hc. by split.
    + by apply (ch_room_push m) in Hroom.
  - destruct (at_ s) as [|m|] eqn:Hat; [done| |done].
    destruct (c_done (con s)) eqn:Hd; [|done]. subst hand.
    injection E as <-; split; cbn; try done; try tauto. exists [m]. split; [done|cbn; lia].
  - unfold Consume in E. destruct (ch_buf (messageChan (con s))) as [|m rest] eqn:Hb.
    { by destruct (ch_closed (messageChan (con s))). }
    assert (∀ l, (taken s ++ [m]) ++ rest ++ l = taken s ++ (m :: rest) ++ l) as Ha
      by (intros l; by rewrite <- app_assoc).
    injection E as <-; split; cbn; try done; try tauto.
    + exists hand. by rewrite Ha.
    + cbn in Hr. lia.
    + intros hand' E'. apply Hq. by rewrite <- Ha.
  - injection E as <-; split; cbn; try done; try tauto. by exists hand.
Qed.

Lemma con_steps_inv t g s : rtc step (initial t g) s → con_inv s.
Proof.
  intros Hs. assert (con_inv (initial t g)) as Hi by apply con_initial_inv.
  induction Hs as [|s1 s2 s3 (ev & E) _ IH]; [done|]. by eapply IH, con_exec_inv.
Qed.

(** C40. The consumer delivers in order and loses nothing while it runs: at every
    moment the messages read from Kafka, converted, are those taken from the
    channel, those waiting in it, and at most the one message the goroutine is
    about to send.  After the goroutine has ended the channel is closed, and at
    most one message was dropped, and only if the consumer was closed.  The
    channel never holds more than 1024 messages. *)
Theorem consumer_order (t g : string) (s : KS) :
  rtc step (initial t g) s →
  (∃ hand, convertMessage <$> got s = taken s ++ ch_buf (messageChan (con s)) ++ hand ∧
     match at_ s with
     | RdRead => hand = []
     | RdSend m => hand = [m]
     | RdExit => length hand ≤ 1 ∧ (hand ≠ [] → c_done (con s) = true)
     end) ∧
  (ch_closed (messageChan (con s)) = true ↔ at_ s = RdExit) ∧
  length (ch_buf (messageChan (con s))) ≤ 1024.
Proof.
  intros [(hand & Ho & Hh) Hc Hr Hcap Hq]%con_steps_inv. split_and!; [|apply Hc..|lia].
  exists hand. split; [done|]. destruct (at_ s) eqn:Hat; try done. split; [done|]. by apply Hq.
Qed.

(** A read that fails with any error other than end of input or cancellation is
    retried: the goroutine stays at its loop. *)
Lemma on_read_retry err k :
  error_is err IoErrClosedPipe = false → error_is err IoEOF = false →
  error_is err ContextCanceled = false → on_read (inl err) k = (RdRead, k).
Proof. intros H1 H2 H3. cbn. unfold read_ends. by rewrite H1, H2, H3. Qed.

(** [Close] cancels the consumer and closes the reader once; calling it again
    does nothing and reports no error, whatever the first call reported.  From the
    first call on [ConsumeChan] fails with [ErrConsumerClosed] and [Consume] can
    return the cancellation. *)
Theorem Close_consumer_once {E : Type} `{Kafka E} (k : KafkaConsumer) (e : E) (ctx : option error) :
  c_once k = false → c_done k = false →
  ∃ k', Close (k, e) = Done (kafka_reader_close e).1 (k', (kafka_reader_close e).2) ∧
    (∀ e', Close (k', e') = Done None (k', e')) ∧
    ConsumeChan ctx k' = inl (ESentinel ErrConsumerClosed) ∧
    Consume ctx COwnDone k' = Some (inl (ESentinel ContextCanceled), k') ∧
    messageChan k' = messageChan k.
Proof.
  intros Ho Hd. unfold Close. erewrite bind_done by reflexivity. cbn [fst]. rewrite Ho.
  exists (MkConsumer (topic k) (groupID k) (messageChan k) true true). split_and!; try done.
  unfold bind, modify, zoom, state. cbn. by destruct (kafka_reader_close e).
Qed.

(** The conversion keeps topic, partition, offset, key and value, and for
    each header key the value that stands last in the Kafka message. *)
Theorem convertMessage_headers (km : KMessage) (key : string) :
  let m := convertMessage km in
  Topic m = k_Topic km ∧ Partition m = k_Partition km ∧ Offset m = k_Offset km ∧
  Key m = k_Key km ∧ Val m = k_Value km ∧
  Headers m !! key = option_map snd (list.last (filter (λ h, h.1 = key) (k_Headers km))).
Proof.
  cbn zeta. split_and!; try done. destruct km as [? ? ? ? ? hs]. cbn [convertMessage Headers k_Headers].
  induction hs as [|[k v] hs IH] using rev_ind; [done|].
  rewrite fold_left_app, list.filter_app, filter_cons. cbn. destruct (decide (k = key)) as [->|Hne].
  - by rewrite lookup_insert_eq, last_snoc.
  - by rewrite lookup_insert_ne, app_nil_r.
Qed.

(** ** Witnesses *)

Definition kmsg (n : Z) : KMessage := MkKMessage "t" 0 n "" "v" [("a", "1"); ("a", "2")].

Definition run (evs : list event) : option KS :=
  foldr (λ ev k s, match exec ev s with Some s' => k s' | None => None end) Some evs
    (initial "t" "g").

Lemma run_steps evs s : run evs = Some s → rtc step (initial "t" "g") s.
Proof.
  unfold run. generalize (initial "t" "g"). induction evs as [|ev evs IH]; cbn; intros s0 E.
  - by injection E as ->.
  - destruct (exec ev s0) as [s1|] eqn:E1; [|done]. eapply rtc_l; [by exists ev|by apply IH].
Qed.

Definition busy : list event :=
  [KRead (inr (kmsg 1)); KSend; KRead (inr (kmsg 2)); KTake; KClose; KQuit].

Example consumer_order_witness :
  ∃ s hand, run busy = Some s ∧ taken s = [convertMessage (kmsg 1)] ∧
    convertMessage <$> got s = taken s ++ ch_buf (messageChan (con s)) ++ hand ∧ length hand ≤ 1.
Proof.
  destruct (run busy) as [s|] eqn:E; [|discriminate E].
  destruct (consumer_order "t" "g" s (run_steps busy s E)) as ((hand & Ho & Hh) & _).
  injection E as <-. eexists _, hand. split; [reflexivity|]. split; [reflexivity|].
  split; [exact Ho|exact (proj1 Hh)].
Defined.

Example Close_consumer_once_witness :
  ∃ k', Close (NewKafkaConsumer "t" "g", sim0) = Done None (k', sim0) ∧
    Close (k', sim0) = Done None (k', sim0).
Proof.
  destruct (Close_consumer_once (NewKafkaConsumer "t" "g") sim0 None eq_refl eq_refl)
    as (k' & E & E2 & _).
  exists k'. split; [exact E|exact (E2 sim0)].
Defined.

End Xmq.
