(* ===== verification/Message.v ===== *)
(** Message handling ([internal/pkg/message]): the push function and the handlers
    of upstream and downstream messages.

    The state is that of the retransmit manager over a world [W] of connections,
    which has an environment [E] as a part. *)

From S2P Require Import Prelude Env Sim Session Conn Iface Retransmit Codec Xmq.

(** [upstream.UMsgHandler] *)
Record UMsgHandler (S : Type) : Type := MkUMsgHandler {
  Handle : nat → Message → go S (option error);
  CmdType : CommandType;
}.
Arguments MkUMsgHandler {S} Handle CmdType.
Arguments Handle {S} u conn msg.
Arguments CmdType {S} u.

(** [downstream.DMsgHandler] *)
Definition DMsgHandler (S : Type) : Type := list nat → PushMessage → go S (option error).

(** [FrontendMsgHandler] *)
Record FrontendMsgHandler (W : Type) : Type := MkFrontend {
  mqTopic : string;
  onReceiveTimeout : Z;
  pushFunc : PushFunc W;
}.
Arguments MkFrontend {W} mqTopic onReceiveTimeout pushFunc.
Arguments mqTopic {W} f.
Arguments onReceiveTimeout {W} f.
Arguments pushFunc {W} f.

Section Handlers.
Context {M : Type → Type} {W E : Type} `{SyncMap M, SynpConn W, Part W E, Sched E, Kafka E}.
Context {PB : Protobuf Message AckPayload PushMessage}.

Definition DefaultPushFunc (codec : Codec) : PushFunc W := λ conn msg,
  match Marshal codec (AMessage msg) with
  | inl err => ret (Some (errorf_pre "failed to marshal message: " err))
  | inr payload =>
      err <- conn_Send conn payload ;;
      match err with
      | Some e => ret (Some (errorf_pre "failed to send message: " e))
      | None => ret None
      end
  end.

(** [HeartbeatMsgHandler] *)
Definition Heartbeat_Handle (push : PushFunc W) (conn : nat) (msg : Message) :
    go W (option error) := push conn msg.

(** [FrontendMsgHandler.forwardToBackend] *)
Definition forwardToBackend (h : FrontendMsgHandler W) (msg : Message) : go W (option error) :=
  match protojson_Marshal msg with
  | inl err => ret (Some (errorf_pre "failed to marshal message: " err))
  | inr val =>
      let mqMsg := Xmq.MkXMessage ∅ (mqTopic h) 0 0 (MessageId msg) val in
      err <- zoom (Xmq.Produce (onReceiveTimeout h) mqMsg) ;;
      match err with
      | Some e => ret (Some (errorf_pre "failed to forward message: " e))
      | None => ret None
      end
  end.

Definition Frontend_Handle (h : FrontendMsgHandler W) (conn : nat) (msg : Message) :
    go W (option error) :=
  conn_UpdateActivityTime conn ;;;
  now <- zoom (state time_now) ;;
  err <- forwardToBackend h msg ;;
  let ackPayload :=
    match err with
    | None => MkAckPayload true (now / Millisecond) ""
    | Some e => MkAckPayload false (now / Millisecond) (error_text e)
    end in
  match protojson_Marshal_ack ackPayload with
  | inl e => ret (Some (errorf_pre "failed to marshal ack payload: " e))
  | inr body => pushFunc h conn (MkMessage COMMAND_TYPE_UPSTREAM_ACK (MessageId msg) body)
  end.

(** [DownstreamAckHandler] *)
Definition DownstreamAck_Handle (conn : nat) (msg : Message) : go (RTS M W) (option error) :=
  cid <- zoom (conn_ID conn) ;;
  Stop cid (MessageId msg) ;;;
  ret None.

(** [BackendMsgHandler.Handle]: the loop, and the deferred [Start]. *)
Fixpoint push_each (push : PushFunc W) (conns : list nat) (msg : Message) :
    go (RTS M W) (option error) :=
  match conns with
  | [] => ret None
  | conn :: conns' =>
      err <- zoom (push conn msg) ;;
      match err with
      | Some e => ret (Some e)
      | None => zoom (conn_UpdateActivityTime conn) ;;; push_each push conns' msg
      end
  end.

Definition Backend_Handle (push : PushFunc W) : DMsgHandler (RTS M W) := λ conns pushMsg,
  let downstreamMsg :=
    MkMessage COMMAND_TYPE_DOWNSTREAM (pm_MessageId pushMsg) (pm_Body pushMsg) in
  defer (Start conns downstreamMsg) (push_each push conns downstreamMsg).

(** The handlers as the application registers them. *)
Definition NewHeartbeatMsgHandler (push : PushFunc W) : UMsgHandler (RTS M W) :=
  MkUMsgHandler (λ conn msg, zoom (Heartbeat_Handle push conn msg)) COMMAND_TYPE_HEARTBEAT.

Definition NewFrontendMsgHandler (topic : string) (timeout : Z) (push : PushFunc W) :
    UMsgHandler (RTS M W) :=
  MkUMsgHandler (λ conn msg, zoom (Frontend_Handle (MkFrontend topic timeout push) conn msg))
    COMMAND_TYPE_UPSTREAM.

Definition NewDownstreamAckHandler : UMsgHandler (RTS M W) :=
  MkUMsgHandler DownstreamAck_Handle COMMAND_TYPE_DOWNSTREAM_ACK.

(** * Lemmas and properties *)

(** The pushes and activity updates of a list of connections, all successful. *)
Inductive sent (push : PushFunc W) (msg : Message) : list nat → W → W → Prop :=
  | sent_nil w : sent push msg [] w w
  | sent_cons c l w w1 w2 w3 :
      push c msg w = Done None w1 → conn_UpdateActivityTime c w1 = Done tt w2 →
      sent push msg l w2 w3 → sent push msg (c :: l) w w3.

Lemma zoom_rest_done {A} (m : go W A) (s : RTS M W) v w :
  m (rest s) = Done v w → zoom m s = Done v (part_set w s).
Proof. intros E0. unfold zoom. cbn. by rewrite E0. Qed.

Lemma push_each_sent push msg l w w' (s : RTS M W) :
  sent push msg l w w' → rest s = w → push_each push l msg s = Done None (part_set w' s).
Proof.
  intros Hs. revert s. induction Hs as [w|c l w w1 w2 w3 Hp Hu _ IH]; intros s <-.
  { by destruct s. }
  cbn [push_each]. erewrite bind_done by by apply zoom_rest_done. cbv beta iota.
  erewrite bind_done by by apply zoom_rest_done. by rewrite IH.
Qed.

Lemma zoom_rest_inv {A} (m : go W A) (s : RTS M W) v s' :
  zoom m s = Done v s' → m (rest s) = Done v (rest s') ∧ s' = part_set (rest s') s.
Proof. unfold zoom. cbn. destruct (m (rest s)); [|done..]. by intros [= -> <-]. Qed.

Lemma push_each_inv push msg l (s s' : RTS M W) :
  push_each push l msg s = Done None s' →
  sent push msg l (rest s) (rest s') ∧ s' = part_set (rest s') s.
Proof.
  revert s. induction l as [|c l IH]; intros s; cbn [push_each].
  { intros [= <-]. split; [constructor|by destruct s]. }
  intros (err & s1 & [Hp E1]%zoom_rest_inv & Hs)%bind_done_inv. destruct err as [e|]; [done|].
  apply bind_done_inv in Hs as ([] & s2 & [Hu E2]%zoom_rest_inv & Hs).
  apply IH in Hs as [Hs E3]. split; [by eapply sent_cons|]. rewrite E3, E2, E1. by destruct s.
Qed.

Lemma push_each_failed push msg pre c post w w1 e w2 (s : RTS M W) :
  sent push msg pre w w1 → push c msg w1 = Done (Some e) w2 → rest s = w →
  push_each push (pre ++ c :: post) msg s = Done (Some e) (part_set w2 s).
Proof.
  intros Hs He. revert s. induction Hs as [w|c' l w w3 w4 w5 Hp Hu _ IH]; intros s <-; cbn.
  { by erewrite bind_done by by apply zoom_rest_done. }
  erewrite bind_done by by apply zoom_rest_done. cbv beta iota.
  erewrite bind_done by by apply zoom_rest_done. by rewrite IH.
Qed.

Context {SMS : SyncMapSpec M} {SCS : SynpConnSpec W}.

(** [defer] of code that returns, around code that returns. *)
Lemma defer_done {S A : Type} (d : go S unit) (m : go S A) s a s1 s2 :
  m s = Done a s1 → d s1 = Done tt s2 → defer d m s = Done a s2.
Proof. intros E1 E2. unfold defer. by rewrite E1, E2. Qed.

Lemma part_set_inv (s : RTS M W) w : rt_inv None s → rt_inv None (part_set w s).
Proof. apply rt_inv_rest. Qed.

(** Pushing a backend message to a user's connections.  If every push
    succeeds the handler reports success; if one fails it returns that error and
    sends to none of the connections after it.  In both cases a retransmission is
    started for every connection of the list, also those not reached, no other
    task changes, and the connections are those left by the pushes. *)
Theorem Backend_Handle_spec (push : PushFunc W) (pre : list nat) (post : list nat)
    (pm : PushMessage) (s : RTS M W) (w1 : W) (res : option error) (w2 : W) :
  let msg := MkMessage COMMAND_TYPE_DOWNSTREAM (pm_MessageId pm) (pm_Body pm) in
  Reachable s → closed (mgr s) = false →
  sent push msg pre (rest s) w1 →
  match post with
  | [] => res = None ∧ w2 = w1
  | c :: _ => ∃ e, push c msg w1 = Done (Some e) w2 ∧ res = Some e
  end →
  (∀ c, c ∈ pre ++ post → ∃ i u, conn_at w2 c i u) →
  ∃ s', Backend_Handle push (pre ++ post) pm s = Done res s' ∧ rest s' = w2 ∧
    (∀ c i u, c ∈ pre ++ post → conn_at w2 c i u →
       is_Some (sm_view (tasks (mgr s')) !! taskKey i (pm_MessageId pm))) ∧
    sm_view (tasks (mgr s)) ⊆ sm_view (tasks (mgr s')).
Proof.
  intros msg Hi%Reachable_inv Hc Hsent Hpost Hconn.
  assert (push_each push (pre ++ post) msg s = Done res (part_set w2 s)) as Hp.
  { destruct post as [|c post].
    - destruct Hpost as [-> ->]. rewrite app_nil_r. by eapply push_each_sent.
    - destruct Hpost as (e & He & ->). by eapply push_each_failed. }
  destruct (Start_registers (pre ++ post) msg (part_set w2 s)) as (s' & E' & _ & Hr & _ & Hsub & Hk & _).
  - by apply rt_inv_rest.
  - done.
  - intros c (i & u & Hat)%Hconn. exists i. by eapply conn_ID_at.
  - exists s'. split_and!; [by eapply defer_done|done| |done].
    intros c i u Hin Hat. apply (Hk c i Hin). by eapply conn_ID_at.
Qed.

(** A failed push stays recognisable: the error of the push function wraps the
    error of [Send], so [errors.Is] finds in it what it finds in that error (the
    server ends a connection's loop when it finds [ErrConnClosed]); a message that
    does not encode is not sent. *)
Theorem DefaultPushFunc_error (codec : Codec) (conn : nat) (msg : Message) (w : W) :
  match Marshal codec (AMessage msg) with
  | inl err => DefaultPushFunc codec conn msg w
               = Done (Some (errorf_pre "failed to marshal message: " err)) w
  | inr payload =>
      match conn_Send conn payload w with
      | Done None w' => DefaultPushFunc codec conn msg w = Done None w'
      | Done (Some e) w' => ∃ e', DefaultPushFunc codec conn msg w = Done (Some e') w' ∧
          ∀ t, error_is e' t = error_is e t
      | o => final (DefaultPushFunc codec conn msg w) = final o
      end
  end.
Proof.
  unfold DefaultPushFunc. destruct (Marshal codec (AMessage msg)) as [err|payload]; [done|].
  unfold bind. destruct (conn_Send conn payload w) as [[e|] w'|w'|w'|w']; try done.
  eexists. split; [done|]. intros t. by rewrite error_is_pre.
Qed.

(** A heartbeat is answered by itself: what the heartbeat handler sends to the
    connection decodes, with the codec it was encoded with, to the very message
    that came in. *)
Theorem heartbeat_echo {PBS : ProtobufSpec Message AckPayload PushMessage} (type : string)
    (codec : Codec) (conn : nat) (msg m0 : Message) (payload : bytes) (w : W) :
  newCodec type = inr codec → Marshal codec (AMessage msg) = inr payload →
  Unmarshal codec payload (AMessage m0) = inr (AMessage msg) ∧
  final (Heartbeat_Handle (DefaultPushFunc codec) conn msg w) = final (conn_Send conn payload w).
Proof.
  intros Hc Hm. split.
  - apply newCodec_inv in Hc as [_ [-> | ->]]; cbn in *.
    + by rewrite (protojson_roundtrip msg payload Hm).
    + by rewrite (proto_roundtrip msg payload Hm).
  - unfold Heartbeat_Handle, DefaultPushFunc, bind. rewrite Hm.
    by destruct (conn_Send conn payload w) as [[e|] w'|w'|w'|w'].
Qed.

(** C37. The acknowledgement of an upstream message tells the truth about the
    forwarding.  The handler writes the message, encoded, under its id to the
    configured topic, once, and then pushes to the sender exactly one
    acknowledgement, for the same id, whose payload reports success if the write
    succeeded and otherwise the write's error; it returns the push's result,
    whatever the write's. *)
Theorem Frontend_Handle_acks (h : FrontendMsgHandler W) (conn : nat) (msg : Message)
    (w w1 : W) (val body : bytes) :
  conn_UpdateActivityTime conn w = Done tt w1 →
  protojson_Marshal msg = inr val →
  let '(now, e1) := time_now (part_get w1) in
  let '(res, e2) := kafka_write (onReceiveTimeout h) (mqTopic h) (MessageId msg) val
                      (part_get (part_set e1 w1)) in
  let ack := match res with
             | None => MkAckPayload true (now / Millisecond) ""
             | Some e => MkAckPayload false (now / Millisecond)
                           ("failed to forward message: " +:+ error_text e)
             end in
  protojson_Marshal_ack ack = inr body →
  Frontend_Handle h conn msg w
  = pushFunc h conn (MkMessage COMMAND_TYPE_UPSTREAM_ACK (MessageId msg) body)
      (part_set e2 (part_set e1 w1)).
Proof.
  intros Hu Hm. destruct (time_now (part_get w1)) as [now e1] eqn:Ht.
  destruct (kafka_write _ _ _ _ _) as [res e2] eqn:Hk. intros ack Hack.
  unfold Frontend_Handle. erewrite bind_done by exact Hu.
  erewrite bind_done by (unfold zoom, state; rewrite Ht; reflexivity).
  unfold forwardToBackend. rewrite Hm.
  erewrite bind_done.
  2: { erewrite bind_done by (unfold zoom, Xmq.Produce, state; cbn; rewrite Hk; reflexivity).
       instantiate (2 := match res with
         | None => None | Some e => Some (errorf_pre "failed to forward message: " e) end).
       by destruct res. }
  subst ack. destruct res as [e|]; unfold errorf_pre; cbn [error_text]; by rewrite Hack.
Qed.

End Handlers.

(** ** Witnesses: the connections of [Conn.v] in the simulated environment *)

#[local] Existing Instance sim_multierr.

(** A phone with an open connection at 0, a laptop with a closed one at 1. *)
Definition laptop_conn : Conn :=
  let u := MkUser 7 42 DevicePC false in
  set_ctx_done (MkConn (ConnID u) (newSession u) 6 (params sample_conn) (reader sample_conn)
    (writer sample_conn) (sendChan sample_conn) (receiveChan sample_conn) 0 false false None).

Definition two_conns (e : Sim) : World Sim :=
  MkWorld (<[1 := laptop_conn]> {[0 := sample_conn]}) 2 [] e.

Definition sim_push : PushFunc (World Sim) := DefaultPushFunc NewProtoCodec.

Definition gateway0 (e : Sim) : RTS sim_map (World Sim) :=
  MkRTS (NewManager 0 0 (Some sim_push)) ∅ ∅ 0 (two_conns e).

Lemma gateway0_reachable e : Reachable (gateway0 e).
Proof. exists 0%Z, 0%Z, (Some sim_push), 0, (two_conns e). split; [by split|apply rtc_refl]. Qed.

Definition news : PushMessage := MkPushMessage "m1" 7 42 "news".
Definition news_msg : Message := MkMessage COMMAND_TYPE_DOWNSTREAM "m1" "news".

(** The world after the push to the phone. *)
Definition phone_pushed : World Sim :=
  final ((sim_push 0 news_msg ;;; conn_UpdateActivityTime 0) (two_conns sim0)).

Example Backend_Handle_spec_witness :
  ∃ e s', Backend_Handle sim_push ([0] ++ [1]) news (gateway0 sim0) = Done (Some e) s' ∧
    error_is e ErrConnClosed = true ∧
    is_Some (sm_view (tasks (mgr s')) !! "7:42:mobile:m1") ∧
    is_Some (sm_view (tasks (mgr s')) !! "7:42:pc:m1").
Proof.
  set (o := sim_push 1 news_msg phone_pushed).
  destruct (Backend_Handle_spec sim_push [0] [1] news (gateway0 sim0) phone_pushed
    (Some (errorf_pre "failed to send message: " (ESentinel ErrConnClosed))) (final o))
    as (s' & E' & _ & Hk & _).
  - apply gateway0_reachable.
  - reflexivity.
  - eapply sent_cons; [reflexivity|reflexivity|apply sent_nil].
  - eexists. split; reflexivity.
  - intros c [->|[->|Hc%elem_of_nil]%elem_of_cons]%elem_of_cons; [..|done];
      by eexists _, _; eexists; split_and!; reflexivity.
  - eexists _, s'. split; [exact E'|]. split; [reflexivity|]. split.
    + apply (Hk 0 "7:42:mobile" sample_user); [by left|].
      by eexists; split_and!; reflexivity.
    + apply (Hk 1 "7:42:pc" (MkUser 7 42 DevicePC false)); [by right; left|].
      by eexists; split_and!; reflexivity.
Defined.

Example heartbeat_echo_witness :
  Unmarshal NewProtoCodec "hx:ping" (AMessage news_msg)
  = inr (AMessage (MkMessage COMMAND_TYPE_HEARTBEAT "x" "ping")).
Proof.
  exact (proj1 (heartbeat_echo (W := World Sim) "proto" NewProtoCodec 0
    (MkMessage COMMAND_TYPE_HEARTBEAT "x" "ping") news_msg "hx:ping" (two_conns sim0)
    eq_refl eq_refl)).
Defined.

(** The queue refuses the message: the sender gets a negative acknowledgement. *)
Example Frontend_Handle_acks_witness :
  let h := MkFrontend "up" 100 sim_push in
  let msg := MkMessage COMMAND_TYPE_UPSTREAM "m9" "hello" in
  ∃ w2, Frontend_Handle h 0 msg (two_conns (sim_set_faults false (Some sim_refused) sim0))
    = sim_push 0 (MkMessage COMMAND_TYPE_UPSTREAM_ACK "m9"
        "failed: failed to forward message: connection refused") w2.
Proof.
  cbn zeta. set (w := two_conns (sim_set_faults false (Some sim_refused) sim0)).
  eexists.
  refine (Frontend_Handle_acks (MkFrontend "up" 100 sim_push) 0
    (MkMessage COMMAND_TYPE_UPSTREAM "m9" "hello") w
    (final (conn_UpdateActivityTime 0 w)) "um9:hello" _ _ _ _); reflexivity.
Defined.
