(* ===== verification/Lifecycle.v ===== *)
(** Connection events ([types.go]: Handler, HandlerWrapper;
    [internal/ws/conn/lifecycle/handler.go]: the deduplicating dispatcher). *)

From S2P Require Import Prelude Env Sim Session Conn Iface Retransmit Codec Xmq Message.

(** [synp.Handler] *)
Record Handler (S : Type) : Type := MkHandler {
  OnConnect : nat → go S (option error);
  OnDisconnect : nat → go S (option error);
  OnReceiveFromFrontend : nat → bytes → go S (option error);
  OnReceiveFromBackend : list nat → PushMessage → go S (option error);
}.
Arguments MkHandler {S} OnConnect OnDisconnect OnReceiveFromFrontend OnReceiveFromBackend.
Arguments OnConnect {S} h conn.
Arguments OnDisconnect {S} h conn.
Arguments OnReceiveFromFrontend {S} h conn payload.
Arguments OnReceiveFromBackend {S} h conns pushMsg.

(** ** HandlerWrapper *)

Section Wrapper.
Context {S : Type} {ME : MultiErr}.

(** [for _, handler := range w.handlers { err = multierr.Append(err, f(handler)) }] *)
Fixpoint append_all (f : Handler S → go S (option error)) (hs : list (Handler S))
    (err : option error) : go S (option error) :=
  match hs with
  | [] => ret err
  | h :: hs' => e <- f h ;; append_all f hs' (multierr_append err e)
  end.

Fixpoint frontend_all (conn : nat) (payload : bytes) (hs : list (Handler S))
    (err : option error) : go S (option error) :=
  match hs with
  | [] => ret err
  | h :: hs' =>
      handleErr <- OnReceiveFromFrontend h conn payload ;;
      if opt_is handleErr ErrRateLimited then ret None
      else frontend_all conn payload hs' (multierr_append err handleErr)
  end.

(** [NewHandlerWrapper] with the methods of [HandlerWrapper]. *)
Definition NewHandlerWrapper (hs : list (Handler S)) : Handler S :=
  MkHandler
    (λ conn, append_all (λ h, OnConnect h conn) hs None)
    (λ conn, append_all (λ h, OnDisconnect h conn) hs None)
    (λ conn payload, frontend_all conn payload hs None)
    (λ conns pushMsg, append_all (λ h, OnReceiveFromBackend h conns pushMsg) hs None).

End Wrapper.

(** ** The dispatcher *)

#[export] Instance CommandType_countable : Countable CommandType.
Proof.
  refine (inj_countable' (λ c, match c with
    | COMMAND_TYPE_HEARTBEAT => inl 0%Z | COMMAND_TYPE_UPSTREAM => inl 1%Z
    | COMMAND_TYPE_UPSTREAM_ACK => inl 2%Z | COMMAND_TYPE_DOWNSTREAM => inl 3%Z
    | COMMAND_TYPE_DOWNSTREAM_ACK => inl 4%Z | COMMAND_TYPE_OTHER n => inr n
    end) (λ x : Z + Z, match x with
    | inl 0%Z => COMMAND_TYPE_HEARTBEAT | inl 1%Z => COMMAND_TYPE_UPSTREAM
    | inl 2%Z => COMMAND_TYPE_UPSTREAM_ACK | inl 3%Z => COMMAND_TYPE_DOWNSTREAM
    | inl _ => COMMAND_TYPE_DOWNSTREAM_ACK | inr n => COMMAND_TYPE_OTHER n
    end) _).
  by intros [].
Defined.

Record LcHandler (S : Type) : Type := MkLcHandler {
  cacheRequestTimeout : Z;
  cacheExpiration : Z;
  lc_codec : Codec;
  uMsgHandlers : gmap CommandType (UMsgHandler S);
  dMsgHandler : DMsgHandler S;
}.
Arguments MkLcHandler {S} cacheRequestTimeout cacheExpiration lc_codec uMsgHandlers dMsgHandler.
Arguments cacheRequestTimeout {S} l.
Arguments cacheExpiration {S} l.
Arguments lc_codec {S} l.
Arguments uMsgHandlers {S} l.
Arguments dMsgHandler {S} l.

Definition cacheKey (bizID : N) (messageID : string) : string :=
  sprint_d bizID +:+ ":" +:+ messageID.

Section Dispatcher.
Context {S E : Type} `{SynpConn S, Part S E, Redis E}.
Implicit Types (h : LcHandler S).

Definition NewLcHandler (timeout expiration : Z) (codec : Codec)
    (us : list (UMsgHandler S)) (d : DMsgHandler S) : LcHandler S :=
  MkLcHandler timeout expiration codec
    (fold_left (λ m u, <[CmdType u := u]> m) us ∅) d.

Definition decodePayload h (payload : bytes) : error + Message :=
  match Unmarshal (lc_codec h) payload (AMessage (MkMessage (COMMAND_TYPE_OTHER 0) "" "")) with
  | inl _ | inr (AOther _) => inl (errorf_suf (ESentinel ErrInvalidMessage) ": unknown message type")
  | inr (AMessage msg) =>
      if negb (bool_decide (Cmd msg = COMMAND_TYPE_HEARTBEAT)) && String.eqb (MessageId msg) ""
      then inl (errorf_suf (ESentinel ErrInvalidMessage) ": empty message_id")
      else inr msg
  end.

Definition cacheMessage h (bizID : N) (msg : Message) : go S (error + bool) :=
  if bool_decide (Cmd msg = COMMAND_TYPE_HEARTBEAT) then ret (inr true)
  else zoom (state (redis_setnx (cacheKey bizID (MessageId msg)) (MessageId msg)
                      (cacheExpiration h))).

Definition needUncacheMessage (err : error) : bool :=
  error_is err ErrUnknownMessageType || error_is err ErrMaxRetryExceeded.

Definition uncacheMessage (bizID : N) (msg : Message) : go S (option error) :=
  if bool_decide (Cmd msg = COMMAND_TYPE_HEARTBEAT) then ret None
  else
    r <- zoom (state (redis_del (cacheKey bizID (MessageId msg)))) ;;
    ret (match r with
         | inl err => Some (errorf_pair (ESentinel ErrUncacheMessage) err)
         | inr _ => None
         end).

(** [err = uMsgHandler.Handle(conn, msg)] and what follows it. *)
Definition handle_and_uncache (u : UMsgHandler S) (bizID : N) (conn : nat) (msg : Message) :
    go S (option error) :=
  err <- Handle u conn msg ;;
  match err with
  | Some e => when (needUncacheMessage e) (uncacheMessage bizID msg ;;; ret tt) ;;; ret (Some e)
  | None => ret None
  end.

Definition lc_OnReceiveFromFrontend h (conn : nat) (payload : bytes) : go S (option error) :=
  match decodePayload h payload with
  | inl err => ret (Some err)
  | inr msg =>
      sess <- conn_Session conn ;;
      let user := sess_user sess in
      r <- cacheMessage h (BID user) msg ;;
      match r with
      | inl err => ret (Some (errorf_pair (ESentinel ErrCacheMessage) err))
      | inr ok =>
          if negb ok then ret (Some (ESentinel ErrMessageDuplicated)) else
          match uMsgHandlers h !! Cmd msg with
          | None => ret (Some (ESentinel ErrUnknownMessageType))
          | Some u => handle_and_uncache u (BID user) conn msg
          end
      end
  end.

Definition lc_OnReceiveFromBackend h (conns : list nat) (msg : PushMessage) : go S (option error) :=
  if String.eqb (pm_MessageId msg) "" then
    ret (Some (errorf_suf (ESentinel ErrInvalidMessage) ": empty message_id"))
  else if (pm_BizId msg =? 0)%N then
    ret (Some (errorf_suf (ESentinel ErrInvalidMessage) ": empty biz_id"))
  else if (pm_ReceiverId msg =? 0)%N then
    ret (Some (errorf_suf (ESentinel ErrInvalidMessage) ": empty receiver_id"))
  else dMsgHandler h conns msg.

Definition lc_OnConnect h (conn : nat) : go S (option error) := ret None.

Definition lc_OnDisconnect h (conn : nat) : go S (option error) := conn_Close conn.

Definition lc_handler h : Handler S :=
  MkHandler (lc_OnConnect h) (lc_OnDisconnect h) (lc_OnReceiveFromFrontend h)
    (lc_OnReceiveFromBackend h).

End Dispatcher.

(** The manager's state sees its connections and the environment. *)
#[export] Instance rts_conn {M : Type → Type} {W : Type} `{SynpConn W} : SynpConn (RTS M W) := {
  conn_ID l := zoom (conn_ID l);
  conn_Session l := zoom (conn_Session l);
  conn_Send l p := zoom (conn_Send l p);
  conn_UpdateActivityTime l := zoom (conn_UpdateActivityTime l);
  conn_Close l := zoom (conn_Close l);
}.

#[export] Instance rts_env {M : Type → Type} {W E : Type} `{Part W E} : Part (RTS M W) E := {
  part_get s := part_get (rest s);
  part_set e s := part_set (part_set e (rest s)) s;
}.

#[export] Instance rts_env_spec {M : Type → Type} {W E : Type} `{PartSpec W E} :
  PartSpec (RTS M W) E.
Proof.
  split; intros s.
  - intros e. cbn. apply part_get_set.
  - cbn. rewrite part_set_get. by destruct s.
  - intros e e'. cbn. by rewrite part_set_set.
Qed.

(** * Lemmas and properties *)

Lemma cacheKey_inj b b' m m' : cacheKey b m = cacheKey b' m' → b = b' ∧ m = m'.
Proof.
  intros [H1 H2]%colon_split; [|apply no_colon_sprint_d..]. split; [by apply sprint_d_inj|done].
Qed.

Lemma cacheKey_not_session b m u : cacheKey b m ≠ SessionKey u.
Proof.
  intros E. change (SessionKey u) with ("synp" +:+ ":" +:+
    "session:" +:+ sprint_d (BID u) +:+ ":" +:+ sprint_d (UID u)) in E.
  apply colon_split in E as [E _]; [|apply no_colon_sprint_d|done].
  pose proof (sprint_d_digits b) as Hd. by rewrite E in Hd.
Qed.

(** Deduplication keys separate what must be separate: two messages share a
    key exactly when they have the same business and message id, and no
    deduplication key is the key of a session, so marking a message as seen
    never touches a session. *)
Theorem cacheKey_separates (b b' : N) (m m' : string) (u : User) :
  (cacheKey b m = cacheKey b' m' ↔ b = b' ∧ m = m') ∧ cacheKey b m ≠ SessionKey u.
Proof.
  split; [|apply cacheKey_not_session]. split; [apply cacheKey_inj|]. by intros [-> ->].
Qed.

Section WrapperFacts.
Context {S : Type} {ME : MultiErr} {MES : MultiErrSpec}.

(** The handlers of a list run one after the other and return these errors. *)
Inductive runs (f : Handler S → go S (option error)) :
    list (Handler S) → S → list (option error) → S → Prop :=
  | runs_nil s : runs f [] s [] s
  | runs_cons h hs s e s1 es s2 :
      f h s = Done e s1 → runs f hs s1 es s2 → runs f (h :: hs) s (e :: es) s2.

Lemma multierr_opt_is a b t : opt_is (multierr_append a b) t = opt_is a t || opt_is b t.
Proof.
  destruct a as [a|], b as [b|].
  - destruct (multierr_is a b) as (c & -> & Hc). apply Hc.
  - rewrite multierr_nil_r. cbn. by rewrite orb_false_r.
  - by rewrite multierr_nil_l.
  - by rewrite multierr_nil_l.
Qed.

Lemma append_all_runs f hs s es s' acc :
  runs f hs s es s' →
  ∃ r, append_all f hs acc s = Done r s' ∧
    ∀ t, opt_is r t = opt_is acc t || existsb (λ e, opt_is e t) es.
Proof.
  intros Hr. revert acc. induction Hr as [s|h hs s e s1 es s2 E _ IH]; intros acc.
  - exists acc. split; [done|]. intros t. cbn. by rewrite orb_false_r.
  - destruct (IH (multierr_append acc e)) as (r & Er & Ht). exists r.
    split; [cbn; by erewrite bind_done by exact E|].
    intros t. rewrite Ht, multierr_opt_is. cbn. by rewrite orb_assoc.
Qed.

Lemma frontend_all_runs conn payload hs s es s' acc :
  runs (λ h, OnReceiveFromFrontend h conn payload) hs s es s' →
  forallb (λ e, negb (opt_is e ErrRateLimited)) es = true →
  ∀ more, frontend_all conn payload (hs ++ more) acc s
    = frontend_all conn payload more (fold_left multierr_append es acc) s'.
Proof.
  intros Hr. revert acc. induction Hr as [s|h hs s e s1 es s2 E _ IH]; intros acc Hes more; [done|].
  apply andb_true_iff in Hes as [He%negb_true_iff Hes].
  cbn [frontend_all app]. erewrite bind_done by exact E. rewrite He. by apply IH.
Qed.

Lemma fold_multierr_is es acc t :
  opt_is (fold_left multierr_append es acc) t = opt_is acc t || existsb (λ e, opt_is e t) es.
Proof.
  revert acc. induction es as [|e es IH]; intros acc; cbn; [by rewrite orb_false_r|].
  by rewrite IH, multierr_opt_is, orb_assoc.
Qed.

(** The wrapper runs its handlers in order.  Without a rate limit every one
    runs, and [errors.Is] finds in the result exactly what it finds in some
    handler's error.  The first handler that reports [ErrRateLimited] stops the
    message: later handlers do not run and the result is no error, also when an
    earlier handler has failed. *)
Theorem wrapper_frontend (conn : nat) (payload : bytes) (hs more : list (Handler S))
    (s s' : S) (es : list (option error)) :
  runs (λ h, OnReceiveFromFrontend h conn payload) hs s es s' →
  forallb (λ e, negb (opt_is e ErrRateLimited)) es = true →
  match more with
  | [] => ∃ r, OnReceiveFromFrontend (NewHandlerWrapper hs) conn payload s = Done r s' ∧
            ∀ t, opt_is r t = existsb (λ e, opt_is e t) es
  | h :: _ => ∀ e s'', OnReceiveFromFrontend h conn payload s' = Done e s'' →
            opt_is e ErrRateLimited = true →
            OnReceiveFromFrontend (NewHandlerWrapper (hs ++ more)) conn payload s = Done None s''
  end.
Proof.
  intros Hr Hes. cbn [NewHandlerWrapper OnReceiveFromFrontend].
  pose proof (frontend_all_runs conn payload hs s es s' None Hr Hes) as E.
  destruct more as [|h more].
  - specialize (E []). rewrite app_nil_r in E. rewrite E. eexists. split; [reflexivity|].
    intros t. by rewrite fold_multierr_is.
  - intros e s'' Eh Hl. rewrite E. cbn [frontend_all]. erewrite bind_done by exact Eh. by rewrite Hl.
Qed.

(** The other events reach every handler in order, whatever the others
    return, and the result carries exactly their errors. *)
Theorem wrapper_events (hs : list (Handler S)) (conn : nat) (conns : list nat) (pm : PushMessage)
    (s s1 s2 s3 : S) (es1 es2 es3 : list (option error)) :
  runs (λ h, OnConnect h conn) hs s es1 s1 →
  runs (λ h, OnDisconnect h conn) hs s es2 s2 →
  runs (λ h, OnReceiveFromBackend h conns pm) hs s es3 s3 →
  let w := NewHandlerWrapper hs in
  (∃ r, OnConnect w conn s = Done r s1 ∧ ∀ t, opt_is r t = existsb (λ e, opt_is e t) es1) ∧
  (∃ r, OnDisconnect w conn s = Done r s2 ∧ ∀ t, opt_is r t = existsb (λ e, opt_is e t) es2) ∧
  (∃ r, OnReceiveFromBackend w conns pm s = Done r s3 ∧
     ∀ t, opt_is r t = existsb (λ e, opt_is e t) es3).
Proof.
  intros H1 H2 H3.
  split; [exact (append_all_runs _ _ _ _ _ None H1)|].
  split; [exact (append_all_runs _ _ _ _ _ None H2)|exact (append_all_runs _ _ _ _ _ None H3)].
Qed.

End WrapperFacts.

Section DispatcherFacts.
Context {S E : Type} `{SynpConn S, PartSpec S E, RedisSpec E}.
Implicit Types (h : LcHandler S).

Abbreviation seen s := (redis_view (part_get (T := E) s)).

Lemma decodePayload_inv h payload err :
  decodePayload h payload = inl err → error_is err ErrInvalidMessage = true.
Proof.
  unfold decodePayload. repeat case_match; intros [= <-]; by rewrite error_is_suf.
Qed.

Lemma decodePayload_id h payload msg :
  decodePayload h payload = inr msg → Cmd msg = COMMAND_TYPE_HEARTBEAT ∨ MessageId msg ≠ "".
Proof.
  unfold decodePayload. destruct (Unmarshal _ _ _) as [e|[m|ty]]; [done| |done].
  destruct (decide (Cmd m = COMMAND_TYPE_HEARTBEAT)) as [Hh|Hh].
  - rewrite bool_decide_eq_true_2 by done. intros [= <-]. by left.
  - rewrite bool_decide_eq_false_2 by done. destruct (String.eqb_spec (MessageId m) ""); [done|].
    intros [= <-]. by right.
Qed.

Lemma cacheMessage_heartbeat h b msg (s : S) :
  Cmd msg = COMMAND_TYPE_HEARTBEAT → cacheMessage h b msg s = Done (inr true) s.
Proof. intros Hc. unfold cacheMessage. by rewrite bool_decide_eq_true_2. Qed.

(** What [cacheMessage] reports and does to the key space. *)
Lemma cacheMessage_spec h b msg (s : S) :
  Cmd msg ≠ COMMAND_TYPE_HEARTBEAT →
  ∃ r e, cacheMessage h b msg s = Done r (part_set e s) ∧
    match r with
    | inr true => seen s !! cacheKey b (MessageId msg) = None ∧
        redis_view e = <[cacheKey b (MessageId msg) := RStr (MessageId msg)]> (seen s)
    | inr false => is_Some (seen s !! cacheKey b (MessageId msg)) ∧ redis_view e = seen s
    | inl _ => True
    end.
Proof.
  intros Hc. unfold cacheMessage. rewrite bool_decide_eq_false_2 by done.
  unfold zoom, state.
  destruct (redis_setnx (cacheKey b (MessageId msg)) (MessageId msg) (cacheExpiration h)
    (part_get s)) as [r e] eqn:Hs.
  exists r, e. split; [done|]. destruct r as [err|ok]; [done|].
  pose proof (redis_setnx_view _ _ _ _ _ _ Hs) as Hv.
  destruct (seen s !! cacheKey b (MessageId msg)) as [v|] eqn:Hk; destruct Hv as [-> Hv]; eauto.
Qed.

(** A payload that does not decode, or decodes to a message without an id
    that is not a heartbeat, is refused with [ErrInvalidMessage]: no handler
    runs, nothing is cached, nothing changes. *)
Theorem invalid_payload_refused h (conn : nat) (payload : bytes) (s : S) :
  (∀ msg, Unmarshal (lc_codec h) payload (AMessage (MkMessage (COMMAND_TYPE_OTHER 0) "" ""))
          = inr (AMessage msg) → Cmd msg ≠ COMMAND_TYPE_HEARTBEAT ∧ MessageId msg = "") →
  ∃ err, lc_OnReceiveFromFrontend h conn payload s = Done (Some err) s ∧
    error_is err ErrInvalidMessage = true.
Proof.
  intros Hbad. unfold lc_OnReceiveFromFrontend.
  destruct (decodePayload h payload) as [err|msg] eqn:Hd.
  - exists err. split; [done|]. by eapply decodePayload_inv.
  - exfalso. pose proof (decodePayload_id h payload msg Hd) as Hid. unfold decodePayload in Hd.
    destruct (Unmarshal _ _ _) as [e|[m|ty]]; [done| |done].
    assert (m = msg) as -> by (destruct (negb _ && _); by simplify_eq).
    destruct (Hbad msg eq_refl) as [Hh Hi]. by destruct Hid.
Qed.

(** Heartbeats bypass deduplication: a heartbeat is handed to its handler
    whether or not its id was seen before, the cache is neither read nor written
    before or after it, and the handler's outcome is the result. *)
Theorem heartbeat_not_cached h (conn : nat) (payload : bytes) (s : S) (msg : Message)
    (sess : Session) (u : UMsgHandler S) :
  decodePayload h payload = inr msg → Cmd msg = COMMAND_TYPE_HEARTBEAT →
  conn_Session conn s = Done sess s → uMsgHandlers h !! COMMAND_TYPE_HEARTBEAT = Some u →
  lc_OnReceiveFromFrontend h conn payload s = Handle u conn msg s.
Proof.
  intros Hd Hc Hs Hu. unfold lc_OnReceiveFromFrontend. rewrite Hd.
  erewrite bind_done by exact Hs. erewrite bind_done by by apply cacheMessage_heartbeat.
  cbn [negb]. rewrite Hc, Hu. unfold handle_and_uncache, bind.
  destruct (Handle u conn msg s) as [[e|] s'|s'|s'|s']; try done.
  unfold uncacheMessage. rewrite Hc. by destruct (needUncacheMessage e).
Qed.

(** C19. The first delivery: a message whose key is free is marked as seen and then
    handled exactly once, in the marked state; the result is the handler's
    unless Redis fails, in which case the message is refused with
    [ErrCacheMessage] and not handled.  The mark is taken back only for an error
    that is [ErrUnknownMessageType] or [ErrMaxRetryExceeded]. *)
Theorem first_delivery_handled h (conn : nat) (payload : bytes) (s : S) (msg : Message)
    (sess : Session) (u : UMsgHandler S) :
  decodePayload h payload = inr msg → Cmd msg ≠ COMMAND_TYPE_HEARTBEAT →
  conn_Session conn s = Done sess s → uMsgHandlers h !! Cmd msg = Some u →
  let key := cacheKey (BID (sess_user sess)) (MessageId msg) in
  seen s !! key = None →
  ∃ e : E,
    (∃ err, lc_OnReceiveFromFrontend h conn payload s = Done (Some err) (part_set e s) ∧
       error_is err ErrCacheMessage = true) ∨
    redis_view e = <[key := RStr (MessageId msg)]> (seen s) ∧
    ∀ res s', Handle u conn msg (part_set e s) = Done res s' →
      match res with
      | Some err => needUncacheMessage err = false
      | None => True
      end →
      lc_OnReceiveFromFrontend h conn payload s = Done res s'.
Proof.
  intros Hd Hc Hs Hu key Hk. unfold lc_OnReceiveFromFrontend. rewrite Hd.
  erewrite bind_done by exact Hs.
  destruct (cacheMessage_spec h (BID (sess_user sess)) msg s Hc) as (r & e & Er & Hr).
  exists e. erewrite bind_done by exact Er. destruct r as [err|[]]; cbn [negb].
  - left. eexists. split; [reflexivity|]. by rewrite error_is_pair.
  - right. destruct Hr as [_ Hv]. split; [done|]. rewrite Hu. intros res s' Eh Hres.
    unfold handle_and_uncache. erewrite bind_done by exact Eh.
    destruct res as [err|]; [|done]. by rewrite Hres.
  - destruct Hr as [[? Hr] _]. unfold key in Hk. by rewrite Hk in Hr.
Qed.

Lemma duplicate_run h (conn : nat) (payload : bytes) (s : S) (msg : Message) (sess : Session) :
  decodePayload h payload = inr msg → Cmd msg ≠ COMMAND_TYPE_HEARTBEAT →
  conn_Session conn s = Done sess s →
  is_Some (seen s !! cacheKey (BID (sess_user sess)) (MessageId msg)) →
  ∃ err e, lc_OnReceiveFromFrontend h conn payload s = Done (Some err) (part_set e s) ∧
    (err = ESentinel ErrMessageDuplicated ∧ redis_view e = seen s ∨
     error_is err ErrCacheMessage = true).
Proof.
  intros Hd Hc Hs [v Hk]. unfold lc_OnReceiveFromFrontend. rewrite Hd.
  erewrite bind_done by exact Hs.
  destruct (cacheMessage_spec h (BID (sess_user sess)) msg s Hc) as (r & e & Er & Hr).
  erewrite bind_done by exact Er. destruct r as [err|[]]; cbn [negb].
  - eexists _, e. split; [reflexivity|]. right. by rewrite error_is_pair.
  - destruct Hr as [Hr _]. by rewrite Hk in Hr.
  - destruct Hr as [_ Hv]. eexists _, e. split; [reflexivity|]. by left.
Qed.

(** C20. A message that was seen is dropped: no handler runs (only Redis is asked,
    and its key space does not change), and the caller gets
    [ErrMessageDuplicated], or [ErrCacheMessage] if Redis fails. *)
Theorem duplicate_dropped h (conn : nat) (payload : bytes) (s : S) (msg : Message) (sess : Session) :
  decodePayload h payload = inr msg → Cmd msg ≠ COMMAND_TYPE_HEARTBEAT →
  conn_Session conn s = Done sess s →
  is_Some (seen s !! cacheKey (BID (sess_user sess)) (MessageId msg)) →
  ∃ err e, lc_OnReceiveFromFrontend h conn payload s = Done (Some err) (part_set e s) ∧
    (err = ESentinel ErrMessageDuplicated ∧ redis_view e = seen s ∨
     error_is err ErrCacheMessage = true).
Proof. apply duplicate_run. Qed.

(** A message with a command no handler is registered for is reported as
    [ErrUnknownMessageType] but stays marked as seen, so sending it again, or
    another message with its id, is answered with [ErrMessageDuplicated];
    the clean-up that [needUncacheMessage] foresees for this error is not
    reached. *)
Theorem unknown_command_stays_cached h (conn : nat) (payload : bytes) (s : S) (msg : Message)
    (sess : Session) :
  decodePayload h payload = inr msg → Cmd msg ≠ COMMAND_TYPE_HEARTBEAT →
  conn_Session conn s = Done sess s → uMsgHandlers h !! Cmd msg = None →
  let key := cacheKey (BID (sess_user sess)) (MessageId msg) in
  seen s !! key = None →
  ∃ err s', lc_OnReceiveFromFrontend h conn payload s = Done (Some err) s' ∧
    (error_is err ErrCacheMessage = true ∨
     err = ESentinel ErrUnknownMessageType ∧ needUncacheMessage err = true ∧
     is_Some (seen s' !! key)).
Proof.
  intros Hd Hc Hs Hu key Hk. unfold lc_OnReceiveFromFrontend. rewrite Hd.
  erewrite bind_done by exact Hs.
  destruct (cacheMessage_spec h (BID (sess_user sess)) msg s Hc) as (r & e & Er & Hr).
  erewrite bind_done by exact Er. destruct r as [err|[]]; cbn [negb].
  - eexists _, _. split; [reflexivity|]. left. by rewrite error_is_pair.
  - rewrite Hu. eexists _, _. split; [reflexivity|]. right. split_and!; [done|done|].
    destruct Hr as [_ Hv]. rewrite part_get_set, Hv, lookup_insert_eq. by eexists.
  - destruct Hr as [[? Hr] _]. unfold key in Hk. by rewrite Hk in Hr.
Qed.

Lemma fold_handlers (us : list (UMsgHandler S)) (m : gmap CommandType (UMsgHandler S)) c :
  fold_left (λ m u, <[CmdType u := u]> m) us m !! c
  = match list.last (filter (λ u, CmdType u = c) us) with Some u => Some u | None => m !! c end.
Proof.
  revert m. induction us as [|u us IH] using rev_ind; intros m; [done|].
  rewrite fold_left_app. cbn [fold_left]. rewrite list.filter_app, list.filter_cons, list.filter_nil.
  case_decide as Hu.
  - subst c. by rewrite list.last_snoc, lookup_insert_eq.
  - by rewrite lookup_insert_ne, app_nil_r, IH.
Qed.

(** C34. The dispatcher's table is well-typed: the handler found for a command is one of
    those registered and handles that very command; a command has no handler
    exactly when none was registered for it; of several the last one counts. *)
Theorem dispatch_table (timeout expiration : Z) (codec : Codec) (us : list (UMsgHandler S))
    (d : DMsgHandler S) (c : CommandType) :
  let table := uMsgHandlers (NewLcHandler timeout expiration codec us d) in
  (∀ u, table !! c = Some u → CmdType u = c ∧ u ∈ us) ∧
  (table !! c = None ↔ ∀ u, u ∈ us → CmdType u ≠ c) ∧
  (∀ us1 u us2, us = us1 ++ u :: us2 → CmdType u = c → (∀ v, v ∈ us2 → CmdType v ≠ c) →
     table !! c = Some u).
Proof.
  cbn zeta. unfold NewLcHandler. cbn [uMsgHandlers]. rewrite fold_handlers, lookup_empty.
  split_and!.
  - intros u Hu. destruct (list.last _) as [v|] eqn:Hl; [|done]. injection Hu as ->.
    apply last_Some in Hl as [l' Hl].
    assert (u ∈ filter (λ u, CmdType u = c) us) as [? ?]%list_elem_of_filter; [|done].
    rewrite Hl. apply elem_of_app. right. by left.
  - destruct (list.last _) as [v|] eqn:Hl.
    + split; [done|]. intros Hno. apply last_Some in Hl as [l' Hl].
      assert (v ∈ filter (λ u, CmdType u = c) us) as [Hv Hin]%list_elem_of_filter.
      { rewrite Hl. apply elem_of_app. right. by left. }
      by destruct (Hno v Hin).
    + split; [|done]. intros _ u Hu Hc. apply last_None in Hl.
      assert (u ∈ filter (λ u, CmdType u = c) us) as Hin by by apply list_elem_of_filter.
      rewrite Hl in Hin. by apply elem_of_nil in Hin.
  - intros us1 u us2 -> Hc Hno. rewrite list.filter_app, list.filter_cons, decide_True by done.
    assert (filter (λ u, CmdType u = c) us2 = []) as ->; [|by rewrite list.last_snoc].
    destruct (filter _ us2) as [|v l] eqn:Hf; [done|].
    assert (v ∈ filter (λ u, CmdType u = c) us2) as [Hv Hin]%list_elem_of_filter by (rewrite Hf; by left).
    by destruct (Hno v Hin).
Qed.

(** A push request from the backend reaches the downstream handler exactly
    when message id, business id and receiver id are all present; otherwise it is
    refused with [ErrInvalidMessage] and nothing changes. *)
Theorem backend_request_checked h (conns : list nat) (pm : PushMessage) (s : S) :
  let ok := pm_MessageId pm ≠ "" ∧ pm_BizId pm ≠ 0%N ∧ pm_ReceiverId pm ≠ 0%N in
  (ok → lc_OnReceiveFromBackend h conns pm s = dMsgHandler h conns pm s) ∧
  (¬ ok → ∃ err, lc_OnReceiveFromBackend h conns pm s = Done (Some err) s ∧
     error_is err ErrInvalidMessage = true).
Proof.
  cbn zeta. unfold lc_OnReceiveFromBackend. split.
  - intros (Hm & Hb & Hr). rewrite (proj2 (String.eqb_neq _ _)) by done.
    by rewrite !(proj2 (N.eqb_neq _ _)) by done.
  - intros Hn. destruct (String.eqb_spec (pm_MessageId pm) ""); [by eexists; rewrite error_is_suf|].
    destruct (N.eqb_spec (pm_BizId pm) 0); [by eexists; rewrite error_is_suf|].
    destruct (N.eqb_spec (pm_ReceiverId pm) 0); [by eexists; rewrite error_is_suf|].
    by exfalso; apply Hn.
Qed.

End DispatcherFacts.

Section Acknowledgements.
Context {M : Type → Type} {W E : Type} `{SyncMapSpec M, SynpConnSpec W, PartSpec W E, RedisSpec E}.

(** The dispatcher runs acknowledgements with [DownstreamAckHandler]. *)
Definition acks_registered (h : LcHandler (RTS M W)) : Prop :=
  uMsgHandlers h !! COMMAND_TYPE_DOWNSTREAM_ACK = Some NewDownstreamAckHandler.

Lemma rts_Session (s : RTS M W) conn i u :
  conn_at (rest s) conn i u → ∃ sess, conn_Session conn s = Done sess s ∧ sess_user sess = u.
Proof.
  intros (sess & Hs & Hu)%conn_Session_at. exists sess. split; [|done].
  cbn. unfold zoom. cbn. rewrite Hs. by destruct s.
Qed.

Lemma ack_handled (s : RTS M W) conn i u msg :
  rt_inv None s → conn_at (rest s) conn i u →
  ∃ s', DownstreamAck_Handle conn msg s = Done None s' ∧ rt_inv None s' ∧
    sm_view (tasks (mgr s')) = delete (taskKey i (MessageId msg)) (sm_view (tasks (mgr s))) ∧
    rest s' = rest s.
Proof.
  intros Hi Hat. unfold DownstreamAck_Handle.
  erewrite bind_done.
  2: { apply zoom_rest_done. by eapply conn_ID_at. }
  assert (part_set (rest s) s = s) as -> by by destruct s.
  destruct (Stop_inv i (MessageId msg) s Hi) as (s' & E' & Hi' & Hr & _ & Hw & _).
  exists s'. by erewrite bind_done by exact E'.
Qed.

Lemma first_ack_rep (h : LcHandler (RTS M W)) (conn : nat) (i : string) (u : User)
    (payload : bytes) (msg : Message) (s : RTS M W) :
  Reachable s → acks_registered h →
  (∀ e : E, conn_at (part_set e (rest s)) conn i u) → conn_at (rest s) conn i u →
  decodePayload h payload = inr msg → Cmd msg = COMMAND_TYPE_DOWNSTREAM_ACK →
  redis_view (part_get (T := E) s) !! cacheKey (BID u) (MessageId msg) = None →
  ∃ res s', lc_OnReceiveFromFrontend (E := E) h conn payload s = Done res s' ∧
    match res with
    | None => sm_view (tasks (mgr s'))
              = delete (taskKey i (MessageId msg)) (sm_view (tasks (mgr s))) ∧
              is_Some (redis_view (part_get (T := E) s') !! cacheKey (BID u) (MessageId msg)) ∧
              rt_inv None s' ∧ ∃ e : E, rest s' = part_set e (rest s)
    | Some err => error_is err ErrCacheMessage = true ∧ mgr s' = mgr s
    end.
Proof.
  intros Hi%Reachable_inv Hreg Hat Hat0 Hd Hc Hk.
  destruct (rts_Session s conn i u Hat0) as (sess & Hs & Hu).
  unfold lc_OnReceiveFromFrontend. rewrite Hd. erewrite bind_done by exact Hs. rewrite Hu.
  destruct (cacheMessage_spec (E := E) h (BID u) msg s ltac:(by rewrite Hc)) as (r & e & Er & Hr).
  erewrite bind_done by exact Er. destruct r as [err|[]]; cbn [negb].
  - eexists _, _. split; [reflexivity|]. split; [by rewrite error_is_pair|done].
  - rewrite Hc, Hreg. unfold handle_and_uncache.
    destruct (ack_handled (part_set e s) conn i u msg) as (s' & E' & Hi' & Hreg' & Hrest).
    { by apply rt_inv_rest. }
    { apply Hat. }
    cbn [Handle NewDownstreamAckHandler]. erewrite bind_done by exact E'.
    exists None, s'. split; [done|]. split; [exact Hreg'|].
    split; [|split; [done|by exists e]]. cbn [part_get rts_env]. rewrite Hrest. destruct Hr as [_ Hv]. cbn. rewrite part_get_set, Hv.
    rewrite lookup_insert_eq. by eexists.
  - destruct Hr as [[? Hr] _]. by rewrite Hk in Hr.
Qed.

(** An acknowledgement ends exactly the sender's retransmission, the first
    time: the dispatcher hands a first acknowledgement to the handler, which
    removes the task of that connection and message and no other. *)
Theorem first_ack_stops (h : LcHandler (RTS M W)) (conn : nat) (i : string) (u : User)
    (payload : bytes) (msg : Message) (s : RTS M W) :
  Reachable s → acks_registered h →
  (∀ e : E, conn_at (part_set e (rest s)) conn i u) → conn_at (rest s) conn i u →
  decodePayload h payload = inr msg → Cmd msg = COMMAND_TYPE_DOWNSTREAM_ACK →
  redis_view (part_get (T := E) s) !! cacheKey (BID u) (MessageId msg) = None →
  ∃ res s', lc_OnReceiveFromFrontend (E := E) h conn payload s = Done res s' ∧
    match res with
    | None => sm_view (tasks (mgr s'))
              = delete (taskKey i (MessageId msg)) (sm_view (tasks (mgr s))) ∧
              is_Some (redis_view (part_get (T := E) s') !! cacheKey (BID u) (MessageId msg))
    | Some err => error_is err ErrCacheMessage = true ∧ mgr s' = mgr s
    end.
Proof.
  intros Hr Hreg Hat Hat0 Hd Hc Hk.
  destruct (first_ack_rep h conn i u payload msg s Hr Hreg Hat Hat0 Hd Hc Hk) as (res & s' & E' & Hres).
  exists res, s'. split; [done|]. destruct res; [done|]. by destruct Hres as (? & ? & _).
Qed.

(** An acknowledgement whose key is marked as seen is dropped: the manager, its tasks and
    its timers stay as they are. *)
Lemma seen_ack_rep (h : LcHandler (RTS M W)) (conn : nat) (i : string) (u : User)
    (payload : bytes) (msg : Message) (s : RTS M W) :
  conn_at (rest s) conn i u → decodePayload h payload = inr msg →
  Cmd msg = COMMAND_TYPE_DOWNSTREAM_ACK →
  is_Some (redis_view (part_get (T := E) s) !! cacheKey (BID u) (MessageId msg)) →
  ∃ err e, lc_OnReceiveFromFrontend (E := E) h conn payload s = Done (Some err) (part_set (T := E) e s) ∧
    (err = ESentinel ErrMessageDuplicated ∨ error_is err ErrCacheMessage = true).
Proof.
  intros Hat Hd Hc Hk. destruct (rts_Session s conn i u Hat) as (sess & Hs & Hu).
  destruct (duplicate_run (E := E) h conn payload s msg sess Hd ltac:(by rewrite Hc) Hs)
    as (err & e & Er & He); [by rewrite Hu|].
  exists err, e. split; [done|]. destruct He as [[? _]|?]; auto.
Qed.

End Acknowledgements.

(** ** Witnesses *)

#[local] Existing Instance sim_multierr.

(** A handler that counts its calls and returns a fixed result. *)
Definition fixed (e : option error) : Handler nat :=
  let m := modify Datatypes.S ;;; ret e in
  MkHandler (λ _, m) (λ _, m) (λ _ _, m) (λ _ _, m).

Example wrapper_frontend_witness :
  OnReceiveFromFrontend (NewHandlerWrapper
    [fixed (Some (EText "lost")); fixed (Some (ESentinel ErrRateLimited)); fixed None]) 0 "x" 0
  = Done None 2.
Proof.
  refine (wrapper_frontend (MES := sim_multierr_spec) 0 "x" [fixed (Some (EText "lost"))]
    [fixed (Some (ESentinel ErrRateLimited)); fixed None] 0 1 [Some (EText "lost")] _ _
    (Some (ESentinel ErrRateLimited)) 2 _ _).
  - eapply runs_cons; [reflexivity|apply runs_nil].
  - reflexivity.
  - reflexivity.
  - reflexivity.
Defined.

Example wrapper_events_witness :
  ∃ r, OnConnect (NewHandlerWrapper [fixed (Some (ESentinel IoEOF)); fixed None]) 0 0 = Done r 2 ∧
    opt_is r IoEOF = true.
Proof.
  destruct (wrapper_events (MES := sim_multierr_spec) [fixed (Some (ESentinel IoEOF)); fixed None]
    0 [] news 0 2 2 2 [Some (ESentinel IoEOF); None] [Some (ESentinel IoEOF); None]
    [Some (ESentinel IoEOF); None]) as ((r & E & Ht) & _).
  1-3: eapply runs_cons; [reflexivity|]; eapply runs_cons; [reflexivity|apply runs_nil].
  exists r. split; [exact E|]. rewrite Ht. reflexivity.
Defined.

(** The dispatcher over the two connections of [Message.v]. *)
Definition sim_h : LcHandler (RTS sim_map (World Sim)) :=
  NewLcHandler 10 10 NewProtoCodec
    [NewHeartbeatMsgHandler sim_push; NewFrontendMsgHandler "up" 100 sim_push;
     NewDownstreamAckHandler] (Backend_Handle sim_push).

(** Both devices were sent [news]. *)
Definition pushed : RTS sim_map (World Sim) := final (Start [0; 1] news_msg (gateway0 sim0)).

(** The phone's acknowledgement is seen. *)
Definition acked : RTS sim_map (World Sim) :=
  part_set (sim_set_redis {["7:m1" := RStr "m1"]} sim0) pushed.

Lemma pushed_reachable : Reachable pushed.
Proof.
  apply (Reachable_exec (EStart [0; 1] news_msg) (gateway0 sim0)); [apply gateway0_reachable|].
  unfold pushed, exec. apply result_done. by vm_compute.
Qed.

Lemma pushed_rest : rest pushed = two_conns sim0.
Proof. vm_compute. reflexivity. Qed.

Lemma pushed_Session : conn_Session 0 pushed = Done (sess sample_conn) pushed.
Proof.
  assert (conn_Session 0 (rest pushed) = Done (sess sample_conn) (rest pushed)) as E
    by by rewrite pushed_rest.
  cbn. unfold zoom. cbn. cbn in E. rewrite E. by destruct pushed.
Qed.

Lemma pushed_at e : conn_at (part_set (T := Sim) e (rest pushed)) 0 "7:42:mobile" sample_user.
Proof. exists sample_conn. split_and!; reflexivity. Qed.

Example invalid_payload_refused_witness :
  ∃ err, lc_OnReceiveFromFrontend (E := Sim) sim_h 0 "u:body" pushed = Done (Some err) pushed ∧
    error_is err ErrInvalidMessage = true.
Proof.
  apply (invalid_payload_refused (E := Sim) sim_h 0 "u:body" pushed).
  intros msg [= <-]. split; [discriminate|reflexivity].
Defined.

Example heartbeat_not_cached_witness :
  lc_OnReceiveFromFrontend (E := Sim) sim_h 0 "h:ping" acked
  = Handle (NewHeartbeatMsgHandler sim_push) 0 (MkMessage COMMAND_TYPE_HEARTBEAT "" "ping") acked.
Proof.
  apply (heartbeat_not_cached (E := Sim) sim_h 0 "h:ping" acked
    (MkMessage COMMAND_TYPE_HEARTBEAT "" "ping") (sess sample_conn)); reflexivity.
Defined.

Example first_delivery_handled_witness :
  ∃ e : Sim, redis_view e !! "7:m1" = Some (RStr "m1").
Proof.
  destruct (first_delivery_handled (E := Sim) sim_h 0 "Dm1:" pushed
    (MkMessage COMMAND_TYPE_DOWNSTREAM_ACK "m1" "") (sess sample_conn) NewDownstreamAckHandler)
    as (e & [(err & E & _)|[Hv _]]);
    [reflexivity|discriminate|exact pushed_Session|reflexivity|vm_compute; reflexivity| |].
  { apply (f_equal result) in E. vm_compute in E. discriminate E. }
  exists e. rewrite Hv. apply lookup_insert_eq.
Defined.

Example duplicate_dropped_witness :
  ∃ err e, lc_OnReceiveFromFrontend (E := Sim) sim_h 0 "um1:again" acked
    = Done (Some err) (part_set (e : Sim) acked).
Proof.
  destruct (duplicate_dropped (E := Sim) sim_h 0 "um1:again" acked
    (MkMessage COMMAND_TYPE_UPSTREAM "m1" "again") (sess sample_conn)) as (err & e & E & _);
    try reflexivity; try discriminate; [by eexists|].
  exists err, e. exact E.
Defined.

Example unknown_command_stays_cached_witness :
  ∃ err s', lc_OnReceiveFromFrontend (E := Sim) sim_h 0 "dm5:x" pushed = Done (Some err) s' ∧
    (error_is err ErrCacheMessage = true ∨
     err = ESentinel ErrUnknownMessageType ∧ needUncacheMessage err = true ∧
     is_Some (redis_view (part_get (T := Sim) s') !! "7:m5")).
Proof.
  apply (unknown_command_stays_cached (E := Sim) sim_h 0 "dm5:x" pushed
    (MkMessage COMMAND_TYPE_DOWNSTREAM "m5" "x") (sess sample_conn));
    [reflexivity|discriminate|exact pushed_Session|reflexivity|vm_compute; reflexivity].
Defined.

Example first_ack_stops_witness :
  ∃ res s', lc_OnReceiveFromFrontend (E := Sim) sim_h 0 "Dm1:" pushed = Done res s'.
Proof.
  destruct (first_ack_stops (E := Sim) sim_h 0 "7:42:mobile" sample_user "Dm1:"
    (MkMessage COMMAND_TYPE_DOWNSTREAM_ACK "m1" "") pushed pushed_reachable) as (res & s' & E & _);
    try reflexivity; [exact pushed_at|exact (pushed_at sim0)|].
  exists res, s'. exact E.
Defined.
