(* ===== verification/Gateway.v ===== *)
(** The gateway's consumers of message-queue events
    ([internal/ws/gateway/consumer.go], [types.go];
    [internal/pkg/providers/kafka_consumer.go]). *)

From S2P Require Import Prelude Env Sim Xmq.

Module Gateway.

Definition EventPushMessage : string := "push_message".
Definition EventScaleUp : string := "scale_up".

(** [consumer.ConsumerFactory] and [consumer.Consumer]: consumers and channels are
    handles; [ConsumeChan] with the context given to [Start]. *)
Class ConsumerFactory (S : Type) := {
  f_NewConsumer : string → string → go S (error + nat);
  f_ConsumeChan : nat → go S (error + nat);
}.

(** [gateway.Consumer]; [gc_done]: its context is cancelled. *)
Record Consumer : Type := MkConsumer {
  topic : string;
  groupID : string;
  partitions : Z;
  gc_done : bool;
}.

Definition NewConsumer (topic groupID : string) (partitions : Z) : Consumer :=
  MkConsumer topic groupID partitions false.

Definition Stop (c : Consumer) : Consumer := MkConsumer (topic c) (groupID c) (partitions c) true.

(** [ConsumeFunc], its context left out. *)
Definition ConsumeFunc (S : Type) : Type := Xmq.XMessage → go S (option error).

Section Start.
Context {S : Type} `{ConsumerFactory S}.

(** [n] turns of the loop of [Start]; the channels of the goroutines started so
    far are collected. *)
Fixpoint start_loop (n : nat) (c : Consumer) (started : list nat) :
    go S (option error * list nat) :=
  match n with
  | O => ret (None, started)
  | Datatypes.S n' =>
      r <- f_NewConsumer (topic c) (groupID c) ;;
      match r with
      | inl err => ret (Some err, started)
      | inr consumer =>
          r <- f_ConsumeChan consumer ;;
          match r with
          | inl err => ret (Some err, started)
          | inr msgChan => start_loop n' c (started ++ [msgChan])
          end
      end
  end.

(** [for i := range c.partitions]: no turn for a negative number. *)
Definition Start (c : Consumer) : go S (option error * list nat) :=
  start_loop (Z.to_nat (partitions c)) c [].

End Start.

(** What the [select] of [consume] yields: a cancelled context (the consumer's or
    the caller's), a message, or the closed channel. *)
Inductive selected : Type :=
  | SelDone
  | SelMsg (m : Xmq.XMessage)
  | SelClosed.

(** The goroutine, along the events its [select] yields; it parks when there are
    no more.  Errors of the function are logged. *)
Fixpoint consume {S : Type} (f : ConsumeFunc S) (evs : list selected) : go S unit :=
  match evs with
  | [] => block
  | SelDone :: _ | SelClosed :: _ => ret tt
  | SelMsg m :: evs' => f m ;;; consume f evs'
  end.

(** [newKafkaConsumers], on the unmarshalled configuration. *)
Definition pushMessageConsumer (cfg : error + (string * string * Z)) : error + Consumer :=
  match cfg with
  | inl err => inl (errorf_pre "failed to unmarshal push message consumer config: " err)
  | inr (topic, group, n) => inr (NewConsumer topic group n)
  end.

Definition newKafkaConsumers (cfg : error + (string * string * Z)) :
    error + gmap string Consumer :=
  match pushMessageConsumer cfg with
  | inl err => inl (errorf_pre "failed to create push message consumer: " err)
  | inr c => inr {[EventPushMessage := c]}
  end.

(** * Properties *)

Section Facts.
Context {S : Type} `{ConsumerFactory S}.

(** The state after [n] successful turns, with the channels. *)
Inductive turns (c : Consumer) : nat → S → list nat → S → Prop :=
  | turns_0 s : turns c 0 s [] s
  | turns_S n s k s1 ch s2 chs s3 :
      f_NewConsumer (topic c) (groupID c) s = Done (inr k) s1 →
      f_ConsumeChan k s1 = Done (inr ch) s2 →
      turns c n s2 chs s3 → turns c (Datatypes.S n) s (ch :: chs) s3.

Lemma start_loop_turns c n s chs s' more acc :
  turns c n s chs s' → start_loop (n + more) c acc s = start_loop more c (acc ++ chs) s'.
Proof.
  intros Ht. revert acc. induction Ht as [s|n s k s1 ch s2 chs s3 E1 E2 _ IH]; intros acc.
  - by rewrite app_nil_r.
  - cbn [start_loop plus]. erewrite bind_done by exact E1. cbv beta iota.
    erewrite bind_done by exact E2. cbv beta iota.
    change (start_loop (n + more) c (acc ++ [ch]) s2 = start_loop more c (acc ++ ch :: chs) s3).
    by rewrite IH, <- app_assoc.
Qed.

(** [Start] starts one goroutine per partition, each on its own consumer's
    channel, and reports no error; if creating the consumer of a turn fails, or
    getting its channel, it reports that error and the goroutines of the turns
    before stay started. *)
Theorem Start_partitions (c : Consumer) (n : nat) (s s' : S) (chs : list nat) :
  turns c n s chs s' → (Z.of_nat n <= Z.max 0 (partitions c))%Z →
  length chs = n ∧
  (Z.of_nat n = Z.max 0 (partitions c) → Start c s = Done (None, chs) s') ∧
  (∀ err s'', (Z.of_nat n < partitions c)%Z →
     (f_NewConsumer (topic c) (groupID c) s' = Done (inl err) s'' ∨
      ∃ k s1, f_NewConsumer (topic c) (groupID c) s' = Done (inr k) s1 ∧
              f_ConsumeChan k s1 = Done (inl err) s'') →
     Start c s = Done (Some err, chs) s'').
Proof.
  intros Ht Hn. split_and!.
  - clear Hn. induction Ht; cbn; congruence.
  - intros He. unfold Start. replace (Z.to_nat (partitions c)) with (n + 0) by lia.
    by rewrite (start_loop_turns c n s chs s' 0 [] Ht).
  - intros err s'' Hlt Hf. unfold Start.
    replace (Z.to_nat (partitions c)) with (n + Datatypes.S (Z.to_nat (partitions c) - n - 1)) by lia.
    rewrite (start_loop_turns c n s chs s' _ [] Ht). cbn [start_loop app].
    destruct Hf as [E|(k & s1 & E1 & E2)].
    + by erewrite bind_done by exact E.
    + erewrite bind_done by exact E1. cbv beta iota. by erewrite bind_done by exact E2.
Qed.

(** The function has handled these messages, with whatever results. *)
Inductive handled (f : ConsumeFunc S) : list Xmq.XMessage → S → S → Prop :=
  | handled_nil s : handled f [] s s
  | handled_cons m ms s r s1 s2 :
      f m s = Done r s1 → handled f ms s1 s2 → handled f (m :: ms) s s2.

(** A consumer goroutine handles every message it receives, once and in
    order, whether or not earlier ones failed, until its context is cancelled or
    the channel is closed, and nothing after that. *)
Theorem consume_all (f : ConsumeFunc S) (ms : list Xmq.XMessage) (rest : list selected) (s s' : S) :
  handled f ms s s' →
  consume f ((SelMsg <$> ms) ++ SelDone :: rest) s = Done tt s' ∧
  consume f ((SelMsg <$> ms) ++ SelClosed :: rest) s = Done tt s' ∧
  consume f (SelMsg <$> ms) s = Blocked s'.
Proof.
  intros Hh. induction Hh as [s|m ms s r s1 s2 E _ (IH1 & IH2 & IH3)]; [done|].
  cbn [fmap list_fmap consume app].
  split_and!; by erewrite bind_done by exact E.
Qed.

End Facts.

(** ** Witnesses *)

(** A factory that numbers consumers and channels and refuses the fourth. *)
#[local] Instance counting_factory : ConsumerFactory nat := {
  f_NewConsumer _ _ n := if bool_decide (n = 3) then Done (inl (EText "refused")) n else Done (inr n) (n + 1);
  f_ConsumeChan k n := Done (inr (k + 100)) n;
}.

Lemma three_turns (c : Consumer) : turns c 3 0 [100; 101; 102] 3.
Proof. do 3 (eapply turns_S; [reflexivity|reflexivity|]). apply turns_0. Qed.

Example Start_partitions_witness :
  Start (NewConsumer "t" "g" 3) 0 = Done (None, [100; 101; 102]) 3 ∧
  Start (NewConsumer "t" "g" 6) 0 = Done (Some (EText "refused"), [100; 101; 102]) 3.
Proof.
  split.
  - destruct (Start_partitions (NewConsumer "t" "g" 3) 3 0 3 [100; 101; 102] (three_turns _))
      as (_ & E & _); [cbn; lia|].
    apply E. reflexivity.
  - destruct (Start_partitions (NewConsumer "t" "g" 6) 3 0 3 [100; 101; 102] (three_turns _))
      as (_ & _ & E); [cbn; lia|].
    apply E; [reflexivity|]. left. reflexivity.
Defined.

Example consume_all_witness :
  let m := Xmq.MkXMessage ∅ "t" 0 0 "" "" in
  consume (λ _, modify Datatypes.S ;;; ret (Some (EText "bad"))) [SelMsg m; SelMsg m; SelDone; SelMsg m] 0
  = Done tt 2.
Proof.
  cbn zeta. set (m := Xmq.MkXMessage ∅ "t" 0 0 "" "").
  apply (consume_all (λ _, modify Datatypes.S ;;; ret (Some (EText "bad"))) [m; m] [SelMsg m] 0 2).
  eapply handled_cons; [reflexivity|]. eapply handled_cons; [reflexivity|apply handled_nil].
Defined.

End Gateway.
