(* ===== verification/Server.v ===== *)
(** The WebSocket server ([internal/ws/server.go], [internal/ws/config.go]).

    The server is written against interfaces: an upgrader, a registry of
    connections ([synp.ConnManager]), a handler of events ([synp.Handler]), a
    listener.  So is this file; [App.v] puts the components in. *)

From S2P Require Import Prelude Env Sim Session Compression Conn Iface Limiter Xmq Gateway.
From S2P Require Import Message Lifecycle.

(** ** Interfaces *)

(** [synp.ConnManager].  [NewConn] gets the network connection by its handle and
    returns the address of the new connection. *)
Class Registry (S : Type) := {
  reg_NewConn : nat → Session → option Compression.State → go S (error + nat);
  reg_RemoveConn : User → go S bool;
  reg_RemoveUserConn : User → go S bool;
  reg_FindConn : User → go S (option nat);
  reg_FindUserConn : User → go S (list nat * bool);
}.

(** What a registry promises: it holds a finite map from (connection key, device) to
    connections; [NewConn] puts the new connection in the place of the one
    its user has with the same device, [RemoveConn] takes it out, [FindUserConn]
    gives the connections of all devices of the user; the methods of the
    connections and changes of the environment leave the map alone. *)
Class RegistrySpec (S E : Type) `{Registry S, SynpConn S, Part S E} := {
  reg_is : S → gmap (string * string) nat → Prop;
  reg_RemoveConn_spec u s m : reg_is s m →
    ∃ s', reg_RemoveConn u s = Done (bool_decide (is_Some (m !! (ConnKey u, UDevice u)))) s' ∧
      reg_is s' (delete (ConnKey u, UDevice u) m);
  reg_NewConn_spec nc ses st s m : reg_is s m →
    ∃ l s', reg_NewConn nc ses st s = Done (inr l) s' ∧
      reg_is s' (<[(ConnKey (sess_user ses), UDevice (sess_user ses)) := l]> m) ∧
      conn_Session l s' = Done ses s';
  reg_FindUserConn_spec u s m : reg_is s m →
    ∃ ls s', reg_FindUserConn u s = Done (ls, bool_decide (0 < length ls)) s' ∧ reg_is s' m ∧
      ∀ l, l ∈ ls ↔ ∃ d, m !! (ConnKey u, d) = Some l;
  reg_conn_spec s m l p : reg_is s m →
    reg_is (final (conn_ID l s)) m ∧ reg_is (final (conn_Session l s)) m ∧
    reg_is (final (conn_Send l p s)) m ∧ reg_is (final (conn_UpdateActivityTime l s)) m ∧
    reg_is (final (conn_Close l s)) m;
  reg_env s e m : reg_is s m → reg_is (part_set (T := E) e s) m;
}.

(** The listener and the backoff policy (github.com/cenkalti/backoff).  [Accept]
    answers [None] as long as there is neither a connection nor an error: it waits. *)
Class Listener (L : Type) := {
  net_listen : string → string → L → option error * L;
  listener_accept : L → option (error + nat) * L;
  listener_close : L → option error * L;
  backoff_next : L → Z * L;
  backoff_reset : L → L;
  time_sleep : Z → L → L;
}.

(** ** Configuration *)

Record Config : Type := MkConfig {
  Host : string;
  Port : Z;
  Network : string;
  EnableLocalMode : bool;
}.

Definition defaultHost : string := "0.0.0.0".
Definition defaultPort : Z := 17001.

(** [DefaultConfig] registers the flags and reads the variables at once:
    registering sets a variable to its default. *)
Definition DefaultConfig : Config := MkConfig defaultHost defaultPort "tcp4" false.

(** [fmt.Sprintf("%d", port)] for an [int]. *)
Definition sprint_int (z : Z) : string :=
  if (z <? 0)%Z then "-" +:+ sprint_d (Z.to_N (- z)) else sprint_d (Z.to_N z).

Definition Address (c : Config) : string :=
  if String.eqb (Network c) "unix" then Host c
  else Host c +:+ ":" +:+ sprint_int (Port c).

(** ** The server *)

(** Its goroutines: the accept loop, between two turns or in its call of [Accept]; the
    handler of a network connection; the consumer goroutines of an event. *)
Inductive goroutine : Type :=
  | AcceptLoop
  | Accepting
  | HandleConn (nc : nat)
  | Consumes (event : string) (chans : list nat).

#[export] Instance goroutine_eq_dec : EqDecision goroutine.
Proof. solve_decision. Defined.

Record Server (L S : Type) : Type := MkServer {
  acceptNewConn : bool;
  connLimiter : TokenLimiter;
  listener : L;
  srv_done : bool;
  goroutines : list goroutine;
  body : S;
}.
Arguments MkServer {L S} acceptNewConn connLimiter listener srv_done goroutines body.
Arguments acceptNewConn {L S} s.
Arguments connLimiter {L S} s.
Arguments listener {L S} s.
Arguments srv_done {L S} s.
Arguments goroutines {L S} s.
Arguments body {L S} s.

#[export] Instance server_limiter {L S : Type} : Part (Server L S) TokenLimiter := {
  part_get := connLimiter;
  part_set x s := MkServer (acceptNewConn s) x (listener s) (srv_done s) (goroutines s) (body s);
}.
Definition server_listener {L S : Type} : Part (Server L S) L := {|
  part_get := listener;
  part_set x s := MkServer (acceptNewConn s) (connLimiter s) x (srv_done s) (goroutines s) (body s);
|}.
Definition server_body {L S : Type} : Part (Server L S) S := {|
  part_get := body;
  part_set x s := MkServer (acceptNewConn s) (connLimiter s) (listener s) (srv_done s) (goroutines s) x;
|}.

Definition spawn {L S : Type} (g : goroutine) (s : Server L S) : Server L S :=
  MkServer (acceptNewConn s) (connLimiter s) (listener s) (srv_done s) (goroutines s ++ [g]) (body s).

(** What the [select] of [handleConn] yields. *)
Inductive received : Type :=
  | RecvMsg (payload : bytes)
  | RecvChanClosed
  | RecvConnClosed
  | RecvServerDone.

Section Operations.
Context {L S E : Type}.
Context `{Listener L, Registry S, SynpConn S, Part S E, Sched E, Net E, Gateway.ConsumerFactory S}.
Context {PB : Protobuf Message AckPayload PushMessage}.
(** The server's upgrader, handler and consumers. *)
Context (upgrade : nat → go S (error + (Session * option Compression.State))).
Context (handler : Handler S).
Context (config : Config) (consumers : gmap string Gateway.Consumer).

Definition on_body {A : Type} (m : go S A) : go (Server L S) A := zoom (H := server_body) m.
Definition on_listener {A : Type} (m : go L A) : go (Server L S) A := zoom (H := server_listener) m.

(** A turn of the loop of [acceptConn] up to its call of [Accept]: it returns, begins
    another turn, or goes on to [Accept] with a token. *)
Inductive accept_pc : Type := AReturn | AAgain | AAccept.

Definition accept_begin : go (Server L S) accept_pc :=
  accepting <- gets acceptNewConn ;;
  if negb accepting then ret AReturn else
  ok <- zoom Acquire ;;
  if negb ok then
    next <- on_listener (state backoff_next) ;;
    on_listener (modify (time_sleep next)) ;;;
    ret AAgain
  else
    on_listener (modify backoff_reset) ;;;
    ret AAccept.

(** [Accept], which may park, and the rest of the turn; [false]: the loop returns. *)
Definition accept_end : go (Server L S) bool :=
  o <- on_listener (state listener_accept) ;;
  match o with
  | None => block
  | Some (inl err) =>
      zoom Release ;;;
      if error_is err NetErrClosed then ret false else ret true
  | Some (inr conn) => modify (spawn (HandleConn conn)) ;;; ret true
  end.

Definition accept_once : go (Server L S) bool :=
  pc <- accept_begin ;;
  match pc with
  | AReturn => ret false
  | AAgain => ret true
  | AAccept => accept_end
  end.

Fixpoint acceptConn (fuel : nat) : go (Server L S) unit :=
  match fuel with
  | O => nofuel
  | Datatypes.S fuel' =>
      more <- accept_once ;; if (more : bool) then acceptConn fuel' else ret tt
  end.

(** The loop of [handleConn] over what its [select] yields; before each event
    the other goroutines have changed the shared state. *)
Fixpoint handle_loop (l : nat) (evs : list ((S → S) * received)) : go S unit :=
  match evs with
  | [] => block
  | (others, ev) :: evs' =>
      modify others ;;;
      match ev with
      | RecvMsg message =>
          err <- OnReceiveFromFrontend handler l message ;;
          if opt_is err ErrConnClosed then ret tt else handle_loop l evs'
      | RecvChanClosed | RecvConnClosed | RecvServerDone => ret tt
      end
  end.

(** The deferred removal of a connection. *)
Definition cleanup (user : User) (l : nat) : go S unit :=
  reg_RemoveConn user ;;; conn_Close l ;;; ret tt.

(** [handleConn] below its deferred [Release]. *)
Definition handle_body (nc : nat) (evs : list ((S → S) * received)) : go S unit :=
  defer (zoom (T := E) (state (net_close nc)) ;;; ret tt)
    (r <- upgrade nc ;;
     match r with
     | inl _ => ret tt
     | inr (sess, compressionState) =>
         r <- reg_NewConn nc sess compressionState ;;
         match r with
         | inl _ => ret tt
         | inr l =>
             ses <- conn_Session l ;;
             let user := sess_user ses in
             defer (cleanup user l)
               (err <- OnConnect handler l ;;
                match err with
                | Some _ => ret tt
                | None => defer (OnDisconnect handler l ;;; ret tt) (handle_loop l evs)
                end)
         end
     end).

Definition handleConn (nc : nat) (evs : list ((S → S) * received)) : go (Server L S) unit :=
  defer (zoom Release ;;; ret tt) (on_body (handle_body nc evs)).

Definition findConn (pushMsg : PushMessage) : go S (error + list nat) :=
  r <- reg_FindUserConn (MkUser (pm_BizId pushMsg) (pm_ReceiverId pushMsg) "" false) ;;
  ret (if (r.2 : bool) then inr r.1
       else inl (errorf_suf (ESentinel ErrUnknownReceiver)
              (": user_id=" +:+ sprint_d (pm_ReceiverId pushMsg) +:+ ", biz_id=" +:+
               sprint_d (pm_BizId pushMsg)))).

Definition consumePushMessage : Gateway.ConsumeFunc S := λ msg,
  match json_Unmarshal_push (Xmq.Val msg) with
  | inl err => ret (Some err)
  | inr pushMsg =>
      r <- findConn pushMsg ;;
      match r with
      | inl err => ret (Some err)
      | inr conns =>
          err <- OnReceiveFromBackend handler conns pushMsg ;;
          ret err
      end
  end.

Definition consumeScaleUp : Gateway.ConsumeFunc S := λ _, panic.

(** The [range] over the consumers in [Start]. *)
Fixpoint start_consumers (entries : list (string * Gateway.Consumer)) :
    go (Server L S) (option error) :=
  match entries with
  | [] => ret None
  | (key, c) :: entries' =>
      if String.eqb key Gateway.EventPushMessage || String.eqb key Gateway.EventScaleUp then
        r <- on_body (Gateway.Start c) ;;
        modify (spawn (Consumes key r.2)) ;;;
        match r.1 with
        | Some err => ret (Some err)
        | None => start_consumers entries'
        end
      else start_consumers entries'
  end.

Definition Start : go (Server L S) (option error) :=
  err <- on_listener (state (net_listen (Network config) (Address config))) ;;
  match err with
  | Some e => ret (Some e)
  | None =>
      modify (spawn AcceptLoop) ;;;
      entries <- on_body (zoom (T := E) (state (map_order (map_to_list consumers)))) ;;
      start_consumers entries
  end.

Definition Shutdown : go (Server L S) (option error) :=
  err <- zoom CloseLimiter ;;
  match err with
  | Some e => ret (Some e)
  | None =>
      modify (λ s, MkServer (acceptNewConn s) (connLimiter s) (listener s) true
                     (goroutines s) (body s)) ;;;
      ret None
  end.

(** [listening]: [Start] has set the listener. *)
Definition GracefulShutdown (listening : bool) : go (Server L S) (option error) :=
  modify (λ s, MkServer false (connLimiter s) (listener s) (srv_done s) (goroutines s) (body s)) ;;;
  (if listening then on_listener (state listener_close) ;;; ret tt else ret tt) ;;;
  done <- gets srv_done ;;
  if (done : bool) then Shutdown else block.

End Operations.

(** [NewServer] with a new limiter [tl], and [SvrWithConnLimiter]. *)
Definition server_with {L S : Type} (tl : outcome (chan unit) TokenLimiter) (l : L) (s : S) :
    outcome (chan unit) (Server L S) :=
  match tl with
  | Done tl c => Done (MkServer true tl l false [] s) c
  | Blocked c => Blocked c | Panicked c => Panicked c | NoFuel c => NoFuel c
  end.

#[local] Strategy 1000 [NewTokenLimiter fill].

Definition NewServer {L S : Type} : L → S → outcome (chan unit) (Server L S) :=
  server_with (NewTokenLimiter Limiter.DefaultConfig).

Definition SvrWithConnLimiter {L S : Type} (tl : TokenLimiter) (s : Server L S) : Server L S :=
  MkServer (acceptNewConn s) tl (listener s) (srv_done s) (goroutines s) (body s).

(** * Lemmas and properties *)

Definition is_handler (g : goroutine) : bool := match g with HandleConn _ => true | _ => false end.
Definition is_accepting (g : goroutine) : bool := match g with Accepting => true | _ => false end.
Definition has_token (g : goroutine) : bool := is_handler g || is_accepting g.

(** How many connections are being handled, and how many calls of [Accept] wait. *)
Definition handling {L S : Type} (s : Server L S) : nat := count is_handler (goroutines s).
Definition waiting {L S : Type} (s : Server L S) : nat := count is_accepting (goroutines s).
Definition holders {L S : Type} (s : Server L S) : nat := count has_token (goroutines s).

Lemma holders_split {L S : Type} (s : Server L S) : holders s = handling s + waiting s.
Proof.
  unfold holders, handling, waiting. induction (goroutines s) as [|g l IH]; [done|].
  cbn [count]. destruct g; cbn; lia.
Qed.

(** A goroutine ends; the accept loop goes from one place to another. *)
Definition finish {L S : Type} (g : goroutine) (s : Server L S) : Server L S :=
  MkServer (acceptNewConn s) (connLimiter s) (listener s) (srv_done s)
    (match list_find (λ g', g' = g) (goroutines s) with
     | Some (i, _) => delete i (goroutines s)
     | None => goroutines s
     end) (body s).
Definition becomes {L S : Type} (g g' : goroutine) (s : Server L S) : Server L S :=
  spawn g' (finish g s).

Lemma holders_finish {L S : Type} g (s : Server L S) :
  g ∈ goroutines s → holders s = Nat.b2n (has_token g) + holders (finish g s).
Proof.
  intros Hin. unfold holders, finish. cbn [goroutines].
  destruct (list_find (λ g', g' = g) (goroutines s)) as [[i g']|] eqn:Hf.
  - apply list_find_Some in Hf as (Hi & -> & _). rewrite delete_take_drop, count_app.
    rewrite <- (take_drop_middle _ _ _ Hi) at 1. rewrite count_app. cbn [count]. lia.
  - apply list_find_None in Hf. rewrite Forall_forall in Hf.
    apply list_elem_of_In in Hin. by destruct (Hf _ Hin).
Qed.

Lemma holders_spawn {L S : Type} g (s : Server L S) :
  holders (spawn g s) = holders s + Nat.b2n (has_token g).
Proof. unfold holders, spawn. cbn [goroutines]. rewrite count_app. cbn [count]. lia. Qed.

Section Facts.
Context {L S E : Type}.
Context `{Listener L, Registry S, SynpConn S, Part S E, Sched E, Net E, Gateway.ConsumerFactory S}.
Context {PB : Protobuf Message AckPayload PushMessage}.
Context (upgrade : nat → go S (error + (Session * option Compression.State))).
Context (handler : Handler S).
Context (config : Config) (consumers : gmap string Gateway.Consumer).
Implicit Types (s : Server L S).

(** The bucket has [n] tokens, in it or with their holders. *)
Record tokens_of (n : nat) s : Prop := TokensOf {
  to_cap : ch_cap (tokens (connLimiter s)) = n;
  to_sum : length (ch_buf (tokens (connLimiter s))) + holders s = n;
}.

(** What the server does: it is started; the accept loop begins a turn, or [Accept]
    answers it; a connection is handled to its end; a shutdown call (which may park); and
    changes made by the handlers. *)
Inductive srv_step : Server L S → Server L S → Prop :=
  | step_start cfg evs s s' :
      final (Start (E := E) cfg evs s) = s' → srv_step s s'
  | step_accept s pc s' : AcceptLoop ∈ goroutines s → accept_begin s = Done pc s' →
      srv_step s (match pc with
                  | AReturn => finish AcceptLoop s'
                  | AAgain => s'
                  | AAccept => becomes AcceptLoop Accepting s'
                  end)
  | step_accepted s (more : bool) s' : Accepting ∈ goroutines s → accept_end s = Done more s' →
      srv_step s (if more then becomes Accepting AcceptLoop s' else finish Accepting s')
  | step_handle nc evs s s' : HandleConn nc ∈ goroutines s →
      handleConn upgrade handler nc evs s = Done tt s' → srv_step s (finish (HandleConn nc) s')
  | step_shutdown s r s' : Shutdown s = Done r s' → srv_step s s'
  | step_graceful b s s' : final (GracefulShutdown b s) = s' → srv_step s s'
  | step_body f s : srv_step s (MkServer (acceptNewConn s) (connLimiter s) (listener s)
      (srv_done s) (goroutines s) (f (body s))).

Lemma handleConn_limiter nc evs s s' :
  handleConn upgrade handler nc evs s = Done tt s' →
  ∃ b tl, Release (connLimiter s) = Done b tl ∧ connLimiter s' = tl ∧
    goroutines s' = goroutines s.
Proof.
  unfold handleConn, defer, on_body, zoom. cbn.
  destruct (handle_body upgrade handler nc evs (body s)) as [u x|x|x|x]; try done;
    unfold bind; cbn; unfold Release, bind; cbn;
    destruct (ch_room (tokens (connLimiter s))); cbn; intros ?; simplify_eq; by eexists _, _.
Qed.

Lemma Release_tokens l b l' :
  Release l = Done b l' →
  ch_cap (tokens l') = ch_cap (tokens l) ∧
  length (ch_buf (tokens l')) =
    if bool_decide (length (ch_buf (tokens l)) < ch_cap (tokens l))
    then Datatypes.S (length (ch_buf (tokens l))) else length (ch_buf (tokens l)).
Proof.
  unfold Release, bind. cbn. unfold ch_room. case_bool_decide; cbn; intros [= <- <-]; cbn; [|done].
  rewrite length_app. cbn. split; [done|lia].
Qed.

Lemma Acquire_tokens l b l' :
  Acquire l = Done b l' →
  ch_cap (tokens l') = ch_cap (tokens l) ∧
  length (ch_buf (tokens l)) = (if b then 1 else 0) + length (ch_buf (tokens l')) ∧
  (b = false → l' = l).
Proof.
  unfold Acquire, bind. cbn. destruct (ch_buf (tokens l)) as [|x r] eqn:Hb; cbn;
    intros [= <- <-]; cbn; by rewrite ?Hb.
Qed.

Lemma Shutdown_done s :
  Shutdown s = Done None
    (MkServer (acceptNewConn s) (final (CloseLimiter (connLimiter s))) (listener s) true
       (goroutines s) (body s)).
Proof. done. Qed.

Lemma accept_begin_spec s :
  accept_begin s =
    if negb (acceptNewConn s) then Done AReturn s else
    match Acquire (connLimiter s) with
    | Done true tl => Done AAccept
        (MkServer (acceptNewConn s) tl (backoff_reset (listener s)) (srv_done s) (goroutines s) (body s))
    | _ => let '(next, l) := backoff_next (listener s) in
        Done AAgain (MkServer (acceptNewConn s) (connLimiter s) (time_sleep next l) (srv_done s)
                       (goroutines s) (body s))
    end.
Proof.
  unfold accept_begin. erewrite bind_done by reflexivity.
  destruct (acceptNewConn s) eqn:Ha; cbn [negb]; [|done].
  unfold zoom at 1, bind at 1. cbn [part_get server_limiter].
  destruct (Acquire (connLimiter s)) as [b tl|?|?|?] eqn:Hq.
  2-4: unfold Acquire, bind in Hq; cbn in Hq; by destruct (ch_buf _).
  destruct (Acquire_tokens _ _ _ Hq) as (_ & _ & Hb). destruct b; cbn [negb].
  - unfold on_listener, zoom, bind, modify. cbn. by rewrite Ha.
  - rewrite (Hb eq_refl). unfold on_listener, zoom, bind, state, modify. cbn. rewrite Ha.
    by destruct (backoff_next (listener s)).
Qed.

Lemma accept_end_spec s :
  accept_end s =
    let '(o, l) := listener_accept (listener s) in
    match o with
    | None => Blocked
        (MkServer (acceptNewConn s) (connLimiter s) l (srv_done s) (goroutines s) (body s))
    | Some (inl err) => Done (negb (error_is err NetErrClosed))
        (MkServer (acceptNewConn s) (final (Release (connLimiter s))) l (srv_done s) (goroutines s) (body s))
    | Some (inr nc) => Done true
        (MkServer (acceptNewConn s) (connLimiter s) l (srv_done s) (goroutines s ++ [HandleConn nc]) (body s))
    end.
Proof.
  unfold accept_end, on_listener, zoom, bind, state, modify. cbn.
  destruct (listener_accept (listener s)) as [[[err|nc]|] l]; cbn; [|done|done].
  unfold Release, bind. cbn. destruct (ch_room (tokens (connLimiter s))); cbn; by destruct (error_is err NetErrClosed).
Qed.

(** Code that leaves the limiter and the holders of its tokens alone. *)
Definition keeps_tokens {A : Type} (m : go (Server L S) A) : Prop :=
  ∀ s, connLimiter (final (m s)) = connLimiter s ∧ holders (final (m s)) = holders s.

Lemma kt_ret {A} (a : A) : keeps_tokens (ret a).
Proof. by intros s. Qed.
Lemma kt_bind {A B} (m : go (Server L S) A) (k : A → go (Server L S) B) :
  keeps_tokens m → (∀ a, keeps_tokens (k a)) → keeps_tokens (bind m k).
Proof.
  intros Hm Hk s. destruct (Hm s) as [Hl Hh]. unfold bind.
  destruct (m s) as [a s1|s1|s1|s1]; cbn in *; [|done..]. destruct (Hk a s1). split; congruence.
Qed.
Lemma kt_body {A} (m : go S A) : keeps_tokens (on_body m).
Proof. intros s. unfold on_body, zoom. cbn. by destruct (m (body s)). Qed.
Lemma kt_listener {A} (m : go L A) : keeps_tokens (on_listener m).
Proof. intros s. unfold on_listener, zoom. cbn. by destruct (m (listener s)). Qed.
Lemma kt_spawn g : has_token g = false → keeps_tokens (modify (spawn g)).
Proof.
  intros Hg s. change (final (modify (spawn g) s)) with (spawn g s). rewrite holders_spawn, Hg.
  split; [done|apply Nat.add_0_r].
Qed.

Lemma Start_keeps cfg evs : keeps_tokens (Start (E := E) cfg evs).
Proof.
  unfold Start. apply kt_bind; [apply kt_listener|]. intros [e|]; [apply kt_ret|].
  apply kt_bind; [by apply kt_spawn|]. intros _. apply kt_bind; [apply kt_body|].
  intros l. induction l as [|[key c] l IH]; [apply kt_ret|]. cbn [start_consumers].
  destruct (String.eqb key _ || String.eqb key _); [|done].
  apply kt_bind; [apply kt_body|]. intros [e chans].
  apply kt_bind; [by apply kt_spawn|]. intros _. destruct e; [apply kt_ret|done].
Qed.

(** A token goes back into the bucket. *)
Lemma release_tokens n s b tl s' :
  Release (connLimiter s) = Done b tl → connLimiter s' = tl →
  holders s = Datatypes.S (holders s') → tokens_of n s → tokens_of n s'.
Proof.
  intros Hr Htl Hh [Hcap Hsum]. destruct (Release_tokens _ _ _ Hr) as [Hc Hl].
  rewrite bool_decide_eq_true_2 in Hl by lia. split; rewrite Htl; [congruence|lia].
Qed.

Lemma Release_done l : Release l = Done (ch_room (tokens l)) (final (Release l)).
Proof. unfold Release, bind. cbn. by destruct (ch_room (tokens l)). Qed.

Lemma begin_tokens n s pc s' :
  AcceptLoop ∈ goroutines s → accept_begin s = Done pc s' → tokens_of n s →
  tokens_of n (match pc with
               | AReturn => finish AcceptLoop s'
               | AAgain => s'
               | AAccept => becomes AcceptLoop Accepting s'
               end).
Proof.
  intros Hin E0 [Hcap Hsum]. rewrite accept_begin_spec in E0.
  destruct (negb (acceptNewConn s)).
  { injection E0 as <- <-. pose proof (holders_finish _ _ Hin) as Hh. cbn [has_token is_handler is_accepting orb Nat.b2n Nat.add] in Hh.
    split; [done|by rewrite <- Hh]. }
  destruct (Acquire (connLimiter s)) as [ok tl|?|?|?] eqn:Hq.
  2-4: unfold Acquire, bind in Hq; cbn in Hq; by destruct (ch_buf _).
  destruct (Acquire_tokens _ _ _ Hq) as (Hc & Hl & _). destruct ok; cbn in Hl.
  - injection E0 as <- <-.
    match goal with |- tokens_of _ (becomes _ _ ?x) =>
      pose proof (holders_finish (S := S) AcceptLoop x Hin) as Hh end.
    unfold becomes. split; [cbn; congruence|]. rewrite holders_spawn. cbn [has_token Nat.b2n is_handler is_accepting orb] in *.
    unfold holders in Hh, Hsum |- *. cbn [connLimiter finish spawn goroutines] in *. lia.
  - destruct (backoff_next (listener s)). injection E0 as <- <-. by split.
Qed.

Lemma end_tokens n s (more : bool) s' :
  Accepting ∈ goroutines s → accept_end s = Done more s' → tokens_of n s →
  tokens_of n (if more then becomes Accepting AcceptLoop s' else finish Accepting s').
Proof.
  intros Hin E0 Ht. rewrite accept_end_spec in E0.
  destruct (listener_accept (listener s)) as [[[err|nc]|] l]; [| |done].
  - pose proof (Release_done (connLimiter s)) as Hr. revert E0 Hr. generalize (final (Release (connLimiter s))).
    intros tl E0 Hr.
    assert (holders s = Datatypes.S (holders (finish Accepting s'))) as Hh.
    { assert (Accepting ∈ goroutines s') as Hin' by by injection E0 as _ <-.
      pose proof (holders_finish _ _ Hin') as Hh. cbn [has_token is_handler is_accepting orb Nat.b2n Nat.add] in Hh. rewrite <- Hh. by injection E0 as _ <-. }
    assert (connLimiter s' = tl) as Htl by by injection E0 as _ <-.
    destruct more; (eapply release_tokens; [exact Hr|exact Htl| |exact Ht]); [|exact Hh].
    unfold becomes. rewrite holders_spawn. cbn [has_token is_handler is_accepting orb Nat.b2n]. lia.
  - destruct Ht as [Hcap Hsum]. injection E0 as <- <-.
    set (s' := spawn (HandleConn nc) (MkServer (acceptNewConn s) (connLimiter s) l (srv_done s) (goroutines s) (body s))).
    assert (Accepting ∈ goroutines s') as Hin' by (apply elem_of_app; by left).
    pose proof (holders_finish _ _ Hin') as Hh. unfold s' at 1 in Hh. rewrite holders_spawn in Hh. cbn [has_token is_handler is_accepting orb Nat.b2n Nat.add] in Hh.
    split; [done|]. unfold becomes. rewrite holders_spawn. cbn [has_token is_handler is_accepting orb Nat.b2n].
    change (length (ch_buf (tokens (connLimiter s))) + (holders (finish Accepting s') + 0) = n).
    change (holders (MkServer _ _ _ _ (goroutines s) _)) with (holders s) in Hh. lia.
Qed.

Lemma srv_step_tokens n s s' : srv_step s s' → tokens_of n s → tokens_of n s'.
Proof.
  intros Hs Ht.
  destruct Hs as [cfg evs s s' <-|s pc s' Hin E0|s more s' Hin E0|nc evs s s' Hin E0|s r s' E0|b s s' E0|f s].
  - destruct (Start_keeps cfg evs s) as [Hl Hh]. destruct Ht. split; by rewrite Hl, ?Hh.
  - by apply (begin_tokens n s).
  - by apply (end_tokens n s).
  - destruct (handleConn_limiter nc evs s s' E0) as (b & tl & Hr & Htl & Hg).
    assert (HandleConn nc ∈ goroutines s') as Hin' by by rewrite Hg.
    apply (release_tokens n s b tl); [done|by rewrite <- Htl| |done].
    pose proof (holders_finish _ _ Hin') as Hh. cbn [has_token is_handler is_accepting orb Nat.b2n Nat.add] in Hh. rewrite <- Hh. unfold holders. by rewrite Hg.
  - rewrite Shutdown_done in E0. injection E0 as _ <-. by destruct Ht.
  - subst s'. unfold GracefulShutdown. destruct Ht. destruct b; cbn.
    + unfold on_listener, zoom, bind, state, modify. cbn. destruct (listener_close (listener s)); cbn.
      by destruct (srv_done s); cbn; split.
    + unfold bind. cbn. by destruct (srv_done s); cbn; split.
  - by destruct Ht.
Qed.

Lemma steps_tokens n s s' : rtc srv_step s s' → tokens_of n s → tokens_of n s'.
Proof. intros Hs. induction Hs as [|s1 s2 s3 H1' _ IH]; [done|]. intros Ht. by eapply IH, srv_step_tokens. Qed.

Lemma server_with_tokens c (l : L) (b : S) s ch :
  (0 <= InitCapacity c)%Z → server_with (NewTokenLimiter c) l b = Done s ch →
  tokens_of (Z.to_nat (InitCapacity c)) s ∧ handling s = 0.
Proof.
  intros Hc. rewrite NewTokenLimiter_done by done. cbn [server_with]. intros [= <- _].
  split; [|done]. split; [done|]. unfold handling. cbn. rewrite length_replicate. lia.
Qed.

(** C11. Connections are limited and tokens never leak: through every history of
    starting, accepting, handling and shutting down, whatever the upgrader, the
    handlers, the listener and the connections do, the tokens in the bucket, the
    connections being handled and the calls of [Accept] that wait for a connection (the
    accept loop takes its token before it waits) add up to 2000.  So at most 2000
    connections are handled at a time, and while the loop waits at most 1999; every path
    of [handleConn] gives its token back (a failed upgrade, a failed [OnConnect], a closed
    connection, the server's end), a failed [Accept] does, and once all handlers have
    ended and the loop has returned all 2000 tokens are back. *)
Theorem connection_slots (l : L) (b : S) (ch : chan unit) s0 s :
  NewServer l b = Done s0 ch → rtc srv_step s0 s →
  (Z.of_nat (length (ch_buf (tokens (connLimiter s)))) + Z.of_nat (handling s) + Z.of_nat (waiting s)
   = 2000)%Z ∧
  ch_cap (tokens (connLimiter s)) = Z.to_nat 2000.
Proof.
  intros Hn Hs. unfold NewServer in Hn. apply server_with_tokens in Hn as [Ht _]; [|by cbn; lia].
  destruct (steps_tokens _ s0 s Hs Ht) as [Hc Hsum]. split; [|exact Hc].
  rewrite holders_split in Hsum. cbn [InitCapacity Limiter.DefaultConfig] in Hsum. lia.
Qed.

(** One turn of the accept loop.  It returns if the server no longer accepts
    (without taking a token) or if the listener is closed (giving the token
    back); any other [Accept] error gives the token back and continues; without a
    free token it sleeps for the next backoff and continues, handling nothing;
    otherwise the backoff is reset, the loop waits in [Accept] with the token, and
    exactly the accepted connection gets a handler, which owns the token. *)
Theorem accept_turn s :
  accept_once s =
    if negb (acceptNewConn s) then Done false s else
    match Acquire (connLimiter s) with
    | Done true tl =>
        let '(o, l) := listener_accept (backoff_reset (listener s)) in
        match o with
        | None => Blocked
            (MkServer (acceptNewConn s) tl l (srv_done s) (goroutines s) (body s))
        | Some (inl err) => Done (negb (error_is err NetErrClosed))
            (MkServer (acceptNewConn s) (final (Release tl)) l (srv_done s) (goroutines s) (body s))
        | Some (inr nc) => Done true
            (MkServer (acceptNewConn s) tl l (srv_done s) (goroutines s ++ [HandleConn nc]) (body s))
        end
    | _ => let '(next, l) := backoff_next (listener s) in
        Done true (MkServer (acceptNewConn s) (connLimiter s) (time_sleep next l) (srv_done s)
                     (goroutines s) (body s))
    end.
Proof.
  unfold accept_once, bind at 1. rewrite accept_begin_spec. destruct (negb (acceptNewConn s)); [done|].
  destruct (Acquire (connLimiter s)) as [[] tl|?|?|?]; [by rewrite accept_end_spec|..];
    by destruct (backoff_next (listener s)).
Qed.

(** [GracefulShutdown], which the application calls to stop, stops accepting
    and closes the listener, and then waits for the server's context.  Only
    [Shutdown] cancels that context, and [GracefulShutdown] calls it after the
    wait: unless the context is cancelled already, the call parks for ever, with
    the limiter and the handlers still running. *)
Theorem GracefulShutdown_waits (listening : bool) s :
  if srv_done s
  then ∃ s', GracefulShutdown listening s = Done None s' ∧ acceptNewConn s' = false ∧
         tl_done (connLimiter s') = true
  else ∃ s', GracefulShutdown listening s = Blocked s' ∧ acceptNewConn s' = false ∧
         srv_done s' = false ∧ connLimiter s' = connLimiter s ∧ goroutines s' = goroutines s ∧
         body s' = body s.
Proof.
  unfold GracefulShutdown. destruct listening; cbn.
  - unfold on_listener, zoom, bind, state, modify. cbn. destruct (listener_close (listener s)); cbn.
    by destruct (srv_done s); eexists; split_and!.
  - unfold bind. cbn. by destruct (srv_done s); eexists; split_and!.
Qed.

End Facts.

Section RegistryFacts.
Context {L S E : Type}.
Context `{Listener L, RegistrySpec S E, Sched E, Net E, Gateway.ConsumerFactory S}.
Context {PB : Protobuf Message AckPayload PushMessage}.
Context (upgrade : nat → go S (error + (Session * option Compression.State))).
Context (handler : Handler S).

(** Code that leaves the registry a registry, however it ends. *)
Definition keeps_registry {A : Type} (m : go S A) : Prop :=
  ∀ s mm, reg_is (E := E) s mm → ∃ mm', reg_is (E := E) (final (m s)) mm'.

Lemma kr_ret {A} (a : A) : keeps_registry (ret a).
Proof. intros s mm Hs. by exists mm. Qed.
Lemma kr_block {A} : keeps_registry (@block S A).
Proof. intros s mm Hs. by exists mm. Qed.
Lemma kr_bind {A B} (m : go S A) (k : A → go S B) :
  keeps_registry m → (∀ a, keeps_registry (k a)) → keeps_registry (bind m k).
Proof.
  intros Hm Hk s mm Hs. destruct (Hm s mm Hs) as [mm' Hs']. unfold bind.
  destruct (m s) as [a s'|s'|s'|s']; cbn in *; [by eapply Hk|by exists mm'..].
Qed.
Lemma kr_defer {A} (d : go S unit) (m : go S A) :
  keeps_registry d → keeps_registry m → keeps_registry (defer d m).
Proof.
  intros Hd Hm s mm Hs. destruct (Hm s mm Hs) as [mm' Hs']. unfold defer.
  destruct (m s) as [a s'|s'|s'|s']; cbn in Hs'; [|by exists mm'| |by exists mm'];
    destruct (Hd s' mm' Hs') as [mm2 Hs2]; destruct (d s'); cbn in *; by exists mm2.
Qed.

(** What the theorem below asks of the parts the server is given: none of them
    breaks the registry. *)
Record well_behaved (evs : list ((S → S) * received)) : Prop := WellBehaved {
  wb_upgrade nc : keeps_registry (upgrade nc);
  wb_connect l : keeps_registry (OnConnect handler l);
  wb_disconnect l : keeps_registry (OnDisconnect handler l);
  wb_frontend l p : keeps_registry (OnReceiveFromFrontend handler l p);
  wb_others f ev : (f, ev) ∈ evs → keeps_registry (modify f);
}.

Lemma kr_loop l evs :
  (∀ p, keeps_registry (OnReceiveFromFrontend handler l p)) →
  (∀ f ev, (f, ev) ∈ evs → keeps_registry (modify f)) → keeps_registry (handle_loop handler l evs).
Proof.
  intros Hf. induction evs as [|[f ev] evs IH]; intros Ho; [apply kr_block|].
  cbn [handle_loop]. apply kr_bind; [by eapply Ho; left|]. intros _.
  assert (keeps_registry (handle_loop handler l evs)) as Hl.
  { apply IH. intros f' ev' Hin. eapply Ho. by right. }
  destruct ev as [p| | |]; [|apply kr_ret..]. apply kr_bind; [apply Hf|].
  intros err. destruct (opt_is err ErrConnClosed); [apply kr_ret|done].
Qed.

(** The deferred clean-up of a connection takes the entry of its user and device
    out, whichever connection is registered there. *)
Lemma cleanup_spec u l s mm s' :
  reg_is (E := E) s mm → cleanup u l s = Done tt s' →
  reg_is (E := E) s' (delete (ConnKey u, UDevice u) mm).
Proof.
  intros Hs. unfold cleanup. destruct (reg_RemoveConn_spec u s mm Hs) as (s1 & E1 & Hs1).
  erewrite bind_done by exact E1. intros (err & s2 & E2 & E3)%bind_done_inv.
  injection E3 as <-.
  destruct (reg_conn_spec s1 _ l "" Hs1) as (_ & _ & _ & _ & Hc). by rewrite E2 in Hc.
Qed.

(** C12. A connection leaves nothing behind: when [handleConn] of a connection whose
    upgrade succeeded has ended, by whatever events, the registry has no
    connection for that user and device. *)
Theorem handleConn_unregisters (nc : nat) (evs : list ((S → S) * received)) (s s' : Server L S)
    (m : gmap (string * string) nat) (ses : Session) (st : option Compression.State) (s1 : S) :
  well_behaved evs → reg_is (E := E) (body s) m →
  upgrade nc (body s) = Done (inr (ses, st)) s1 →
  handleConn (E := E) upgrade handler nc evs s = Done tt s' →
  ∃ m', reg_is (E := E) (body s') m' ∧ m' !! (ConnKey (sess_user ses), UDevice (sess_user ses)) = None.
Proof.
  intros Hwb Hs Hup. unfold handleConn. intros (s2 & E2 & E3)%defer_done_inv.
  assert (body s' = body s2) as ->.
  { unfold zoom, bind in E3. cbn in E3. unfold Release, bind in E3. cbn in E3.
    destruct (ch_room _) in E3; by injection E3 as <-. }
  unfold on_body, zoom in E2. cbn in E2.
  destruct (handle_body upgrade handler nc evs (body s)) as [u x|?|?|?] eqn:Hb; try done.
  injection E2 as _ <-. cbn [body]. destruct u.
  unfold handle_body in Hb. apply defer_done_inv in Hb as (x1 & Hb & Hnc).
  assert (∃ e, x = part_set (T := E) e x1) as [e ->].
  { unfold zoom, state, bind in Hnc. cbn in Hnc. destruct (net_close nc (part_get x1)).
    injection Hnc as <-. by eexists. }
  erewrite bind_done in Hb by exact Hup. cbv beta iota in Hb.
  destruct (wb_upgrade _ Hwb nc (body s) m Hs) as [m1 Hs1]. rewrite Hup in Hs1. cbn in Hs1.
  destruct (reg_NewConn_spec nc ses st s1 m1 Hs1) as (l & s3 & E4 & Hs3 & Hses).
  erewrite bind_done in Hb by exact E4. cbv beta iota in Hb.
  erewrite bind_done in Hb by exact Hses. apply defer_done_inv in Hb as (s4 & Hb & Hcl).
  assert (∃ m4, reg_is (E := E) s4 m4) as [m4 Hs4].
  { assert (keeps_registry (err <- OnConnect handler l ;;
      match err with
      | Some _ => ret tt
      | None => defer (OnDisconnect handler l ;;; ret tt) (handle_loop handler l evs)
      end)) as Hk.
    { apply kr_bind; [by eapply wb_connect|]. intros [e0|]; [apply kr_ret|].
      apply kr_defer; [apply kr_bind; [by eapply wb_disconnect|intros _; apply kr_ret]|].
      apply kr_loop; [intros p; by eapply wb_frontend|intros f ev; by apply (wb_others _ Hwb)]. }
    destruct (Hk s3 _ Hs3) as [m4 Hm4]. rewrite Hb in Hm4. by exists m4. }
  exists (delete (ConnKey (sess_user ses), UDevice (sess_user ses)) m4).
  split; [|apply lookup_delete_eq]. apply reg_env. by eapply cleanup_spec.
Qed.

(** C26. A push request from the queue.  One that does not decode is an error and
    changes nothing; one whose receiver has no connection is
    [ErrUnknownReceiver]; otherwise the handler gets it with exactly the
    connections of all the receiver's devices, and its result is the result. *)
Theorem consumePushMessage_routes (msg : Xmq.XMessage) (s : S) (m : gmap (string * string) nat) :
  reg_is (E := E) s m →
  match json_Unmarshal_push (Xmq.Val msg) with
  | inl err => consumePushMessage handler msg s = Done (Some err) s
  | inr pm =>
      let key := ConnKey (MkUser (pm_BizId pm) (pm_ReceiverId pm) "" false) in
      ((∀ d, m !! (key, d) = None) ∧
       ∃ err s', consumePushMessage handler msg s = Done (Some err) s' ∧
         error_is err ErrUnknownReceiver = true ∧ reg_is (E := E) s' m) ∨
      ((∃ d, is_Some (m !! (key, d))) ∧
       ∃ ls s', reg_is (E := E) s' m ∧ (∀ l, l ∈ ls ↔ ∃ d, m !! (key, d) = Some l) ∧
         consumePushMessage handler msg s = OnReceiveFromBackend handler ls pm s')
  end.
Proof.
  intros Hs. unfold consumePushMessage.
  destruct (json_Unmarshal_push (Xmq.Val msg)) as [err|pm]; [done|]. cbn zeta.
  destruct (reg_FindUserConn_spec (MkUser (pm_BizId pm) (pm_ReceiverId pm) "" false) s m Hs)
    as (ls & s1 & E1 & Hs1 & Hls).
  unfold findConn. destruct ls as [|l ls].
  - left. split.
    + intros d. apply eq_None_not_Some. intros [l Hl].
      assert (l ∈ @nil nat) as Hin by (apply Hls; eauto). by apply elem_of_nil in Hin.
    + eexists _, s1. erewrite bind_done by (erewrite bind_done by exact E1; reflexivity).
      split; [reflexivity|]. split; [by rewrite error_is_suf|done].
  - right. split.
    + destruct (proj1 (Hls l)) as [d Hd]; [by left|]. by exists d, l.
    + exists (l :: ls), s1. split; [done|]. split; [done|].
      erewrite bind_done by (erewrite bind_done by exact E1; reflexivity).
      cbn [fst snd length]. rewrite bool_decide_eq_true_2 by lia. cbv beta iota. unfold bind.
      by destruct (OnReceiveFromBackend handler (l :: ls) pm s1).
Qed.

End RegistryFacts.

(** The address the server listens on: the file of a unix socket, otherwise
    host and port; without configuration 0.0.0.0:17001. *)
Theorem Address_spec (h : string) (p : Z) (n : string) (b : bool) :
  (n = "unix" → Address (MkConfig h p n b) = h) ∧
  (n ≠ "unix" → (0 <= p)%Z → Address (MkConfig h p n b) = h +:+ ":" +:+ sprint_d (Z.to_N p)) ∧
  Address DefaultConfig = "0.0.0.0:17001".
Proof.
  split_and!.
  - by intros ->.
  - intros Hn Hp. unfold Address, sprint_int. cbn [Network Host Port].
    rewrite (proj2 (String.eqb_neq _ _)) by done. by rewrite (proj2 (Z.ltb_ge _ _)).
  - by vm_compute.
Qed.
