(* ===== verification/App.v ===== *)
(** The components put together ([internal/app/app.go]): the server over the
    registry of [ConnManager.v], its connections, the retransmit manager and the
    dispatcher. *)

From S2P Require Import Prelude Env Sim Session Compression Conn ConnManager Iface Retransmit.
From S2P Require Import Limiter Codec Xmq Gateway Message Lifecycle Server.

(** ** The registry of connections implements the server's interface *)

Section Implementation.
Context {M : Type → Type} {E : Type}.
Context {ME : MultiErr} {OA : OptApply} `{SyncMap M, Sched E, Net E, Redis E}.

#[export] Instance cms_conn : SynpConn (CMS M E) := {
  conn_ID l := zoom (T := World E) (conn_ID l);
  conn_Session l := zoom (T := World E) (conn_Session l);
  conn_Send l p := zoom (T := World E) (conn_Send l p);
  conn_UpdateActivityTime l := zoom (T := World E) (conn_UpdateActivityTime l);
  conn_Close l := zoom (T := World E) (conn_Close l);
}.

#[export] Instance cms_env : Part (CMS M E) E := {
  part_get s := env (world s);
  part_set e s := part_set (part_set e (world s)) s;
}.

#[export] Instance cms_env_spec : PartSpec (CMS M E) E.
Proof. by split; intros [? ? ? []]. Qed.

#[export] Instance cms_registry : Registry (CMS M E) := {
  reg_NewConn nc ses st := l <- CM_NewConn nc ses st ;; ret (inr l);
  reg_RemoveConn := RemoveConn;
  reg_RemoveUserConn := RemoveUserConn;
  reg_FindConn := FindConn;
  reg_FindUserConn := FindUserConn;
}.

#[export] Instance cms_conn_spec : SynpConnSpec (CMS M E).
Proof.
  refine {| conn_at s := conn_at (world s) |}.
  - intros s l i u Hat. unfold conn_ID at 1, cms_conn, zoom. cbn [part_get cms_world].
    rewrite (conn_ID_at _ _ _ _ Hat). by destruct s.
  - intros s l i u Hat. destruct (conn_Session_at _ _ _ _ Hat) as (ses & Es & Hu).
    exists ses. split; [|done]. unfold conn_Session at 1, cms_conn, zoom. cbn [part_get cms_world].
    rewrite Es. by destruct s.
  - intros s l p l' i u Hat. pose proof (conn_Send_at _ l p _ _ _ Hat) as Hs.
    unfold conn_Send at 1, cms_conn, zoom. cbn [part_get cms_world].
    by destruct (conn_Send l p (world s)).
  - intros s l l' i u Hat. pose proof (conn_UpdateActivityTime_at _ l _ _ _ Hat) as Hs.
    unfold conn_UpdateActivityTime at 1, cms_conn, zoom. cbn [part_get cms_world].
    by destruct (conn_UpdateActivityTime l (world s)).
  - intros s l i u Hat. destruct (conn_UpdateActivityTime_done _ _ _ _ Hat) as (w' & Hw).
    unfold conn_UpdateActivityTime at 1, cms_conn, zoom. cbn [part_get cms_world].
    rewrite Hw. by eexists.
  - intros s l l' i u Hat. pose proof (conn_Close_at _ l _ _ _ Hat) as Hs.
    unfold conn_Close at 1, cms_conn, zoom. cbn [part_get cms_world].
    by destruct (conn_Close l (world s)).
Defined.

End Implementation.

Section Laws.
Context {M : Type → Type} {E : Type}.
Context {ME : MultiErr} {OA : OptApply} {OAS : OptApplySpec}.
Context `{SyncMapSpec M, SchedSpec E, Net E, Redis E}.

(** Code on connections that adds and removes none, however it ends. *)
Definition same_conns {A : Type} (m : go (World E) A) : Prop :=
  ∀ w, dom (heap (final (m w))) = dom (heap w) ∧ next (final (m w)) = next w.

Lemma sc_ret {A} (a : A) : same_conns (ret a).
Proof. by intros w. Qed.
Lemma sc_block {A} : same_conns (@block (World E) A).
Proof. by intros w. Qed.
Lemma sc_bind {A B} (m : go (World E) A) (k : A → go (World E) B) :
  same_conns m → (∀ a, same_conns (k a)) → same_conns (bind m k).
Proof.
  intros Hm Hk w. destruct (Hm w) as [Hd Hn]. unfold bind.
  destruct (m w) as [a w'|w'|w'|w']; cbn in *; try done.
  destruct (Hk a w') as [Hd' Hn']. split; congruence.
Qed.
Lemma sc_deref l : same_conns (deref l).
Proof. intros w. unfold deref, bind, gets, need. by destruct (heap w !! l). Qed.
Lemma sc_assign l f : same_conns (assign l f).
Proof. intros w. cbn. split; [|done]. apply dom_alter_L. Qed.
Lemma sc_zoom {A} (m : go E A) : same_conns (zoom m).
Proof. intros w. unfold zoom. by destruct (m (part_get w)). Qed.
Lemma sc_if {A} (b : bool) (m1 m2 : go (World E) A) :
  same_conns m1 → same_conns m2 → same_conns (if b then m1 else m2).
Proof. by destruct b. Qed.
Create HintDb conns.
#[local] Hint Resolve sc_ret sc_block sc_bind sc_deref sc_assign sc_zoom sc_if : conns.
#[local] Hint Extern 2 (same_conns (match ?b with _ => _ end)) => destruct b : conns.

Lemma sc_ctx_poll l : same_conns (ctx_poll l).
Proof. unfold ctx_poll, envcall. auto 10 with conns. Qed.
#[local] Hint Resolve sc_ctx_poll : conns.

Lemma sc_methods l p :
  same_conns (ID l) ∧ same_conns (ConnSession l) ∧ same_conns (Send l p) ∧
  same_conns (UpdateActivityTime l) ∧ same_conns (Close l).
Proof.
  unfold ID, ConnSession, Send, send_case, UpdateActivityTime, Close, envcall, envdo.
  split_and!; auto 40 with conns.
Qed.

Lemma cm_rep_zoom {A} (m : go (World E) A) (s : CMS M E) mm :
  same_conns m → cm_rep s mm → cm_rep (final (zoom (T := World E) m s)) mm.
Proof.
  intros Hm Hr. destruct (Hm (world s)) as [Hd Hn].
  assert (final (zoom (T := World E) m s)
          = MkCMS (cm s) (dheap s) (dnext s) (final (m (world s)))) as ->
    by (unfold zoom; cbn; by destruct (m (world s))).
  apply rep_world; [done|..]; intros l; rewrite <- !elem_of_dom, Hd; [done|].
  rewrite elem_of_dom, Hn. apply (rep_next s mm Hr).
Qed.

#[export] Instance cms_registry_spec : RegistrySpec (CMS M E) E.
Proof.
  refine {| reg_is := cm_rep |}.
  - intros u s m Hr. destruct (RemoveConn_rep s m u Hr) as (s' & E' & Hr' & _). by exists s'.
  - intros nc ses st s m Hr.
    destruct (CM_NewConn_rep s m nc ses st Hr) as (l & s' & E' & Hr' & _ & (now & Hnow) & _).
    exists l, s'. split; [by unfold reg_NewConn, cms_registry; erewrite bind_done by exact E'|].
    split; [done|]. cbn. unfold zoom. cbn. unfold ConnSession.
    erewrite bind_done by by apply deref_done. by destruct s'.
  - intros u s m Hr. destruct (Find_rep s m u Hr) as (_ & cs & s' & E' & _ & Hin & Hr' & _).
    exists cs, s'. split; [|done]. unfold reg_FindUserConn, cms_registry. rewrite E'. do 2 f_equal.
    apply bool_decide_ext. rewrite elem_of_users. split.
    + intros (d & l & Hd). destruct cs as [|c cs]; [|cbn; lia].
      assert (l ∈ @nil nat) as Hx by (apply Hin; eauto). by apply elem_of_nil in Hx.
    + intros Hlen. destruct cs as [|c cs]; [cbn in Hlen; lia|].
      destruct (proj1 (Hin c)) as [d Hd]; [by left|]. by exists d, c.
  - intros s m l p Hr. destruct (sc_methods l p) as (? & ? & ? & ? & ?).
    split_and!; by apply cm_rep_zoom.
  - intros s e m Hr. apply rep_world; [done|done|apply (rep_next s m Hr)].
Defined.

End Laws.

(** ** Lifting to the state with the retransmit manager *)

Section Lift.
Context {M : Type → Type} {W E : Type} `{RegistrySpec W E}.

#[export] Instance rts_registry : Registry (RTS M W) := {
  reg_NewConn nc ses st := zoom (T := W) (reg_NewConn nc ses st);
  reg_RemoveConn u := zoom (T := W) (reg_RemoveConn u);
  reg_RemoveUserConn u := zoom (T := W) (reg_RemoveUserConn u);
  reg_FindConn u := zoom (T := W) (reg_FindConn u);
  reg_FindUserConn u := zoom (T := W) (reg_FindUserConn u);
}.

Lemma rest_zoom {A} (m : go W A) (s : RTS M W) :
  rest (final (zoom (T := W) m s)) = final (m (rest s)).
Proof. unfold zoom. cbn. by destruct (m (rest s)). Qed.

#[export] Instance rts_registry_spec : RegistrySpec (RTS M W) E.
Proof.
  refine {| reg_is s := reg_is (E := E) (rest s) |}.
  - intros u s m Hr. destruct (reg_RemoveConn_spec u _ m Hr) as (w & E' & Hw).
    exists (part_set w s). split; [|done]. cbn. unfold zoom. cbn. by rewrite E'.
  - intros nc ses st s m Hr. destruct (reg_NewConn_spec nc ses st _ m Hr) as (l & w & E' & Hw & Hs).
    exists l, (part_set w s). split; [cbn; unfold zoom; cbn; by rewrite E'|].
    split; [done|]. cbn. unfold zoom. cbn. by rewrite Hs.
  - intros u s m Hr. destruct (reg_FindUserConn_spec u _ m Hr) as (ls & w & E' & Hw & Hin).
    exists ls, (part_set w s). split; [|done]. cbn. unfold zoom. cbn. by rewrite E'.
  - intros s m l p Hr. destruct (reg_conn_spec _ m l p Hr) as (? & ? & ? & ? & ?).
    cbn [conn_ID conn_Session conn_Send conn_UpdateActivityTime conn_Close rts_conn].
    split_and!; by rewrite rest_zoom.
  - intros s e m Hr. by apply reg_env.
Defined.

End Lift.

(** ** The application's parts keep the registry *)

Section Behaved.
Context {M : Type → Type} {W E : Type}.
Context `{SyncMap M, RegistrySpec W E, Sched E, Net E, Redis E, Kafka E}.
Context {PB : Protobuf Message AckPayload PushMessage}.

Abbreviation keepsW m := (keeps_registry (S := W) (E := E) m).
Abbreviation keepsR m := (keeps_registry (S := RTS M W) (E := E) m).

Lemma kr_ops l p :
  keepsW (conn_ID l) ∧ keepsW (conn_Session l) ∧ keepsW (conn_Send l p) ∧
  keepsW (conn_UpdateActivityTime l) ∧ keepsW (conn_Close l).
Proof.
  split_and!; intros s m Hr; destruct (reg_conn_spec s m l p Hr) as (? & ? & ? & ? & ?); by exists m.
Qed.

Lemma kr_env_W {A} (m : go E A) : keepsW (zoom m).
Proof.
  intros s mm Hr. exists mm. unfold zoom. destruct (m (part_get s)); by apply reg_env.
Qed.

Lemma kr_env_R {A} (m : go E A) : keepsR (zoom m).
Proof.
  intros s mm Hr. exists mm. unfold zoom. destruct (m (part_get s)); by apply reg_env.
Qed.

Lemma kr_zoom {A} (m : go W A) : keepsW m → keepsR (zoom m).
Proof.
  intros Hm s mm Hr. destruct (Hm (rest s) mm Hr) as [mm' Hr']. exists mm'.
  cbn. by rewrite rest_zoom.
Qed.

(** Code of the manager on its own state. *)
Lemma kr_rest {A} (m : go (RTS M W) A) : (∀ s, rest (final (m s)) = rest s) → keepsR m.
Proof. intros Hm s mm Hr. exists mm. cbn. by rewrite Hm. Qed.

Create HintDb registry.
#[local] Hint Resolve kr_ret kr_block kr_bind kr_defer kr_env_W kr_env_R kr_zoom : registry.
#[local] Hint Extern 2 (keeps_registry (match ?b with _ => _ end)) => destruct b : registry.
#[local] Hint Extern 3 (keeps_registry (if ?b then _ else _)) => destruct b : registry.
#[local] Hint Extern 1 (keeps_registry (conn_ID ?l)) => apply (kr_ops l "") : registry.
#[local] Hint Extern 1 (keeps_registry (conn_Send ?l ?p)) => apply (kr_ops l p) : registry.
#[local] Hint Extern 1 (keeps_registry (conn_UpdateActivityTime ?l)) => apply (kr_ops l "") : registry.

Lemma kr_task_load a : keepsR (task_load a).
Proof. apply kr_rest. intros s. unfold task_load, bind, gets, need. by destruct (theap s !! a). Qed.

Lemma kr_stop a : keepsR (stop a).
Proof.
  unfold stop. apply kr_bind; [apply kr_task_load|]. intros t.
  destruct (timerPtr t); [by apply kr_rest|apply kr_ret].
Qed.

Lemma kr_stopAndDelete key : keepsR (stopAndDelete key).
Proof.
  unfold stopAndDelete. apply kr_bind.
  - apply kr_rest. intros s. cbn. by destruct (sm_load_and_delete key (tasks (mgr s))).
  - intros [a|]; [|apply kr_ret]. apply kr_bind; [apply kr_stop|]. intros _.
    apply kr_bind; [by apply kr_rest|intros _; apply kr_ret].
Qed.

Lemma kr_Stop cid mid : keepsR (Stop cid mid).
Proof.
  unfold Stop. apply kr_bind; [by apply kr_rest|]. intros [a|]; [|apply kr_ret].
  apply kr_bind; [apply kr_stopAndDelete|intros _; apply kr_ret].
Qed.

Lemma kr_start conn msg : keepsR (start conn msg).
Proof.
  unfold start. apply kr_bind; [by apply kr_rest|]. intros [|]; [apply kr_ret|].
  apply kr_bind; [auto with registry|]. intros cid. apply kr_bind; [by apply kr_rest|]. intros a.
  apply kr_bind; [by apply kr_rest|]. intros _. apply kr_bind.
  { apply kr_rest. intros s. cbn. by destruct (sm_load_or_store _ a (tasks (mgr s))). }
  intros [v [|]]; [apply kr_ret|]. apply kr_bind; [by apply kr_rest|]. intros m.
  apply kr_bind; [by apply kr_rest|]. intros tm.
  apply kr_bind; [by apply kr_rest|]. intros _. by apply kr_rest.
Qed.

Lemma kr_Start conns msg : keepsR (Retransmit.Start conns msg).
Proof.
  unfold Retransmit.Start. induction conns as [|c conns IH]; [apply kr_ret|].
  cbn [range_do]. apply kr_bind; [apply kr_start|done].
Qed.

Lemma kr_push codec conn msg : keepsW (DefaultPushFunc codec conn msg).
Proof. unfold DefaultPushFunc. destruct (Marshal _ _); auto with registry. Qed.

Lemma kr_frontend (h : FrontendMsgHandler W) conn msg :
  (∀ c m, keepsW (pushFunc h c m)) → keepsW (Frontend_Handle h conn msg).
Proof.
  intros Hp. unfold Frontend_Handle, forwardToBackend.
  apply kr_bind; [auto with registry|]. intros _. apply kr_bind; [auto with registry|]. intros now.
  apply kr_bind; [destruct (protojson_Marshal msg); auto with registry|].
  intros err. destruct (protojson_Marshal_ack _); [apply kr_ret|apply Hp].
Qed.

Lemma kr_push_each codec conns msg : keepsR (push_each (DefaultPushFunc codec) conns msg).
Proof.
  induction conns as [|c conns IH]; [apply kr_ret|]. cbn [push_each].
  apply kr_bind; [apply kr_zoom, kr_push|]. intros [e|]; [apply kr_ret|].
  apply kr_bind; [auto with registry|done].
Qed.

(** The dispatcher of the application ([newConnLcHandler], [newFrontendMsgHandler],
    [newBackendMsgHandler], [DefaultPushFunc]). *)
Definition app_handler (timeout expiration : Z) (codec : Codec) (topic : string) (fwd : Z) :
    LcHandler (RTS M W) :=
  let push := DefaultPushFunc codec in
  NewLcHandler timeout expiration codec
    [NewHeartbeatMsgHandler push; NewFrontendMsgHandler topic fwd push; NewDownstreamAckHandler]
    (Backend_Handle push).

Lemma app_uMsgHandlers t x codec topic fwd c u :
  uMsgHandlers (app_handler t x codec topic fwd) !! c = Some u →
  ∀ conn msg, keepsR (Handle u conn msg).
Proof.
  unfold app_handler, NewLcHandler. cbn [uMsgHandlers fold_left CmdType NewHeartbeatMsgHandler
    NewFrontendMsgHandler NewDownstreamAckHandler].
  rewrite !lookup_insert_Some, lookup_empty.
  intros [[_ <-]|[_ [[_ <-]|[_ [[_ <-]|[_ [=]]]]]]] conn msg; cbn [Handle].
  - unfold DownstreamAck_Handle. apply kr_bind; [auto with registry|]. intros cid.
    apply kr_bind; [apply kr_Stop|intros _; apply kr_ret].
  - apply kr_zoom, kr_frontend. intros. apply kr_push.
  - apply kr_zoom, kr_push.
Qed.

Lemma app_well_behaved t x codec topic fwd upgrade evs :
  (∀ nc, keepsR (upgrade nc)) → (∀ f ev, (f, ev) ∈ evs → keepsR (modify f)) →
  well_behaved (E := E) upgrade (lc_handler (app_handler t x codec topic fwd)) evs.
Proof.
  intros Hu Ho. split; [done|..|done]; cbn [lc_handler OnConnect OnDisconnect OnReceiveFromFrontend].
  - intros l. apply kr_ret.
  - intros l. apply kr_zoom, kr_ops. exact "".
  - intros l p. unfold lc_OnReceiveFromFrontend. destruct (decodePayload _ p); [apply kr_ret|].
    apply kr_bind; [apply kr_zoom, kr_ops; exact ""|]. intros ses.
    apply kr_bind; [unfold cacheMessage; case_bool_decide; [apply kr_ret|apply kr_env_R]|].
    intros [err|ok]; [apply kr_ret|]. destruct (negb ok); [apply kr_ret|].
    destruct (uMsgHandlers _ !! Cmd m) as [u|] eqn:Hum; [|apply kr_ret].
    unfold handle_and_uncache. apply kr_bind; [by eapply app_uMsgHandlers|].
    intros [e|]; [|apply kr_ret]. apply kr_bind; [|intros _; apply kr_ret].
    unfold when. destruct (needUncacheMessage e); [|apply kr_ret].
    apply kr_bind; [|intros _; apply kr_ret]. unfold uncacheMessage.
    case_bool_decide; [apply kr_ret|]. apply kr_bind; [apply kr_env_R|intros r; apply kr_ret].
Qed.

End Behaved.

(** ** Theorems about the assembled parts *)

Section Assembled.
Context {M : Type → Type} {E : Type}.
Context {ME : MultiErr} {OA : OptApply} {OAS : OptApplySpec}.
Context `{SyncMapSpec M, SchedSpec E, Net E, RedisSpec E}.
Implicit Types (s : CMS M E) (m : gmap (string * string) nat).

(** A device connects and connects again; the addresses of both connections. *)
Definition reconnect (nc0 nc1 : nat) (ses : Session) (st : option Compression.State) :
    go (CMS M E) (nat * nat) :=
  l0 <- CM_NewConn nc0 ses st ;;
  l1 <- CM_NewConn nc1 ses st ;;
  ret (l0, l1).

(** C38. A device that reconnects loses its new connection.  The second [NewConn]
    of a user and device closes the first connection and registers the second,
    which is open.  The handler of the first connection then ends, and its
    deferred clean-up removes by user: it closes the second connection and leaves
    the device unregistered. *)
Theorem reconnect_loses_connection s m (ses : Session) (st : option Compression.State)
    (nc0 nc1 : nat) :
  cm_rep s m →
  let u := sess_user ses in
  let key := (ConnKey u, UDevice u) in
  ∃ l0 l1 s2 s3,
    reconnect nc0 nc1 ses st s = Done (l0, l1) s2 ∧ l0 ≠ l1 ∧
    cm_rep s2 (<[key := l1]> m) ∧
    (∃ c, heap (world s2) !! l1 = Some c ∧ closeOnce c = false) ∧
    cleanup u l0 s2 = Done tt s3 ∧ cm_rep s3 (delete key m) ∧
    (∃ c, heap (world s3) !! l1 = Some c ∧ closeOnce c = true).
Proof.
  intros Hr u key.
  destruct (CM_NewConn_rep s m nc0 ses st Hr) as (l0 & s1 & E0 & Hr1 & _ & (n0 & Hl0) & _ & _).
  destruct (CM_NewConn_rep s1 _ nc1 ses st Hr1) as (l1 & s2 & E1 & Hr2 & Hf & (n1 & Hl1) & Hold & _).
  fold u in E0, E1, Hr1, Hr2, Hold. fold key in Hr1, Hr2, Hold.
  assert (l0 ≠ l1) as Hne by congruence.
  rewrite insert_insert_eq in Hr2.
  destruct (RemoveConn_rep s2 _ u Hr2) as (s3 & E2 & Hr3 & _ & _ & Hm3).
  fold key in E2, Hr3, Hm3. rewrite lookup_insert_eq in E2, Hm3. destruct Hm3 as [Hcl Hsame].
  destruct (Hold l0) as (c0 & Hc0 & Ho0); [by rewrite lookup_insert_eq|].
  exists l0, l1, s2, s3. rewrite delete_insert_eq in Hr3. split_and!; try done.
  - unfold reconnect. erewrite bind_done by exact E0. by erewrite bind_done by exact E1.
  - by eexists.
  - unfold cleanup. cbn [reg_RemoveConn cms_registry]. erewrite bind_done by exact E2.
    erewrite bind_done; [reflexivity|]. cbn [conn_Close cms_conn]. unfold zoom. cbn.
    rewrite (Close_again l0 (world s3) c0); [by destruct s3|by rewrite Hsame|done].
Qed.

End Assembled.

(** ** Witnesses *)

#[local] Existing Instance sim_multierr.
#[local] Existing Instance sim_multierr_spec.
#[local] Instance sim_opt : OptApply := sim_option_apply.
#[local] Instance sim_opt_spec : @OptApplySpec sim_opt := sim_option_apply_spec.

Example reconnect_loses_connection_witness :
  ∃ s3, cm_rep (M := sim_map) (E := Sim) s3 (delete ("7:42", "mobile") ∅).
Proof.
  destruct (reconnect_loses_connection cms0 ∅ phone None 5 6 cms0_rep)
    as (l0 & l1 & s2 & s3 & _ & _ & _ & _ & _ & Hr & _).
  exists s3. exact Hr.
Defined.

(** A listener that hands out the connections of a list and is then closed. *)
#[local] Instance sim_listener : Listener (list nat) := {
  net_listen _ _ l := (None, l);
  listener_accept l :=
    match l with [] => (None, []) | nc :: l' => (Some (inr nc), l') end;
  listener_close l := (None, []);
  backoff_next l := (Second, l);
  backoff_reset l := l;
  time_sleep _ l := l;
}.

(** The state of the application: the registry and the retransmit manager. *)
Abbreviation AppState := (RTS sim_map (CMS sim_map Sim)).

(** Consumers without partitions. *)
#[local] Instance sim_consumers : Gateway.ConsumerFactory AppState := {
  Gateway.f_NewConsumer _ _ := ret (inr 0);
  Gateway.f_ConsumeChan _ := ret (inr 0);
}.

Definition app_state0 : AppState := MkRTS (NewManager 0 0 (Some (λ _ _, ret None))) ∅ ∅ 0 cms0.

Definition app0 : Handler AppState :=
  lc_handler (E := Sim) (app_handler 10 10 NewProtoCodec "up" 100).

Lemma app_state0_is : reg_is (E := Sim) app_state0 ∅.
Proof. exact cms0_rep. Qed.

(** Every connection is the phone of user 42. *)
Definition phone_upgrade (nc : nat) : go AppState (error + (Session * option Compression.State)) :=
  ret (inr (phone, None)).

(** The server with [n] free tokens. *)
Definition limiter_at (n : nat) : TokenLimiter :=
  MkTL Limiter.DefaultConfig (Chan (replicate n tt) (Z.to_nat 2000) false) 2000 false.
Definition server_at (n : nat) (l : list nat) (gs : list goroutine) : Server (list nat) AppState :=
  MkServer true (limiter_at n) l false gs app_state0.

Lemma NewServer0 :
  NewServer [5] app_state0 = Done (server_at (Z.to_nat 2000) [5] []) (tokens (limiter_at (Z.to_nat 2000))).
Proof. unfold NewServer. by rewrite NewTokenLimiter_done by (cbn; lia). Qed.

Lemma begin_at n l gs : accept_begin (server_at (S n) l gs) = Done AAccept (server_at n l gs).
Proof. by rewrite accept_begin_spec. Qed.

Lemma end_at n nc l gs :
  accept_end (server_at n (nc :: l) gs) = Done true (server_at n l (gs ++ [HandleConn nc])).
Proof. by rewrite accept_end_spec. Qed.

(** The server is started, accepts connection 5, and waits for the next one. *)
Definition accepted : Server (list nat) AppState :=
  server_at (Z.to_nat 1998) [] [HandleConn 5; Accepting].

Lemma accepted_reached : rtc (srv_step (E := Sim) phone_upgrade app0) (server_at (Z.to_nat 2000) [5] []) accepted.
Proof.
  replace (Z.to_nat 2000) with (S (S (Z.to_nat 1998))) at 1 by lia.
  eapply rtc_l; [by apply (step_start _ _ Server.DefaultConfig ∅)|].
  eapply rtc_l; [apply (step_accept _ _ _ AAccept (server_at (S (Z.to_nat 1998)) [5] [AcceptLoop])); [by left|apply begin_at]|].
  eapply rtc_l; [apply (step_accepted _ _ _ true (server_at (S (Z.to_nat 1998)) [] [Accepting; HandleConn 5])); [by left|apply end_at]|].
  apply rtc_once. apply (step_accept _ _ _ AAccept (server_at (Z.to_nat 1998) [] [HandleConn 5; AcceptLoop]));
    [by right; left|apply begin_at].
Qed.

Example connection_slots_witness :
  (Z.of_nat (length (ch_buf (tokens (connLimiter accepted)))) + Z.of_nat (handling accepted) +
   Z.of_nat (waiting accepted) = 2000)%Z ∧
  handling accepted = 1 ∧ waiting accepted = 1.
Proof.
  split; [|by split].
  exact (proj1 (connection_slots (E := Sim) phone_upgrade app0 [5] app_state0 _ _ accepted NewServer0
    accepted_reached)).
Defined.

(** The phone sends a heartbeat and its connection closes. *)
Definition phone_events : list ((AppState → AppState) * received) :=
  [(λ s, s, RecvMsg "h:ping"); (λ s, s, RecvConnClosed)].

Lemma phone_well_behaved : well_behaved (E := Sim) phone_upgrade app0 phone_events.
Proof.
  apply app_well_behaved; [intros nc; apply kr_ret|].
  intros f ev Hin s m Hs. exists m.
  apply elem_of_cons in Hin as [[= -> _]|Hin]; [done|].
  apply elem_of_cons in Hin as [[= -> _]|Hin]; [done|by apply elem_of_nil in Hin].
Qed.

Example handleConn_unregisters_witness :
  ∃ s' m', handleConn (E := Sim) phone_upgrade app0 5 phone_events accepted = Done tt s' ∧
    reg_is (E := Sim) (body s') m' ∧ m' !! ("7:42", "mobile") = None.
Proof.
  destruct (handleConn (E := Sim) phone_upgrade app0 5 phone_events accepted) as [[] s'|?|?|?] eqn:Hh;
    try (apply (f_equal result) in Hh; vm_compute in Hh; discriminate Hh).
  destruct (handleConn_unregisters (E := Sim) phone_upgrade app0 5 phone_events accepted s' ∅ phone
    None app_state0 phone_well_behaved app_state0_is eq_refl Hh) as (m' & H1 & H2).
  exists s', m'. split; [reflexivity|]. by split.
Defined.

(** A push for user 7, who is connected. *)
Definition reader7 : Session := newSession (MkUser 1 7 DevicePC false).
Definition push_request : Xmq.XMessage := Xmq.MkXMessage ∅ "push" 0 0 "" "m1:hi".

Example consumePushMessage_routes_witness :
  ∃ s m ls s', reg_is (E := Sim) s m ∧ is_Some (m !! ("1:7", "pc")) ∧
    consumePushMessage app0 push_request s
    = OnReceiveFromBackend app0 ls (MkPushMessage "m1" 1 7 "hi") s'.
Proof.
  destruct (reg_NewConn_spec (E := Sim) 5 reader7 None app_state0 ∅ app_state0_is) as (l & s & _ & Hs & _).
  pose proof (consumePushMessage_routes (E := Sim) app0 push_request s _ Hs) as Hr.
  destruct Hr as [[Hn _]|[_ (ls & s' & _ & _ & E)]].
  - specialize (Hn "pc"). cbn in Hn. discriminate (eq_trans (eq_sym (lookup_insert_eq _ _ _)) Hn).
  - exists s, (<[(ConnKey (sess_user reader7), UDevice (sess_user reader7)) := l]> ∅), ls, s'.
    split; [exact Hs|]. split; [by rewrite lookup_insert_eq|exact E].
Defined.
