(* ===== verification/Delivery.v ===== *)
(** A push from the queue to the devices and back: [consumePushMessage] with the
    dispatcher of the application over the registry and the connections, and the
    acknowledgement of the device that ends the retransmission. *)

From S2P Require Import Prelude Env Sim Session Compression Conn ConnManager Iface Retransmit.
From S2P Require Import Limiter Codec Xmq Gateway Message Lifecycle Server App.

(** What is queued on a connection for its [sendLoop]. *)
Definition outbox {E : Type} (w : World E) (l : nat) : option (chan bytes) :=
  sendChan <$> heap w !! l.

Section Outbox.
Context {E : Type} {ME : MultiErr} {OA : OptApply} `{Sched E, Net E, Redis E}.
Implicit Types (w : World E).

(** Code that changes the queue of no connection but [l]; of none at all. *)
Definition only {A : Type} (l : option nat) (m : go (World E) A) : Prop :=
  ∀ w l', l ≠ Some l' → outbox (final (m w)) l' = outbox w l'.

Lemma only_ret {A} l (a : A) : only l (ret a).
Proof. by intros w. Qed.
Lemma only_block {A} l : only l (@block (World E) A).
Proof. by intros w. Qed.
Lemma only_bind {A B} l (m : go (World E) A) (k : A → go (World E) B) :
  only l m → (∀ a, only l (k a)) → only l (bind m k).
Proof.
  intros Hm Hk w l' Hl. specialize (Hm w l' Hl). unfold bind.
  destruct (m w) as [a w'|w'|w'|w']; cbn in *; try done. by rewrite <- Hm; apply Hk.
Qed.
Lemma only_deref l l' : only l (deref l').
Proof. intros w l2 _. unfold deref, bind, gets, need. by destruct (heap w !! l'). Qed.
Lemma only_assign l l' f :
  (l ≠ Some l' → ∀ c, sendChan (f c) = sendChan c) → only l (assign l' f).
Proof.
  intros Hf w l2 Hl. cbn. unfold outbox. cbn. destruct (decide (l' = l2)) as [->|Hne].
  - rewrite lookup_alter_eq. destruct (heap w !! l2) as [c|]; cbn; [|done]. by rewrite (Hf Hl c).
  - by rewrite lookup_alter_ne.
Qed.
Lemma only_env l {A} (m : go E A) : only l (zoom m).
Proof. intros w l' _. unfold zoom. by destruct (m (part_get w)). Qed.

Create HintDb outbox.
#[local] Hint Resolve only_ret only_block only_bind only_deref only_env : outbox.
#[local] Hint Extern 1 (only _ (assign _ _)) =>
  apply only_assign; intros Hx ?; first [reflexivity|by destruct Hx] : outbox.
#[local] Hint Extern 2 (only _ (if ?b then _ else _)) => destruct b : outbox.
#[local] Hint Extern 2 (only _ (match ?b with _ => _ end)) => destruct b : outbox.

Lemma only_ctx_poll l l' : only l (ctx_poll l').
Proof. unfold ctx_poll, envcall. auto 10 with outbox. Qed.
#[local] Hint Resolve only_ctx_poll : outbox.

Lemma only_Send l p : only (Some l) (Send l p).
Proof. unfold Send, send_case, envcall. auto 20 with outbox. Qed.
Lemma only_Update l : only None (UpdateActivityTime l).
Proof. unfold UpdateActivityTime, envcall. auto 20 with outbox. Qed.

(** A successful [Send] queues the payload on its connection, and nothing on any
    other. *)
Lemma Send_outbox (l : nat) p w w' l' :
  Send l p w = Done None w' →
  outbox w' l' = if decide (l' = l) then ch_push p <$> outbox w l' else outbox w l'.
Proof.
  intros Hs. case_decide as Hl.
  - subst l'. destruct (Send_success l p w w' Hs) as (c & c' & Hc & Hc' & _ & _ & Hb).
    unfold outbox. rewrite Hc, Hc'. cbn. by rewrite Hb.
  - pose proof (only_Send l p w l' ltac:(congruence)) as Ho. by rewrite Hs in Ho.
Qed.

Lemma Update_outbox l w w' u l' : UpdateActivityTime l w = Done u w' → outbox w' l' = outbox w l'.
Proof. intros Hu. pose proof (only_Update l w l' ltac:(done)) as Ho. by rewrite Hu in Ho. Qed.

End Outbox.

Section Delivery.
Context {M : Type → Type} {E : Type}.
Context {ME : MultiErr} {OA : OptApply} {OAS : OptApplySpec}.
Context `{SyncMapSpec M, SchedSpec E, Net E, RedisSpec E, Kafka E}.
Context {PB : Protobuf Message AckPayload PushMessage}.
Context {PBS : ProtobufSpec Message AckPayload PushMessage}.
Abbreviation App := (RTS M (CMS M E)).
Implicit Types (s : App) (m : gmap (string * string) nat).

(** The queues of a state's connections. *)
Definition queued (w : CMS M E) (l : nat) : option (chan bytes) := outbox (world w) l.

Lemma zoom_world_inv {A} (f : go (World E) A) (w w' : CMS M E) a :
  zoom (T := World E) f w = Done a w' → f (world w) = Done a (world w').
Proof. unfold zoom. cbn. destruct (f (world w)); [|done..]. by intros [= -> <-]. Qed.

Lemma push_queued codec l msg (w w' : CMS M E) :
  DefaultPushFunc codec l msg w = Done None w' →
  ∃ payload, Marshal codec (AMessage msg) = inr payload ∧
    ∀ l', queued w' l' = if decide (l' = l) then ch_push payload <$> queued w l' else queued w l'.
Proof.
  unfold DefaultPushFunc. destruct (Marshal codec (AMessage msg)) as [err|payload]; [done|].
  intros (e & w1 & Hs & Hr)%bind_done_inv. destruct e; [done|]. injection Hr as <-.
  exists payload. split; [done|]. intros l'. apply Send_outbox. by apply zoom_world_inv.
Qed.

(** Pushing to a list of connections, all successful: each gets the payload, once. *)
Lemma sent_queued codec msg ls (w w' : CMS M E) :
  sent (DefaultPushFunc codec) msg ls w w' → NoDup ls →
  (∀ l, l ∉ ls → queued w' l = queued w l) ∧
  ∀ l, l ∈ ls → ∃ payload, Marshal codec (AMessage msg) = inr payload ∧
    queued w' l = ch_push payload <$> queued w l.
Proof.
  induction 1 as [w|c ls w w1 w2 w3 Hp Hu _ IH]; intros Hnd.
  { split; [done|]. by intros l ?%elem_of_nil. }
  apply NoDup_cons_1_1 in Hnd as Hc. apply NoDup_cons_1_2 in Hnd. destruct (IH Hnd) as [Hout Hin].
  destruct (push_queued codec c msg w w1 Hp) as (payload & Hm & Hq).
  assert (∀ l, queued w2 l = queued w1 l) as Hu'
    by (intros l; eapply Update_outbox, zoom_world_inv; exact Hu).
  split.
  - intros l [Hlc Hl]%not_elem_of_cons. rewrite Hout, Hu', Hq by done. by rewrite decide_False.
  - intros l [->|Hl]%elem_of_cons.
    + exists payload. split; [done|]. rewrite Hout, Hu', Hq by done. by rewrite decide_True.
    + destruct (Hin l Hl) as (p & Hp' & Hq'). exists p. split; [done|].
      rewrite Hq', Hu', Hq. rewrite decide_False; [done|congruence].
Qed.

(** The pushes keep the registry and the identity of every connection. *)
Lemma sent_keeps codec msg ls (w w' : CMS M E) :
  sent (DefaultPushFunc codec) msg ls w w' →
  (∀ m, cm_rep w m → cm_rep w' m) ∧ ∀ l i u, conn_at w l i u → conn_at w' l i u.
Proof.
  induction 1 as [w|c ls w w1 w2 w3 Hp Hu _ [IHr IHc]]; [done|].
  unfold DefaultPushFunc in Hp. destruct (Marshal codec (AMessage msg)) as [err|payload]; [done|].
  apply bind_done_inv in Hp as (e & w4 & Hs & Hr). destruct e; [done|]. injection Hr as <-.
  split.
  - intros m Hm. apply IHr. destruct (sc_methods (E := E) c payload) as (_ & _ & HS & HU & _).
    pose proof (cm_rep_zoom _ w m HS Hm) as Hm1. cbn in Hs. rewrite Hs in Hm1.
    pose proof (cm_rep_zoom _ w4 m HU Hm1) as Hm2. cbn in Hu. by rewrite Hu in Hm2.
  - intros l i u Hl. apply IHc.
    pose proof (conn_Send_at w c payload l i u Hl) as Hl1. rewrite Hs in Hl1.
    pose proof (conn_UpdateActivityTime_at w4 c l i u Hl1) as Hl2. by rewrite Hu in Hl2.
Qed.

(** The dispatcher of the application. *)
Context (timeout expiration : Z) (codec : Codec) (topic : string) (fwd : Z).
Definition dispatcher : LcHandler App := app_handler timeout expiration codec topic fwd.

Definition receiver (pm : PushMessage) : User := MkUser (pm_BizId pm) (pm_ReceiverId pm) "" false.
Definition downstream (pm : PushMessage) : Message :=
  MkMessage COMMAND_TYPE_DOWNSTREAM (pm_MessageId pm) (pm_Body pm).

(** [consumePushMessage] succeeded: the pushes to the receiver's connections did. *)
Lemma consume_inv msg pm s s' m :
  cm_rep (rest s) m → json_Unmarshal_push (Xmq.Val msg) = inr pm →
  consumePushMessage (lc_handler (E := E) dispatcher) msg s = Done None s' →
  ∃ ls w1 w2, NoDup ls ∧ (∀ l, l ∈ ls ↔ ∃ d, m !! (ConnKey (receiver pm), d) = Some l) ∧
    cm_rep w1 m ∧ heap (world w1) = heap (world (rest s)) ∧
    sent (DefaultPushFunc codec) (downstream pm) ls w1 w2 ∧
    Retransmit.Start ls (downstream pm) (part_set w2 s) = Done tt s' ∧ pm_MessageId pm ≠ "".
Proof.
  intros Hr Hj Hc. unfold consumePushMessage in Hc. rewrite Hj in Hc.
  destruct (Find_rep (rest s) m (receiver pm) Hr) as (_ & ls & w1 & Ef & Hnd & Hin & Hr1 & Hh).
  unfold findConn in Hc. cbn [reg_FindUserConn rts_registry cms_registry] in Hc.
  erewrite bind_done in Hc.
  2: { erewrite bind_done by (apply zoom_rest_done; exact Ef). reflexivity. }
  cbn [fst snd] in Hc. destruct (bool_decide _) in Hc; [|done].
  apply bind_done_inv in Hc as (err & s1 & Hb & Hret). injection Hret as -> ->.
  cbn [lc_handler OnReceiveFromBackend] in Hb. unfold lc_OnReceiveFromBackend in Hb.
  destruct (String.eqb_spec (pm_MessageId pm) "") as [|Hid]; [done|].
  do 2 (destruct (_ : bool) in Hb; [done|]).
  change (Backend_Handle (DefaultPushFunc codec) ls pm (part_set w1 s) = Done None s') in Hb.
  apply defer_done_inv in Hb as (s1 & [Hsent E1]%push_each_inv & Hst).
  exists ls, w1, (rest s1). split_and!; try done. by rewrite E1 in Hst.
Qed.

Abbreviation tasks_of s := (sm_view (tasks (mgr s))).
(** The receiver's connections. *)
Definition mine (pm : PushMessage) m (l : nat) : Prop :=
  ∃ d, m !! (ConnKey (receiver pm), d) = Some l.

(** What a successful push has done. *)
Record delivered (pm : PushMessage) m s s' : Prop := Delivered {
  (** Each connection of the receiver has the encoded message behind what was queued. *)
  dl_queued l : mine pm m l → ∃ payload, Marshal codec (AMessage (downstream pm)) = inr payload ∧
    queued (rest s') l = ch_push payload <$> queued (rest s) l;
  (** No other queue changed. *)
  dl_others l : ~ mine pm m l → queued (rest s') l = queued (rest s) l;
  (** Each of them has a retransmission under its id, *)
  dl_task l : mine pm m l → ∃ i u, conn_at (rest s) l i u ∧ conn_at (rest s') l i u ∧
    is_Some (tasks_of s' !! taskKey i (pm_MessageId pm));
  (** next to the tasks there were, *)
  dl_tasks : tasks_of s ⊆ tasks_of s';
  (** and there are no others. *)
  dl_only k : is_Some (tasks_of s' !! k) → is_Some (tasks_of s !! k) ∨
    ∃ l i u, mine pm m l ∧ conn_at (rest s) l i u ∧ k = taskKey i (pm_MessageId pm);
  (** The registry and the manager are as well-formed as before. *)
  dl_registry : cm_rep (rest s') m;
  dl_manager : Reachable s';
  dl_id : pm_MessageId pm ≠ "";
}.

Lemma mine_at pm m s l : cm_rep (rest s) m → mine pm m l → ∃ i u, conn_at (rest s) l i u.
Proof. intros Hr [d Hd]. destruct (rep_heap _ m Hr _ _ Hd) as [c Hc]. by exists (id c), (sess_user (sess c)), c. Qed.

Lemma conn_at_same_heap (w w' : CMS M E) l i u :
  heap (world w') = heap (world w) → conn_at w l i u → conn_at w' l i u.
Proof. intros Hh (c & Hc & Hi & Hu). exists c. by rewrite Hh. Qed.

Lemma conn_at_unique (w : CMS M E) l i i' u u' :
  conn_at w l i u → conn_at w l i' u' → i = i' ∧ u = u'.
Proof. intros (c & Hc & <- & <-) (c' & Hc' & <- & <-). by simplify_eq. Qed.

Lemma push_rep (msg : Xmq.XMessage) (pm : PushMessage) s s' m :
  Reachable s → closed (mgr s) = false → cm_rep (rest s) m →
  json_Unmarshal_push (Xmq.Val msg) = inr pm →
  consumePushMessage (lc_handler (E := E) dispatcher) msg s = Done None s' →
  delivered pm m s s'.
Proof.
  intros Hreach Hc Hr Hj Hcons.
  destruct (consume_inv msg pm s s' m Hr Hj Hcons) as (ls & w1 & w2 & Hnd & Hin & Hr1 & Hh & Hsent & Hst & Hid).
  destruct (sent_queued codec (downstream pm) ls w1 w2 Hsent Hnd) as [Hout Hq].
  destruct (sent_keeps codec (downstream pm) ls w1 w2 Hsent) as [Hkr Hkc].
  assert (∀ l, queued w1 l = queued (rest s) l) as Hq1 by (intros l; unfold queued, outbox; by rewrite Hh).
  assert (∀ l, mine pm m l → ∃ i u, conn_at (rest s) l i u ∧ conn_at w2 l i u) as Hat.
  { intros l Hl. destruct (mine_at pm m s l Hr Hl) as (i & u & Ha). exists i, u. split; [done|].
    apply Hkc. by apply (conn_at_same_heap (rest s)). }
  destruct (Start_registers ls (downstream pm) (part_set w2 s)) as (s2 & E2 & _ & Hrest & _ & Hsub & Hk & Hrev).
  { apply rt_inv_rest. by apply Reachable_inv. }
  { done. }
  { intros l Hl%Hin. destruct (Hat l Hl) as (i & u & _ & Ha). exists i. by eapply conn_ID_at. }
  rewrite Hst in E2. injection E2 as <-. change (rest s' = w2) in Hrest.
  split; rewrite ?Hrest; [| | |exact Hsub| |by apply Hkr| |done].
  - intros l Hl. destruct (Hq l (proj2 (Hin l) Hl)) as (payload & Hm & Hqq).
    exists payload. by rewrite Hqq, Hq1.
  - intros l Hl. rewrite Hout, Hq1; [done|]. by rewrite Hin.
  - intros l Hl. destruct (Hat l Hl) as (i & u & H1' & H2'). exists i, u. split_and!; [done..|].
    apply (Hk l i); [by apply Hin|by eapply conn_ID_at].
  - intros k [?|(l & i & Hl & Hi & ->)]%Hrev; [by left|]. apply Hin in Hl. right.
    destruct (Hat l Hl) as (i' & u & H1' & H2'). exists l, i', u. split_and!; [done..|]. f_equal.
    pose proof (conn_ID_at _ _ _ _ H2') as Hi'. unfold part_set in Hi. cbn [rest rts_rest] in Hi. congruence.
  - apply (Reachable_exec (EStart ls (downstream pm)) (part_set w2 s)); [|exact Hst].
    by apply (Reachable_exec (EWorld w2) s).
Qed.

(** C1. A request of the queue reaches the receiver's devices: when
    [consumePushMessage] reports success, the downstream message was encoded, every
    connection of the receiver has exactly that payload behind what was queued for it
    before, no other connection's queue and no registration changed, and exactly those
    connections have a retransmission of the message besides the tasks there were. *)
Theorem push_delivers (msg : Xmq.XMessage) (pm : PushMessage) s s' m :
  Reachable s → closed (mgr s) = false → cm_rep (rest s) m →
  json_Unmarshal_push (Xmq.Val msg) = inr pm →
  consumePushMessage (lc_handler (E := E) dispatcher) msg s = Done None s' →
  delivered pm m s s'.
Proof. apply push_rep. Qed.

Lemma dispatcher_acks : acks_registered dispatcher.
Proof. reflexivity. Qed.

Lemma decode_marshalled type msg payload :
  newCodec type = inr codec → Marshal codec (AMessage msg) = inr payload → MessageId msg ≠ "" →
  decodePayload dispatcher payload = inr msg.
Proof.
  intros [_ Hc]%newCodec_inv Hm Hid. unfold decodePayload. change (lc_codec dispatcher) with codec.
  assert (∀ v : Message, Unmarshal codec payload (AMessage v) = inr (AMessage msg)) as ->.
  { intros v. destruct Hc as [Hc|Hc]; rewrite Hc in *; cbn in *.
    - by rewrite (protojson_roundtrip msg payload Hm).
    - by rewrite (proto_roundtrip msg payload Hm). }
  rewrite (proj2 (String.eqb_neq _ _) Hid). by rewrite andb_false_r.
Qed.

(** C2. The whole round of a push: the receiver has one connection, the push succeeds,
    and the device acknowledges it in the configured encoding.  Then the
    retransmission is over: the manager's tasks are those from before the push
    (or the acknowledgement could not be recorded and nothing of the manager
    changed). *)
Theorem push_acknowledged (type : string) (msg : Xmq.XMessage) (pm : PushMessage) s s' m
    (l : nat) (i : string) (u : User) (body ack : bytes) :
  Reachable s → closed (mgr s) = false → cm_rep (rest s) m →
  newCodec type = inr codec → json_Unmarshal_push (Xmq.Val msg) = inr pm →
  consumePushMessage (lc_handler (E := E) dispatcher) msg s = Done None s' →
  (∀ l', mine pm m l' ↔ l' = l) → conn_at (rest s) l i u →
  Marshal codec (AMessage (MkMessage COMMAND_TYPE_DOWNSTREAM_ACK (pm_MessageId pm) body)) = inr ack →
  redis_view (part_get (T := E) s') !! cacheKey (BID u) (pm_MessageId pm) = None →
  ∃ res s2, lc_OnReceiveFromFrontend (E := E) dispatcher l ack s' = Done res s2 ∧
    match res with
    | None => tasks_of s2 = delete (taskKey i (pm_MessageId pm)) (tasks_of s)
    | Some err => error_is err ErrCacheMessage = true ∧ mgr s2 = mgr s'
    end.
Proof.
  intros Hreach Hc Hr Ht Hj Hcons Hmine Hat Hack Hk.
  destruct (push_rep msg pm s s' m Hreach Hc Hr Hj Hcons) as [_ _ Htask Hsub Honly Hr' Hreach' Hid].
  destruct (Htask l (proj2 (Hmine l) eq_refl)) as (i' & u' & Hat0 & Hat' & _).
  destruct (conn_at_unique _ _ _ _ _ _ Hat0 Hat) as [-> ->].
  assert (∀ e : E, conn_at (part_set e (rest s')) l i u) as Hat1
    by (intros e; destruct Hat' as (c & Hcl & Hi & Hu); by exists c).
  destruct (first_ack_rep (E := E) dispatcher l i u ack _ s' Hreach' dispatcher_acks Hat1 Hat'
    (decode_marshalled type _ ack Ht Hack Hid) eq_refl Hk) as (res & s2 & E2 & Hres).
  exists res, s2. split; [done|]. destruct res as [err|]; [done|]. destruct Hres as (-> & _).
  apply map_eq. intros k. cbn [MessageId]. destruct (decide (k = taskKey i (pm_MessageId pm))) as [->|Hne].
  { by rewrite !lookup_delete_eq. }
  rewrite !lookup_delete_ne by done. destruct (tasks_of s !! k) as [a|] eqn:Hka.
  - by apply (lookup_weaken (tasks_of s)).
  - destruct (tasks_of s' !! k) as [a|] eqn:Hk'; [|done]. exfalso.
    destruct (Honly k) as [[? ?]|(l' & i' & u' & ->%Hmine & Hat2 & ->)]; [by eexists|congruence|].
    by destruct (conn_at_unique _ _ _ _ _ _ Hat2 Hat) as [-> _].
Qed.

(** C39. The second of two devices is not heard.  The receiver has two connections; a push
    succeeds, so both get the message and both have a retransmission; then both devices
    acknowledge, one after the other.  Unless Redis fails, the first acknowledgement ends
    its own retransmission and marks the message as seen, under a key that names business
    and message but not the device; the second is therefore dropped as a duplicate, no
    task changes, and the second device's task is still registered and waits for its
    timer: the message will be sent again to a device that has acknowledged it. *)
Theorem second_device_not_heard (type : string) (msg : Xmq.XMessage) (pm : PushMessage) s s' m
    (l1 l2 : nat) (i1 i2 : string) (u1 u2 : User) (body1 body2 ack1 ack2 : bytes) :
  Reachable s → closed (mgr s) = false → cm_rep (rest s) m →
  newCodec type = inr codec → json_Unmarshal_push (Xmq.Val msg) = inr pm →
  consumePushMessage (lc_handler (E := E) dispatcher) msg s = Done None s' →
  mine pm m l1 → mine pm m l2 →
  conn_at (rest s) l1 i1 u1 → conn_at (rest s) l2 i2 u2 → i1 ≠ i2 →
  BID u1 = pm_BizId pm → BID u2 = pm_BizId pm →
  let ack body := AMessage (MkMessage COMMAND_TYPE_DOWNSTREAM_ACK (pm_MessageId pm) body) in
  Marshal codec (ack body1) = inr ack1 → Marshal codec (ack body2) = inr ack2 →
  redis_view (part_get (T := E) s') !! cacheKey (pm_BizId pm) (pm_MessageId pm) = None →
  ∃ res s1, lc_OnReceiveFromFrontend (E := E) dispatcher l1 ack1 s' = Done res s1 ∧
    match res with
    | Some err => error_is err ErrCacheMessage = true
    | None => tasks_of s1 = delete (taskKey i1 (pm_MessageId pm)) (tasks_of s') ∧
        ∃ err s2, lc_OnReceiveFromFrontend (E := E) dispatcher l2 ack2 s1 = Done (Some err) s2 ∧
          (err = ESentinel ErrMessageDuplicated ∨ error_is err ErrCacheMessage = true) ∧
          tasks_of s2 = tasks_of s1 ∧
          ∃ a t tm d, Retransmit.waiting (taskKey i2 (pm_MessageId pm)) a t tm d s2
    end.
Proof.
  intros Hreach Hc Hr Ht Hj Hcons Hm1 Hm2 Ha1 Ha2 Hne Hb1 Hb2 ack Hack1 Hack2 Hk.
  destruct (push_rep msg pm s s' m Hreach Hc Hr Hj Hcons) as [_ _ Htask _ _ _ Hreach' Hid].
  destruct (Htask l1 Hm1) as (i & u & Ha & Ha1' & _). destruct (conn_at_unique _ _ _ _ _ _ Ha Ha1) as [-> ->].
  destruct (Htask l2 Hm2) as (i & u & Ha' & Ha2' & [a Hka]).
  destruct (conn_at_unique _ _ _ _ _ _ Ha' Ha2) as [-> ->]. clear Ha Ha'.
  assert (∀ (e : E) l i u, conn_at (rest s') l i u → conn_at (part_set e (rest s')) l i u) as Hset
    by (intros e l i u (c & Hcl & Hi & Hu); by exists c).
  destruct (first_ack_rep (E := E) dispatcher l1 i1 u1 ack1 _ s' Hreach' dispatcher_acks
    (λ e, Hset e _ _ _ Ha1') Ha1' (decode_marshalled type _ ack1 Ht Hack1 Hid) eq_refl)
    as (res & s1 & E1 & Hres); [by rewrite Hb1|].
  exists res, s1. split; [done|]. destruct res as [err|]; [by destruct Hres|].
  destruct Hres as (Htasks & Hseen & Hi1 & e & Hrest). split; [done|].
  destruct (seen_ack_rep (E := E) dispatcher l2 i2 u2 ack2
    (MkMessage COMMAND_TYPE_DOWNSTREAM_ACK (pm_MessageId pm) body2) s1) as (err & e2 & E2 & Herr);
    [rewrite Hrest; by apply Hset|by apply (decode_marshalled type _ ack2 Ht Hack2 Hid)|done|
     by rewrite Hb2; rewrite Hb1 in Hseen|].
  exists err, (part_set (T := E) e2 s1). split; [done|]. split; [done|]. split; [done|].
  assert (tasks_of s1 !! taskKey i2 (pm_MessageId pm) = Some a) as Hka1.
  { rewrite Htasks, lookup_delete_ne; [done|]. cbn [MessageId]. intros Hkk%taskKey_inj_l. done. }
  destruct (waiting_of s1 _ a Hi1 Hka1) as (t & tm & d & Hw). by exists a, t, tm, d.
Qed.

(** There is room in a connection's queue. *)
Definition room (w : CMS M E) (l : nat) : Prop := ∃ c, queued w l = Some c ∧ ch_room c = true.

Lemma push_returns l msg (w : CMS M E) :
  room w l → ∃ r w', DefaultPushFunc codec l msg w = Done r w' ∧
    (∀ l', l' ≠ l → room w l' → room w' l') ∧ ∀ l' i u, conn_at w l' i u → conn_at w' l' i u.
Proof.
  intros (ch & Hq & Hroom). unfold DefaultPushFunc.
  destruct (Marshal codec (AMessage msg)) as [err|payload]; [by eexists _, w|].
  unfold queued, outbox in Hq. apply fmap_Some in Hq as (c & Hl & ->).
  destruct (Send_returns l payload (world w) c Hl Hroom) as (r & w' & E1).
  assert (conn_Send l payload w = Done r (part_set (T := World E) w' w)) as E2.
  { unfold conn_Send, cms_conn, zoom. cbn [part_get cms_world world_conn conn_Send]. by rewrite E1. }
  exists (errorf_pre "failed to send message: " <$> r), (part_set (T := World E) w' w).
  erewrite bind_done by exact E2. split_and!; [by destruct r| |].
  - intros l' Hne (ch' & Hq' & Hr'). exists ch'. split; [|done].
    pose proof (only_Send l payload (world w) l' ltac:(congruence)) as Ho. rewrite E1 in Ho.
    unfold queued in *. cbn in *. congruence.
  - intros l' i u Hat. pose proof (conn_Send_at w l payload l' i u Hat) as Ha. by rewrite E2 in Ha.
Qed.

Lemma Update_returns l (w : CMS M E) i u :
  conn_at w l i u → ∃ w', conn_UpdateActivityTime l w = Done tt w' ∧
    (∀ l', queued w' l' = queued w l') ∧ ∀ l' i u, conn_at w l' i u → conn_at w' l' i u.
Proof.
  intros Hat. destruct (conn_UpdateActivityTime_done _ _ _ _ Hat) as (w' & E1). exists w'.
  split_and!; [done| |].
  - intros l'. eapply Update_outbox, zoom_world_inv. exact E1.
  - intros l' i' u' Ha. pose proof (conn_UpdateActivityTime_at w l l' i' u' Ha) as Hx. by rewrite E1 in Hx.
Qed.

Lemma push_each_returns msg ls s :
  NoDup ls → (∀ l, l ∈ ls → room (rest s) l) →
  ∃ res w', push_each (DefaultPushFunc codec) ls msg s = Done res (part_set w' s) ∧
    ∀ l i u, conn_at (rest s) l i u → conn_at w' l i u.
Proof.
  revert s. induction ls as [|c ls IH]; intros s Hnd Hroom; cbn [push_each].
  { exists None, (rest s). split; [by destruct s|done]. }
  apply NoDup_cons_1_1 in Hnd as Hc. apply NoDup_cons_1_2 in Hnd.
  destruct (push_returns c msg (rest s)) as (r & w1 & E1 & Hr1 & Ha1); [apply Hroom; by left|].
  erewrite bind_done by (apply zoom_rest_done; exact E1). destruct r as [e|]; [by exists (Some e), w1|].
  destruct (Hroom c) as (ch & Hq & _); [by left|]. unfold queued, outbox in Hq.
  apply fmap_Some in Hq as (cc & Hcc & _).
  destruct (Update_returns c w1 (id cc) (sess_user (sess cc))) as (w2 & E2 & Hq2 & Ha2).
  { apply Ha1. by exists cc. }
  erewrite bind_done by (apply zoom_rest_done; exact E2).
  destruct (IH (part_set w2 (part_set w1 s)) Hnd) as (res & w3 & E3 & Ha3).
  - intros l Hl. destruct (Hr1 l) as (ch' & Hq' & Hroom'); [by intros ->|apply Hroom; by right|].
    exists ch'. split; [|done]. change (queued w2 l = Some ch'). by rewrite Hq2.
  - exists res, w3. split; [exact E3|]. intros l i u Hl. by apply Ha3, Ha2, Ha1.
Qed.

(** The downstream handler on a list of connections that are there. *)
Lemma backend_returns pm ls s :
  Reachable s → closed (mgr s) = false → NoDup ls → (∀ l, l ∈ ls → room (rest s) l) →
  ∃ res s', Backend_Handle (DefaultPushFunc codec) ls pm s = Done res s' ∧
    ∀ l, l ∈ ls → ∃ i u, conn_at (rest s) l i u ∧ is_Some (tasks_of s' !! taskKey i (pm_MessageId pm)).
Proof.
  intros Hreach Hc Hnd Hroom.
  destruct (push_each_returns (downstream pm) ls s Hnd Hroom) as (res & w2 & E2 & Hat).
  assert (∀ l, l ∈ ls → ∃ i u, conn_at (rest s) l i u) as Hid.
  { intros l (ch & Hq & _)%Hroom. unfold queued, outbox in Hq. apply fmap_Some in Hq as (c & Hcl & _).
    by exists (id c), (sess_user (sess c)), c. }
  destruct (Start_registers ls (downstream pm) (part_set w2 s)) as (s' & E3 & _ & _ & _ & _ & Hk & _).
  - apply rt_inv_rest. by apply Reachable_inv.
  - done.
  - intros l (i & u & Hl)%Hid. exists i. by eapply conn_ID_at, Hat.
  - exists res, s'. split; [by eapply defer_done|]. intros l Hl. destruct (Hid l Hl) as (i & u & Ha).
    exists i, u. split; [done|]. apply (Hk l i Hl). by eapply conn_ID_at, Hat.
Qed.

(** C3. A push never hangs or dies while the receiver's queues have room: it returns, and
    if the request is complete, then also when a push fails every connection of
    the receiver has a retransmission of the message. *)
Theorem push_returns_retransmits (msg : Xmq.XMessage) (pm : PushMessage) s m :
  Reachable s → closed (mgr s) = false → cm_rep (rest s) m →
  json_Unmarshal_push (Xmq.Val msg) = inr pm →
  (∀ l, mine pm m l → room (rest s) l) →
  ∃ res s', consumePushMessage (lc_handler (E := E) dispatcher) msg s = Done res s' ∧
    (pm_MessageId pm ≠ "" ∧ pm_BizId pm ≠ 0%N ∧ pm_ReceiverId pm ≠ 0%N →
     ∀ l, mine pm m l → ∃ i u, conn_at (rest s) l i u ∧
       is_Some (tasks_of s' !! taskKey i (pm_MessageId pm))).
Proof.
  intros Hreach Hc Hr Hj Hroom.
  destruct (Find_rep (rest s) m (receiver pm) Hr) as (_ & ls & w1 & Ef & Hnd & Hin & Hr1 & Hh).
  unfold consumePushMessage, findConn. rewrite Hj. cbn [reg_FindUserConn rts_registry cms_registry].
  erewrite bind_done.
  2: { erewrite bind_done by (apply zoom_rest_done; exact Ef). reflexivity. }
  cbn [fst snd]. case_bool_decide as Hu.
  2: { eexists _, _. split; [reflexivity|]. intros _ l [d Hd]. destruct Hu. apply elem_of_users. by exists d, l. }
  destruct (backend_returns pm ls (part_set w1 s)) as (res & s' & E2 & Hk); [|done|done| |].
  { by apply (Reachable_exec (EWorld w1) s). }
  { intros l Hl%Hin%Hroom. destruct Hl as (ch & Hq & Hch). exists ch. split; [|done].
    unfold queued, outbox in *. cbn [rest part_set rts_rest]. by rewrite Hh. }
  cbn [lc_handler OnReceiveFromBackend]. unfold lc_OnReceiveFromBackend.
  destruct (String.eqb_spec (pm_MessageId pm) ""); [by eexists _, _; split; [reflexivity|intros []]|].
  destruct (N.eqb_spec (pm_BizId pm) 0); [by eexists _, _; split; [reflexivity|intros (? & ? & ?)]|].
  destruct (N.eqb_spec (pm_ReceiverId pm) 0); [by eexists _, _; split; [reflexivity|intros (? & ? & ?)]|].
  exists res, s'. split; [by erewrite bind_done by exact E2|]. intros _ l Hl%Hin.
  destruct (Hk l Hl) as (i & u & Hat & Ht). exists i, u. split; [|done].
  by apply (conn_at_same_heap w1).
Qed.

End Delivery.

(** ** Witnesses: user 7's laptop is connected *)

#[local] Existing Instance sim_multierr.
#[local] Existing Instance sim_multierr_spec.
#[local] Instance sim_opt : OptApply := sim_option_apply.
#[local] Instance sim_opt_spec : @OptApplySpec sim_opt := sim_option_apply_spec.

Definition cms7 : CMS sim_map Sim := final (CM_NewConn 5 reader7 None cms0).
Definition reg7 : gmap (string * string) nat := <[("1:7", "pc") := 0]> ∅.
Definition app7 : AppState := part_set cms7 app_state0.
Definition sim_dispatcher : LcHandler AppState := dispatcher 10 10 NewProtoCodec "up" 100.
Definition request7 : PushMessage := MkPushMessage "m1" 1 7 "hi".
Definition consume7 : outcome AppState (option error) :=
  consumePushMessage (lc_handler (E := Sim) sim_dispatcher) push_request app7.

Lemma cms7_rep : cm_rep cms7 reg7.
Proof.
  destruct (CM_NewConn_rep cms0 ∅ 5 reader7 None cms0_rep) as (l & s1 & E1 & Hr & _).
  assert (l = 0) as -> by (apply (f_equal result) in E1; vm_compute in E1; by injection E1).
  unfold cms7. rewrite E1. exact Hr.
Qed.

Lemma app7_reachable : Reachable app7.
Proof.
  apply (Reachable_exec (EWorld cms7) app_state0); [|done].
  exists 0%Z, 0%Z, (Some (λ _ _, ret None)), 0, cms0. split; [by split|apply rtc_refl].
Qed.

Lemma mine7 l : mine request7 reg7 l ↔ l = 0.
Proof.
  unfold mine, reg7. split.
  - intros [d [[_ <-]|[_ Hd]]%lookup_insert_Some]; [done|by rewrite lookup_empty in Hd].
  - intros ->. exists "pc". by rewrite lookup_insert_eq.
Qed.

Lemma at7 : conn_at (rest app7) 0 "1:7:pc" (sess_user reader7).
Proof. eexists. split; [vm_compute; reflexivity|]. by split. Qed.

Lemma room7 : room (rest app7) 0.
Proof. eexists. split; [vm_compute; reflexivity|reflexivity]. Qed.

Lemma request7_ok : json_Unmarshal_push (Xmq.Val push_request) = inr request7.
Proof. reflexivity. Qed.

Lemma request7_complete :
  pm_MessageId request7 ≠ "" ∧ pm_BizId request7 ≠ 0%N ∧ pm_ReceiverId request7 ≠ 0%N.
Proof. by split_and!. Qed.

Lemma consume7_done : consume7 = Done None (final consume7).
Proof. apply result_done. by vm_compute. Qed.

Example push_delivers_witness :
  ∃ s', consume7 = Done None s' ∧
    queued (rest s') 0 = ch_push "dm1:hi" <$> queued (rest app7) 0.
Proof.
  exists (final consume7). split; [exact consume7_done|].
  destruct (push_delivers 10 10 NewProtoCodec "up" 100 push_request request7 app7 (final consume7) reg7
    app7_reachable eq_refl cms7_rep request7_ok consume7_done) as [Hq _ _ _ _ _ _ _].
  destruct (Hq 0 (proj2 (mine7 0) eq_refl)) as (payload & Hm & E1).
  assert (payload = "dm1:hi") as -> by (vm_compute in Hm; by injection Hm). exact E1.
Defined.

Example push_acknowledged_witness :
  ∃ s2, lc_OnReceiveFromFrontend (E := Sim) sim_dispatcher 0 "Dm1:" (final consume7) = Done None s2 ∧
    sm_view (tasks (mgr s2)) = delete "1:7:pc:m1" ∅.
Proof.
  destruct (push_acknowledged 10 10 NewProtoCodec "up" 100 "proto" push_request request7 app7
    (final consume7) reg7 0 "1:7:pc" (sess_user reader7) "" "Dm1:"
    app7_reachable eq_refl cms7_rep eq_refl request7_ok consume7_done mine7 at7 eq_refl)
    as (res & s2 & E1 & Hres); [by vm_compute|].
  assert (res = None) as -> by (apply (f_equal result) in E1; vm_compute in E1; by injection E1).
  exists s2. split; [exact E1|exact Hres].
Defined.

Example push_returns_retransmits_witness :
  ∃ res s', consume7 = Done res s' ∧ is_Some (sm_view (tasks (mgr s')) !! "1:7:pc:m1").
Proof.
  destruct (push_returns_retransmits 10 10 NewProtoCodec "up" 100 push_request request7 app7 reg7
    app7_reachable eq_refl cms7_rep request7_ok) as (res & s' & E1 & Hk).
  - intros l ->%mine7. exact room7.
  - exists res, s'. split; [exact E1|].
    destruct (Hk request7_complete 0 (proj2 (mine7 0) eq_refl)) as (i & u & Hat & Ht).
    destruct (conn_at_unique _ _ _ _ _ _ Hat at7) as [-> _]. exact Ht.
Defined.

(** User 7's phone is connected, too; both devices get the message and acknowledge it. *)
Definition phone7 : Session := newSession (MkUser 1 7 DeviceMobile false).
Definition cms77 : CMS sim_map Sim := final (CM_NewConn 6 phone7 None cms7).
Definition reg77 : gmap (string * string) nat := <[("1:7", "mobile") := 1]> reg7.
Definition app77 : AppState := part_set cms77 app_state0.
Definition consume77 : outcome AppState (option error) :=
  consumePushMessage (lc_handler (E := Sim) sim_dispatcher) push_request app77.

Lemma cms77_rep : cm_rep cms77 reg77.
Proof.
  destruct (CM_NewConn_rep cms7 reg7 6 phone7 None cms7_rep) as (l & s1 & E1 & Hr & _).
  assert (l = 1) as -> by (apply (f_equal result) in E1; vm_compute in E1; by injection E1).
  unfold cms77. rewrite E1. exact Hr.
Qed.

Lemma app77_reachable : Reachable app77.
Proof.
  apply (Reachable_exec (EWorld cms77) app_state0); [|done].
  exists 0%Z, 0%Z, (Some (λ _ _, ret None)), 0, cms0. split; [by split|apply rtc_refl].
Qed.

Lemma mine77_pc : mine request7 reg77 0.
Proof. exists "pc". unfold reg77, reg7. rewrite lookup_insert_ne by done. apply lookup_insert_eq. Qed.
Lemma mine77_phone : mine request7 reg77 1.
Proof. exists "mobile". apply lookup_insert_eq. Qed.

Lemma at77_pc : conn_at (rest app77) 0 "1:7:pc" (sess_user reader7).
Proof. eexists. split; [vm_compute; reflexivity|by split]. Qed.
Lemma at77_phone : conn_at (rest app77) 1 "1:7:mobile" (sess_user phone7).
Proof. eexists. split; [vm_compute; reflexivity|by split]. Qed.

Lemma consume77_done :
  consumePushMessage (lc_handler (E := Sim) (dispatcher 10 10 NewProtoCodec "up" 100)) push_request app77
  = Done None (final consume77).
Proof. unfold consume77, sim_dispatcher. apply result_done. by vm_compute. Qed.

Lemma ack77_done :
  result (lc_OnReceiveFromFrontend (E := Sim) sim_dispatcher 0 "Dm1:" (final consume77)) = Some None.
Proof. vm_compute. reflexivity. Qed.

Example second_device_not_heard_witness :
  ∃ s1 err s2, lc_OnReceiveFromFrontend (E := Sim) sim_dispatcher 0 "Dm1:" (final consume77) = Done None s1 ∧
    lc_OnReceiveFromFrontend (E := Sim) sim_dispatcher 1 "Dm1:" s1 = Done (Some err) s2 ∧
    ∃ a t tm d, Retransmit.waiting "1:7:mobile:m1" a t tm d s2.
Proof.
  destruct (second_device_not_heard 10 10 NewProtoCodec "up" 100 "proto" push_request request7 app77
    (final consume77) reg77 0 1 "1:7:pc" "1:7:mobile" (sess_user reader7) (sess_user phone7) "" "" "Dm1:" "Dm1:"
    app77_reachable eq_refl cms77_rep eq_refl request7_ok consume77_done mine77_pc mine77_phone
    at77_pc at77_phone ltac:(discriminate) eq_refl eq_refl eq_refl eq_refl)
    as (res & s1 & E1 & Hres); [by vm_compute|].
  assert (res = None) as -> by (pose proof ack77_done as E2; unfold sim_dispatcher in E2; rewrite E1 in E2; by injection E2).
  destruct Hres as (_ & err & s2 & E2 & _ & _ & Hw).
  exists s1, err, s2. split; [exact E1|]. split; [exact E2|exact Hw].
Defined.
