(* ===== verification/Url.v ===== *)
(** The part of Go's [net/url] that the upgrader uses: whether [url.Parse] accepts
    a text, its raw query, and [Values.Get] on it.  The authority of a URL, which
    the request target of a WebSocket handshake does not have, is checked by a
    parameter. *)

From S2P Require Import Prelude.
From Stdlib Require Import Ascii.
From stdpp Require Import sorting.

Module Url.

(** [strings.Cut] at a character. *)
Fixpoint cut (sep : ascii) (s : string) : string * string :=
  match s with
  | EmptyString => ("", "")
  | String a s' =>
      if Ascii.eqb a sep then ("", s')
      else let '(x, y) := cut sep s' in (String a x, y)
  end.

Fixpoint contains (c : ascii) (s : string) : bool :=
  match s with
  | EmptyString => false
  | String a s' => Ascii.eqb a c || contains c s'
  end.

Definition in_range (a : ascii) (lo hi : ascii) : bool :=
  (nat_of_ascii lo <=? nat_of_ascii a)%nat && (nat_of_ascii a <=? nat_of_ascii hi)%nat.

Definition is_ctl (a : ascii) : bool :=
  (nat_of_ascii a <? 32)%nat || (nat_of_ascii a =? 127)%nat.

Definition hex_value (a : ascii) : option nat :=
  if in_range a "0" "9" then Some (nat_of_ascii a - nat_of_ascii "0")
  else if in_range a "a" "f" then Some (nat_of_ascii a - nat_of_ascii "a" + 10)
  else if in_range a "A" "F" then Some (nat_of_ascii a - nat_of_ascii "A" + 10)
  else None.

(** [unescape], for a query component ([plus]: a plus sign is a space) or a path or
    fragment; [None] is an invalid escape. *)
Fixpoint unescape (plus : bool) (s : string) : option string :=
  match s with
  | EmptyString => Some ""
  | String "%" s' =>
      match s' with
      | String a (String b s'') =>
          match hex_value a, hex_value b, unescape plus s'' with
          | Some x, Some y, Some r => Some (String (ascii_of_nat (16 * x + y)) r)
          | _, _, _ => None
          end
      | _ => None
      end
  | String a s' =>
      match unescape plus s' with
      | Some r => Some (String (if plus && Ascii.eqb a "+" then " "%char else a) r)
      | None => None
      end
  end.

(** [getScheme]; [None]: a missing scheme before the colon. *)
Fixpoint get_scheme (first : bool) (seen s : string) (raw : string) : option (string * string) :=
  match s with
  | EmptyString => Some ("", raw)
  | String a s' =>
      if in_range a "a" "z" || in_range a "A" "Z" then
        get_scheme false (seen +:+ String a "") s' raw
      else if in_range a "0" "9" || Ascii.eqb a "+" || Ascii.eqb a "-" || Ascii.eqb a "." then
        if first then Some ("", raw) else get_scheme false (seen +:+ String a "") s' raw
      else if Ascii.eqb a ":" then
        if first then None else Some (seen, s')
      else Some ("", raw)
  end.

Section Parse.
(** [parseAuthority] accepts this authority. *)
Context (authority_ok : string → bool).

Definition is_some {A : Type} (o : option A) : bool :=
  match o with Some _ => true | None => false end.

(** [url.Parse]: [None] for an error, otherwise the raw query. *)
Definition Parse (raw : string) : option string :=
  let '(u, frag) := cut "#" raw in
  let frag_ok := String.eqb frag "" || is_some (unescape false frag) in
  if string_forall (λ a, negb (is_ctl a)) u then
    if String.eqb u "*" then (if frag_ok then Some "" else None) else
    match get_scheme true "" u u with
    | None => None
    | Some (scheme, rest) =>
        let '(rest, query) := cut "?" rest in
        let ok :=
          if negb (String.prefix "/" rest) then
            negb (String.eqb scheme "") || negb (contains ":" (cut "/" rest).1) && is_some (unescape false rest)
          else if (negb (String.eqb scheme "") || negb (String.prefix "///" rest))
                  && String.prefix "//" rest then
            let after := String.substring 2 (String.length rest) rest in
            let '(authority, path) := cut "/" after in
            authority_ok authority &&
            is_some (unescape false (if contains "/" after then String "/" path else ""))
          else is_some (unescape false rest) in
        if ok && frag_ok then Some query else None
    end
  else None.

End Parse.

(** [url.ParseQuery], its error ignored as [Query] does; each turn takes one pair. *)
Fixpoint parse_query (fuel : nat) (query : string) : list (string * string) :=
  match fuel with
  | O => []
  | S fuel' =>
      match query with
      | EmptyString => []
      | _ =>
          let '(kv, rest) := cut "&" query in
          let more := parse_query fuel' rest in
          if contains ";" kv || String.eqb kv "" then more else
          let '(key, value) := cut "=" kv in
          match unescape true key, unescape true value with
          | Some k, Some v => (k, v) :: more
          | _, _ => more
          end
      end
  end.

(** [u.Query().Get(key)]: the first value, or the empty string. *)
Definition Get (query key : string) : string :=
  match list_find (λ p, p.1 = key) (parse_query (S (String.length query)) query) with
  | Some (_, (_, v)) => v
  | None => ""
  end.

(** Characters that stand for themselves everywhere in a query. *)
Definition plain (a : ascii) : bool :=
  in_range a "a" "z" || in_range a "A" "Z" || in_range a "0" "9" ||
  Ascii.eqb a "-" || Ascii.eqb a "_" || Ascii.eqb a "." || Ascii.eqb a "~".

Definition hex_digit (n : nat) : ascii :=
  ascii_of_nat (if (n <? 10)%nat then nat_of_ascii "0" + n else nat_of_ascii "A" + (n - 10)).

(** [url.QueryEscape] *)
Definition escape_char (a : ascii) (r : string) : string :=
  if plain a then String a r
  else if Ascii.eqb a " " then String "+" r
  else String "%" (String (hex_digit (nat_of_ascii a / 16))
                     (String (hex_digit (nat_of_ascii a mod 16)) r)).

Fixpoint QueryEscape (s : string) : string :=
  match s with
  | EmptyString => ""
  | String a s' => escape_char a (QueryEscape s')
  end.

(** [Values.Encode] of one value per key: the pairs in the order of the keys. *)
Definition key_le (p q : string * string) : Prop := String.leb p.1 q.1 = true.
#[export] Instance key_le_dec : RelDecision key_le.
Proof. intros p q. unfold key_le. apply _. Defined.

Fixpoint join_pairs (kvs : list (string * string)) : string :=
  match kvs with
  | [] => ""
  | [(k, v)] => QueryEscape k +:+ "=" +:+ QueryEscape v
  | (k, v) :: kvs' => QueryEscape k +:+ "=" +:+ QueryEscape v +:+ "&" +:+ join_pairs kvs'
  end.

Definition Encode (kvs : gmap string string) : string :=
  join_pairs (merge_sort key_le (map_to_list kvs)).

(** * Lemmas *)

Lemma plain_not (a c : ascii) : plain a = true → plain c = false → Ascii.eqb a c = false.
Proof. intros Ha Hc. destruct (Ascii.eqb_spec a c) as [->|]; [congruence|done]. Qed.

Lemma contains_plain (c : ascii) s :
  string_forall plain s = true → plain c = false → contains c s = false.
Proof.
  intros Hs Hc. induction s as [|a s IH]; [done|]. cbn in Hs.
  apply andb_true_iff in Hs as [Ha Hs]. cbn. by rewrite (plain_not a c Ha Hc), IH.
Qed.

Lemma cut_plain (sep : ascii) s rest :
  string_forall plain s = true → plain sep = false →
  cut sep (s +:+ String sep rest) = (s, rest) ∧ cut sep s = (s, "").
Proof.
  intros Hs Hc. induction s as [|a s IH].
  - split; [|done]. change (cut sep (String sep rest) = ("", rest)). cbn.
    by rewrite Ascii.eqb_refl.
  - cbn in Hs. apply andb_true_iff in Hs as [Ha Hs]. destruct (IH Hs) as [H1 H2].
    change (String a s +:+ String sep rest) with (String a (s +:+ String sep rest)).
    cbn. by rewrite (plain_not a sep Ha Hc), H1, H2.
Qed.

Lemma unescape_plain b s : string_forall plain s = true → unescape b s = Some s.
Proof.
  intros Hs. induction s as [|a s IH]; [done|]. cbn in Hs.
  apply andb_true_iff in Hs as [Ha Hs]. specialize (IH Hs).
  assert (unescape b (String a s) =
    match unescape b s with
    | Some r => Some (String (if b && Ascii.eqb a "+" then " "%char else a) r)
    | None => None
    end) as ->.
  { pose proof (plain_not a "%" Ha eq_refl) as Hp. apply Ascii.eqb_neq in Hp.
    cbn. destruct a as [[] [] [] [] [] [] [] []]; try done. }
  rewrite IH, (plain_not a "+" Ha eq_refl). by rewrite andb_false_r.
Qed.

Lemma contains_app c s1 s2 : contains c (s1 +:+ s2) = contains c s1 || contains c s2.
Proof.
  induction s1 as [|a s1 IH]; [done|].
  change (String a s1 +:+ s2) with (String a (s1 +:+ s2)). cbn. by rewrite IH, orb_assoc.
Qed.

Lemma cut_none sep s : contains sep s = false → cut sep s = (s, "").
Proof.
  induction s as [|a s IH]; [done|]. cbn. intros [Ha Hs]%orb_false_iff. by rewrite Ha, IH.
Qed.

Lemma cut_first sep s rest : contains sep s = false → cut sep (s +:+ String sep rest) = (s, rest).
Proof.
  induction s as [|a s IH].
  - intros _. change (cut sep (String sep rest) = ("", rest)). cbn. by rewrite Ascii.eqb_refl.
  - cbn [contains]. intros [Ha Hs]%orb_false_iff.
    change (cut sep (String a (s +:+ String sep rest)) = (String a s, rest)). cbn. by rewrite Ha, IH.
Qed.

Lemma plain_no_ctl s : string_forall plain s = true → string_forall (λ a, negb (is_ctl a)) s = true.
Proof.
  induction s as [|a s IH]; [done|]. cbn. intros [Ha Hs]%andb_true_iff. rewrite IH by done.
  by destruct a as [[] [] [] [] [] [] [] []].
Qed.

(** A path and a query of plain characters, [=] and [&]. *)
Lemma Parse_target authority_ok path query :
  string_forall plain path = true →
  string_forall (λ a, negb (is_ctl a)) query = true → contains "#" query = false →
  Parse authority_ok (String "/" (path +:+ "?" +:+ query)) = Some query.
Proof.
  intros Hp Hq Hh. unfold Parse. set (target := String "/" (path +:+ "?" +:+ query)).
  assert (target = "/" +:+ path +:+ "?" +:+ query) as Ht by done.
  assert (cut "#" target = (target, "")) as ->.
  { apply cut_none. rewrite Ht, !contains_app, Hh. by rewrite (contains_plain "#" path Hp eq_refl). }
  assert (string_forall (λ a, negb (is_ctl a)) target = true) as ->.
  { by rewrite Ht, !string_forall_app, Hq, (plain_no_ctl path Hp). }
  assert ((target =? "*")%string = false) as -> by done.
  assert (get_scheme true "" target target = Some ("", target)) as -> by done.
  assert (cut "?" target = (String "/" path, query)) as ->.
  { change target with (String "/" path +:+ String "?" query). apply cut_first.
    cbn. by rewrite (contains_plain "?" path Hp eq_refl). }
  assert (String.prefix "//" (String "/" path) = false) as Hpre.
  { destruct path as [|a path]; [done|]. apply andb_true_iff in Hp as [Ha _].
    assert (a ≠ "/"%char) as Hne by (intros ->; discriminate Ha).
    change (match ascii_dec "/" a with left _ => String.prefix "" path | right _ => false end = false).
    destruct (ascii_dec "/" a) as [<-|]; done. }
  assert (unescape false (String "/" path) = Some (String "/" path)) as Hu.
  { cbn -[unescape]. change (match unescape false path with
      | Some r => Some (String "/" r) | None => None end = Some (String "/" path)).
    by rewrite unescape_plain. }
  assert (String.prefix "/" (String "/" path) = true) as -> by by destruct path.
  by rewrite Hpre, Hu, andb_false_r.
Qed.

(** A text without the separators of a query. *)
Definition atom (s : string) : Prop :=
  contains "&" s = false ∧ contains ";" s = false ∧ contains "=" s = false.

Lemma plain_atom s : string_forall plain s = true → atom s.
Proof. intros Hs. split_and!; by apply contains_plain. Qed.

(** [ParseQuery] takes the first pair. *)
Lemma parse_query_pair fuel k v k' v' :
  atom k → atom v → k ≠ "" → unescape true k = Some k' → unescape true v = Some v' →
  (∀ rest, parse_query (S fuel) (k +:+ "=" +:+ v +:+ "&" +:+ rest) = (k', v') :: parse_query fuel rest) ∧
  parse_query (S fuel) (k +:+ "=" +:+ v) = [(k', v')].
Proof.
  intros (Hka & Hks & Hke) (Hva & Hvs & _) Hn Hk Hv.
  assert (contains "&" (k +:+ "=" +:+ v) = false) as Ha by by rewrite !contains_app, Hka, Hva.
  assert (contains ";" (k +:+ "=" +:+ v) = false) as Hs by by rewrite !contains_app, Hks, Hvs.
  assert (k +:+ "=" +:+ v ≠ "") as Hne by by destruct k.
  assert (cut "=" (k +:+ "=" +:+ v) = (k, v)) as Hc by by apply (cut_first "=" k v).
  split.
  - intros rest. cbn [parse_query].
    assert (k +:+ "=" +:+ v +:+ "&" +:+ rest = (k +:+ "=" +:+ v) +:+ String "&" rest) as ->
      by by rewrite !append_assoc.
    rewrite cut_first by done. rewrite Hs, (proj2 (String.eqb_neq _ _)) by done. cbn [orb].
    rewrite Hc, Hk, Hv. by destruct k.
  - cbn [parse_query]. rewrite cut_none by done.
    rewrite Hs, (proj2 (String.eqb_neq _ _)) by done. cbn [orb].
    rewrite Hc, Hk, Hv. destruct k; [done|]. by destruct fuel.
Qed.

Lemma Get_fuel query key : query ≠ "" →
  ∃ n, String.length query = S n ∧ Get query key =
    match list_find (λ p, p.1 = key) (parse_query (S (S n)) query) with
    | Some (_, (_, v)) => v
    | None => ""
    end.
Proof. intros Hq. destruct query as [|a q]; [done|]. by eexists. Qed.

(** [Get] on the two pairs of a handshake's query. *)
Lemma Get_pairs k1 v1 k2 v2 key :
  string_forall plain k1 = true → string_forall plain v1 = true →
  string_forall plain k2 = true → string_forall plain v2 = true → k1 ≠ "" → k2 ≠ "" →
  Get (k1 +:+ "=" +:+ v1 +:+ "&" +:+ k2 +:+ "=" +:+ v2) key =
    if decide (k1 = key) then v1 else if decide (k2 = key) then v2 else "".
Proof.
  intros Hk1 Hv1 Hk2 Hv2 Hn1 Hn2.
  destruct (Get_fuel (k1 +:+ "=" +:+ v1 +:+ "&" +:+ k2 +:+ "=" +:+ v2) key) as (n & _ & ->); [by destruct k1|].
  rewrite (proj1 (parse_query_pair (S n) k1 v1 k1 v1 (plain_atom _ Hk1) (plain_atom _ Hv1) Hn1
    (unescape_plain _ _ Hk1) (unescape_plain _ _ Hv1))).
  rewrite (proj2 (parse_query_pair n k2 v2 k2 v2 (plain_atom _ Hk2) (plain_atom _ Hv2) Hn2
    (unescape_plain _ _ Hk2) (unescape_plain _ _ Hv2))).
  cbn. destruct (decide (k1 = key)); [done|]. cbn. by destruct (decide (k2 = key)).
Qed.

(** [QueryUnescape] undoes [QueryEscape], whose result has no separators. *)
Lemma unescape_char a r :
  unescape true (escape_char a r) =
  match unescape true r with Some x => Some (String a x) | None => None end.
Proof. by destruct a as [[] [] [] [] [] [] [] []]. Qed.

Lemma contains_char c a r : c ∈ ["&"%char; ";"%char; "="%char] →
  contains c (escape_char a r) = contains c r.
Proof.
  rewrite !elem_of_cons, elem_of_nil. intros Hc.
  destruct Hc as [->|[->|[->|[]]]]; by destruct a as [[] [] [] [] [] [] [] []].
Qed.

Lemma unescape_escape s : unescape true (QueryEscape s) = Some s.
Proof. induction s as [|a s IH]; [done|]. cbn [QueryEscape]. by rewrite unescape_char, IH. Qed.

Lemma escape_atom s : atom (QueryEscape s).
Proof.
  induction s as [|a s (H1 & H2 & H3)]; [done|]. cbn [QueryEscape].
  split_and!; rewrite contains_char; try done; rewrite !elem_of_cons; tauto.
Qed.

Lemma escape_nonempty s : s ≠ "" → QueryEscape s ≠ "".
Proof.
  destruct s as [|a s]; [done|]. intros _. cbn [QueryEscape]. unfold escape_char.
  by repeat case_match.
Qed.

(** Reading what [join_pairs] wrote gives the pairs back. *)
Lemma parse_join kvs : ∀ fuel,
  Forall (λ p, p.1 ≠ "") kvs → length kvs ≤ fuel → parse_query fuel (join_pairs kvs) = kvs.
Proof.
  induction kvs as [|[k v] kvs IH]; intros fuel Hf Hl; [by destruct fuel|].
  apply Forall_cons in Hf as [Hk Hf]. destruct fuel as [|fuel]; [cbn in Hl; lia|].
  destruct (parse_query_pair fuel _ _ k v (escape_atom k) (escape_atom v) (escape_nonempty k Hk)
    (unescape_escape k) (unescape_escape v)) as [H1 H2].
  destruct kvs as [|p kvs]; [exact H2|].
  change (join_pairs ((k, v) :: p :: kvs))
    with (QueryEscape k +:+ "=" +:+ QueryEscape v +:+ "&" +:+ join_pairs (p :: kvs)).
  rewrite H1, IH; [done|done|cbn in *; lia].
Qed.

Lemma length_join kvs : length kvs ≤ S (String.length (join_pairs kvs)).
Proof.
  assert (∀ a b, String.length (a +:+ b) = String.length a + String.length b) as Happ
    by (intros a b; induction a as [|x a IHa]; [done|];
        change (S (String.length (a +:+ b)) = S (String.length a + String.length b)); by rewrite IHa).
  induction kvs as [|[k v] kvs IH]; [cbn; lia|]. destruct kvs as [|p kvs]; [cbn; lia|].
  change (join_pairs ((k, v) :: p :: kvs))
    with (QueryEscape k +:+ "=" +:+ QueryEscape v +:+ "&" +:+ join_pairs (p :: kvs)).
  rewrite !Happ. cbn [length String.length] in *. lia.
Qed.

(** A form reads back key by key. *)
Lemma Get_Encode (kvs : gmap string string) key :
  kvs !! "" = None → Get (Encode kvs) key = default "" (kvs !! key).
Proof.
  intros Hne. unfold Get, Encode. set (l := merge_sort key_le (map_to_list kvs)).
  assert (l ≡ₚ map_to_list kvs) as Hp by apply merge_sort_Permutation.
  assert (∀ p, p ∈ l ↔ kvs !! p.1 = Some p.2) as Hin.
  { intros [k v]. rewrite Hp. apply elem_of_map_to_list. }
  rewrite parse_join.
  - destruct (list_find _ l) as [[i [k v]]|] eqn:Hf.
    + apply list_find_Some in Hf as (Hi & Hk & _). cbn in Hk. subst k.
      apply list_elem_of_lookup_2 in Hi. apply Hin in Hi. cbn in Hi. by rewrite Hi.
    + apply list_find_None in Hf. destruct (kvs !! key) as [v|] eqn:Hv; [|done].
      rewrite Forall_forall in Hf. destruct (Hf (key, v)); [|done]. by apply Hin.
  - apply Forall_forall. intros [k v] Hkv%Hin Hk. cbn in Hk, Hkv. congruence.
  - apply length_join.
Qed.

End Url.
