(* ===== verification/OAuth.v ===== *)
(** The OAuth access token for Kafka ([internal/pkg/providers/kafka_oauth.go]): a
    token fetched over HTTP, cached until shortly before it expires, and shared by
    every connection to Kafka under a read-write lock. *)

From S2P Require Import Prelude Env Sim Url.
From Stdlib Require Import Ascii.

Module OAuth.

(** [KafkaOAuthMechanism] without its lock. *)
Record Mech : Type := MkMech {
  endpoint : string;
  clientID : string;
  clientSecret : string;
  accessToken : string;
  expiresAt : Z;
}.

(** The zero [time.Time], in nanoseconds from the Unix epoch. *)
Definition zero_time : Z := -62135596800 * Second.

Definition NewKafkaOAuthMechanism (endpoint clientID clientSecret : string) : Mech :=
  MkMech endpoint clientID clientSecret "" zero_time.

(** [m.accessToken != "" && time.Now().Before(m.expiresAt)] *)
Definition valid (m : Mech) (now : Z) : bool :=
  negb (String.eqb (accessToken m) "") && (now <? expiresAt m)%Z.

(** The form sent to the token endpoint. *)
Definition token_request (m : Mech) : bytes :=
  Url.Encode (<["grant_type" := "client_credentials"]>
                (<["client_id" := clientID m]> (<["client_secret" := clientSecret m]> ∅))).

(** The cached token: [ExpiresIn] is in seconds and an [int]. *)
Definition store (now : Z) (token : string) (expiresIn : Z) (m : Mech) : Mech :=
  MkMech (endpoint m) (clientID m) (clientSecret m) token
    (now + int64 (int64 (expiresIn - 60) * Second)).

Definition StatusOK : Z := 200.

(** net/http and the decoding of the answer's JSON.  [http_Do] posts a form; its
    answer is the status and the body, or the error of reading the body. *)
Class Http (E : Type) := {
  http_NewRequest : string → option error;
  http_Do : string → bytes → E → (error + (Z * (error + bytes))) * E;
  json_token : bytes → error + (string * Z);
}.

(** [fmt.Sprintf("%d", n)] *)
Definition sprint_z (z : Z) : string :=
  if (z <? 0)%Z then "-" +:+ sprint_d (Z.to_N (- z)) else sprint_d (Z.to_N z).

Section Sequential.
Context {E : Type} `{Sched E, Http E}.

(** [getAccessToken] from the request to the decoded answer. *)
Definition fetch (m : Mech) : go E (error + (string * Z)) :=
  match http_NewRequest (endpoint m) with
  | Some err => ret (inl (errorf_pre "failed to create http request: " err))
  | None =>
      r <- state (http_Do (endpoint m) (token_request m)) ;;
      ret match r with
          | inl err => inl (errorf_pre "failed to send http request: " err)
          | inr (status, r) =>
              match r with
              | inl err => inl (errorf_pre "failed to read http response body: " err)
              | inr body =>
                  if negb (status =? StatusOK)%Z then
                    inl (EText ("failed to get access token with status [ " +:+ sprint_z status
                                +:+ " ], body: " +:+ body))
                  else
                    match json_token body with
                    | inl err => inl (errorf_pre "failed to parse http response body: " err)
                    | inr t => inr t
                    end
              end
          end
  end.

(** The rest of [getAccessToken] under the write lock. *)
Definition fetch_and_store (m : Mech) : go (Mech * E) (error + string) :=
  r <- zoom (fetch m) ;;
  match r with
  | inl err => ret (inl err)
  | inr (token, expiresIn) =>
      now <- zoom (state time_now) ;;
      modify (λ s, (store now token expiresIn s.1, s.2)) ;;;
      ret (inr token)
  end.

(** [getAccessToken] of a caller that is alone. *)
Definition getAccessToken : go (Mech * E) (error + string) :=
  now <- zoom (state time_now) ;;
  m <- gets fst ;;
  if valid m now then ret (inr (accessToken m)) else
  now <- zoom (state time_now) ;;
  if valid m now then ret (inr (accessToken m)) else fetch_and_store m.

(** The response of [Start] to the server. *)
Definition initial_response (token : string) : bytes :=
  let sep := String (ascii_of_nat 1) "" in
  "n,," +:+ sep +:+ "auth=Bearer " +:+ token +:+ sep +:+ sep.

Definition Start : go (Mech * E) (error + bytes) :=
  r <- getAccessToken ;;
  ret match r with
      | inl err => inl (errorf_pre "failed to get access token: " err)
      | inr token => inr (initial_response token)
      end.

(** [kafkaOAuthSession.Next] *)
Definition Next (challenge : bytes) : bool * option bytes * option error := (true, None, None).

End Sequential.

(** ** Concurrent callers *)

(** [sync.RWMutex] *)
Record rwmutex : Type := MkRW { readers : nat; writing : bool }.

(** Where a caller is: before [RLock]; between [RLock] and [RUnlock]; before
    [Lock]; between [Lock] and the second check; waiting for the answer to the
    request it sent at [since]; returned at a time, with its result and whether it
    fetched it itself. *)
Inductive opc : Type :=
  | OIdle
  | OReading
  | OWaiting
  | OWriting
  | OFetching (since : Z)
  | ODone (r : error + string) (at_ : Z) (own : bool).

(** [answers]: when the request of each successful answer was sent, its token, and
    when the token expires. *)
Record OS : Type := MkOS {
  mech : Mech;
  lock : rwmutex;
  now : Z;
  callers : list opc;
  answers : list (Z * string * Z);
}.

Inductive event : Type :=
  | ORLock (i : nat)
  | OCheck (i : nat)
  | OLock (i : nat)
  | ORecheck (i : nat)
  | OReply (i : nat) (r : error + (string * Z))
  | OTick (d : nat).

Definition set_caller (i : nat) (p : opc) (l : rwmutex) (s : OS) : OS :=
  MkOS (mech s) l (now s) (<[i := p]> (callers s)) (answers s).

(** One step; [None]: the step is not possible. *)
Definition exec (ev : event) (s : OS) : option OS :=
  let m := mech s in
  let l := lock s in
  match ev with
  | ORLock i =>
      match callers s !! i with
      | Some OIdle =>
          if writing l then None
          else Some (set_caller i OReading (MkRW (S (readers l)) false) s)
      | _ => None
      end
  | OCheck i =>
      match callers s !! i with
      | Some OReading =>
          Some (set_caller i
                  (if valid m (now s) then ODone (inr (accessToken m)) (now s) false else OWaiting)
                  (MkRW (pred (readers l)) (writing l)) s)
      | _ => None
      end
  | OLock i =>
      match callers s !! i with
      | Some OWaiting =>
          if writing l || negb (readers l =? 0)%nat then None
          else Some (set_caller i OWriting (MkRW (readers l) true) s)
      | _ => None
      end
  | ORecheck i =>
      match callers s !! i with
      | Some OWriting =>
          if valid m (now s)
          then Some (set_caller i (ODone (inr (accessToken m)) (now s) false) (MkRW (readers l) false) s)
          else Some (set_caller i (OFetching (now s)) l s)
      | _ => None
      end
  | OReply i r =>
      match callers s !! i with
      | Some (OFetching since) =>
          match r with
          | inl err => Some (set_caller i (ODone (inl err) (now s) true) (MkRW (readers l) false) s)
          | inr (token, expiresIn) =>
              let m' := store (now s) token expiresIn m in
              Some (MkOS m' (MkRW (readers l) false) (now s)
                      (<[i := ODone (inr token) (now s) true]> (callers s))
                      (answers s ++ [(since, token, expiresAt m')]))
          end
      | _ => None
      end
  | OTick d => Some (MkOS m l (now s + Z.of_nat d) (callers s) (answers s))
  end.

Definition step (s s' : OS) : Prop := ∃ ev, exec ev s = Some s'.

(** [n] callers that have not called yet, on a new mechanism. *)
Definition initial (n : nat) (e i c : string) (t : Z) : OS :=
  MkOS (NewKafkaOAuthMechanism e i c) (MkRW 0 false) t (replicate n OIdle) [].

(** * Lemmas and properties *)

Definition is_reading (p : opc) : bool := match p with OReading => true | _ => false end.
Definition is_holder (p : opc) : bool :=
  match p with OWriting | OFetching _ => true | _ => false end.

(** A token that a caller returned: it came with an answer, and if it was taken
    from the cache it had not expired. *)
Definition returned_ok (l : list (Z * string * Z)) (token : string) (t : Z) (own : bool) : Prop :=
  ∃ t0 e, (t0, token, e) ∈ l ∧ (own = false → token ≠ "" ∧ (t < e)%Z).

Record o_inv (s : OS) : Prop := OInv {
  oi_readers : readers (lock s) = count is_reading (callers s);
  oi_writer : Nat.b2n (writing (lock s)) = count is_holder (callers s);
  oi_excl : writing (lock s) = true → readers (lock s) = 0;
  oi_mech : match list.last (answers s) with
            | None => accessToken (mech s) = ""
            | Some (_, token, e) => accessToken (mech s) = token ∧ expiresAt (mech s) = e
            end;
  oi_fetching i since : callers s !! i = Some (OFetching since) → valid (mech s) since = false;
  oi_chain k t1 token1 e1 a2 : answers s !! k = Some (t1, token1, e1) →
    answers s !! S k = Some a2 → token1 = "" ∨ (e1 <= a2.1.1)%Z;
  oi_results i token t own : callers s !! i = Some (ODone (inr token) t own) →
    returned_ok (answers s) token t own;
}.

Lemma o_initial_inv n e i c t : o_inv (initial n e i c t).
Proof.
  assert (∀ P : opc → bool, P OIdle = false → count P (replicate n OIdle) = 0) as Hc
    by (intros P HP; induction n; cbn; rewrite ?HP; cbn; congruence).
  split; cbn; rewrite ?Hc by done; try done.
  - by intros j token t' own [? _]%lookup_replicate.
Qed.

(** One caller moves on and the lock with it. *)
Lemma set_caller_inv i p q l s :
  o_inv s → callers s !! i = Some p →
  readers l + Nat.b2n (is_reading p) = readers (lock s) + Nat.b2n (is_reading q) →
  Nat.b2n (writing l) + Nat.b2n (is_holder p) = Nat.b2n (writing (lock s)) + Nat.b2n (is_holder q) →
  (writing l = true → readers l = 0) →
  (∀ since, q = OFetching since → valid (mech s) since = false) →
  (∀ token t own, q = ODone (inr token) t own → returned_ok (answers s) token t own) →
  o_inv (set_caller i q l s).
Proof.
  intros [Hr Hw Hx Hm Hf Hch Hres] Hi Hlr Hlw Hlx Hqf Hqr.
  pose proof (count_insert is_reading _ i q p Hi). pose proof (count_insert is_holder _ i q p Hi).
  split; cbn; try done; try lia.
  - intros j since Hj. apply list_lookup_insert_Some in Hj as [(_ & Hq & _)|[_ Hj]]; eauto.
  - intros j token t own Hj. apply list_lookup_insert_Some in Hj as [(_ & Hq & _)|[_ Hj]]; eauto.
Qed.

Lemma cached_ok s :
  o_inv s → valid (mech s) (now s) = true → returned_ok (answers s) (accessToken (mech s)) (now s) false.
Proof.
  intros [_ _ _ Hm _ _ _] [Hne He]%andb_true_iff. apply negb_true_iff, String.eqb_neq in Hne.
  apply Z.ltb_lt in He. destruct (list.last (answers s)) as [[[t0 token] e]|] eqn:Hl; [|congruence].
  destruct Hm as [Ht Hexp]. rewrite Ht in Hne |- *. exists t0, e. split; [|intros _; split; [done|lia]].
  by apply last_Some_elem_of in Hl.
Qed.

(** The caller that holds the lock stores an answer. *)
Lemma reply_inv i since token expiresIn s :
  o_inv s → callers s !! i = Some (OFetching since) →
  let m' := store (now s) token expiresIn (mech s) in
  o_inv (MkOS m' (MkRW (readers (lock s)) false) (now s)
           (<[i := ODone (inr token) (now s) true]> (callers s))
           (answers s ++ [(since, token, expiresAt m')])).
Proof.
  intros Hinv Hi m'. pose proof Hinv as [Hr Hw Hx Hm Hf Hch Hres].
  pose proof (count_insert is_reading _ i (ODone (inr token) (now s) true) _ Hi) as Hc1.
  pose proof (count_insert is_holder _ i (ODone (inr token) (now s) true) _ Hi) as Hc2.
  cbn [is_reading is_holder Nat.b2n] in Hc1, Hc2.
  assert (count is_holder (callers s) ≤ 1) as Hone by (destruct (writing (lock s)); cbn in Hw; lia).
  split; cbn; try lia; try done.
  - by rewrite last_snoc.
  - intros j since' Hj. apply list_lookup_insert_Some in Hj as [(_ & [=] & _)|[Hne Hj]].
    destruct Hne. by apply (count_unique is_holder (callers s) i j (OFetching since) (OFetching since')).
  - intros k t1 token1 e1 a2 H1 H2. apply lookup_app_Some in H2 as [H2|[Hlen H2]].
    + apply lookup_app_Some in H1 as [H1|[Hlen _]]; [by eapply Hch|].
      apply lookup_lt_Some in H2. lia.
    + apply list_lookup_singleton_Some in H2 as [Hk <-]. cbn.
      apply lookup_app_Some in H1 as [H1|[Hlen1 _]]; [|lia].
      assert (list.last (answers s) = Some (t1, token1, e1)) as Hl
        by (rewrite last_lookup; replace (pred (length (answers s))) with k by lia; done).
      rewrite Hl in Hm. destruct Hm as [Ht He].
      pose proof (Hf i since Hi) as Hv. unfold valid in Hv. rewrite Ht, He in Hv.
      apply andb_false_iff in Hv as [Hv|Hv].
      * left. by apply negb_false_iff, String.eqb_eq in Hv.
      * right. by apply Z.ltb_ge in Hv.
  - intros j tok t own Hj. apply list_lookup_insert_Some in Hj as [(_ & Hq & _)|[_ Hj]].
    + injection Hq as <- <- <-. exists since, (expiresAt m').
      split; [apply elem_of_app; right; by left|done].
    + destruct (Hres j tok t own Hj) as (t0 & e & Hin & He). exists t0, e.
      split; [apply elem_of_app; by left|done].
Qed.

Lemma o_exec_inv ev s s' : o_inv s → exec ev s = Some s' → o_inv s'.
Proof.
  intros Hinv. pose proof Hinv as [Hr Hw Hx Hm Hf Hch Hres].
  destruct ev as [i|i|i|i|i r|d]; cbn [exec];
    [destruct (callers s !! i) as [[| | | |since|]|] eqn:Hi; try done..|].
  - destruct (writing (lock s)) eqn:Hwr; intros [= <-].
    apply (set_caller_inv i OIdle); cbn; rewrite ?Hwr; try done; lia.
  - intros [= <-].
    assert (0 < count is_reading (callers s)) by (apply count_pos; by exists i, OReading).
    destruct (valid (mech s) (now s)) eqn:Hv; apply (set_caller_inv i OReading); cbn; try done; try lia.
    1,3: intros Hwr; specialize (Hx Hwr); lia.
    intros token t own [= <- <- <-]. by apply cached_ok.
  - destruct (writing (lock s)) eqn:Hwr; [done|]. cbn [orb].
    destruct (readers (lock s) =? 0)%nat eqn:Hz; intros [= <-]. apply Nat.eqb_eq in Hz.
    apply (set_caller_inv i OWaiting); cbn; rewrite ?Hwr; try done; lia.
  - assert (writing (lock s) = true) as Hwr.
    { assert (0 < count is_holder (callers s)) by (apply count_pos; by exists i, OWriting).
      destruct (writing (lock s)); [done|cbn in Hw; lia]. }
    destruct (valid (mech s) (now s)) eqn:Hv; intros [= <-];
      apply (set_caller_inv i OWriting); cbn; rewrite ?Hwr; try done; [|by auto|].
    + intros token t own [= <- <- <-]. by apply cached_ok.
    + by intros since [= <-].
  - assert (writing (lock s) = true) as Hwr.
    { assert (0 < count is_holder (callers s)) by (apply count_pos; by exists i, (OFetching since)).
      destruct (writing (lock s)); [done|cbn in Hw; lia]. }
    destruct r as [err|[token expiresIn]]; intros [= <-]; [|by apply reply_inv].
    by apply (set_caller_inv i (OFetching since)); cbn; rewrite ?Hwr.
  - intros [= <-]. by split.
Qed.

Lemma o_steps_inv n e i c t s : rtc step (initial n e i c t) s → o_inv s.
Proof.
  intros Hs. pose proof (o_initial_inv n e i c t) as Hi. revert Hi.
  induction Hs as [|s1 s2 s3 [ev Hev] _ IH]; [done|]. intros Hi. by eapply IH, o_exec_inv.
Qed.

(** C29. However many callers ask for the token at a time, at most one request is
    under way, and a new one is sent only when the token of the last answer is
    empty or has expired; and every caller that gets a token gets one of the
    answers', not expired if it is taken from the cache. *)
Theorem single_flight (n : nat) (e i c : string) (t : Z) (s : OS) :
  rtc step (initial n e i c t) s →
  (∀ j k t1 t2, callers s !! j = Some (OFetching t1) → callers s !! k = Some (OFetching t2) → j = k) ∧
  (∀ k t1 token1 e1 t2 token2 e2, answers s !! k = Some (t1, token1, e1) →
     answers s !! S k = Some (t2, token2, e2) → token1 = "" ∨ (e1 <= t2)%Z) ∧
  (∀ j token t own, callers s !! j = Some (ODone (inr token) t own) →
     ∃ t0 e, (t0, token, e) ∈ answers s ∧ (own = false → token ≠ "" ∧ (t < e)%Z)).
Proof.
  intros Hs. destruct (o_steps_inv _ _ _ _ _ _ Hs) as [_ Hw _ _ _ Hch Hres]. split_and!.
  - intros j k t1 t2 Hj Hk. apply (count_unique is_holder (callers s) j k _ _) with (3 := Hk) (2 := Hj);
      try done. rewrite <- Hw. by destruct (writing (lock s)); cbn; lia.
  - intros k t1 token1 e1 t2 token2 e2 H1 H2. exact (Hch k t1 token1 e1 _ H1 H2).
  - exact Hres.
Qed.

(** The steps a caller still has to make. *)
Definition work (p : opc) : nat :=
  match p with
  | OIdle => 5 | OReading => 4 | OWaiting => 3 | OWriting => 2 | OFetching _ => 1 | ODone _ _ _ => 0
  end.

Definition is_tick (ev : event) : bool := match ev with OTick _ => true | _ => false end.

Lemma exec_work ev s s' :
  exec ev s = Some s' → is_tick ev = false →
  sum_list_with work (callers s') < sum_list_with work (callers s).
Proof.
  destruct ev as [i|i|i|i|i r|d]; cbn [exec]; try done; intros He _;
    destruct (callers s !! i) as [[| | | |since|]|] eqn:Hi; try done;
    repeat case_match; simplify_eq/=;
    match goal with |- context [<[i := ?q]> _] => pose proof (sum_insert work _ i _ q Hi) as Hs end;
    cbn [work] in Hs; lia.
Qed.

(** Someone can move while not all have returned. *)
Lemma o_progress s :
  o_inv s → (∃ i p, callers s !! i = Some p ∧ 0 < work p) →
  ∃ ev s', is_tick ev = false ∧ exec ev s = Some s'.
Proof.
  intros [Hr Hw Hx _ _ _ _] (i & p & Hi & Hp).
  destruct (writing (lock s)) eqn:Hwr.
  - assert (0 < count is_holder (callers s)) as Hc by (cbn in Hw; lia).
    apply count_pos in Hc as (j & q & Hj & Hq). destruct q as [| | | |since|]; try done.
    + exists (ORecheck j). cbn. rewrite Hj. case_match; by eexists.
    + exists (OReply j (inl (EText ""))). cbn. rewrite Hj. by eexists.
  - destruct (decide (readers (lock s) = 0)) as [Hz|Hz].
    + destruct p as [| | | |since|]; cbn in Hp; try lia.
      * exists (ORLock i). cbn. rewrite Hi, Hwr. by eexists.
      * exists (OCheck i). cbn. rewrite Hi. by eexists.
      * exists (OLock i). cbn. rewrite Hi, Hwr, Hz. by eexists.
      * exists (ORecheck i). cbn. rewrite Hi. case_match; by eexists.
      * exists (OReply i (inl (EText ""))). cbn. rewrite Hi. by eexists.
    + assert (0 < count is_reading (callers s)) as Hc by lia.
      apply count_pos in Hc as (j & q & Hj & Hq). destruct q; try done.
      exists (OCheck j). cbn. rewrite Hj. by eexists.
Qed.

(** The lock never wedges the callers, and each makes at most five steps:
    while one of them has not returned some caller can move (the one holding the
    lock by the answer to its request), and every such move reduces the steps
    that remain, of which [n] callers have [5 n]. *)
Theorem callers_return (n : nat) (e i c : string) (t : Z) (s : OS) :
  rtc step (initial n e i c t) s →
  ((∃ j p, callers s !! j = Some p ∧ 0 < work p) →
   ∃ ev s', is_tick ev = false ∧ exec ev s = Some s') ∧
  (∀ ev s', exec ev s = Some s' → is_tick ev = false →
     sum_list_with work (callers s') < sum_list_with work (callers s)) ∧
  sum_list_with work (callers (initial n e i c t)) = 5 * n.
Proof.
  intros Hs. split_and!.
  - by eapply o_progress, o_steps_inv.
  - intros ev s'. apply exec_work.
  - cbn [callers initial]. induction n as [|m IH]; [done|]. cbn [replicate sum_list_with work].
    clear Hs. assert (sum_list_with work (replicate m OIdle) = 5 * m) as ->; [|lia].
    clear IH. induction m as [|m IH]; [done|]. cbn [replicate sum_list_with work]. lia.
Qed.

(** The request that the token endpoint gets is a form from which it reads
    back exactly the client's id and secret, whatever characters they have, and
    the grant type. *)
Theorem token_request_reads_back (m : Mech) :
  Url.Get (token_request m) "client_id" = clientID m ∧
  Url.Get (token_request m) "client_secret" = clientSecret m ∧
  Url.Get (token_request m) "grant_type" = "client_credentials".
Proof.
  unfold token_request. rewrite !Url.Get_Encode by by vm_compute.
  split_and!; by simplify_map_eq.
Qed.

#[local] Arguments valid : simpl never.

Section SequentialFacts.
Context {E : Type} `{Sched E, Http E}.

Lemma now_done (m : Mech) (e e' : E) t :
  time_now e = (t, e') → zoom (S := Mech * E) (state time_now) (m, e) = Done t (m, e').
Proof. intros Hn. unfold zoom, state. cbn. by rewrite Hn. Qed.

Lemma getAccessToken_hit (m : Mech) (e e' : E) t :
  time_now e = (t, e') → valid m t = true →
  getAccessToken (m, e) = Done (inr (accessToken m)) (m, e').
Proof.
  intros Hn Hv. unfold getAccessToken. erewrite bind_done by by apply now_done.
  erewrite bind_done by reflexivity. cbn [fst]. by rewrite Hv.
Qed.

Lemma getAccessToken_miss (m : Mech) (e e1 e2 : E) t1 t2 :
  time_now e = (t1, e1) → time_now e1 = (t2, e2) → valid m t1 = false → valid m t2 = false →
  getAccessToken (m, e) = fetch_and_store m (m, e2).
Proof.
  intros E1 E2 Hv1 Hv2. unfold getAccessToken. erewrite bind_done by by apply now_done.
  erewrite bind_done by reflexivity. cbn [fst]. rewrite Hv1.
  erewrite bind_done by by apply now_done. by rewrite Hv2.
Qed.

(** A stored token is valid until a minute before its end. *)
Lemma store_valid (m : Mech) now token x t :
  token ≠ "" → (0 <= x <= 9223372096)%Z →
  valid (store now token x m) t = (t <? now + (x - 60) * Second)%Z.
Proof.
  intros Hne Hx. unfold valid. cbn [accessToken expiresAt store].
  rewrite (proj2 (String.eqb_neq _ _)) by done. cbn [negb andb]. unfold Second in *.
  by rewrite (int64_small (x - 60)), (int64_small ((x - 60) * _)) by (unfold in_int; lia).
Qed.

(** A single call.  A valid cached token is returned without a request.
    Otherwise one request is sent: if it fails, in any of its ways, the caller gets
    the error and the cache stays as it was; if it succeeds the caller gets its
    token, which is then cached until a minute before it expires, so that every
    call until then returns it without a request; a token that lives less than a
    minute is not cached at all. *)
Theorem token_cached (m : Mech) (e e1 e2 : E) (t1 t2 : Z) :
  time_now e = (t1, e1) → time_now e1 = (t2, e2) →
  if valid m t1 then getAccessToken (m, e) = Done (inr (accessToken m)) (m, e1) else
  valid m t2 = false →
  match fetch m e2 with
  | Done (inl err) e3 => getAccessToken (m, e) = Done (inl err) (m, e3)
  | Done (inr (token, x)) e3 => ∀ t3 e4, time_now e3 = (t3, e4) →
      let m' := store t3 token x m in
      getAccessToken (m, e) = Done (inr token) (m', e4) ∧
      (token ≠ "" → (0 <= x <= 9223372096)%Z → ∀ e5 t e6, time_now e5 = (t, e6) →
       if (t <? t3 + (x - 60) * Second)%Z
       then getAccessToken (m', e5) = Done (inr token) (m', e6)
       else valid m' t = false)
  | _ => False
  end.
Proof.
  intros E1 E2. destruct (valid m t1) eqn:Hv1; [by apply (getAccessToken_hit _ _ _ t1)|].
  intros Hv2. rewrite (getAccessToken_miss m e e1 e2 t1 t2 E1 E2 Hv1 Hv2). unfold fetch_and_store.
  destruct (fetch m e2) as [r e3|?|?|?] eqn:Hf.
  2-4: unfold fetch in Hf; destruct (http_NewRequest _) in Hf; [done|];
    unfold bind, state in Hf; by destruct (http_Do _ _ _) in Hf.
  assert (zoom (S := Mech * E) (fetch m) (m, e2) = Done r (m, e3)) as Hz
    by (unfold zoom; cbn; by rewrite Hf).
  destruct r as [err|[token x]]; [by erewrite bind_done by exact Hz|]. intros t3 e4 E3.
  set (m' := store t3 token x m).
  erewrite bind_done by exact Hz. cbv beta iota. erewrite bind_done by by apply now_done.
  split; [done|]. intros Hne Hx e5 t e6 E5. rewrite <- (store_valid m t3 token x t Hne Hx).
  fold m'. destruct (valid m' t) eqn:Hvt; [|done].
  exact (getAccessToken_hit m' e5 e6 t E5 Hvt).
Qed.

End SequentialFacts.

(** ** Witnesses *)

(** Three callers; one fetches a token for two minutes, the others take it. *)
Definition one_fetch : list event :=
  [ORLock 0; ORLock 1; OCheck 0; OCheck 1; OLock 1; ORecheck 1; OTick 5;
   OReply 1 (inr ("t1", 120%Z)); OLock 0; ORecheck 0; ORLock 2; OCheck 2].

Fixpoint exec_all (evs : list event) (s : OS) : option OS :=
  match evs with
  | [] => Some s
  | ev :: evs' => s' ← exec ev s; exec_all evs' s'
  end.

Lemma exec_all_steps evs s s' : exec_all evs s = Some s' → rtc step s s'.
Proof.
  revert s. induction evs as [|ev evs IH]; cbn; intros s E; [injection E as ->; apply rtc_refl|].
  destruct (exec ev s) as [s1|] eqn:E1; [|done]. eapply rtc_l; [by exists ev|]. by apply IH.
Qed.

Definition served : OS := default (initial 0 "" "" "" 0) (exec_all one_fetch (initial 3 "u" "i" "c" 0)).

Lemma served_steps : rtc step (initial 3 "u" "i" "c" 0) served.
Proof. apply (exec_all_steps one_fetch). vm_compute. reflexivity. Qed.

Example single_flight_witness :
  callers served = [ODone (inr "t1") 5 false; ODone (inr "t1") 5 true; ODone (inr "t1") 5 false] ∧
  ∃ t0 e, (t0, "t1", e) ∈ answers served ∧ (false = false → "t1" ≠ "" ∧ (5 < e)%Z).
Proof.
  split; [vm_compute; reflexivity|].
  destruct (single_flight 3 "u" "i" "c" 0 served served_steps) as (_ & _ & H).
  apply (H 0). vm_compute. reflexivity.
Defined.

Example callers_return_witness :
  sum_list_with work (callers served) = 0 ∧
  sum_list_with work (callers (initial 3 "u" "i" "c" 0)) = 5 * 3.
Proof.
  split; [vm_compute; reflexivity|].
  destruct (callers_return 3 "u" "i" "c" 0 served served_steps) as (_ & _ & H). exact H.
Defined.

#[local] Instance sim_http : Http Sim := {
  http_NewRequest _ := None;
  http_Do _ _ e := (inr (200%Z, inr "t1"), e);
  json_token b := inr (b, 120%Z);
}.

Lemma sim0_now : time_now sim0 = (1000000000%Z, sim0).
Proof. reflexivity. Qed.

Example token_cached_witness :
  let m := store 1000000000 "t1" 120 (NewKafkaOAuthMechanism "u" "i" "c") in
  getAccessToken (NewKafkaOAuthMechanism "u" "i" "c", sim0) = Done (inr "t1") (m, sim0) ∧
  getAccessToken (m, sim0) = Done (inr "t1") (m, sim0).
Proof.
  pose proof (token_cached (NewKafkaOAuthMechanism "u" "i" "c") sim0 sim0 sim0 _ _
    sim0_now sim0_now eq_refl) as H.
  destruct (H 1000000000%Z sim0 sim0_now) as [H1 H2].
  split; [exact H1|].
  exact (H2 ltac:(discriminate) ltac:(lia) sim0 1000000000%Z sim0 sim0_now).
Defined.

End OAuth.
