(* ===== verification/Providers.v ===== *)
(** The construction of the parts from their configuration
    ([internal/pkg/providers], and the constructors of the fx modules): the Kafka
    client with its security settings, the retransmit manager, the handlers.
    [viper.UnmarshalKey] is what each constructor is given: an error or the value
    of the section. *)

From S2P Require Import Prelude Env Sim Compression Session Conn Iface Retransmit Codec.
From S2P Require Import Message Lifecycle OAuth.

Module Kafka.

(** ** Configuration *)

Record ProducerConfig : Type := MkProducerConfig {
  c_RequiredAcks : Z;
  c_Compression : string;
  MaxMessageBytes : Z;
  RetryMax : Z;
  BatchSize : Z;
  BatchTimeout : Z;
  c_WriteTimeout : Z;
  IdempotentEnabled : bool;
}.

Record ConsumerConfig : Type := MkConsumerConfig {
  c_ReadTimeout : Z;
  CommitInterval : Z;
  StartOffset : Z;
  MinBytes : Z;
  MaxBytes : Z;
  MaxWait : Z;
}.

Record OAuthConfig : Type := MkOAuthConfig {
  Endpoint : string;
  ClientID : string;
  ClientSecret : string;
}.

Record SaslConfig : Type := MkSaslConfig {
  Mechanism : string;
  Username : string;
  Password : string;
  OAuthCfg : OAuthConfig;
}.

Record Config : Type := MkConfig {
  Brokers : list string;
  ProducerCfg : ProducerConfig;
  ConsumerCfg : ConsumerConfig;
  CA : string;
  SASL : SaslConfig;
}.

(** ** What kafka-go and crypto/tls are given *)

(** The values of [kafka.Compression] and [kafka.RequiredAcks] by their names. *)
Inductive Compression : Type := NoCompression | Gzip | Snappy | Lz4 | Zstd.
Inductive RequiredAcks : Type := RequireNone | RequireOne | RequireAll.

Definition getKafkaCompression (compression : string) : Compression :=
  if String.eqb compression "gzip" then Gzip
  else if String.eqb compression "snappy" then Snappy
  else if String.eqb compression "lz4" then Lz4
  else if String.eqb compression "zstd" then Zstd
  else NoCompression.

Definition getKafkaRequiredAcks (acks : Z) : RequiredAcks :=
  match acks with
  | -1 => RequireAll
  | 0 => RequireNone
  | 1 => RequireOne
  | _ => RequireAll
  end%Z.

Definition VersionTLS13 : Z := 772.

Record TLSConfig (Pool : Type) : Type := MkTLS {
  MinVersion : Z;
  InsecureSkipVerify : bool;
  RootCAs : Pool;
}.
Arguments MkTLS {Pool} MinVersion InsecureSkipVerify RootCAs.
Arguments MinVersion {Pool} t.
Arguments InsecureSkipVerify {Pool} t.
Arguments RootCAs {Pool} t.

(** The two kinds of [sasl.Mechanism]. *)
Inductive mechanism (Scram : Type) : Type :=
  | MScram (m : Scram)
  | MOAuth (m : OAuth.Mech).
Arguments MScram {Scram} m.
Arguments MOAuth {Scram} m.

(** The kinds of balancer the program uses: messages go to a partition by the hash of
    their key. *)
Inductive Balancer := Hash.

Record Writer (Pool Scram : Type) : Type := MkWriter {
  w_Addr : list string;
  w_Balancer : Balancer;
  w_Compression : Compression;
  w_MaxAttempts : Z;
  w_BatchSize : Z;
  w_BatchTimeout : Z;
  w_ReadTimeout : Z;
  w_WriteTimeout : Z;
  w_RequiredAcks : RequiredAcks;
  w_Async : bool;
  w_TLS : TLSConfig Pool;
  w_SASL : mechanism Scram;
}.
Arguments MkWriter {Pool Scram}.
Arguments w_RequiredAcks {Pool Scram} w.
Arguments w_TLS {Pool Scram} w.
Arguments w_SASL {Pool Scram} w.
Arguments w_Addr {Pool Scram} w.

Record Reader (Pool Scram : Type) : Type := MkReader {
  r_Brokers : list string;
  r_Topic : string;
  r_GroupID : string;
  r_MinBytes : Z;
  r_MaxBytes : Z;
  r_MaxWait : Z;
  r_ReadBackoffMin : Z;
  r_ReadBackoffMax : Z;
  r_CommitInterval : Z;
  r_StartOffset : Z;
  r_DialTimeout : Z;
  r_DualStack : bool;
  r_TLS : TLSConfig Pool;
  r_SASL : mechanism Scram;
}.
Arguments MkReader {Pool Scram}.
Arguments r_Topic {Pool Scram} r.
Arguments r_GroupID {Pool Scram} r.
Arguments r_TLS {Pool Scram} r.
Arguments r_SASL {Pool Scram} r.
Arguments r_Brokers {Pool Scram} r.

Section Operations.
Context {Pool Scram : Type}.
(** crypto/x509 and kafka-go's scram: [AppendCertsFromPEM] on a new pool (no
    pool when it reports false), and the SHA-256 mechanism. *)
Context (cert_pool : string → option Pool) (scram_Mechanism : string → string → error + Scram).

Definition loadKafkaConfig (unmarshal : error + Config) : error + Config :=
  match unmarshal with
  | inl err => inl (errorf_pre "failed to unmarshal kafka config: " err)
  | inr cfg => inr cfg
  end.

Definition configureKafkaTLS (ca : string) : error + TLSConfig Pool :=
  if String.eqb ca "" then inl (EText "CA file is required") else
  match cert_pool ca with
  | None => inl (EText "failed to append CA certificate to pool for kafka")
  | Some pool => inr (MkTLS VersionTLS13 false pool)
  end.

Definition configureKafkaSaslScram (s : SaslConfig) : error + mechanism Scram :=
  if String.eqb (Username s) "" || String.eqb (Password s) "" then
    inl (EText "username and password are required for SCRAM authentication")
  else
    match scram_Mechanism (Username s) (Password s) with
    | inl err => inl (errorf_pre "failed to create SASL/SCRAM mechanism: " err)
    | inr m => inr (MScram m)
    end.

Definition configureKafkaSaslOAuth (o : OAuthConfig) : error + mechanism Scram :=
  if String.eqb (Endpoint o) "" || String.eqb (ClientID o) "" || String.eqb (ClientSecret o) "" then
    inl (EText "token_endpoint, client_id and client_secret are required for OAuth authentication")
  else inr (MOAuth (OAuth.NewKafkaOAuthMechanism (Endpoint o) (ClientID o) (ClientSecret o))).

Definition configureKafkaSasl (s : SaslConfig) : error + mechanism Scram :=
  let m := if String.eqb (Mechanism s) "" then "scram" else Mechanism s in
  if String.eqb m "scram" then configureKafkaSaslScram s
  else if String.eqb m "oauth" then configureKafkaSaslOAuth (OAuthCfg s)
  else inl (EText ("unsupported SASL mechanism: " +:+ m)).

Definition newKafkaClient (unmarshal : error + Config) :
    error + (Writer Pool Scram * (string → string → Reader Pool Scram)) :=
  match loadKafkaConfig unmarshal with
  | inl err => inl err
  | inr cfg =>
      match configureKafkaTLS (CA cfg) with
      | inl err => inl err
      | inr tls =>
          match configureKafkaSasl (SASL cfg) with
          | inl err => inl err
          | inr sasl =>
              let p := ProducerCfg cfg in
              let c := ConsumerCfg cfg in
              let writer acks := MkWriter (Brokers cfg) Hash (getKafkaCompression (c_Compression p))
                (RetryMax p) (BatchSize p) (BatchTimeout p) (c_ReadTimeout c) (c_WriteTimeout p)
                acks false tls sasl in
              inr (writer (if IdempotentEnabled p then RequireAll
                           else getKafkaRequiredAcks (c_RequiredAcks p)),
                   λ topic groupId,
                     MkReader (Brokers cfg) topic groupId (MinBytes c) (MaxBytes c) (MaxWait c)
                       (100 * Millisecond) (1 * Second) (CommitInterval c) (StartOffset c)
                       (10 * Second) true tls sasl)
          end
      end
  end.

End Operations.

End Kafka.

(** ** The other constructors *)

Section Constructors.
Context {M : Type → Type} {W E : Type} `{SyncMap M, SynpConn W, Part W E, Sched E, Redis E, Kafka E}.
Context {PB : Protobuf Message AckPayload PushMessage}.

(** [newRetransmitManager]: [Interval] in milliseconds and [MaxRetry], both [int]. *)
Definition newRetransmitManager (unmarshal : error + (Z * Z)) (push : PushFunc W) :
    error + Manager M W :=
  match unmarshal with
  | inl err => inl err
  | inr (interval, maxRetry) =>
      inr (NewManager (int64 (interval * Millisecond)) (int32 maxRetry) (Some push))
  end.

(** [newFrontendMsgHandler]: topic and [OnReceiveTimeout] in milliseconds. *)
Definition newFrontendMsgHandler (unmarshal : error + (string * Z)) (push : PushFunc W) :
    go unit (UMsgHandler (RTS M W)) :=
  match unmarshal with
  | inl _ => panic
  | inr (topic, timeout) => ret (NewFrontendMsgHandler topic (int64 (timeout * Millisecond)) push)
  end.

(** [newConnLcHandler] of the dispatcher's module. *)
Definition newConnLcHandler {S : Type} (unmarshal : error + (Z * Z)) (codec : Codec)
    (us : list (UMsgHandler S)) (d : DMsgHandler S) : error + LcHandler S :=
  match unmarshal with
  | inl err => inl err
  | inr (timeout, expiration) => inr (NewLcHandler timeout expiration codec us d)
  end.

End Constructors.

(** * Properties *)

Section Facts.
Context {Pool Scram : Type}.
Context (cert_pool : string → option Pool) (scram_Mechanism : string → string → error + Scram).
Abbreviation newKafkaClient := (Kafka.newKafkaClient cert_pool scram_Mechanism).

(** The mechanism is the one the configuration names, with its credentials. *)
Definition authenticates (s : Kafka.SaslConfig) (sasl : Kafka.mechanism Scram) : Prop :=
  match sasl with
  | Kafka.MScram m => Kafka.Mechanism s ∈ [""; "scram"] ∧
      scram_Mechanism (Kafka.Username s) (Kafka.Password s) = inr m ∧
      Kafka.Username s ≠ "" ∧ Kafka.Password s ≠ ""
  | Kafka.MOAuth m => Kafka.Mechanism s = "oauth" ∧ OAuth.accessToken m = "" ∧
      OAuth.endpoint m = Kafka.Endpoint (Kafka.OAuthCfg s) ∧
      OAuth.clientID m = Kafka.ClientID (Kafka.OAuthCfg s) ∧
      OAuth.clientSecret m = Kafka.ClientSecret (Kafka.OAuthCfg s) ∧
      OAuth.endpoint m ≠ "" ∧ OAuth.clientID m ≠ "" ∧ OAuth.clientSecret m ≠ ""
  end.

Lemma scram_spec s m :
  Kafka.configureKafkaSaslScram scram_Mechanism s = inr m → Kafka.Mechanism s ∈ [""; "scram"] →
  authenticates s m.
Proof.
  unfold Kafka.configureKafkaSaslScram. intros Hm Hin.
  destruct (String.eqb_spec (Kafka.Username s) ""); [done|].
  destruct (String.eqb_spec (Kafka.Password s) ""); [done|]. cbn in Hm.
  destruct (scram_Mechanism _ _) eqn:Hs; [done|]. injection Hm as <-. by split_and!.
Qed.

Lemma sasl_spec s m : Kafka.configureKafkaSasl scram_Mechanism s = inr m → authenticates s m.
Proof.
  unfold Kafka.configureKafkaSasl. destruct (String.eqb_spec (Kafka.Mechanism s) "") as [Hn|Hn].
  { intros Hm. apply scram_spec; [exact Hm|]. rewrite Hn. by left. }
  destruct (String.eqb_spec (Kafka.Mechanism s) "scram") as [Hs|_].
  { intros Hm. apply scram_spec; [exact Hm|]. rewrite Hs. by right; left. }
  destruct (String.eqb_spec (Kafka.Mechanism s) "oauth") as [Ho|_]; [|done].
  unfold Kafka.configureKafkaSaslOAuth. set (o := Kafka.OAuthCfg s).
  destruct (String.eqb_spec (Kafka.Endpoint o) ""); [done|].
  destruct (String.eqb_spec (Kafka.ClientID o) ""); [done|].
  destruct (String.eqb_spec (Kafka.ClientSecret o) ""); [done|].
  cbn [orb]. intros [= <-]. by split_and!.
Qed.

Lemma acks_spec a : Kafka.getKafkaRequiredAcks a ≠ Kafka.RequireAll ↔ a ∈ [0; 1]%Z.
Proof.
  rewrite !elem_of_cons, elem_of_nil. unfold Kafka.getKafkaRequiredAcks.
  destruct a as [|[]|[]]; split; try done; try (intros [|[|]]; lia); tauto.
Qed.

(** C36. Kafka is never talked to in the clear or without credentials: a client is
    made only with certificates read from the configured authority, and then its
    writer and every reader it makes use TLS 1.3 or later, check the
    certificate against them, and authenticate with one and the same mechanism, made
    from non-empty credentials by the method the configuration names (SCRAM if
    it names none); a mechanism of another name gives no client.  Writes wait
    for all replicas unless the configuration asks for less without asking for
    idempotence. *)
Theorem kafka_client_secured (unmarshal : error + Kafka.Config) w mk :
  newKafkaClient unmarshal = inr (w, mk) →
  ∃ cfg pool, unmarshal = inr cfg ∧ Kafka.CA cfg ≠ "" ∧ cert_pool (Kafka.CA cfg) = Some pool ∧
    Kafka.w_TLS w = Kafka.MkTLS Kafka.VersionTLS13 false pool ∧
    (∀ t g, Kafka.r_TLS (mk t g) = Kafka.w_TLS w ∧ Kafka.r_SASL (mk t g) = Kafka.w_SASL w ∧
       Kafka.r_Topic (mk t g) = t ∧ Kafka.r_GroupID (mk t g) = g ∧
       Kafka.r_Brokers (mk t g) = Kafka.w_Addr w) ∧
    authenticates (Kafka.SASL cfg) (Kafka.w_SASL w) ∧
    (Kafka.w_RequiredAcks w ≠ Kafka.RequireAll ↔
     Kafka.IdempotentEnabled (Kafka.ProducerCfg cfg) = false ∧
     Kafka.c_RequiredAcks (Kafka.ProducerCfg cfg) ∈ [0; 1]%Z).
Proof.
  unfold Kafka.newKafkaClient, Kafka.loadKafkaConfig. destruct unmarshal as [|cfg]; [done|].
  unfold Kafka.configureKafkaTLS.
  destruct (String.eqb_spec (Kafka.CA cfg) ""); [done|].
  destruct (cert_pool (Kafka.CA cfg)) as [pool|] eqn:Hp; [|done].
  destruct (Kafka.configureKafkaSasl _ _) as [|sasl] eqn:Hs; [done|]. intros [= <- <-].
  exists cfg, pool. split_and!; try done; cbn [Kafka.w_SASL Kafka.w_RequiredAcks].
  - by apply sasl_spec.
  - destruct (Kafka.IdempotentEnabled _); [by split; [|intros [? _]]|]. rewrite acks_spec. tauto.
Qed.

End Facts.

Section Settings.
Context {M : Type → Type} {W : Type} `{SyncMap M, SynpConn W}.

(** What the configuration makes of the retransmit manager.  An interval that fits
    and a positive 32-bit number of retries are taken as they are; a missing or
    non-positive one gives 8 seconds and 3; of a larger number only the low 32
    bits count. *)
Theorem retransmit_settings (interval maxRetry : Z) (push : PushFunc W) :
  ∃ m : Manager M W, newRetransmitManager (inr (interval, maxRetry)) push = inr m ∧
    taskFunc m = push ∧ closed m = false ∧
    (in_int 64 (interval * Millisecond) →
       retryInterval m = if (interval <=? 0)%Z then (8 * Second)%Z else (interval * Millisecond)%Z) ∧
    (in_int 32 maxRetry → maxRetryCnt m = if (maxRetry <=? 0)%Z then 3%Z else maxRetry) ∧
    newRetransmitManager (M := M) (inr (interval, maxRetry + 2 ^ 32)%Z) push
    = newRetransmitManager (inr (interval, maxRetry)) push.
Proof.
  eexists. split; [reflexivity|]. cbn. split_and!; try done.
  - intros Hi. rewrite int64_small by done. unfold Millisecond.
    destruct (Z.leb_spec interval 0), (Z.leb_spec (interval * 1000000) 0); try done; lia.
  - intros Hm. by rewrite int32_small.
  - assert (int32 (maxRetry + 2 ^ 32) = int32 maxRetry) as Hw.
    { unfold wrap.
      replace (maxRetry + 2 ^ 32 + 2 ^ (32 - 1))%Z with (maxRetry + 2 ^ (32 - 1) + 1 * 2 ^ 32)%Z by lia.
      by rewrite Z.mod_add. }
    unfold newRetransmitManager. by rewrite Hw.
Qed.

End Settings.

(** ** Witnesses *)

(** [kafka.yaml], its certificate read as a pool of one. *)
Definition kafka_yaml : Kafka.Config :=
  Kafka.MkConfig ["192.168.3.3:19092"; "192.168.3.3:29092"; "192.168.3.3:39092"]
    (Kafka.MkProducerConfig (-1) "snappy" 1024000 3 100 (10 * Millisecond) (10 * Second) true)
    (Kafka.MkConsumerConfig (10 * Second) (1 * Second) (-1) 1 10000000 (500 * Millisecond))
    "-----BEGIN CERTIFICATE-----"
    (Kafka.MkSaslConfig "oauth" "" ""
       (Kafka.MkOAuthConfig "http://192.168.3.3:18080/token" "kafka-client" "secret")).

Example kafka_client_secured_witness :
  ∃ w mk, Kafka.newKafkaClient Some (λ _ _, inl (EText "no scram")) (inr kafka_yaml) = inr (w, mk) ∧
    Kafka.w_TLS w = Kafka.MkTLS Kafka.VersionTLS13 false "-----BEGIN CERTIFICATE-----" ∧
    authenticates (λ _ _, @inl error unit (EText "no scram")) (Kafka.SASL kafka_yaml) (Kafka.w_SASL w).
Proof.
  destruct (Kafka.newKafkaClient Some (λ _ _, @inl error unit (EText "no scram")) (inr kafka_yaml))
    as [e|[w mk]] eqn:E; [vm_compute in E; discriminate E|].
  exists w, mk. split; [reflexivity|].
  destruct (kafka_client_secured _ _ (inr kafka_yaml) w mk E)
    as (cfg & pool & [= <-] & _ & [= <-] & Ht & _ & Hs & _).
  by split.
Defined.
