(* ===== verification/Upgrader.v ===== *)
(** The upgrade of a network connection to a WebSocket connection
    ([internal/ws/upgrader.go], [internal/pkg/auth/jwt_validator.go]): token,
    device and user from the request, the session, the compression. *)

From S2P Require Import Prelude Env Sim Session Compression Url.
From Stdlib Require Import Ascii.

(** [JwtValidator.Validate], on what the manager decrypts: business and user id. *)
Definition JwtValidator_Validate {E : Type} (decrypt : string → go E (error + (N * N)))
    (token : string) : go E (error + User) :=
  r <- decrypt token ;;
  match r with
  | inl err => ret (inl err)
  | inr (biz, user) => ret (inr (MkUser biz user "" false))
  end.

Section Extract.
(** Which authorities [url.Parse] accepts. *)
Context (authority_ok : string → bool).

Definition extractToken (uri : bytes) : error + string :=
  match Url.Parse authority_ok uri with
  | None => inl (ESentinel ErrInvalidURI)
  | Some query =>
      let token := Url.Get query "token" in
      if String.eqb token "" then inl (ESentinel ErrTokenRequired) else inr token
  end.

Definition extractDevice (uri : bytes) : string :=
  match Url.Parse authority_ok uri with
  | None => DeviceUnknown
  | Some query =>
      let device := Url.Get query "device" in
      if String.eqb device "" then DeviceUnknown
      else if String.eqb device DeviceMobile || String.eqb device DeviceTablet
              || String.eqb device DevicePC then device
      else DeviceUnknown
  end.

Definition set_device (d : string) (u : User) : User :=
  MkUser (BID u) (UID u) d (AutoClose u).
Definition set_autoClose (b : bool) (u : User) : User :=
  MkUser (BID u) (UID u) (UDevice u) b.

Context {E : Type} (validate : string → go E (error + User)).

Definition extractUserInfo (uri : bytes) : go E (error + User) :=
  match extractToken uri with
  | inl err => ret (inl err)
  | inr token =>
      r <- validate token ;;
      match r with
      | inl err => ret (inl (errorf_pair (ESentinel ErrInvalidToken) err))
      | inr user => ret (inr (set_device (extractDevice uri) user))
      end
  end.

End Extract.

(** [strings.EqualFold(key, name)] for a lower-case ASCII name: ASCII letters fold to
    lower case, the long s (U+017F) to s, the Kelvin sign (U+212A) to k. *)
Fixpoint fold (s : string) : string :=
  match s with
  | EmptyString => ""
  | String a s' =>
      if Url.in_range a "A" "Z" then String (ascii_of_nat (nat_of_ascii a + 32)) (fold s')
      else
        match s' with
        | String b s'' =>
            if (nat_of_ascii a =? 197)%nat && (nat_of_ascii b =? 191)%nat then String "s" (fold s'')
            else
              match s'' with
              | String c s3 =>
                  if (nat_of_ascii a =? 226)%nat && (nat_of_ascii b =? 132)%nat
                     && (nat_of_ascii c =? 170)%nat
                  then String "k" (fold s3) else String a (fold s')
              | EmptyString => String a (fold s')
              end
        | EmptyString => String a ""
        end
  end.

Definition is_auto_close (key : string) : bool := String.eqb (fold key) "x-auto-close".

(** ** The handshake *)

(** wsflate: an extension made from parameters, its negotiation of an option, and
    what was accepted. *)
Class Wsflate (X Opt : Type) := {
  ext_new : Parameters → X;
  ext_Negotiate : Opt → X → (error + Opt) * X;
  ext_Accepted : X → Parameters * bool;
  opt_zero : Opt;
}.

(** The variables of [Upgrade] that its callbacks share, and the environment. *)
Record UpState (X E : Type) : Type := MkUp {
  up_user : User;
  up_sess : option Session;
  up_autoClose : bool;
  up_ext : option X;
  up_env : E;
}.
Arguments MkUp {X E} up_user up_sess up_autoClose up_ext up_env.
Arguments up_user {X E} u.
Arguments up_sess {X E} u.
Arguments up_autoClose {X E} u.
Arguments up_ext {X E} u.
Arguments up_env {X E} u.

#[export] Instance up_part {X E : Type} : Part (UpState X E) E := {
  part_get := up_env;
  part_set e s := MkUp (up_user s) (up_sess s) (up_autoClose s) (up_ext s) e;
}.

(** What a client sends on a connection: the target of its request and those headers
    that the library passes to [OnHeader] (it reads [Host], [Upgrade] and the like
    itself), in their order; none if it sends no such request. *)
Class Requests (E : Type) := request_on : nat → E → option (bytes * list (string * bytes)).

(** The callbacks of [ws.Upgrader]. *)
Record Callbacks (Opt St : Type) : Type := MkCallbacks {
  Negotiate : Opt → go St (error + Opt);
  OnRequest : bytes → go St (option error);
  OnHeader : string → bytes → go St (option error);
  OnBeforeUpgrade : go St (option error);
}.
Arguments MkCallbacks {Opt St} Negotiate OnRequest OnHeader OnBeforeUpgrade.
Arguments Negotiate {Opt St} c opt.
Arguments OnRequest {Opt St} c uri.
Arguments OnHeader {Opt St} c key value.
Arguments OnBeforeUpgrade {Opt St} c.

Section Upgrade.
Context {X Opt E : Type} `{Wsflate X Opt, Sched E, Redis E, Requests E}.
Context (format_time : Z → string) (WindowBits : Z → Z) (authority_ok : string → bool).
Context (validate : string → go E (error + User)) (config : Compression.Config).

Abbreviation St := (UpState X E).

Definition callbacks : Callbacks Opt St := MkCallbacks
  (λ opt, s <- get ;;
     match up_ext s with
     | Some x =>
         let '(r, x') := ext_Negotiate opt x in
         modify (λ s, MkUp (up_user s) (up_sess s) (up_autoClose s) (Some x') (up_env s)) ;;; ret r
     | None => ret (inr opt_zero)
     end)
  (λ uri, r <- zoom (extractUserInfo authority_ok validate uri) ;;
     match r with
     | inl err =>
         modify (λ s, MkUp (MkUser 0 0 "" false) (up_sess s) (up_autoClose s) (up_ext s) (up_env s)) ;;;
         ret (Some err)
     | inr user =>
         modify (λ s, MkUp user (up_sess s) (up_autoClose s) (up_ext s) (up_env s)) ;;; ret None
     end)
  (λ key value,
     when (is_auto_close key)
       (modify (λ s, MkUp (up_user s) (up_sess s) (String.eqb value "true") (up_ext s) (up_env s))) ;;;
     ret None)
  (modify (λ s, MkUp (set_autoClose (up_autoClose s) (up_user s)) (up_sess s) (up_autoClose s)
                  (up_ext s) (up_env s)) ;;;
   s <- get ;;
   let! (created, _, err) := zoom (Build format_time (up_user s)) in
   match err with
   | Some e => ret (Some e)
   | None =>
       modify (λ s, MkUp (up_user s) created (up_autoClose s) (up_ext s) (up_env s)) ;;; ret None
   end).

(** [ws.Upgrader.Upgrade(conn)] with the callbacks. *)
Context (ws_Upgrade : Callbacks Opt St → nat → go St (option error)).

(** The variables at the start; [ext] is nil without compression. *)
Definition up_init (e : E) : St :=
  MkUp (MkUser 0 0 "" false) None false
    (if Enabled config then Some (ext_new (ToParamters WindowBits config)) else None) e.

Definition Upgrade (conn : nat) : go E (error + (Session * option State)) := λ e,
  match ws_Upgrade callbacks conn (up_init e) with
  | Done (Some err) s => Done (inl err) (up_env s)
  | Done None s =>
      let state := MkState false None None in
      let negotiated :=
        match up_ext s with
        | Some x =>
            let '(params, accepted) := ext_Accepted x in
            if accepted then MkState true (Some (MkExtension (ToParamters WindowBits config))) (Some params)
            else state
        | None => state
        end in
      match up_sess s with
      | Some sess => Done (inr (sess, Some negotiated)) (up_env s)
      | None => Panicked (up_env s)
      end
  | Blocked s => Blocked (up_env s)
  | Panicked s => Panicked (up_env s)
  | NoFuel s => NoFuel (up_env s)
  end.

(** What the library does before it reports success: it reads the request of the
    connection, calls [OnRequest] with its target, then [OnHeader] for each of its
    headers and [Negotiate] for each offered extension, then [OnBeforeUpgrade]; all
    of them succeed, and between them only the environment changes. *)
Inductive heard : list (string * bytes) → St → St → Prop :=
  | heard_end s : heard [] s s
  | heard_env hs s e s' : heard hs (part_set e s) s' → heard hs s s'
  | heard_header hs k v s s1 s' : OnHeader callbacks k v s = Done None s1 → heard hs s1 s' →
      heard ((k, v) :: hs) s s'
  | heard_option hs o r s s1 s' : Negotiate callbacks o s = Done (inr r) s1 → heard hs s1 s' →
      heard hs s s'.

Definition handshake (uri : bytes) (hs : list (string * bytes)) (s s' : St) : Prop :=
  ∃ e1 s1 s2 s3 e4, OnRequest callbacks uri (part_set e1 s) = Done None s1 ∧
    heard hs s1 s2 ∧ OnBeforeUpgrade callbacks s2 = Done None s3 ∧ s' = part_set e4 s3.

Class WsUpgradeSpec : Prop :=
  ws_Upgrade_calls conn s s' : ws_Upgrade callbacks conn s = Done None s' →
    ∃ uri hs, request_on conn (up_env s) = Some (uri, hs) ∧ handshake uri hs s s'.

(** * Lemmas and properties *)

(** The value of the last auto-close header. *)
Definition auto_close_of (hs : list (string * bytes)) (b : bool) : bool :=
  fold_left (λ b h, if String.eqb (fold h.1) "x-auto-close" then String.eqb h.2 "true" else b) hs b.

Lemma heard_spec hs s s' :
  heard hs s s' → up_user s' = up_user s ∧ up_sess s' = up_sess s ∧
    up_autoClose s' = auto_close_of hs (up_autoClose s) ∧
    (up_ext s = None → up_ext s' = None).
Proof.
  induction 1 as [s|hs s e s' _ IH|hs k v s s1 s' Eh _ IH|hs o r s s1 s' En _ IH]; [done|done| |].
  - cbn in Eh. unfold bind, when in Eh. cbn [auto_close_of fold_left fst snd].
    unfold is_auto_close in Eh. destruct (String.eqb (fold k) _); injection Eh as <-; exact IH.
  - cbn in En. unfold bind in En. cbn in En. destruct (up_ext s) as [x|] eqn:Hx; [|by injection En as _ <-; rewrite Hx in *].
    destruct (ext_Negotiate o x) as [r' x']. injection En as _ <-. cbn in IH.
    destruct IH as (? & ? & ? & ?). by split_and!.
Qed.

Lemma extractDevice_known uri :
  extractDevice authority_ok uri ∈ [DeviceMobile; DeviceTablet; DevicePC; DeviceUnknown].
Proof.
  unfold extractDevice. destruct (Url.Parse authority_ok uri) as [q|]; [|set_solver].
  destruct (String.eqb (Url.Get q "device") ""); [set_solver|].
  destruct (String.eqb_spec (Url.Get q "device") DeviceMobile) as [->|]; [set_solver|].
  destruct (String.eqb_spec (Url.Get q "device") DeviceTablet) as [->|]; [set_solver|].
  destruct (String.eqb_spec (Url.Get q "device") DevicePC) as [->|]; set_solver.
Qed.

Lemma Build_session u (e : E) created isnew err e' :
  Build format_time u e = Done (created, isnew, err) e' →
  created = match err with None => Some (newSession u) | Some _ => None end.
Proof.
  unfold Build. intros (r & e1 & _ & Hr)%bind_done_inv. destruct r as [err'|].
  - destruct (error_is err' ErrSessionExists); by injection Hr as <- _ <- _.
  - by injection Hr as <- _ <- _.
Qed.

(** C28. Who a connection belongs to.  If the upgrade of a connection succeeds, its
    client has sent a request, and the session is that of the user whom the validator
    read from the token in that request's target, on the device the target names (one
    of the four known device names), with auto-close set exactly if the last
    [x-auto-close] header of that request, in any letter case, says [true]; and
    compression is reported only if it is configured and was accepted. *)
Theorem Upgrade_identity {WS : WsUpgradeSpec} (conn : nat) (e e' : E) (ses : Session) (st : option State) :
  Upgrade conn e = Done (inr (ses, st)) e' →
  ∃ uri hs token v e1 e2,
    request_on conn e = Some (uri, hs) ∧
    extractToken authority_ok uri = inr token ∧ token ≠ "" ∧
    validate token e1 = Done (inr v) e2 ∧
    sess_user ses = MkUser (BID v) (UID v) (extractDevice authority_ok uri) (auto_close_of hs false) ∧
    sess_key ses = SessionKey (sess_user ses) ∧
    UDevice (sess_user ses) ∈ [DeviceMobile; DeviceTablet; DevicePC; DeviceUnknown] ∧
    (∀ state, st = Some state → st_Enabled state = true → Enabled config = true).
Proof.
  unfold Upgrade. destruct (ws_Upgrade callbacks conn (up_init e)) as [[err|] s|s|s|s] eqn:Ew; try done.
  destruct (ws_Upgrade_calls _ _ _ Ew) as (uri & hs & Hon & e1 & s1 & s2 & s3 & e4 & Hreq & Hheard & Hbef & ->).
  cbn [part_set up_part up_ext up_sess up_env].
  destruct (up_sess s3) as [ses'|] eqn:Hses; [|done]. intros E'.
  assert (ses' = ses ∧ st = Some (match up_ext s3 with
    | Some x => let '(params, accepted) := ext_Accepted x in
        if accepted then MkState true (Some (MkExtension (ToParamters WindowBits config))) (Some params)
        else MkState false None None
    | None => MkState false None None end)) as [-> Hst] by by injection E' as -> <- _.
  clear E'. cbn in Hreq. apply bind_done_inv in Hreq as (r & s1' & Hz & Hreq).
  unfold zoom in Hz. cbn in Hz. unfold extractUserInfo in Hz.
  destruct (extractToken authority_ok uri) as [err|token] eqn:Htok.
  { cbn in Hz. injection Hz as <- _. done. }
  destruct ((r <- validate token ;; match r with
    | inl err => ret (inl (errorf_pair (ESentinel ErrInvalidToken) err))
    | inr user => ret (inr (set_device (extractDevice authority_ok uri) user)) end) e1)
    as [r' e2|?|?|?] eqn:Hv; try done.
  injection Hz as <- <-. apply bind_done_inv in Hv as (rv & e3 & Hval & Hv).
  destruct rv as [err|v]; injection Hv as <- <-; [done|].
  cbn in Hreq. injection Hreq as <-.
  apply heard_spec in Hheard as (Hu & _ & Hauto & Hext). cbn in Hu, Hauto.
  cbn [OnBeforeUpgrade callbacks] in Hbef. apply bind_done_inv in Hbef as ([] & s4 & Hm & Hbef). injection Hm as <-.
  apply bind_done_inv in Hbef as (s5 & s6 & Hg & Hbef). injection Hg as <- <-.
  apply bind_done_inv in Hbef as ([[created isnew] err] & s7 & Hz & Hbef).
  unfold zoom in Hz. cbn in Hz.
  destruct (Build format_time _ (up_env s2)) as [[[c i] er] e5|?|?|?] eqn:Hb; try done.
  injection Hz as -> -> -> <-. destruct err as [err|]; [done|].
  pose proof (Build_session _ _ _ _ _ _ Hb) as ->. injection Hbef as <-. cbn in Hses.
  injection Hses as <-. cbn [sess_user sess_key newSession].
  rewrite Hu, Hauto. exists uri, hs, token, v, e1, e3.
  split_and!; try done.
  - unfold extractToken in Htok. destruct (Url.Parse _ _); [|done].
    destruct (String.eqb_spec (Url.Get s "token") ""); [done|]. by injection Htok as <-.
  - cbn. apply extractDevice_known.
  - intros state -> Hen. injection Hst as ->. cbn in Hen.
    destruct (Enabled config) eqn:Hcfg; [done|]. exfalso.
    rewrite Hext in Hen by done. discriminate Hen.
Qed.

End Upgrade.

(** Reading the request. From a target made of a path, a token and a device of
    unreserved characters, the token is read back as it is, and the device if it is
    a known one, otherwise [unknown].  Without a token, with an unreadable
    target, or with a token the validator refuses, there is no user: the error is
    [ErrTokenRequired], [ErrInvalidURI], or [ErrInvalidToken] together with the
    validator's own. *)
Theorem request_user {E : Type} (authority_ok : string → bool)
    (validate : string → go E (error + User)) (path token device uri : string) (e : E) :
  (Url.Parse authority_ok uri = None →
     extractUserInfo authority_ok validate uri e = Done (inl (ESentinel ErrInvalidURI)) e) ∧
  (∀ query, Url.Parse authority_ok uri = Some query → Url.Get query "token" = "" →
     extractUserInfo authority_ok validate uri e = Done (inl (ESentinel ErrTokenRequired)) e) ∧
  (∀ err e', extractToken authority_ok uri = inr token → validate token e = Done (inl err) e' →
     ∃ err', extractUserInfo authority_ok validate uri e = Done (inl err') e' ∧
       ∀ t, error_is err' t = bool_decide (ErrInvalidToken = t) || error_is err t) ∧
  (string_forall Url.plain path = true → string_forall Url.plain token = true →
   string_forall Url.plain device = true → token ≠ "" →
   let target := String "/" (path +:+ "?token=" +:+ token +:+ "&device=" +:+ device) in
   extractToken authority_ok target = inr token ∧
   extractDevice authority_ok target =
     if bool_decide (device ∈ [DeviceMobile; DeviceTablet; DevicePC]) then device else DeviceUnknown).
Proof.
  split_and!.
  - intros Hp. unfold extractUserInfo, extractToken. by rewrite Hp.
  - intros query Hp Ht. unfold extractUserInfo, extractToken. by rewrite Hp, Ht.
  - intros err e' Ht Hv. unfold extractUserInfo. rewrite Ht. erewrite bind_done by exact Hv.
    eexists. split; [reflexivity|]. intros t. by rewrite error_is_pair.
  - intros Hp Ht Hd Hne. cbn zeta.
    set (query := "token" +:+ "=" +:+ token +:+ "&" +:+ "device" +:+ "=" +:+ device).
    assert (Url.Parse authority_ok
      (String "/" (path +:+ "?token=" +:+ token +:+ "&device=" +:+ device)) = Some query) as Hparse.
    { apply (Url.Parse_target authority_ok path query Hp); unfold query.
      - by rewrite !string_forall_app, (Url.plain_no_ctl token Ht), (Url.plain_no_ctl device Hd).
      - by rewrite !Url.contains_app, (Url.contains_plain "#" token Ht eq_refl),
          (Url.contains_plain "#" device Hd eq_refl). }
    assert (∀ key, Url.Get query key = if decide ("token" = key) then token
      else if decide ("device" = key) then device else "") as Hget
      by (intros key; by apply Url.Get_pairs).
    unfold extractToken, extractDevice. rewrite Hparse, (Hget "token"), (Hget "device").
    rewrite !(decide_True (P := ?[k] = ?k)) by done. rewrite decide_False by done. cbv zeta.
    split; [by rewrite (proj2 (String.eqb_neq _ _))|].
    destruct (String.eqb_spec device "") as [->|]; [done|].
    destruct (String.eqb_spec device DeviceMobile) as [->|]; [done|].
    destruct (String.eqb_spec device DeviceTablet) as [->|]; [done|].
    destruct (String.eqb_spec device DevicePC) as [->|]; [done|].
    rewrite bool_decide_eq_false_2; [done|]. rewrite !elem_of_cons, elem_of_nil. tauto.
Qed.

(** ** Witnesses *)

(** The client of connection 5 sends a token and a device, and asks for auto-close
    after having declined it; no other client sends anything. *)
Definition request_uri : bytes := "/ws?token=t42&device=pc".

#[local] Instance sim_requests : Requests Sim := λ conn _,
  if (conn =? 5)%nat
  then Some (request_uri, [("x-auto-close", "false"); ("Origin", "app"); ("X-Auto-Close", "true")])
  else None.

(** A library that passes the headers on one by one and knows no extension. *)
Fixpoint sim_headers (cb : Callbacks unit (UpState unit Sim)) (hs : list (string * bytes)) :
    go (UpState unit Sim) (option error) :=
  match hs with
  | [] => OnBeforeUpgrade cb
  | (k, v) :: hs' =>
      err <- OnHeader cb k v ;;
      match err with Some e => ret (Some e) | None => sim_headers cb hs' end
  end.

Definition sim_ws (cb : Callbacks unit (UpState unit Sim)) (conn : nat) :
    go (UpState unit Sim) (option error) :=
  request <- gets (λ s, request_on conn (up_env s)) ;;
  match request with
  | None => ret (Some (ESentinel IoEOF))
  | Some (uri, hs) =>
      err <- OnRequest cb uri ;;
      match err with Some e => ret (Some e) | None => sim_headers cb hs end
  end.

#[local] Instance sim_wsflate : Wsflate unit unit := {
  ext_new _ := tt;
  ext_Negotiate o x := (inr o, x);
  ext_Accepted _ := (MkParameters 15 false 15 false, true);
  opt_zero := tt;
}.

Definition sim_validate : string → go Sim (error + User) :=
  JwtValidator_Validate (λ t, ret (if String.eqb t "t42" then inr (7, 42)%N else inl sim_refused)).

Definition sim_compression : Compression.Config := Compression.MkConfig true 15 false 15 false 6.

Abbreviation sim_callbacks := (callbacks sim_format (λ _, true) sim_validate).

Lemma sim_headers_heard hs s s' :
  sim_headers sim_callbacks hs s = Done None s' →
  ∃ s2, heard (X := unit) (Opt := unit) sim_format (λ _, true) sim_validate hs s s2 ∧
    OnBeforeUpgrade sim_callbacks s2 = Done None s'.
Proof.
  revert s. induction hs as [|[k v] hs IH]; intros s; cbn [sim_headers].
  - intros E'. exists s. split; [apply heard_end|done].
  - intros ([err|] & s1 & E1 & E')%bind_done_inv; [done|].
    destruct (IH s1 E') as (s2 & Hh & E2). exists s2. split; [by eapply heard_header|done].
Qed.

Lemma sim_ws_spec : WsUpgradeSpec (X := unit) (Opt := unit) sim_format (λ _, true) sim_validate sim_ws.
Proof.
  intros conn s s'. unfold sim_ws. intros (r & s0 & [= <- <-] & E')%bind_done_inv.
  destruct (request_on conn (up_env s)) as [[uri hs]|]; [|done]. exists uri, hs. split; [done|].
  apply bind_done_inv in E' as ([err|] & s1 & E1 & E'); [done|].
  destruct (sim_headers_heard hs s1 s' E') as (s2 & Hh & E2).
  exists (up_env s), s1, s2, s', (up_env s').
  split_and!; [by destruct s|done|done|by destruct s'].
Qed.

Definition sim_upgrade : nat → go Sim (error + (Session * option State)) :=
  Upgrade sim_format (λ z, z mod 256)%Z (λ _, true) sim_validate sim_compression sim_ws.

Example Upgrade_identity_witness :
  ∃ ses st e', sim_upgrade 5 sim0 = Done (inr (ses, st)) e' ∧
    sess_user ses = MkUser 7 42 DevicePC true ∧ AutoClose (sess_user ses) = true.
Proof.
  destruct (sim_upgrade 5 sim0) as [[err|[ses st]] e'|?|?|?] eqn:E';
    try (apply (f_equal result) in E'; vm_compute in E'; discriminate E').
  exists ses, st, e'. split; [reflexivity|]. split.
  - apply (f_equal result) in E'. vm_compute in E'. injection E' as <- _. reflexivity.
  - destruct (Upgrade_identity _ _ _ _ _ _ (WS := sim_ws_spec) 5 sim0 e' ses st E')
      as (uri & hs & token & v & e1 & e2 & Hon & _ & _ & _ & Hu & _).
    rewrite Hu. vm_compute in Hon. injection Hon as _ <-. reflexivity.
Defined.

Example request_user_witness :
  extractToken (λ _, true) request_uri = inr "t42" ∧ extractDevice (λ _, true) request_uri = "pc".
Proof.
  destruct (request_user (λ _, true) sim_validate "ws" "t42" "pc" request_uri sim0)
    as (_ & _ & _ & H).
  exact (H eq_refl eq_refl eq_refl ltac:(discriminate)).
Defined.
