(* ===== verification/Wiring.v ===== *)
(** The program as a whole ([cmd/main.go], [internal/app/app.go], the modules and
    the remaining constructors of [internal/pkg/providers], [internal/ws] and
    [internal/ws/conn]): the configuration files, the declarations main hands to
    the fx container, what each constructor makes of its section of the
    configuration, and the hooks that start and stop the application.

    viper, fx, zap, the JWT library and the Redis client are parameters. *)

From S2P Require Import Prelude Env Sim Session Compression Conn ConnManager Iface Retransmit.
From S2P Require Import Limiter Codec Xmq Gateway Message Lifecycle Server App Delivery Upgrader.
From S2P Require Import OAuth Providers.

(** ** The configuration files ([loadConfig]) *)

(** The operations of viper on its global state. *)
Class Viper (V : Type) := {
  viper_AddConfigPath : string → V → V;
  viper_SetConfigType : string → V → V;
  viper_SetConfigName : string → V → V;
  viper_ReadInConfig : V → option error * V;
  viper_MergeInConfig : V → option error * V;
}.

(** Reading and merging look for the file of the current name; the state keeps the
    files that were read, in order. *)
Class ViperSpec (V : Type) `{Viper V} := {
  viper_name : V → string;
  viper_files : V → list string;
  viper_file : string → option error;
  viper_path_view p v : viper_files (viper_AddConfigPath p v) = viper_files v;
  viper_type_view t v : viper_files (viper_SetConfigType t v) = viper_files v;
  viper_name_view n v :
    viper_name (viper_SetConfigName n v) = n ∧ viper_files (viper_SetConfigName n v) = viper_files v;
  viper_read_view v :
    (viper_ReadInConfig v).1 = viper_file (viper_name v) ∧
    (viper_file (viper_name v) = None → viper_files (viper_ReadInConfig v).2 = [viper_name v]);
  viper_merge_view v :
    (viper_MergeInConfig v).1 = viper_file (viper_name v) ∧
    (viper_file (viper_name v) = None →
     viper_files (viper_MergeInConfig v).2 = viper_files v ++ [viper_name v]);
}.

Section LoadConfig.
Context {V : Type} `{Viper V}.

(** The loop over the other files. *)
Fixpoint merge_configs (names : list string) : go V (option error) :=
  match names with
  | [] => ret None
  | name :: names' =>
      modify (viper_SetConfigName name) ;;;
      err <- state viper_MergeInConfig ;;
      match err with
      | Some e => ret (Some (errorf_pre ("failed to merge " +:+ name +:+ " config: ") e))
      | None => merge_configs names'
      end
  end.

Definition loadConfig : go V (option error) :=
  modify (viper_AddConfigPath "config") ;;;
  modify (viper_SetConfigType "yaml") ;;;
  modify (viper_SetConfigName "base") ;;;
  err <- state viper_ReadInConfig ;;
  match err with
  | Some e => ret (Some (errorf_pre "failed to read base config: " e))
  | None => merge_configs ["redis"; "kafka"]
  end.

End LoadConfig.

(** ** The declarations for the container *)

(** The types by which fx connects the constructors.  [UMsgHandlers] is the value
    group ["upstream-message-handler"]; [FxLifecycle] the container makes itself. *)
Inductive ty : Type :=
  | FxLifecycle
  | ZapLogger | RedisCmdable | KafkaWriter | KafkaReaderCreateFunc
  | XmqConsumerFactory | ConsumerMap | XmqProducer | AuthValidator | CodecCodec
  | MessagePushFunc | RetransmitManager | UMsgHandlers | DMsgHandlerT
  | SynpUpgrader | SynpHandler | SynpConnManager.

#[export] Instance ty_eq_dec : EqDecision ty.
Proof. solve_decision. Defined.

(** Which types collect the results of several constructors. *)
Definition is_group (t : ty) : bool := bool_decide (t = UMsgHandlers).

(** A function given to [fx.Provide] or [fx.Invoke]: its name, the types of its
    parameters and of its results, after [fx.As] and [fx.ResultTags]. *)
Record ctor : Type := MkCtor {
  ct_name : string;
  params : list ty;
  results : list ty;
}.

#[export] Instance ctor_eq_dec : EqDecision ctor.
Proof. solve_decision. Defined.

Record FxModule : Type := MkModule {
  fx_name : string;
  fx_provide : list ctor;
  fx_invoke : list ctor;
}.

Definition c_newLogger : ctor := MkCtor "newLogger" [FxLifecycle] [ZapLogger].
Definition c_newRedisCmdable : ctor :=
  MkCtor "newRedisCmdable" [ZapLogger; FxLifecycle] [RedisCmdable].
Definition c_newCodec : ctor := MkCtor "newCodec" [] [CodecCodec].
Definition c_DefaultPushFunc : ctor := MkCtor "DefaultPushFunc" [CodecCodec] [MessagePushFunc].
Definition c_newRetransmitManager : ctor :=
  MkCtor "newRetransmitManager" [MessagePushFunc; FxLifecycle] [RetransmitManager].
Definition c_newKafkaClient : ctor :=
  MkCtor "newKafkaClient" [ZapLogger; FxLifecycle] [KafkaWriter; KafkaReaderCreateFunc].
Definition c_NewKafkaProducer : ctor := MkCtor "NewKafkaProducer" [KafkaWriter] [XmqProducer].
Definition c_NewKafkaConsumerFactory : ctor :=
  MkCtor "NewKafkaConsumerFactory" [KafkaReaderCreateFunc] [XmqConsumerFactory].
Definition c_newKafkaConsumers : ctor :=
  MkCtor "newKafkaConsumers" [XmqConsumerFactory; ZapLogger] [ConsumerMap].
Definition c_newValidator : ctor := MkCtor "newValidator" [] [AuthValidator].
Definition c_NewHeartbeatMsgHandler : ctor :=
  MkCtor "NewHeartbeatMsgHandler" [MessagePushFunc] [UMsgHandlers].
Definition c_newFrontendMsgHandler : ctor :=
  MkCtor "newFrontendMsgHandler" [CodecCodec; XmqProducer; MessagePushFunc] [UMsgHandlers].
Definition c_NewDownstreamAckHandler : ctor :=
  MkCtor "NewDownstreamAckHandler" [RetransmitManager] [UMsgHandlers].
Definition c_newBackendMsgHandler : ctor :=
  MkCtor "newBackendMsgHandler" [MessagePushFunc; RetransmitManager] [DMsgHandlerT].
Definition c_newWsUpgrader : ctor :=
  MkCtor "newWsUpgrader" [RedisCmdable; AuthValidator; ZapLogger] [SynpUpgrader].
Definition c_newConnLcHandler : ctor :=
  MkCtor "newConnLcHandler" [RedisCmdable; CodecCodec; UMsgHandlers; DMsgHandlerT; ZapLogger]
    [SynpHandler].
Definition c_newConnManager : ctor := MkCtor "newConnManager" [ZapLogger] [SynpConnManager].
Definition c_initApp : ctor :=
  MkCtor "initApp" [SynpUpgrader; SynpConnManager; SynpHandler; ConsumerMap; ZapLogger; FxLifecycle] [].
(** The function given to [fx.WithLogger]. *)
Definition c_fxLogger : ctor := MkCtor "fxLogger" [ZapLogger] [].

Definition ZapLoggerFxModule : FxModule := MkModule "zap-logger" [c_newLogger] [].
Definition RedisFxModule : FxModule := MkModule "redis" [c_newRedisCmdable] [].
Definition CodecFxModule : FxModule := MkModule "codec" [c_newCodec] [].
Definition MessagePushFuncFxModule : FxModule := MkModule "message-push-func" [c_DefaultPushFunc] [].
Definition RetransmitFxModule : FxModule := MkModule "retransmit" [c_newRetransmitManager] [].
Definition KafkaFxModule : FxModule := MkModule "kafka" [c_newKafkaClient] [].
Definition KafkaProducerFxModule : FxModule := MkModule "kafka-producer" [c_NewKafkaProducer] [].
Definition KafkaConsumerFxModule : FxModule :=
  MkModule "kafka-consumer" [c_NewKafkaConsumerFactory; c_newKafkaConsumers] [].
Definition ValidatorFxModule : FxModule := MkModule "validator" [c_newValidator] [].
Definition MessageHandlerFxModule : FxModule := MkModule "message-handler"
  [c_NewHeartbeatMsgHandler; c_newFrontendMsgHandler; c_NewDownstreamAckHandler;
   c_newBackendMsgHandler] [].
Definition WsUpgraderFxModule : FxModule := MkModule "ws-upgrader" [c_newWsUpgrader] [].
Definition ConnLcHandlerFxModule : FxModule :=
  MkModule "ws-conn-lifecycle-handler" [c_newConnLcHandler] [].
Definition ConnManagerFxModule : FxModule := MkModule "ws-conn-manager" [c_newConnManager] [].
Definition AppFxModule : FxModule := MkModule "app" [] [c_initApp].

(** The modules that main gives to [fx.New], in its order. *)
Definition modules : list FxModule :=
  [ZapLoggerFxModule; RedisFxModule; KafkaFxModule; KafkaConsumerFxModule; KafkaProducerFxModule;
   ValidatorFxModule; CodecFxModule; MessagePushFuncFxModule; RetransmitFxModule;
   MessageHandlerFxModule; WsUpgraderFxModule; ConnLcHandlerFxModule; ConnManagerFxModule;
   AppFxModule].

Definition provided (ms : list FxModule) : list ctor := ms ≫= fx_provide.
Definition invoked (ms : list FxModule) : list ctor := ms ≫= fx_invoke.

(** [main]: a configuration that cannot be read is a panic, otherwise the container
    is made from the modules. *)
Definition main {V : Type} `{Viper V} : go V (list FxModule) :=
  err <- loadConfig ;;
  match err with
  | Some _ => panic
  | None => ret modules
  end.

(** ** The order of the calls *)

(** The container calls a constructor once, after all constructors of the types it
    takes; [fxLogger] and the invoked functions like any other. *)
Inductive calls (cs : list ctor) : list ctor → Prop :=
  | calls_nil : calls cs []
  | calls_snoc l c :
      calls cs l → c ∈ cs → c ∉ l →
      (∀ t c', t ∈ params c → c' ∈ cs → t ∈ results c' → c' ∈ l) →
      calls cs (l ++ [c]).

Definition ready (cs l : list ctor) (c : ctor) : bool :=
  bool_decide (c ∉ l) &&
  forallb (λ t, forallb (λ c', negb (bool_decide (t ∈ results c')) || bool_decide (c' ∈ l)) cs)
    (params c).

(** A constructor that can be called next, [n] times; [None] when none can. *)
Fixpoint schedule (n : nat) (cs l : list ctor) : option (list ctor) :=
  match n with
  | O => Some l
  | S n' =>
      match filter (λ c, ready cs l c) cs with
      | [] => None
      | c :: _ => schedule n' cs (l ++ [c])
      end
  end.

(** Everything the container calls for main. *)
Definition ctors : list ctor := c_fxLogger :: (provided modules ++ invoked modules).

(** How many constructors give a type. *)
Definition givers (cs : list ctor) (t : ty) : list ctor := filter (λ c, t ∈ results c) cs.

(** The constructors that those of [l] need, one level down; and [n] levels. *)
Definition needs1 (cs l : list ctor) : list ctor :=
  l ≫= (λ c, params c ≫= givers cs).
Fixpoint needs (n : nat) (cs l : list ctor) : list ctor :=
  match n with
  | O => l
  | S n' => l ++ needs n' cs (remove_dups (needs1 cs l))
  end.

Lemma ready_spec cs l c :
  ready cs l c = true ↔
  (c ∉ l) ∧ (∀ t c', t ∈ params c → c' ∈ cs → t ∈ results c' → c' ∈ l).
Proof.
  unfold ready. rewrite andb_true_iff, bool_decide_eq_true, forallb_forall. f_equiv. split.
  - intros Hf t c' Ht Hc Hr.
    specialize (Hf t (proj1 (list_elem_of_In _ _) Ht)). rewrite forallb_forall in Hf.
    specialize (Hf c' (proj1 (list_elem_of_In _ _) Hc)).
    rewrite (bool_decide_eq_true_2 _ Hr) in Hf. by apply bool_decide_eq_true in Hf.
  - intros Hf t Ht%list_elem_of_In. apply forallb_forall. intros c' Hc%list_elem_of_In.
    case_bool_decide as Hr; [|done]. cbn. apply bool_decide_eq_true. by eapply Hf.
Qed.

Lemma schedule_calls n cs l l' : calls cs l → schedule n cs l = Some l' → calls cs l'.
Proof.
  revert l. induction n as [|n IH]; intros l Hl; cbn [schedule]; [by intros [= <-]|].
  destruct (filter _ cs) as [|c r] eqn:Hf; [done|]. apply IH.
  assert (c ∈ filter (λ c, ready cs l c) cs) as Hc by (rewrite Hf; by left).
  apply list_elem_of_filter in Hc as [Hr Hc]. apply Is_true_true, ready_spec in Hr as [Hn Hr].
  by apply calls_snoc.
Qed.

Lemma calls_NoDup cs l : calls cs l → NoDup l ∧ ∀ c, c ∈ l → c ∈ cs.
Proof.
  induction 1 as [|l c _ [IHn IHi] Hc Hn Hp].
  - split; [apply NoDup_nil_2|]. by intros c ?%elem_of_nil.
  - split.
    + apply list.NoDup_app. split_and!; [done| |apply NoDup_singleton].
      intros x Hx Hx'%list_elem_of_singleton. by subst x.
    + intros x [Hx|Hx%list_elem_of_singleton]%elem_of_app; [by apply IHi|by subst x].
Qed.

(** What was called has all it needs called before it. *)
Lemma calls_closed cs l c t c' :
  calls cs l → c ∈ l → t ∈ params c → c' ∈ cs → t ∈ results c' → c' ∈ l.
Proof.
  induction 1 as [|l c1 Hl IH Hc Hn Hp]; [by intros ?%elem_of_nil|].
  intros [Hin|Hx%list_elem_of_singleton]%elem_of_app Ht Hc' Hr; [|subst c1]; apply elem_of_app; left; eauto.
Qed.

Lemma calls_needs n cs l l0 : calls cs l → l0 ⊆ l → needs n cs l0 ⊆ l.
Proof.
  intros Hl. revert l0. induction n as [|n IH]; intros l0 H0; [done|]. cbn [needs].
  intros c [Hc|Hc]%elem_of_app; [by apply H0|]. revert c Hc. apply IH.
  intros c Hc. apply (proj1 (elem_of_remove_dups _ _)) in Hc. unfold needs1 in Hc.
  apply list_elem_of_bind in Hc as (c1 & Hc & Hc1).
  apply list_elem_of_bind in Hc as (t & Hc & Ht).
  apply list_elem_of_filter in Hc as [Hr Hc]. eapply calls_closed; [done|by apply H0|done..].
Qed.

Lemma app_needs_all : ctors ⊆ c_fxLogger :: needs 8 ctors [c_initApp].
Proof.
  assert (forallb (λ c, bool_decide (c ∈ c_fxLogger :: needs 8 ctors [c_initApp])) ctors = true) as Hf
    by (vm_compute; reflexivity).
  rewrite forallb_forall in Hf. intros c Hc%list_elem_of_In. by apply Hf, bool_decide_eq_true in Hc.
Qed.

(** One order of the calls. *)
Definition build_order : list ctor :=
  [c_newLogger; c_fxLogger; c_newRedisCmdable; c_newKafkaClient; c_NewKafkaConsumerFactory;
   c_newKafkaConsumers; c_NewKafkaProducer; c_newValidator; c_newCodec; c_DefaultPushFunc;
   c_newRetransmitManager; c_NewHeartbeatMsgHandler; c_newFrontendMsgHandler;
   c_NewDownstreamAckHandler; c_newBackendMsgHandler; c_newWsUpgrader; c_newConnLcHandler;
   c_newConnManager; c_initApp].

Lemma build_order_calls : calls ctors build_order.
Proof. apply (schedule_calls 19 ctors []); [apply calls_nil|]. by vm_compute. Qed.

Lemma calls_split cs l c :
  calls cs l → c ∈ l → ∃ l1 l2, l = l1 ++ c :: l2 ∧ calls cs (l1 ++ [c]).
Proof.
  induction 1 as [|l c1 Hl IH Hc Hn Hp]; [by intros ?%elem_of_nil|].
  intros [Hin|Hx%list_elem_of_singleton]%elem_of_app.
  - destruct (IH Hin) as (l1 & l2 & -> & H1). exists l1, (l2 ++ [c1]).
    by rewrite <- app_assoc.
  - subst c1. exists l, []. split; [done|]. by apply calls_snoc.
Qed.

(** [initApp] is called when all others have been, the function of [fx.WithLogger]
    apart. *)
Lemma app_last l :
  calls ctors l → c_initApp ∈ l →
  ∃ l1 l2, l = l1 ++ c_initApp :: l2 ∧ NoDup l ∧ (∀ c, c ∈ l2 → c = c_fxLogger) ∧
    ∀ c, c ∈ ctors → c ≠ c_initApp → c ≠ c_fxLogger → c ∈ l1.
Proof.
  intros Hl Hin. destruct (calls_NoDup _ _ Hl) as [Hnd Hsub].
  destruct (calls_split _ _ _ Hl Hin) as (l1 & l2 & -> & H1). exists l1, l2.
  assert (∀ c, c ∈ ctors → c ≠ c_initApp → c ≠ c_fxLogger → c ∈ l1) as Hall.
  { intros c Hc Hn1 Hn2.
    destruct (proj1 (elem_of_cons _ _ _) (app_needs_all c Hc)) as [->|Hc']; [done|].
    apply (calls_needs 8 _ _ [c_initApp] H1) in Hc'.
    - apply elem_of_app in Hc' as [?|Hx%list_elem_of_singleton]; [done|by subst].
    - intros x Hx%list_elem_of_singleton. subst x. apply elem_of_app. right. by left. }
  split_and!; try done. intros c Hc.
  destruct (decide (c = c_fxLogger)) as [|Hf]; [done|]. exfalso.
  apply list.NoDup_app in Hnd as (_ & Hd & Hnd). apply NoDup_cons_1_1 in Hnd.
  assert (c ∈ l1 ++ c_initApp :: l2) as Hc2 by (apply elem_of_app; right; by right).
  destruct (decide (c = c_initApp)) as [->|Hi]; [done|].
  apply (Hd c); [by apply Hall; [apply Hsub|..]|by right].
Qed.

(** C30. The container can build the application.  Every type a constructor takes is the
    result of exactly one constructor ([UMsgHandlers] of the three handlers); there
    is an order of the calls that breaks no dependency and includes everything
    main declares; and nothing is declared in vain: whatever the order, when
    [initApp] runs every other constructor has run. *)
Theorem container_builds :
  (∀ c t, c ∈ ctors → t ∈ params c → t ≠ FxLifecycle →
     if is_group t
     then ct_name <$> givers ctors t
          = ["NewHeartbeatMsgHandler"; "newFrontendMsgHandler"; "NewDownstreamAckHandler"]
     else length (givers ctors t) = 1) ∧
  (∃ l, calls ctors l ∧ l ≡ₚ ctors) ∧
  (∀ l, calls ctors l → c_initApp ∈ l → ∀ c, c ∈ ctors → c ≠ c_fxLogger → c ∈ l).
Proof.
  split_and!.
  - assert (forallb (λ c, forallb (λ t, bool_decide (t = FxLifecycle) ||
      (if is_group t
       then bool_decide (ct_name <$> givers ctors t
          = ["NewHeartbeatMsgHandler"; "newFrontendMsgHandler"; "NewDownstreamAckHandler"])
       else bool_decide (length (givers ctors t) = 1))) (params c)) ctors = true) as Hf
      by (vm_compute; reflexivity).
    rewrite forallb_forall in Hf. intros c t Hc%list_elem_of_In Ht%list_elem_of_In Hn.
    specialize (Hf c Hc). rewrite forallb_forall in Hf. specialize (Hf t Ht).
    rewrite bool_decide_eq_false_2 in Hf by done. cbn [orb] in Hf.
    destruct (is_group t); by apply bool_decide_eq_true in Hf.
  - exists build_order. split; [exact build_order_calls|].
    destruct (calls_NoDup _ _ build_order_calls) as [Hn Hi].
    apply NoDup_Permutation; [done|by apply (bool_decide_unpack _); vm_compute|].
    intros c. split; [apply Hi|].
    assert (forallb (λ c, bool_decide (c ∈ build_order)) ctors = true) as Hf
      by (vm_compute; reflexivity).
    rewrite forallb_forall in Hf. intros Hc%list_elem_of_In.
    by apply Hf, bool_decide_eq_true in Hc.
  - intros l Hl Hin c Hc Hf. destruct (app_last l Hl Hin) as (l1 & l2 & -> & _ & _ & Hall).
    apply elem_of_app. destruct (decide (c = c_initApp)) as [->|Hn]; [right; by left|].
    left. by apply Hall.
Qed.

(** ** The configuration, section by section *)

(** [kafka_consumer.go]: the factory makes each consumer with a reader of its own. *)
Record KafkaConsumerFactory (R : Type) : Type := NewKafkaConsumerFactory {
  readerCreateFunc : string → string → R;
}.
Arguments NewKafkaConsumerFactory {R} readerCreateFunc.
Arguments readerCreateFunc {R} k.

(** The consumers made so far, with their readers: an address is a position. *)
Abbreviation Consumers R := (list (R * Xmq.KafkaConsumer)).

Section Factory.
Context {R S : Type} `{Part S (Consumers R)} (f : KafkaConsumerFactory R).

Definition factory_NewConsumer (topic groupID : string) : go S (error + nat) :=
  zoom (state (λ cs : Consumers R,
    (inr (length cs), cs ++ [(readerCreateFunc f topic groupID, Xmq.NewKafkaConsumer topic groupID)]))).

(** The methods of a consumer, by its address; its channel has the same address.
    The context given to [Start] is the server's, which is not cancelled. *)
#[local] Instance kafka_factory : Gateway.ConsumerFactory S := {
  Gateway.f_NewConsumer := factory_NewConsumer;
  Gateway.f_ConsumeChan k :=
    o <- zoom (gets (λ cs : Consumers R, cs !! k)) ;;
    c <- need o ;;
    ret (match Xmq.ConsumeChan None c.2 with inl err => inl err | inr _ => inr k end);
}.

Context `{!PartSpec S (Consumers R)}.

Lemma factory_turns (c : Gateway.Consumer) n s :
  let cs := part_get s in
  let new := (readerCreateFunc f (Gateway.topic c) (Gateway.groupID c),
              Xmq.NewKafkaConsumer (Gateway.topic c) (Gateway.groupID c)) in
  Gateway.turns c n s (seq (length cs) n) (part_set (cs ++ replicate n new) s).
Proof.
  revert s. induction n as [|n IH]; intros s cs new.
  - cbn. rewrite app_nil_r. unfold cs. rewrite part_set_get. apply Gateway.turns_0.
  - eapply Gateway.turns_S.
    + unfold Gateway.f_NewConsumer, kafka_factory, factory_NewConsumer, zoom, state. reflexivity.
    + assert ((part_get (part_set (cs ++ [new]) s) : Consumers R) !! length cs = Some new) as Hl
        by (rewrite part_get_set, lookup_app_r by done; by rewrite Nat.sub_diag).
      unfold Gateway.f_ConsumeChan, kafka_factory, bind, zoom, gets.
      fold cs new. rewrite Hl. reflexivity.
    + pose proof (IH (part_set (cs ++ [new]) s)) as IH'. cbv zeta in IH'.
      rewrite part_get_set, part_set_set, length_app in IH'. cbn [length] in IH'.
      rewrite Nat.add_1_r, <- app_assoc in IH'.
      rewrite part_set_set, part_get_set. exact IH'.
Qed.

(** Over Kafka a gateway consumer always starts: one goroutine per configured
    partition, each on the channel of a consumer of its own that reads the topic in
    the configured group with a reader of its own; none for a negative number. *)
Theorem kafka_consumers_started (c : Gateway.Consumer) s :
  let cs := part_get s in
  let n := Z.to_nat (Gateway.partitions c) in
  Gateway.Start c s
  = Done (None, seq (length cs) n)
      (part_set (cs ++ replicate n (readerCreateFunc f (Gateway.topic c) (Gateway.groupID c),
                                    Xmq.NewKafkaConsumer (Gateway.topic c) (Gateway.groupID c))) s).
Proof.
  cbn zeta. unfold Gateway.Start. set (n := Z.to_nat _).
  pose proof (Gateway.start_loop_turns c n s _ _ 0 [] (factory_turns c n s)) as Hl.
  rewrite Nat.add_0_r in Hl. exact Hl.
Qed.

End Factory.

(** ** Hooks and constructors *)

(** [fx.Hook]; a missing function is nil. *)
Record Hook (St : Type) : Type := MkHook {
  OnStart : option (go St (option error));
  OnStop : option (go St (option error));
}.
Arguments MkHook {St} OnStart OnStop.
Arguments OnStart {St} h.
Arguments OnStop {St} h.

(** What the hooks call of the libraries: [zap.Logger.Sync], [Ping] and [Close] of
    the Redis client, [Close] of the Kafka writer. *)
Class Clients (E : Type) := {
  logger_Sync : E → option error * E;
  redis_Ping : E → option error * E;
  redis_Close : E → option error * E;
  writer_Close : E → option error * E;
}.

(** [if err != nil { return fmt.Errorf("<prefix>%w", err) }; return nil] *)
Definition wrap_err (prefix : string) (err : option error) : option error :=
  match err with Some e => Some (errorf_pre prefix e) | None => None end.

Section Constructors.
Context {L : Type} {M : Type → Type} {E : Type}.
Context {ME : MultiErr} {OA : OptApply}.
Context `{Listener L, SyncMap M, Sched E, Net E, Redis E, Kafka E, Clients E}.
Context `{Gateway.ConsumerFactory (RTS M (CMS M E))}.
Context {PB : Protobuf Message AckPayload PushMessage}.
Abbreviation App := (RTS M (CMS M E)).
Abbreviation St := (Server L App).

Definition on_env {A : Type} (m : go E A) : go St A := on_body (zoom (S := App) m).

Definition logger_hook : Hook St := MkHook None (Some (on_env (state logger_Sync) ;;; ret None)).
Definition redis_hook : Hook St :=
  MkHook
    (Some (err <- on_env (state redis_Ping) ;; ret (wrap_err "failed to ping redis: " err)))
    (Some (err <- on_env (state redis_Close) ;; ret (wrap_err "failed to close redis: " err))).

(** [newLogger], on the two loggers zap can make: the value and its hook. *)
Definition newLogger {Lg : Type} (zap_NewProduction zap_NewDevelopment : error + Lg)
    (unmarshal : error + string) : error + (Lg * Hook St) :=
  match unmarshal with
  | inl err => inl err
  | inr env =>
      match (if String.eqb env "prod" then zap_NewProduction else zap_NewDevelopment) with
      | inl err => inl err
      | inr logger => inr (logger, logger_hook)
      end
  end.

(** [newRedisCmdable], on address and password. *)
Definition newRedisCmdable {Rdb : Type} (redis_NewClient : string → string → Rdb)
    (unmarshal : error + (string * string)) : error + (Rdb * Hook St) :=
  match unmarshal with
  | inl err => inl err
  | inr (addr, password) =>
      inr (redis_NewClient addr password, redis_hook)
  end.

(** The hooks of [newKafkaClient] and [newRetransmitManager]; the values they make
    are [Providers]'s. *)
Definition kafka_hook : Hook St :=
  MkHook None
    (Some (err <- on_env (state writer_Close) ;; ret (wrap_err "failed to close kafka writer: " err))).

Definition retransmit_hook : Hook St :=
  MkHook None (Some (on_body CloseManager ;;; ret None)).

(** [newValidator], on issuer and public key: [xjwt_Build] is the library's verifier,
    by its [Decrypt]. *)
Definition newValidator (xjwt_Build : string → string → error + (string → go E (error + (N * N))))
    (unmarshal : error + (string * string)) : error + (string → go E (error + User)) :=
  match unmarshal with
  | inl err => inl err
  | inr (issuer, public) =>
      match xjwt_Build issuer public with
      | inl err => inl err
      | inr jwtManager => inr (JwtValidator_Validate jwtManager)
      end
  end.

(** [newWsUpgrader] and [NewUpgrader]. *)
Record WsUpgrader : Type := NewUpgrader {
  validator : string → go E (error + User);
  compressionConfig : Compression.Config;
}.

Definition newWsUpgrader (validator : string → go E (error + User))
    (unmarshal : error + Compression.Config) : error + WsUpgrader :=
  match unmarshal with
  | inl err => inl err
  | inr cfg =>
      inr (NewUpgrader validator
        (Compression.MkConfig (Enabled cfg) (Compression.ServerMaxWindowBits cfg)
           (Compression.ServerNoContextTakeover cfg) (Compression.ClientMaxWindowBits cfg)
           (Compression.ClientNoContextTakeover cfg) (Level cfg)))
  end.

(** [newBackendMsgHandler] *)
Definition newBackendMsgHandler (push : PushFunc (CMS M E)) : DMsgHandler App := Backend_Handle push.

(** [initApp]: the server it makes has the default configuration; its hook starts
    the server and shuts it down.  The container stops only what it started, so the
    server is listening then. *)
Definition app_Start (consumers : gmap string Gateway.Consumer) : go St (option error) :=
  Server.Start (E := E) DefaultConfig consumers.
Definition app_Stop : go St (option error) := GracefulShutdown true.

Definition initApp (consumers : gmap string Gateway.Consumer) : Hook St :=
  MkHook (Some (app_Start consumers)) (Some app_Stop).

(** The hooks of the constructors of main, with the consumers [initApp] gets. *)
Definition hook_of (consumers : gmap string Gateway.Consumer) (c : ctor) : option (Hook St) :=
  if decide (c = c_newLogger) then Some logger_hook
  else if decide (c = c_newRedisCmdable) then Some redis_hook
  else if decide (c = c_newKafkaClient) then Some kafka_hook
  else if decide (c = c_newRetransmitManager) then Some retransmit_hook
  else if decide (c = c_initApp) then Some (initApp consumers)
  else None.

End Constructors.

(** ** The container starts and stops the application *)

(** The start functions of the hooks in order, until one fails. *)
Fixpoint start_hooks {St : Type} (hs : list (Hook St)) : go St (option error) :=
  match hs with
  | [] => ret None
  | h :: hs' =>
      err <- match OnStart h with Some f => f | None => ret None end ;;
      match err with Some e => ret (Some e) | None => start_hooks hs' end
  end.

(** The stop functions of the hooks in order; an error does not end them. *)
Fixpoint stop_hooks {St : Type} (hs : list (Hook St)) : go St unit :=
  match hs with
  | [] => ret tt
  | h :: hs' => match OnStop h with Some f => f | None => ret None end ;;; stop_hooks hs'
  end.

(** [fx.App.Start] and [Stop] on the hooks in the order they were appended. *)
Class Fx (St : Type) := {
  fx_Start : list (Hook St) → go St (option error);
  fx_Stop : list (Hook St) → go St (option error);
}.

(** A start that succeeds has run the start functions in order; a stop runs the
    stop functions in the reverse order, each when the one before has returned, at
    least the first: the time limit of the stop may leave out the rest. *)
Class FxSpec (St : Type) `{Fx St} : Prop := {
  fx_start_order hs s s' : fx_Start hs s = Done None s' → start_hooks hs s = Done None s';
  fx_stop_order hs s :
    ∃ k, 0 < k ∧ final (fx_Stop hs s) = final (stop_hooks (take k (reverse hs)) s);
}.

Section Lifecycle.
Context {L : Type} {M : Type → Type} {E : Type}.
Context {ME : MultiErr} {OA : OptApply}.
Context `{Listener L, SyncMap M, SchedSpec E, Net E, Redis E, Kafka E, Clients E}.
Context `{Gateway.ConsumerFactory (RTS M (CMS M E))}.
Context {PB : Protobuf Message AckPayload PushMessage}.
Abbreviation App := (RTS M (CMS M E)).
Abbreviation St := (Server L App).
Context `{FxSpec St}.
Context (consumers : gmap string Gateway.Consumer).
Implicit Types (s : St).

(** The hooks appended by the constructors of an order. *)
Definition hooks (l : list ctor) : list (Hook St) := omap (hook_of consumers) l.

Lemma hooks_app l1 l2 : hooks (l1 ++ l2) = hooks l1 ++ hooks l2.
Proof. unfold hooks. by rewrite omap_app. Qed.

Lemma hooks_fx l : (∀ c, c ∈ l → c = c_fxLogger) → hooks l = [].
Proof.
  induction l as [|c l IH]; [done|]. intros Hl. rewrite (Hl c) by (by left).
  change (hooks (c_fxLogger :: l)) with (hooks l). apply IH. intros c' Hc. apply Hl. by right.
Qed.

(** Only the hooks of Redis and of the application have a start function. *)
Lemma start_idle l hs s :
  c_newRedisCmdable ∉ l → c_initApp ∉ l → start_hooks (hooks l ++ hs) s = start_hooks hs s.
Proof.
  induction l as [|c l IH]; [done|]. intros [Hr Hrl]%not_elem_of_cons [Hi Hil]%not_elem_of_cons.
  rewrite <- IH by done. unfold hooks. cbn [omap list_omap]. unfold hook_of at 1.
  rewrite (decide_False (P := c = c_newRedisCmdable)) by done.
  rewrite (decide_False (P := c = c_initApp)) by done.
  by repeat case_decide.
Qed.

(** The application's hook is the last one. *)
Lemma hooks_last l :
  calls ctors l → c_initApp ∈ l →
  ∃ l1, hooks l = hooks l1 ++ [initApp consumers] ∧ NoDup l1 ∧ c_newRedisCmdable ∈ l1 ∧ c_initApp ∉ l1.
Proof.
  intros Hl Hin. destruct (app_last l Hl Hin) as (l1 & l2 & -> & Hnd & Hf & Hall). exists l1.
  apply list.NoDup_app in Hnd as (Hnd & Hd & _). split_and!; try done.
  - rewrite hooks_app. f_equal. change (hooks (c_initApp :: l2)) with (initApp consumers :: hooks l2).
    by rewrite hooks_fx.
  - apply Hall; [|done..]. by apply (bool_decide_unpack _); vm_compute.
  - intros Hi. apply (Hd _ Hi). by left.
Qed.

Lemma start_loop_length (c : Gateway.Consumer) n acc (b b' : App) chs :
  Gateway.start_loop n c acc b = Done (None, chs) b' → length chs = length acc + n.
Proof.
  revert acc b. induction n as [|n IH]; intros acc b; cbn [Gateway.start_loop].
  { intros [= <- _]. lia. }
  intros (r & b1 & _ & Hr)%bind_done_inv. destruct r as [err|k]; [done|].
  apply bind_done_inv in Hr as (r & b2 & _ & Hr). destruct r as [err|ch]; [done|].
  apply IH in Hr. rewrite length_app in Hr. cbn in Hr. lia.
Qed.

(** A start of the server that succeeds. *)
Lemma server_started topic group n s s' :
  Gateway.newKafkaConsumers (inr (topic, group, n)) = inr consumers →
  app_Start consumers s = Done None s' →
  ∃ l1 chs, net_listen "tcp4" "0.0.0.0:17001" (listener s) = (None, l1) ∧
    goroutines s' = goroutines s ++ [AcceptLoop; Consumes Gateway.EventPushMessage chs] ∧
    Z.of_nat (length chs) = Z.max 0 n ∧
    acceptNewConn s' = acceptNewConn s ∧ srv_done s' = srv_done s ∧ connLimiter s' = connLimiter s.
Proof.
  intros [= Hc]. unfold app_Start, Server.Start.
  change (Network DefaultConfig) with "tcp4". change (Address DefaultConfig) with "0.0.0.0:17001".
  intros (err & s1 & E1 & E2)%bind_done_inv. unfold on_listener, zoom, state in E1. cbn in E1.
  destruct (net_listen _ _ (listener s)) as [r l1] eqn:Hl. injection E1 as <- <-.
  destruct r as [e|]; [done|]. apply bind_done_inv in E2 as ([] & s2 & E3 & E2). injection E3 as <-.
  apply bind_done_inv in E2 as (entries & s3 & E3 & E2). unfold on_body, zoom, state in E3. cbn in E3.
  destruct (map_order _ _) as [es e'] eqn:Ho. injection E3 as <- <-.
  pose proof (map_order_perm (map_to_list consumers) (env (world (rest (body s))))) as Hp.
  rewrite Ho in Hp. cbn [fst] in Hp. subst consumers. rewrite map_to_list_singleton in Hp.
  apply Permutation_sym, Permutation_length_1_inv in Hp. subst es.
  cbn [start_consumers] in E2. rewrite String.eqb_refl in E2. cbn [orb] in E2.
  set (b1 := MkRTS _ _ _ _ _) in E2.
  apply bind_done_inv in E2 as ([r chs] & s3 & E3 & E2). unfold on_body, zoom in E3. cbn in E3.
  destruct (Gateway.Start _ b1) as [[r' chs'] b2|?|?|?] eqn:Hg; try done. injection E3 as -> -> <-.
  apply bind_done_inv in E2 as ([] & s4 & E3 & E2). injection E3 as <-. cbn in E2.
  destruct r as [e|]; [done|]. injection E2 as <-. exists l1, chs.
  unfold Gateway.Start in Hg. apply start_loop_length in Hg. cbn in Hg.
  split_and!; try done; cbn; [by rewrite <- app_assoc|lia].
Qed.

(** C32. A started application.  Whatever the order in which the container called the
    constructors: if its start succeeds, Redis has answered, and only after that
    the server listens on 0.0.0.0:17001, accepts connections, and has one goroutine
    consuming push requests per configured partition; it accepts until it is told
    otherwise, its context is not cancelled and no connection slot is taken yet. *)
Theorem application_starts (l : list ctor) topic group n s s' :
  calls ctors l → c_initApp ∈ l →
  Gateway.newKafkaConsumers (inr (topic, group, n)) = inr consumers →
  fx_Start (hooks l) s = Done None s' →
  (redis_Ping (part_get (body s))).1 = None ∧
  ∃ l1 chs, net_listen "tcp4" "0.0.0.0:17001" (listener s) = (None, l1) ∧
    goroutines s' = goroutines s ++ [AcceptLoop; Consumes Gateway.EventPushMessage chs] ∧
    Z.of_nat (length chs) = Z.max 0 n ∧
    acceptNewConn s' = acceptNewConn s ∧ srv_done s' = srv_done s ∧ connLimiter s' = connLimiter s.
Proof.
  intros Hl Hin Hc Hs%fx_start_order.
  destruct (hooks_last l Hl Hin) as (l1 & Hh & Hnd & Hr & Hi). rewrite Hh in Hs. clear Hh.
  apply list_elem_of_split in Hr as (la & lb & ->).
  apply list.NoDup_app in Hnd as (_ & Hd & Hnd). apply NoDup_cons_1_1 in Hnd as Hnb.
  apply not_elem_of_app in Hi as [Hia [_ Hib]%not_elem_of_cons].
  rewrite hooks_app, <- app_assoc, start_idle in Hs;
    [|intros Hx; apply (Hd _ Hx); by left|done].
  change (hooks (c_newRedisCmdable :: lb)) with (redis_hook (L := L) (M := M) (E := E) :: hooks lb) in Hs.
  cbn [app start_hooks OnStart redis_hook] in Hs.
  apply bind_done_inv in Hs as (err & s1 & E1 & Hs). destruct err as [e|]; [done|].
  rewrite start_idle in Hs by done. cbn [start_hooks OnStart initApp] in Hs.
  apply bind_done_inv in Hs as (err & s2 & E2 & Hs). destruct err as [e|]; [done|].
  injection Hs as <-. apply bind_done_inv in E1 as (err & s3 & E1 & E3).
  unfold on_env, on_body, zoom, state in E1. cbn in E1.
  destruct (redis_Ping _) as [r e1] eqn:Hp. injection E1 as <- <-.
  destruct r as [e|]; [done|]. injection E3 as <-. split; [done|].
  destruct (server_started topic group n _ _ Hc E2) as (l1 & chs & Hn & Hrest).
  by exists l1, chs.
Qed.

(** C33. Stopping the application stops nothing behind the server.  Whatever the order
    in which the constructors were called, the container asks the application
    first; its [GracefulShutdown] stops accepting, closes the listener and waits for a
    context that nobody cancels.  So the hooks of the others never run: the
    retransmit manager is not closed and its tasks stay, the Kafka writer and the
    Redis client are not closed, connections stay registered, and the goroutines go
    on, until the time limit of the stop ends the process. *)
Theorem stop_reaches_only_server (l : list ctor) s :
  calls ctors l → c_initApp ∈ l → srv_done s = false →
  let s' := final (fx_Stop (hooks l) s) in
  acceptNewConn s' = false ∧ listener s' = (listener_close (listener s)).2 ∧
  body s' = body s ∧ goroutines s' = goroutines s ∧ connLimiter s' = connLimiter s ∧
  srv_done s' = false.
Proof.
  intros Hl Hin Hd. cbn zeta. destruct (fx_stop_order (hooks l) s) as (k & Hk & ->).
  destruct (hooks_last l Hl Hin) as (l1 & -> & _). rewrite reverse_app.
  destruct k as [|k]; [lia|]. cbn [reverse app rev_append take stop_hooks OnStop initApp].
  unfold app_Stop, GracefulShutdown, bind at 1. cbn.
  unfold on_listener, zoom, bind, state, modify, gets, block. cbn.
  destruct (listener_close (listener s)) as [r l']. cbn. by rewrite Hd.
Qed.

End Lifecycle.

(** ** The application main builds *)

(** What [viper.UnmarshalKey] gives for each section of the configuration. *)
Record Settings : Type := MkSettings {
  s_project : error + string;                       (* project *)
  s_redis : error + (string * string);              (* redis *)
  s_kafka : error + Kafka.Config;                   (* kafka *)
  s_jwt : error + (string * string);                (* jwt *)
  s_codec : error + string;                         (* synp.codec *)
  s_retransmit : error + (Z * Z);                   (* retransmit *)
  s_frontend : error + (string * Z);                (* synp.handler.message.frontend *)
  s_handler : error + (Z * Z);                      (* synp.conn.handler *)
  s_manager : error + ConnConfig;                   (* synp.conn.manager *)
  s_consumer : error + (string * string * Z);       (* synp.gateway.consumer.[...]downstream *)
  s_compression : error + Compression.Config;       (* synp.websocket.compression *)
}.

(** Code that may fail with an error value, and a value that is one. *)
Definition or_err {S A B : Type} (x : error + A) (k : A → go S (error + B)) : go S (error + B) :=
  match x with inl err => ret (inl err) | inr a => k a end.
Notation "x <-? m ;; k" := (or_err m (λ x, k))
  (at level 100, m at next level, right associativity) : go_scope.

Lemma or_err_inv {S A B : Type} (x : error + A) (k : A → go S (error + B)) s b s' :
  or_err x k s = Done (inr b) s' → ∃ a, x = inr a ∧ k a s = Done (inr b) s'.
Proof. destruct x as [e|a]; [done|]. intros Hk. by exists a. Qed.

Section Build.
Context {L : Type} {M : Type → Type} {E : Type}.
Context {ME : MultiErr} {OA : OptApply}.
Context `{Listener L, SyncMap M, Sched E, Net E, Redis E, Kafka E, Clients E}.
Context `{Gateway.ConsumerFactory (RTS M (CMS M E))}.
Context {PB : Protobuf Message AckPayload PushMessage}.
Abbreviation App := (RTS M (CMS M E)).
(** The libraries' constructors. *)
Context {Lg Rdb Pool Scram : Type}.
Context (zap_NewProduction zap_NewDevelopment : error + Lg).
Context (redis_NewClient : string → string → Rdb).
Context (cert_pool : string → option Pool) (scram_Mechanism : string → string → error + Scram).
Context (xjwt_Build : string → string → error + (string → go E (error + (N * N)))).
(** The order in which the container gives the members of the group. *)
Context (group : list (UMsgHandler App) → list (UMsgHandler App)).

Record Application : Type := MkApplication {
  a_logger : Lg;
  a_redis : Rdb;
  a_writer : Kafka.Writer Pool Scram;
  a_consumerFactory : KafkaConsumerFactory (Kafka.Reader Pool Scram);
  a_codec : Codec;
  a_push : PushFunc (CMS M E);
  a_retransmit : Manager M (CMS M E);
  a_upgrader : WsUpgrader (E := E);
  a_handler : LcHandler App;
  a_connManager : ConnManager M;
  a_consumers : gmap string Gateway.Consumer;
}.

(** The constructors in one of the orders that break no dependency (another order
    can only report another of several errors). *)
Definition build (cfg : Settings) : go unit (error + Application) :=
  lg <-? newLogger (L := L) (M := M) (E := E) zap_NewProduction zap_NewDevelopment (s_project cfg) ;;
  rdb <-? newRedisCmdable (L := L) (M := M) (E := E) redis_NewClient (s_redis cfg) ;;
  kafka <-? Kafka.newKafkaClient cert_pool scram_Mechanism (s_kafka cfg) ;;
  let factory := NewKafkaConsumerFactory kafka.2 in
  consumers <-? Gateway.newKafkaConsumers (s_consumer cfg) ;;
  validate <-? newValidator xjwt_Build (s_jwt cfg) ;;
  ty <-? s_codec cfg ;;
  codec <-? newCodec ty ;;
  let push := DefaultPushFunc codec in
  retransmit <-? newRetransmitManager (s_retransmit cfg) push ;;
  frontend <- newFrontendMsgHandler (s_frontend cfg) push ;;
  let handlers := group [NewHeartbeatMsgHandler push; frontend; NewDownstreamAckHandler] in
  upgrader <-? newWsUpgrader validate (s_compression cfg) ;;
  lc <-? newConnLcHandler (s_handler cfg) codec handlers (newBackendMsgHandler push) ;;
  connManager <-? newConnManager (s_manager cfg) ;;
  ret (inr (MkApplication lg.1 rdb.1 kafka.1 factory codec push retransmit upgrader lc connManager
              consumers)).

(** The state the application starts in. *)
Definition initial_state (a : Application) (e : E) : App :=
  MkRTS (a_retransmit a) ∅ ∅ 0 (MkCMS (a_connManager a) ∅ 0 (MkWorld ∅ 0 [] e)).

End Build.

Section BuildFacts.
Context {L : Type} {M : Type → Type} {E : Type}.
Context {ME : MultiErr} {OA : OptApply} {OAS : OptApplySpec}.
Context `{Listener L, SyncMapSpec M, SchedSpec E, Net E, RedisSpec E, Kafka E, Clients E}.
Context `{Gateway.ConsumerFactory (RTS M (CMS M E))}.
Context {PB : Protobuf Message AckPayload PushMessage}.
Abbreviation App := (RTS M (CMS M E)).
Context {Lg Rdb Pool Scram : Type}.
Context (zap_NewProduction zap_NewDevelopment : error + Lg).
Context (redis_NewClient : string → string → Rdb).
Context (cert_pool : string → option Pool) (scram_Mechanism : string → string → error + Scram).
Context (xjwt_Build : string → string → error + (string → go E (error + (N * N)))).
Context (group : list (UMsgHandler App) → list (UMsgHandler App)).
Abbreviation build := (build (L := L) zap_NewProduction zap_NewDevelopment redis_NewClient cert_pool
  scram_Mechanism xjwt_Build group).

(** Handlers of different commands give the same table in any order. *)
Lemma table_permutation (us us' : list (UMsgHandler App)) (m : gmap CommandType (UMsgHandler App)) :
  us ≡ₚ us' → NoDup (CmdType <$> us) →
  fold_left (λ m u, <[CmdType u := u]> m) us m = fold_left (λ m u, <[CmdType u := u]> m) us' m.
Proof.
  intros Hp. revert m. induction Hp as [|u us us' _ IH|u v us|us1 us2 us3 Hp1 IH1 _ IH2]; intros m Hn.
  - done.
  - cbn [fold_left]. apply IH. by apply NoDup_cons_1_2 in Hn.
  - cbn [fold_left]. cbn [fmap list_fmap] in Hn. apply NoDup_cons_1_1 in Hn.
    rewrite insert_insert_ne; [done|]. intros Heq. apply Hn. rewrite Heq. by left.
  - rewrite IH1 by done. apply IH2. eapply NoDup_Permutation_proper; [|done]. by rewrite Hp1.
Qed.

(** C31. The application main builds is the one the theorems about delivery speak of.
    In whatever order the container gives the handlers of the group, the
    dispatcher is [app_handler] of the configured codec, and the retransmit manager
    pushes with the same function as the handlers; the connection manager and the
    upgrader have the configured settings; the initial state has an empty registry and
    no task, and is reachable for the retransmit manager. *)
Theorem build_assembles (cfg : Settings) (a : Application) :
  (∀ hs, group hs ≡ₚ hs) → build cfg tt = Done (inr a) tt →
  ∃ ty codec timeout expiration topic ms mcfg ccfg,
    s_codec cfg = inr ty ∧ newCodec ty = inr codec ∧ s_handler cfg = inr (timeout, expiration) ∧
    s_frontend cfg = inr (topic, ms) ∧ s_manager cfg = inr mcfg ∧ s_compression cfg = inr ccfg ∧
    a_handler a = app_handler timeout expiration codec topic (int64 (ms * Millisecond)) ∧
    taskFunc (a_retransmit a) = DefaultPushFunc codec ∧
    ConnManager.cfg (a_connManager a) = mcfg ∧ compressionConfig (a_upgrader a) = ccfg ∧
    ∀ e, Reachable (initial_state a e) ∧ sm_view (tasks (a_retransmit a)) = ∅ ∧
      cm_rep (rest (initial_state a e)) ∅.
Proof.
  intros Hg. unfold build.
  intros (lg & _ & Hb)%or_err_inv. apply or_err_inv in Hb as (rdb & _ & Hb).
  apply or_err_inv in Hb as (kafka & _ & Hb). apply or_err_inv in Hb as (consumers & _ & Hb).
  apply or_err_inv in Hb as (validate & _ & Hb). apply or_err_inv in Hb as (ty & Hty & Hb).
  apply or_err_inv in Hb as (codec & Hcodec & Hb). apply or_err_inv in Hb as (rt & Hrt & Hb).
  apply bind_done_inv in Hb as (front & [] & Hfront & Hb).
  apply or_err_inv in Hb as (up & Hup & Hb). apply or_err_inv in Hb as (lc & Hlc & Hb).
  apply or_err_inv in Hb as (cmgr & Hcmgr & Hb). injection Hb as <-.
  unfold newRetransmitManager in Hrt. destruct (s_retransmit cfg) as [|[iv mx]]; [done|].
  injection Hrt as <-.
  unfold newFrontendMsgHandler in Hfront. destruct (s_frontend cfg) as [|[topic ms]]; [done|].
  injection Hfront as <-.
  unfold newWsUpgrader in Hup. destruct (s_compression cfg) as [|ccfg]; [done|]. injection Hup as <-.
  unfold newConnLcHandler in Hlc. destruct (s_handler cfg) as [|[timeout expiration]]; [done|].
  injection Hlc as <-.
  unfold newConnManager in Hcmgr. destruct (s_manager cfg) as [|mcfg]; [done|]. injection Hcmgr as <-.
  exists ty, codec, timeout, expiration, topic, ms, mcfg, ccfg.
  assert (NewConnManager (M := M) [ConnManagerWithConfig mcfg]
          = MkConnManager mcfg (sm_new nat) 0 0) as Hm
    by (unfold NewConnManager; by rewrite option_apply_spec).
  split_and!; try done; cbn [a_handler a_retransmit a_connManager a_upgrader compressionConfig].
  - unfold app_handler, NewLcHandler, newBackendMsgHandler. f_equal.
    apply table_permutation; [apply Hg|]. eapply NoDup_Permutation_proper; [by rewrite Hg|].
    by apply (bool_decide_unpack _); vm_compute.
  - by rewrite Hm.
  - by destruct ccfg.
  - intros e. split_and!.
    + exists (int64 (iv * Millisecond)), (int32 mx), (Some (DefaultPushFunc codec)), 0. eexists.
      split; [by apply wrap_range|]. apply rtc_refl.
    + apply sm_view_new.
    + cbn [rest initial_state a_connManager]. rewrite Hm. apply rep_init, sm_view_new.
Qed.
End BuildFacts.

(** C35. The configuration is complete or there is no program: a file that cannot be read
    ends [loadConfig] with an error that names it, in the order base, redis,
    kafka, and makes main panic before anything is built; otherwise viper holds the
    three files in that order, and the container gets the modules. *)
Theorem loadConfig_files {V : Type} `{ViperSpec V} (v : V) :
  match viper_file "base", viper_file "redis", viper_file "kafka" with
  | None, None, None =>
      ∃ v', loadConfig v = Done None v' ∧ viper_files v' = ["base"; "redis"; "kafka"] ∧
        main v = Done modules v'
  | base, redis, kafka =>
      ∃ err v', loadConfig v = Done (Some err) v' ∧ main v = Panicked v' ∧
        err = match base, redis, kafka with
              | Some e, _, _ => errorf_pre "failed to read base config: " e
              | None, Some e, _ => errorf_pre "failed to merge redis config: " e
              | None, None, Some e => errorf_pre "failed to merge kafka config: " e
              | _, _, _ => err
              end
  end.
Proof.
  unfold main, loadConfig, merge_configs, bind, modify, state, ret, panic.
  set (v0 := viper_SetConfigName "base" _).
  destruct (viper_name_view "base" (viper_SetConfigType "yaml" (viper_AddConfigPath "config" v)))
    as [Hn0 _]. fold v0 in Hn0.
  destruct (viper_read_view v0) as [Hr Hf]. rewrite Hn0 in Hr, Hf.
  destruct (viper_ReadInConfig v0) as [r0 v1]. cbn [fst snd] in Hr, Hf. subst r0.
  destruct (viper_file "base") as [e0|]; [by eexists _, _|]. specialize (Hf eq_refl).
  destruct (viper_name_view "redis" v1) as [Hn1 Hf1]. rewrite Hf in Hf1.
  set (v1' := viper_SetConfigName "redis" v1) in *.
  destruct (viper_merge_view v1') as [Hr1 Hm1]. rewrite Hn1, Hf1 in *.
  destruct (viper_MergeInConfig v1') as [r1 v2]. cbn [fst snd] in Hr1, Hm1. subst r1.
  destruct (viper_file "redis") as [e1|]; [by eexists _, _|]. specialize (Hm1 eq_refl).
  destruct (viper_name_view "kafka" v2) as [Hn2 Hf2]. rewrite Hm1 in Hf2.
  set (v2' := viper_SetConfigName "kafka" v2) in *.
  destruct (viper_merge_view v2') as [Hr2 Hm2]. rewrite Hn2, Hf2 in *.
  destruct (viper_MergeInConfig v2') as [r2 v3]. cbn [fst snd] in Hr2, Hm2. subst r2.
  destruct (viper_file "kafka") as [e2|]; [by eexists _, _|]. specialize (Hm2 eq_refl).
  by exists v3.
Qed.

(** ** Witnesses *)

(** A viper whose files are all there but one. *)
Definition sim_viper (missing : string) : Viper (string * list string) := {|
  viper_AddConfigPath _ v := v;
  viper_SetConfigType _ v := v;
  viper_SetConfigName n v := (n, v.2);
  viper_ReadInConfig v :=
    if String.eqb v.1 missing then (Some sim_refused, v) else (None, (v.1, [v.1]));
  viper_MergeInConfig v :=
    if String.eqb v.1 missing then (Some sim_refused, v) else (None, (v.1, v.2 ++ [v.1]));
|}.

Definition sim_viper_spec (missing : string) : @ViperSpec _ (sim_viper missing).
Proof.
  refine (@Build_ViperSpec _ (sim_viper missing) fst snd
    (λ n, if String.eqb n missing then Some sim_refused else None) _ _ _ _ _);
    try done; intros [n fs]; cbn; by destruct (String.eqb n missing).
Defined.

Example loadConfig_files_witness :
  ∃ err v', @loadConfig _ (sim_viper "kafka") ("", []) = Done (Some err) v' ∧
    err = errorf_pre "failed to merge kafka config: " sim_refused.
Proof.
  destruct (@loadConfig_files _ (sim_viper "kafka") (sim_viper_spec "kafka") ("", []))
    as (err & v' & H1 & _ & H2).
  exists err, v'. by split.
Defined.

#[local] Existing Instance sim_multierr.
#[local] Existing Instance sim_multierr_spec.
#[local] Instance sim_opt : OptApply := sim_option_apply.
#[local] Instance sim_opt_spec : @OptApplySpec sim_opt := sim_option_apply_spec.
#[local] Existing Instance sim_listener.
#[local] Existing Instance sim_consumers.

#[local] Instance sim_clients : Clients Sim := {
  logger_Sync e := (None, e);
  redis_Ping e := (if sim_redis_down e then Some sim_refused else None, e);
  redis_Close e := (None, e);
  writer_Close e := (None, e);
}.

#[local] Instance sim_fx {St : Type} : Fx St := {
  fx_Start := start_hooks;
  fx_Stop hs := stop_hooks (reverse hs) ;;; ret None;
}.

#[local] Instance sim_fx_spec {St : Type} : FxSpec St.
Proof.
  split; [done|]. intros hs s. exists (S (length hs)). split; [lia|].
  rewrite take_ge by (rewrite length_reverse; lia). cbn. unfold bind.
  by destruct (stop_hooks (reverse hs) s).
Qed.

Definition sim_settings : Settings :=
  MkSettings (inr "") (inr ("192.168.3.3:6379", "<passwd>")) (inr kafka_yaml)
    (inr ("hermet-access", "-----BEGIN PUBLIC KEY-----")) (inr "json") (inr (0, 0)%Z) (inr ("", 0%Z))
    (inr (10 * Second, 10 * Second)%Z)
    (inr (MkConnConfig (15 * Second) (10 * Second) (1 * Second) (5 * Second) 3 256 256 (1 * Second) 0))
    (inr ("event.message.downstream", "synp-gateway-downstream", 6%Z))
    (inr sim_compression).

Definition sim_build : outcome unit (error + Application) :=
  build (L := list nat) (M := sim_map) (E := Sim) (Lg := string) (Rdb := string * string)
    (inr "production") (inr "development") pair Some (λ _ _, @inl error unit (EText "no scram"))
    (λ _ _, inr (λ t, ret (if String.eqb t "t42" then inr (7, 42)%N else inl sim_refused)))
    reverse sim_settings tt.

(** With the repository's configuration: JSON, the default intervals, no rate limit,
    and the development logger, since there is no section [project]. *)
Example build_assembles_witness :
  ∃ a, sim_build = Done (inr a) tt ∧ a_logger a = "development" ∧ Name (a_codec a) = "json" ∧
    a_handler a = app_handler (10 * Second) (10 * Second) NewJSONCodec "" 0 ∧
    retryInterval (a_retransmit a) = (8 * Second)%Z ∧ maxRetryCnt (a_retransmit a) = 3%Z ∧
    RateLimit (ConnManager.cfg (a_connManager a)) = 0%Z ∧ Reachable (initial_state a sim0).
Proof.
  unfold sim_build. destruct (build _ _ _ _ _ _ _ _ tt) as [[err|a] []|?|?|?] eqn:Hb;
    try (apply (f_equal (λ o, match result o with Some (inr _) => true | _ => false end)) in Hb;
         vm_compute in Hb; discriminate Hb).
  exists a. split; [reflexivity|].
  destruct (build_assembles (L := list nat) _ _ _ _ _ _ _ sim_settings a
    (λ hs, reverse_Permutation hs) Hb)
    as (ty & codec & timeout & expiration & topic & ms & mcfg & ccfg & [= <-] & [= <-] & [= <- <-] &
        [= <- <-] & [= <-] & _ & Hh & _ & Hc & _ & Hr).
  pose proof (f_equal (λ o, match result o with
    | Some (inr a) => (a_logger a, Name (a_codec a), retryInterval (a_retransmit a),
                       maxRetryCnt (a_retransmit a))
    | _ => ("", "", 0%Z, 0%Z) end) Hb) as Hv. vm_compute in Hv. injection Hv as Hv1 Hv2 Hv3 Hv4.
  split; [symmetry; exact Hv1|]. split; [symmetry; exact Hv2|]. split; [exact Hh|].
  split; [symmetry; exact Hv3|]. split; [symmetry; exact Hv4|]. split; [by rewrite Hc|].
  exact (proj1 (Hr sim0)).
Defined.

Example kafka_consumers_started_witness :
  ∃ cs, Gateway.Start (H := kafka_factory (NewKafkaConsumerFactory (λ t g, t +:+ "@" +:+ g)))
      (Gateway.NewConsumer "up" "g" 2) ([], tt)
    = Done (None, [0; 1]) (cs, tt) ∧ cs.*1 = ["up@g"; "up@g"].
Proof.
  exists (replicate 2 ("up@g", Xmq.NewKafkaConsumer "up" "g")). split; [|reflexivity].
  exact (kafka_consumers_started (S := Consumers string * unit)
    (NewKafkaConsumerFactory (λ t g, t +:+ "@" +:+ g)) (Gateway.NewConsumer "up" "g" 2) ([], tt)).
Defined.

Definition sim_cs : gmap string Gateway.Consumer :=
  {[Gateway.EventPushMessage := Gateway.NewConsumer "event.message.downstream" "synp-gateway-downstream" 6]}.

Lemma initApp_called : c_initApp ∈ build_order.
Proof. by apply (bool_decide_unpack _); vm_compute. Qed.

Definition sim_server : Server (list nat) AppState := server_at (Z.to_nat 2000) [5] [].

Definition sim_start : outcome (Server (list nat) AppState) (option error) :=
  fx_Start (hooks (L := list nat) (M := sim_map) (E := Sim) sim_cs build_order) sim_server.

Example application_starts_witness :
  ∃ s' chs, sim_start = Done None s' ∧
    goroutines s' = [AcceptLoop; Consumes Gateway.EventPushMessage chs] ∧ length chs = 6.
Proof.
  unfold sim_start. destruct (fx_Start _ _) as [err s'|?|?|?] eqn:Hs;
    try (apply (f_equal (λ o, match result o with Some _ => true | _ => false end)) in Hs;
         vm_compute in Hs; discriminate Hs).
  destruct err as [e|];
    [apply (f_equal (λ o, match result o with Some None => true | _ => false end)) in Hs;
     vm_compute in Hs; discriminate Hs|].
  destruct (application_starts (E := Sim) sim_cs build_order "event.message.downstream"
    "synp-gateway-downstream" 6 sim_server s' build_order_calls initApp_called eq_refl Hs)
    as (_ & l1 & chs & _ & Hg & Hn & _).
  exists s', chs. split; [reflexivity|]. split; [exact Hg|lia].
Defined.

Example stop_reaches_only_server_witness :
  body (final (fx_Stop (hooks (L := list nat) (M := sim_map) (E := Sim) sim_cs build_order) sim_server))
  = app_state0.
Proof.
  destruct (stop_reaches_only_server (E := Sim) sim_cs build_order sim_server build_order_calls
    initApp_called eq_refl) as (_ & _ & H & _).
  exact H.
Defined.
